(* ===== verification/_CoqProject ===== *)
-Q . S2P
Prelude.v
NVMTypes.v
Translation.v
Config.v
Params.v
SimInterface.v
Heap.v
EventQueue.v
Frame.v
SubArray.v
BitCount.v
SubArrayTiming.v
SubArrayProtocol.v
FlipNWrite.v
Endurance.v
Objects.v
Tree.v
Timed.v
DDR3Bank.v
SubArrayChild.v
DDR3BankProtocol.v
DDR3BankTiming.v
DDR3BankChildren.v
BankChild.v
StandardRank.v
StandardRankTiming.v
StandardRankAccess.v
RankOfBanks.v
TimedSubArray.v
TimedBank.v
MemoryController.v
Schedulers.v
FRFCFSControl.v
FCFSControl.v
WQFControl.v
PerfectControl.v
CommandQueues.v
ControllerFrame.v
Spy.v
ControllerBench.v
Wakeups.v
ControllerRuns.v
TimedController.v
OneCommand.v
RefreshHandling.v
CacheBank.v
CacheLRU.v
RankChild.v
Interconnect.v
OffChipBus.v
OnChipBus.v
BusTiming.v
TimedRank.v
TimedBus.v
MemoryTree.v
Channel.v
TagPolicy.v
Traces.v
Prefetchers.v
NVMainTop.v
TopLevel.v
Rounding.v
GlobalEventQueue.v
Migrator.v
DRCDecoder.v
TagGenerator.v
LOCache.v
LOCacheRuns.v
