(* ===== verification/Prelude.v ===== *)
(** * NVMain in Rocq

    NVMain (src/NVmain) simulates main memories, DRAM and non-volatile ones, cycle
    by cycle.  A request enters at the top level, gets its address translated,
    waits in a memory controller, and is carried out as a sequence of commands
    (ACTIVATE, READ, WRITE, PRECHARGE, REFRESH, power commands) that run down a tree:

      NVMain - MemoryController - Interconnect - Rank - Bank - SubArray

    Each part keeps the earliest cycles of the next commands; a command is asked
    about with [IsIssuable] and sent with [IssueCommand], and what ends later is an
    event in the event queue, whose callbacks climb back up with
    [RequestComplete].  This library is a shallow embedding of that program:
    executable definitions with the names of the source, in a state and error monad,
    and theorems about them.

    ** How the program is represented

    - Machine integers are [Z] with the wrap-around of their width written out
      ([u64], [s32], ... below); doubles are the [spec_float]s of the Standard
      Library with binary64 rounding.
    - A computation is [ST S A]: from a state to a result and a state, or to one of
      the ways the program ends badly ([abort]: a failed [assert], [exit], a null
      or freed pointer, an access out of bounds, undefined arithmetic). [OutOfFuel]
      is not such a way: it is what remains of a loop whose fuel was too small,
      and the termination theorems are about its absence.
    - Requests, events and simulator objects are shared by pointer, so they live in
      a heap ([Heap]): [Sim O] is the heap, the event queue and the state [O] of the
      component under study.  A parent is [Node B C]: its own state and a list of
      children ([Tree]); what it asks of a child is the class [ChildOps] with the
      laws [ChildLaws], which the child's file proves of its implementation.  The
      same is done where the program has virtual methods: event recipients, data
      encoders, endurance models and distributions, prefetchers, decoders, the
      memory below a controller, the queues below the global event queue.

    ** The files

    Values and configuration:
    - [NVMTypes]: include/NVMAddress, NVMDataBlock, NVMainRequest;
    - [Translation]: src/TranslationMethod.cpp and AddressTranslator.cpp;
      [Migrator], [DRCDecoder]: the translators of Decoders/;
    - [TagGenerator]: src/TagGenerator.cpp;
    - [Config], [Params]: src/Config.cpp and Params.cpp;
    - [SimInterface]: the stored data of src/SimInterface.cpp;
    - [Traces]: traceReader and traceWriter, the NVMain format.

    Time:
    - [Heap], [EventQueue], [Frame]: the heap, src/EventQueue.cpp and what
      computations over them preserve;
    - [Rounding], [GlobalEventQueue]: [GlobalEventQueue] of the same file, several
      clocks related by ratios in double arithmetic.

    The tree of the memory:
    - [Objects], [Tree]: src/NVMObject.cpp with its hooks, and the composition of
      parents and children;
    - [SubArray], [SubArrayTiming], [SubArrayProtocol], [SubArrayChild]:
      src/SubArray.cpp; [BitCount] its bit counters, [FlipNWrite] and [Endurance]
      the encoder and the endurance models it calls;
    - [DDR3Bank], [DDR3BankProtocol], [DDR3BankTiming], [DDR3BankChildren],
      [BankChild]: Banks/DDR3Bank/DDR3Bank.cpp and src/Bank.cpp;
    - [StandardRank], [StandardRankTiming], [StandardRankAccess], [RankOfBanks],
      [RankChild]: Ranks/StandardRank/StandardRank.cpp;
    - [Interconnect], [OffChipBus], [OnChipBus], [BusTiming]: the two buses;
    - [MemoryController], [CommandQueues], [ControllerFrame], [Wakeups],
      [OneCommand], [RefreshHandling]: src/MemoryController.cpp, and [Schedulers],
      [FRFCFSControl], [FCFSControl], [WQFControl], [PerfectControl] the
      policies of MemControl on top of it ([ControllerBench] has the instances the
      examples run); [ControllerRuns] says what any operation of any policy keeps,
      [Spy] writes down what a memory is sent;
    - [LOCache], [LOCacheRuns]: MemControl/LO-Cache, a policy with a DRAM cache in
      front of a main memory, which is an argument;
    - [NVMainTop], [TopLevel]: NVM/nvmain.cpp; [TagPolicy] its replacement policy,
      [Prefetchers] what it may prefetch with.

    The tree as a whole:
    - [Timed] is the interface of timing: what a part demands of later commands,
      and that it refuses them until then; [TimedSubArray], [TimedBank],
      [TimedRank], [TimedBus] are its instances, each for the part with everything
      below it, and [TimedController] uses it for a controller;
    - [MemoryTree] finds a subarray below a bus, and [Channel] puts the tree
      together.

    Beside the tree: [CacheBank], [CacheLRU]: Utils/Caches/CacheBank.cpp.

    ** What is proved

    - Timing.  Every part delays commands; that the delays are enough is proved
      from the state up: whatever happens between two commands (cancellations,
      pauses, completions, time passing), the later one is only accepted when the
      time the parameters ask for has passed since the earlier one.  Stated for the
      subarray ([timing_safety]), for the bank ([bank_timing],
      [bank_subarray_timing]), for the rank ([rank_timing], [activation_window]:
      at most [RAW] activations in any [tRAW] cycles), for the ranks of a bus
      ([bus_timing]) and for a whole channel, from the controller to the subarrays,
      in any run of the controller ([channel_timing]).  The times of a subarray are
      kept without write pausing and with WRITE_THROUGH writes; with pausing, or
      when writes are deferred, a paused write gives its times back, and then the
      channel promises the times of the bank, the rank and the bus only.  The
      controller sends at most one command per cycle ([one_command_per_cycle]).
    - Protocol.  A command [IsIssuable] accepts is carried out
      ([IsIssuable_trusted]); row buffers and power states follow their state
      machines ([IssueCommand_protocol], [bank_refines_spec], [bank_open_iff]);
      cycles in each state add up ([bank_cycles_accounted]).
    - Routing.  A request goes to the controller of its channel, or is answered by
      a prefetch ([issue_routes]); with the tag cache it goes to the line of its
      block, and every lookup succeeds and keeps the tag cache in order
      ([tag_cache_routes]).
    - Composition.  What happens at a parent is, for each child, a run of that child
      ([rank_runs_banks] and its like): the guarantees of a child hold below its
      parent.
    - Events.  The event queue delivers events in order of time, priority and
      insertion and nothing else ([Loop_refines_advance],
      [InsertCallback_fifo]); the global queue reaches the time it is asked for
      with no due event left behind ([Cycle_reaches]).
    - Termination and liveness.  Recursions through hooks, completion, refresh and
      the top level end ([RequestComplete_to_owner], [NextIssuable_terminates],
      [bank_command_terminates], [issue_depth]); a controller with work wakes up
      ([Cycle_reschedules]).
    - Data.  Translation is a bijection ([translate_reverse_translate],
      [reverse_translate_translate]); configurations survive printing and
      parsing, unless the debug log cannot be opened, and traces up to the width
      of what their reader reads; the parameters read are those given, the defaults otherwise, unless a time does
      not fit ([SetParams_correct]); Flip-N-Write decodes to what was written;
      endurance counters wear the cells of the write, in the order of the code and
      with the lives that are drawn; the bit tricks count bits; the tag policy is
      least recently used ([lru_refines]); a bank of a cache keeps its sets in the
      order of use except that a new line takes the first free place
      ([cache_refines]); the latency optimised DRAM cache is a direct mapped one
      ([lo_direct_mapped]); a decoder
      that migrates pages keeps them apart ([migration_permutes]) and its
      checkpoints are read back ([checkpoint_roundtrip]); the addresses of a DRAM
      cache are found again ([drc_roundtrip]); tags identify names
      ([tags_identify]).

    ** Fuel

    Loops of the source that are not over a list run on fuel. Where a bound can be
    read off the state, the definition takes it from there: the loop over the
    queues of a controller takes as many turns as there are queues,
    [MC.NextIssuable] one turn per counted refresh (proved enough in
    [RefreshHandling]), and the search for a line of the tag cache one turn per
    address it can look at, so that its failure is a loop without an end (it
    finds one at its first turn, [free_rounds_ok]). The others take it as an argument, and the theorems hold
    for every fuel beyond a bound that they name: the loops of the event queue
    ([Loop_refines_advance]) and of the global queue ([Cycle_reaches]), the depth
    of issuing at the top level ([issue_depth]: two), the recursion through hooks
    ([RequestComplete_to_owner]: the height of the tree).

    ** Not modelled

    - Statistics, printing, visualisation and debugging output: registration of
      counters by name and reports; counters that decide nothing are kept only
      where a theorem is about them.
    - Energy estimates that are only reported, beyond those the parts accumulate.
    - The banks PCMBank and CachedDDR3Bank; of the DRAM caches of MemControl all but
      LO-Cache, and its checkpoints, which are images of memory with pointers in
      them; the access predictors and CoinMigrator; the Ruby trace reader and the
      Verilog and DRAMPower writers.
    - The normal endurance distribution (it draws from [rand]), factories (tables
      from names to constructors), and the glue to gem5, which is vendored in
      src/gem5 with cacti.
    - The drivers (traceSim, the gem5 objects): what they do is a sequence of the
      operations modelled here.

    This file is the prelude: failure values, the monads and their notation,
    machine integers, doubles, and lemmas on lists and options. *)

From stdpp Require Export base tactics list gmap strings option numbers sorting.
From Stdlib Require Export ZArith Lia Ascii.
From Stdlib Require Export SpecFloat.

#[global] Open Scope Z_scope.

(** ** Failure values

    What the C++ program does on a path that has no defined result: a failed
    [assert], a call of [exit], a dereference of a null or freed pointer, an
    access outside an allocation, a conversion of a double that does not fit, a
    loop whose fuel ran out. *)

Inductive abort : Type :=
  | AssertFail
  | ExitCall
  | NullDeref
  | UseAfterFree
  | OutOfBounds
  | DivideByZero
  | BadShift
  | BadConversion
  | OutOfFuel.

#[export] Instance abort_eq_dec : EqDecision abort.
Proof. solve_decision. Defined.

Inductive res (A : Type) : Type :=
  | Ok (a : A)
  | Err (e : abort).
Arguments Ok {A} a.
Arguments Err {A} e.

#[export] Instance res_ret : MRet res := @Ok.
#[export] Instance res_bind : MBind res := λ A B f m,
  match m with Ok a => f a | Err e => Err e end.

Lemma res_bind_inv {A B} (m : res A) (f : A → res B) b :
  (m ≫= f) = Ok b → ∃ a, m = Ok a ∧ f a = Ok b.
Proof. destruct m as [a|]; [by exists a|done]. Qed.

Definition cassert (b : bool) : res unit := if b then Ok () else Err AssertFail.

Definition deref {A} (e : abort) (o : option A) : res A :=
  match o with Some a => Ok a | None => Err e end.

(** A fallible computation that does not run out of fuel. *)
Definition fueled {A} (m : res A) : Prop := m ≠ Err OutOfFuel.

Create HintDb ends discriminated.
#[export] Hint Constants Opaque : ends.

Lemma fueled_ok {A} (a : A) : fueled (Ok a).
Proof. done. Qed.
Lemma fueled_bind {A B} (m : res A) (f : A → res B) : fueled m → (∀ a, fueled (f a)) → fueled (m ≫= f).
Proof. intros Hm Hf. destruct m as [a|e]; [apply Hf|]. intros [= ->]. by apply Hm. Qed.
Lemma cassert_true b u : cassert b = Ok u → b = true.
Proof. by destruct b. Qed.
Lemma fueled_cassert b : fueled (cassert b).
Proof. by destruct b. Qed.
Lemma fueled_deref {A} e (o : option A) : e ≠ OutOfFuel → fueled (deref e o).
Proof. intros He. destruct o; [done|]. by intros [= ->]. Qed.
Lemma fueled_err {A} e : e ≠ OutOfFuel → fueled (Err (A := A) e).
Proof. by intros He [= ->]. Qed.
#[export] Hint Resolve fueled_ok fueled_cassert : ends.
#[export] Hint Extern 1 (fueled (deref _ _)) => apply fueled_deref; discriminate : ends.
#[export] Hint Extern 1 (fueled (Err _)) => apply fueled_err; discriminate : ends.

(** The first part of a fallible computation that ended well. *)
Ltac rnext H := let r := fresh "v" in let E := fresh "E" in apply res_bind_inv in H as (r & E & H).

(** ** State and failure: the monad of the methods that change an object *)

Definition ST (S A : Type) : Type := S → res (A * S).

#[export] Instance st_ret S : MRet (ST S) := λ A a s, Ok (a, s).
#[export] Instance st_bind S : MBind (ST S) := λ A B f m s,
  match m s with Ok (a, s') => f a s' | Err e => Err e end.

Definition get {S} : ST S S := λ s, Ok (s, s).
Definition put {S} (s : S) : ST S unit := λ _, Ok ((), s).
Definition gets {S A} (f : S → A) : ST S A := λ s, Ok (f s, s).
Definition modify {S} (f : S → S) : ST S unit := λ s, Ok ((), f s).
Definition lift {S A} (m : res A) : ST S A := λ s,
  match m with Ok a => Ok (a, s) | Err e => Err e end.
Definition fail {S A} (e : abort) : ST S A := λ _, Err e.

(** ** Functional record update

    [upd f g r] is [r] with field [f] mapped by [g]; the setter of a field is
    found from the eta expansion of the record type ([Settable]). *)

Class Settable (R : Type) := mkSettable { eta_of : R → R }.

Definition rec_pure {R A} (a : A) : R → A := λ _, a.
Definition rec_ap {R A B} (m : R → A → B) (f : R → A) : R → B := λ r, m r (f r).

Notation "'fields!' mk < a ; .. ; b >" :=
  (mkSettable _ (rec_ap .. (rec_ap (rec_pure mk) a) .. b)) (at level 0, mk at level 10, a, b at level 9).

Class Setter {R T : Type} (f : R → T) := mkSetter { upd : (T → T) → R → R }.

Ltac build_setter :=
  lazymatch goal with
  | |- @Setter ?R ?T ?f =>
      let i := constr:(_ : Settable R) in
      let e := eval cbv delta [eta_of] in (@eta_of R i) in
      let e := eval hnf in e in
      let e := eval cbv beta delta [rec_ap rec_pure] in (λ r : R, e r) in
      let p := eval pattern f in e in
      lazymatch p with
      | ?h _ =>
          let t := eval cbv beta in (λ (u : T → T) (r : R), h (λ x, u (f x)) r) in
          exact (@mkSetter R T f t)
      end
  end.

#[export] Hint Extern 1 (Setter _) => build_setter : typeclass_instances.

Arguments upd {R T} f {_} u r : simpl never.

Notation "r <| f := v |>" := (upd f (λ _, v) r)
  (at level 1, f at next level, left associativity, format "r  <| f  :=  v |>").
Notation "r <| f ::= g |>" := (upd f g r)
  (at level 1, f at next level, left associativity, format "r  <| f  ::=  g |>").


(** One step of reading a field of an updated record, and its closure. The
    equation is proved for a variable record first: comparing two chains of
    updates directly is exponential. *)
Ltac field_eq g R T f i k :=
  first
    [ constr_eq g f;
      let H := fresh "Hfield" in
      assert (∀ (u : T → T) (r : R), g (@upd R T f i u r) = u (g r)) as H by (intros; reflexivity);
      k H; clear H
    | let H := fresh "Hfield" in
      assert (∀ (u : T → T) (r : R), g (@upd R T f i u r) = g r) as H by (intros; reflexivity);
      k H; clear H ].
Ltac field_step :=
  match goal with
  | |- context [?g (@upd ?R ?T ?f ?i ?u ?r)] => field_eq g R T f i ltac:(fun H => rewrite (H u r))
  end.
Ltac field_step_in H :=
  match type of H with
  | context [?g (@upd ?R ?T ?f ?i ?u ?r)] =>
      field_eq g R T f i ltac:(fun H' => rewrite (H' u r) in H)
  end.
Ltac fields := repeat (field_step; cbv beta).
Ltac fields_in H := repeat (field_step_in H; cbv beta in H).

(** ** Machine integers

    Unsigned 64-bit arithmetic ([uint64_t], [ncycle_t], [ncounter_t]) wraps. *)

Definition wrap (w z : Z) : Z := z mod 2 ^ w.
Definition u64_max : Z := 18446744073709551615.
Definition u64 (z : Z) : Z := z mod 18446744073709551616.
Definition u32 (z : Z) : Z := z mod 4294967296.
Definition u8 (z : Z) : Z := z mod 256.

Definition is_u64 (z : Z) : Prop := 0 ≤ z < 18446744073709551616.
Definition is_u32 (z : Z) : Prop := 0 ≤ z < 4294967296.
Definition is_u8 (z : Z) : Prop := 0 ≤ z < 256.

(** The value of an [int] (32 bits, two's complement) from its bits. *)
Definition s32 (z : Z) : Z :=
  let m := z mod 4294967296 in if m <? 2147483648 then m else m - 4294967296.
Definition s64 (z : Z) : Z :=
  let m := z mod 18446744073709551616 in
  if m <? 9223372036854775808 then m else m - 18446744073709551616.

Declare Scope nvm_scope.
Delimit Scope nvm_scope with nvm.
#[global] Open Scope nvm_scope.

Notation "a ⊕ b" := (u64 (a + b)) (at level 50, left associativity) : nvm_scope.
Notation "a ⊖ b" := (u64 (a - b)) (at level 50, left associativity) : nvm_scope.
Notation "a ⊗ b" := (u64 (a * b)) (at level 40, left associativity) : nvm_scope.

Lemma u64_small z : is_u64 z → u64 z = z.
Proof. apply Z.mod_small. Qed.

Lemma u64_range z : is_u64 (u64 z).
Proof. apply Z.mod_pos_bound. lia. Qed.

Lemma u32_small z : is_u32 z → u32 z = z.
Proof. apply Z.mod_small. Qed.

Lemma u32_range z : is_u32 (u32 z).
Proof. apply Z.mod_pos_bound. lia. Qed.

Lemma u64_u64 z : u64 (u64 z) = u64 z.
Proof. apply u64_small, u64_range. Qed.

Lemma u64_add_l a b : u64 (u64 a + b) = u64 (a + b).
Proof. unfold u64. by rewrite Zplus_mod_idemp_l. Qed.

Lemma u64_add_m a b c : u64 (a + (u64 b + c)) = u64 (a + (b + c)).
Proof. rewrite (Z.add_comm a), <- Z.add_assoc, u64_add_l. f_equal. lia. Qed.
Lemma u64_mul_r a b : u64 (a * u64 b) = u64 (a * b).
Proof. unfold u64. by rewrite Zmult_mod_idemp_r. Qed.
Lemma u64_mul_l a b : u64 (u64 a * b) = u64 (a * b).
Proof. unfold u64. by rewrite Zmult_mod_idemp_l. Qed.

(** Drop the wrap of every sum whose operands are known to be small. *)
Ltac unwrap64 :=
  repeat match goal with
  | |- context [u64 ?z] => rewrite (u64_small z) by (unfold is_u64 in *; lia)
  end.
Ltac unwrap64_in H :=
  repeat match type of H with
  | context [u64 ?z] => rewrite (u64_small z) in H by (unfold is_u64 in *; lia)
  end.

(** [NVMObject::MAX] and [NVMObject::MIN]. *)
Definition MAX (a b : Z) : Z := if a >? b then a else b.
Definition MIN (a b : Z) : Z := if a <? b then a else b.

Lemma MAX_max a b : MAX a b = Z.max a b.
Proof. unfold MAX. destruct (Z.gtb_spec a b); lia. Qed.

Lemma MIN_min a b : MIN a b = Z.min a b.
Proof. unfold MIN. destruct (Z.ltb_spec a b); lia. Qed.

Lemma MAX_l a b : a ≤ MAX a b.
Proof. rewrite MAX_max. lia. Qed.

Lemma MAX_r a b : b ≤ MAX a b.
Proof. rewrite MAX_max. lia. Qed.

Lemma gtb_true a b : b < a → (a >? b) = true.
Proof. intros. by apply Z.gtb_lt. Qed.
Lemma gtb_false a b : a ≤ b → (a >? b) = false.
Proof. intros. rewrite Z.gtb_ltb. by apply Z.ltb_ge. Qed.

Create HintDb nvm.
#[export] Hint Resolve u64_range u32_range MAX_l MAX_r : nvm.

(** Shifts of a [uint64_t]: a shift count outside [0, 64) is undefined. *)
Definition shl64 (x n : Z) : res Z :=
  if (0 <=? n) && (n <? 64) then Ok (u64 (Z.shiftl x n)) else Err BadShift.
Definition shr64 (x n : Z) : res Z :=
  if (0 <=? n) && (n <? 64) then Ok (Z.shiftr x n) else Err BadShift.

Lemma fueled_shl64 x n : fueled (shl64 x n).
Proof. unfold shl64. by destruct (_ && _). Qed.
Lemma fueled_shr64 x n : fueled (shr64 x n).
Proof. unfold shr64. by destruct (_ && _). Qed.
#[export] Hint Resolve fueled_shl64 fueled_shr64 : ends.

Lemma shl64_ok x n : 0 ≤ n < 64 → shl64 x n = Ok (u64 (x * 2 ^ n)).
Proof.
  intros Hn. unfold shl64.
  rewrite (proj2 (Z.leb_le 0 n)), (proj2 (Z.ltb_lt n 64)) by lia. cbn.
  by rewrite Z.shiftl_mul_pow2 by lia.
Qed.

Lemma shr64_ok x n : 0 ≤ n < 64 → shr64 x n = Ok (x / 2 ^ n).
Proof.
  intros Hn. unfold shr64.
  rewrite (proj2 (Z.leb_le 0 n)), (proj2 (Z.ltb_lt n 64)) by lia. cbn.
  by rewrite Z.shiftr_div_pow2 by lia.
Qed.

(** ** Strings

    The tokens [strtok] finds: maximal runs without a delimiter. *)

Fixpoint tokens_from (delim : Ascii.ascii → bool) (cur : string) (s : string) : list string :=
  match s with
  | EmptyString => if decide (cur = EmptyString) then [] else [cur]
  | String a s =>
      if delim a
      then (if decide (cur = EmptyString) then [] else [cur]) ++ tokens_from delim EmptyString s
      else tokens_from delim (cur +:+ String a EmptyString) s
  end.
Definition strtok (delim : Ascii.ascii → bool) (s : string) : list string :=
  tokens_from delim EmptyString s.

(** The characters before the first NUL: what [c_str] and [strcpy] see. *)
Fixpoint c_str (s : string) : string :=
  match s with
  | EmptyString => EmptyString
  | String a s => if Ascii.eqb a Ascii.zero then EmptyString else String a (c_str s)
  end.

(** Monadic left fold: a [for] loop over a list. *)
Fixpoint foldM {A B} (f : A → B → res A) (a : A) (l : list B) : res A :=
  match l with
  | [] => Ok a
  | b :: l => a' ← f a b; foldM f a' l
  end.

Lemma foldM_app {A B} (f : A → B → res A) a l1 l2 :
  foldM f a (l1 ++ l2) = (a' ← foldM f a l1; foldM f a' l2).
Proof.
  revert a. induction l1 as [|b l1 IH]; intros a; [done|].
  cbn. destruct (f a b) as [a'|e]; cbn; [apply IH | done].
Qed.

Lemma foldM_fueled {A B} (f : A → B → res A) l : (∀ a b, fueled (f a b)) → ∀ a, fueled (foldM f a l).
Proof. intros Hf. induction l as [|b l IH]; intros a; [done|]. cbn. by apply fueled_bind. Qed.

Ltac fueled_tac :=
  repeat first
    [ solve [eauto with ends nocore]
    | apply fueled_bind; [|intros ?]
    | apply foldM_fueled; intros ? ?
    | match goal with |- fueled (match ?x with _ => _ end) => destruct x end
    | done ].

(** A list is cut in one way around the first occurrence of an element. *)
Lemma split_unique {A} (e : A) l1 l2 a b :
  (e ∉ l1) → (e ∉ a) → l1 ++ e :: l2 = a ++ e :: b → a = l1 ∧ b = l2.
Proof.
  revert a. induction l1 as [|x l1 IH]; intros [|y a] Hl Ha E; cbn in E; injection E as ?; subst.
  - done.
  - destruct Ha. by left.
  - destruct Hl. by left.
  - destruct (IH a) as [-> ->]; [| |done|done]; intros ?; [destruct Hl | destruct Ha]; by right.
Qed.

(** Loops over consecutive numbers. *)

Lemma foldM_seqZ {A} (f : A → Z → res A) (I : Z → A → Prop) m n a :
  0 ≤ n → I m a →
  (∀ i a, m ≤ i < m + n → I i a → ∃ a', f a i = Ok a' ∧ I (i + 1) a') →
  ∃ a', foldM f a (seqZ m n) = Ok a' ∧ I (m + n) a'.
Proof.
  intros Hn. rewrite <- (Z2Nat.id n) by done. generalize (Z.to_nat n). clear n Hn. intros n.
  revert m a. induction n as [|n IH]; intros m a Ha Hstep.
  { exists a. by rewrite Z.add_0_r. }
  rewrite seqZ_cons by lia. cbn [foldM].
  destruct (Hstep m a ltac:(lia) Ha) as (a1 & -> & Ha1). cbn.
  replace (Z.pred (Z.of_nat (S n))) with (Z.of_nat n) by lia.
  destruct (IH (Z.succ m) a1 Ha1) as (a' & E & H).
  { intros i b Hi. apply Hstep. lia. }
  exists a'. split; [done|]. by replace (m + Z.of_nat (S n)) with (Z.succ m + Z.of_nat n) by lia.
Qed.

(** Run the loop of the goal with an invariant: the invariant holds at first,
    each pass keeps it, and the goal continues with a state that satisfies it. *)
Ltac loop I d Hd :=
  match goal with
  | |- context [foldM ?f ?a (seqZ ?m ?n)] =>
      let E := fresh "Eloop" in
      destruct (foldM_seqZ f I m n a) as (d & E & Hd); [| | |rewrite E; clear E]
  end.

(** ** Bit masks *)

Lemma bit_of x j : 0 ≤ j → Z.land (Z.shiftr x j) 1 = Z.b2z (Z.testbit x j).
Proof.
  intros Hj. rewrite Z.testbit_spec', Z.shiftr_div_pow2 by done. change 1 with (Z.ones 1).
  by rewrite Z.land_ones by lia.
Qed.


Definition has_flag (flags m : Z) : bool := negb (Z.land flags m =? 0).
Definition set_flag (flags m : Z) : Z := Z.lor flags m.
Definition clear_flag (flags m : Z) : Z := Z.ldiff flags m.

(** ** Floating point

    [double] is IEEE binary64 and [float] binary32, with the operations of
    [SpecFloat] (round to nearest, ties to even), so that energies and averages
    are the values the program computes, bit for bit. *)

Abbreviation double := spec_float (only parsing).

Definition dzero : double := S754_zero false.
Definition d_of_Z (z : Z) : double := binary_normalize 53 1024 z 0 false.
Definition dadd : double → double → double := SFadd 53 1024.
Definition dsub : double → double → double := SFsub 53 1024.
Definition dmul : double → double → double := SFmul 53 1024.
Definition ddiv : double → double → double := SFdiv 53 1024.
Definition dlt (a b : double) : bool := SFltb a b.

(** The [double] nearest to the quotient of two integers: decimal literals. *)
Definition dlit (num : Z) (den : positive) : double :=
  match num with
  | 0 => dzero
  | Zpos m => SFdiv 53 1024 (S754_finite false m 0) (S754_finite false den 0)
  | Zneg m => SFdiv 53 1024 (S754_finite true m 0) (S754_finite false den 0)
  end.

(** Truncation toward zero of a finite value. *)
Definition d_trunc (d : double) : Z :=
  match d with
  | S754_finite s m e =>
      let a := Z.shiftl (Zpos m) e in if s then - a else a
  | _ => 0
  end.

(** [std::ceil], as an integer. *)
Definition d_ceil (d : double) : Z :=
  match d with
  | S754_finite s m e =>
      if s then - Z.shiftl (Zpos m) e else - Z.shiftl (- Zpos m) e
  | _ => 0
  end.

(** [static_cast<uint64_t>] of a [double], and of its [std::ceil]: undefined
    when the integer does not fit. *)
Definition d_to_u64 (d : double) : res Z :=
  match d with
  | S754_zero _ => Ok 0
  | S754_finite _ _ _ => if (0 <=? d_trunc d) && (d_trunc d <? 2 ^ 64) then Ok (d_trunc d) else Err BadConversion
  | _ => Err BadConversion
  end.
Definition d_ceil_u64 (d : double) : res Z :=
  match d with
  | S754_zero _ => Ok 0
  | S754_finite _ _ _ => if (0 <=? d_ceil d) && (d_ceil d <? 2 ^ 64) then Ok (d_ceil d) else Err BadConversion
  | _ => Err BadConversion
  end.

(** [static_cast<float>] of a [double]; [float] operations. *)
Definition f_of_d (d : double) : spec_float :=
  match d with
  | S754_finite s m e => binary_normalize 24 128 (if s then Zneg m else Zpos m) e s
  | _ => d
  end.
Definition f_of_Z (z : Z) : spec_float := binary_normalize 24 128 z 0 false.
Definition fsub : spec_float → spec_float → spec_float := SFsub 24 128.
Definition fdiv : spec_float → spec_float → spec_float := SFdiv 24 128.

(** ** Tactics *)

(** Split the innermost [match] or [if] of the goal or of a hypothesis. *)
Ltac split_match :=
  match goal with
  | |- context [match ?x with _ => _ end] =>
      lazymatch x with context [match _ with _ => _ end] => fail | _ => destruct x eqn:? end
  end.
Ltac split_match_in H :=
  match type of H with
  | context [match ?x with _ => _ end] =>
      lazymatch x with context [match _ with _ => _ end] => fail | _ => destruct x eqn:? end
  end.

(** Boolean comparisons to propositions. *)
Ltac b2p :=
  repeat match goal with
  | H : _ && _ = true |- _ => apply andb_true_iff in H; destruct H
  | H : _ || _ = false |- _ => apply orb_false_iff in H; destruct H
  | H : negb _ = true |- _ => apply negb_true_iff in H
  | H : negb _ = false |- _ => apply negb_false_iff in H
  | H : (_ >? _) = true |- _ => rewrite Z.gtb_lt in H
  | H : (_ >? _) = false |- _ => rewrite Z.gtb_ltb in H
  | H : (_ >=? _) = true |- _ => rewrite Z.geb_le in H
  | H : (_ >=? _) = false |- _ => rewrite Z.geb_leb in H
  | H : (_ <? _) = true |- _ => rewrite Z.ltb_lt in H
  | H : (_ <? _) = false |- _ => rewrite Z.ltb_ge in H
  | H : (_ <=? _) = true |- _ => rewrite Z.leb_le in H
  | H : (_ <=? _) = false |- _ => rewrite Z.leb_gt in H
  | H : (_ =? _) = true |- _ => rewrite Z.eqb_eq in H
  | H : (_ =? _) = false |- _ => rewrite Z.eqb_neq in H
  | H : bool_decide _ = true |- _ => apply bool_decide_eq_true in H
  | H : bool_decide _ = false |- _ => apply bool_decide_eq_false in H
  end.

(** Run the binds of a computation that ended in [Ok]. *)
Ltac run_ok H :=
  repeat (match type of H with
  | Ok _ = Ok _ => injection H as H
  | Err _ = Ok _ => discriminate H
  | context [match ?x with _ => _ end] =>
      lazymatch x with context [match _ with _ => _ end] => fail | _ =>
        destruct x eqn:? end; try discriminate H
  end).

(** Decide a closed proposition by computation. *)
Ltac by_decide := refine (bool_decide_unpack _ _); vm_compute; exact I.

(** *** Running stateful computations

    One equation per primitive; [run] rewrites with them at the head of a
    computation applied to an explicit state. *)

Section RunEquations.
Context {S A B : Type}.
Implicit Types (f : A → ST S B) (s : S).

Lemma bind_eq (m : ST S A) f s :
  (m ≫= f) s = match m s with Ok (a, s') => f a s' | Err e => Err e end.
Proof. reflexivity. Qed.
Lemma bind_ok (m : ST S A) f s a s' : m s = Ok (a, s') → (m ≫= f) s = f a s'.
Proof. intros E. by rewrite bind_eq, E. Qed.
Lemma bind_err (m : ST S A) f s e : m s = Err e → (m ≫= f) s = Err e.
Proof. intros E. by rewrite bind_eq, E. Qed.
Lemma bind_ret a f s : (mret a ≫= f) s = f a s.
Proof. reflexivity. Qed.
Lemma bind_gets (g : S → A) f s : (gets g ≫= f) s = f (g s) s.
Proof. reflexivity. Qed.
Lemma bind_lift_ok a f s : (lift (Ok a) ≫= f) s = f a s.
Proof. reflexivity. Qed.
Lemma bind_lift_err e f s : (lift (Err e) ≫= f) s = Err e.
Proof. reflexivity. Qed.
Lemma bind_fail e f s : (fail e ≫= f) s = Err e.
Proof. reflexivity. Qed.
End RunEquations.

Lemma bind_assoc {S A B C} (m : ST S A) (f : A → ST S B) (g : B → ST S C) s :
  ((m ≫= f) ≫= g) s = (m ≫= λ a, f a ≫= g) s.
Proof. rewrite !bind_eq. by destruct (m s) as [[]|]. Qed.


Lemma bind_get {S A} (f : S → ST S A) s : (get ≫= f) s = f s s.
Proof. reflexivity. Qed.
Lemma bind_modify {S A} (g : S → S) (f : unit → ST S A) s : (modify g ≫= f) s = f () (g s).
Proof. reflexivity. Qed.

(** The pieces of a computation that ended well. *)
Lemma bind_inv {S A B} (m : ST S A) (f : A → ST S B) s b s' :
  (m ≫= f) s = Ok (b, s') → ∃ a s1, m s = Ok (a, s1) ∧ f a s1 = Ok (b, s').
Proof. unfold mbind, st_bind. destruct (m s) as [[a s1]|]; [eauto | discriminate]. Qed.

Lemma lift_inv {S A} (m : res A) (s : S) a s' : lift m s = Ok (a, s') → m = Ok a ∧ s' = s.
Proof. unfold lift. destruct m as [x|]; [by intros [= <- <-]|done]. Qed.

Create Rewrite HintDb run.
#[export] Hint Rewrite @bind_assoc @bind_ret @bind_get @bind_gets @bind_modify @bind_lift_ok
  @bind_lift_err @bind_fail : run.
Ltac run := repeat (autorewrite with run; cbn [deref cassert fst snd]; cbv beta iota zeta).
