(* ===== verification/NVMTypes.v ===== *)
(** * Requests, addresses and data blocks

    The value types of [NVmain/include]: [NVMAddress], [NVMDataBlock],
    [NVMainRequest] with its enumerations, [FailReasons] and [mlog2].  A pointer
    to a heap object is a [positive] ([None] for [NULL]). *)

From S2P Require Import Prelude.

(** ** NVMHelpers *)

(*| NVmain/include/NVMHelpers.cpp 46-50 mlog2 *)
Fixpoint mlog2_loop (fuel : nat) (retVal newNum : Z) : res Z :=
  match fuel with
  | O => Err OutOfFuel
  | S fuel =>
      if newNum =? 0 then Ok retVal
      else mlog2_loop fuel (retVal + 1) (Z.shiftr newNum 1)
  end.

(** Every iteration halves the number: its logarithm bounds their number. *)
(*| NVmain/include/NVMHelpers.cpp 38-53 mlog2 *)
Definition mlog2 (num : Z) : res Z :=
  if num <? 2 then Ok 0 else mlog2_loop (S (S (Z.to_nat (Z.log2 num)))) (-1) num.

(** ** NVMAddress *)

(*| NVmain/include/NVMAddress.h 72-82 NVMAddress *)
Record NVMAddress := mkNVMAddress {
  translated : bool;
  hasPhysicalAddress : bool;
  physicalAddress : Z;
  subarray : Z;
  row : Z;
  col : Z;
  bank : Z;
  rank : Z;
  channel : Z;
  bit : Z
}.

#[export] Instance eta_NVMAddress : Settable NVMAddress := fields! mkNVMAddress
  < translated; hasPhysicalAddress; physicalAddress; subarray; row; col; bank;
    rank; channel; bit >.

#[export] Instance NVMAddress_eq_dec : EqDecision NVMAddress.
Proof. solve_decision. Defined.

(** The constructor leaves [bit] uninitialised: its value is an argument. *)
(*| NVmain/include/NVMAddress.cpp 38-44 NVMAddress::NVMAddress *)
Definition NVMAddress_new (bit0 : Z) : NVMAddress :=
  mkNVMAddress false false 0 0 0 0 0 0 0 bit0.

(*| NVmain/include/NVMAddress.cpp 56-66 NVMAddress::SetTranslatedAddress *)
Definition SetTranslatedAddress (addrRow addrCol addrBank addrRank addrChannel addrSA : Z)
    (a : NVMAddress) : NVMAddress :=
  a <| translated := true |> <| row := addrRow |> <| col := addrCol |>
    <| bank := addrBank |> <| rank := addrRank |> <| channel := addrChannel |>
    <| subarray := addrSA |>.

(*| NVmain/include/NVMAddress.cpp 68-72 NVMAddress::SetPhysicalAddress *)
Definition SetPhysicalAddress (pAddress : Z) (a : NVMAddress) : NVMAddress :=
  a <| hasPhysicalAddress := true |> <| physicalAddress := pAddress |>.

(*| NVmain/include/NVMAddress.cpp 74-77 NVMAddress::SetBitAddress *)
Definition SetBitAddress (bitAddr : Z) (a : NVMAddress) : NVMAddress :=
  a <| bit := u8 bitAddr |>.

(** The six results in the order of the pointers
    (row, col, bank, rank, channel, subarray). *)
(*| NVmain/include/NVMAddress.cpp 79-88 NVMAddress::GetTranslatedAddress *)
Definition GetTranslatedAddress (a : NVMAddress) : Z * Z * Z * Z * Z * Z :=
  (row a, col a, bank a, rank a, channel a, subarray a).

(*| NVmain/include/NVMAddress.cpp 90-93 NVMAddress::GetPhysicalAddress *)
Definition GetPhysicalAddress (a : NVMAddress) : Z := physicalAddress a.
(*| NVmain/include/NVMAddress.cpp 95-98 NVMAddress::GetBitAddress *)
Definition GetBitAddress (a : NVMAddress) : Z := bit a.
(*| NVmain/include/NVMAddress.cpp 100-103 NVMAddress::GetRow *)
Definition GetRow (a : NVMAddress) : Z := row a.
(*| NVmain/include/NVMAddress.cpp 105-108 NVMAddress::GetCol *)
Definition GetCol (a : NVMAddress) : Z := col a.
(*| NVmain/include/NVMAddress.cpp 110-113 NVMAddress::GetBank *)
Definition GetBank (a : NVMAddress) : Z := bank a.
(*| NVmain/include/NVMAddress.cpp 115-118 NVMAddress::GetRank *)
Definition GetRank (a : NVMAddress) : Z := rank a.
(*| NVmain/include/NVMAddress.cpp 120-123 NVMAddress::GetChannel *)
Definition GetChannel (a : NVMAddress) : Z := channel a.
(*| NVmain/include/NVMAddress.cpp 125-128 NVMAddress::GetSubArray *)
Definition GetSubArray (a : NVMAddress) : Z := subarray a.
(*| NVmain/include/NVMAddress.cpp 130-133 NVMAddress::IsTranslated *)
Definition IsTranslated (a : NVMAddress) : bool := translated a.
(*| NVmain/include/NVMAddress.cpp 135-138 NVMAddress::HasPhysicalAddress *)
Definition HasPhysicalAddress (a : NVMAddress) : bool := hasPhysicalAddress a.

(*| NVmain/include/NVMAddress.cpp 140-154 NVMAddress::operator= *)
Definition NVMAddress_assign (this m : NVMAddress) : NVMAddress :=
  this <| translated := translated m |>
       <| hasPhysicalAddress := hasPhysicalAddress m |>
       <| physicalAddress := physicalAddress m |>
       <| row := row m |> <| col := col m |> <| bank := bank m |>
       <| rank := rank m |> <| channel := channel m |>
       <| subarray := subarray m |> <| bit := bit m |>.

(** ** NVMDataBlock

    [rawData] is the allocation the block owns ([None] for [NULL]); its length
    may differ from [size]. *)

(*| NVmain/include/NVMDataBlock.h 62-68 NVMDataBlock *)
Record NVMDataBlock := mkNVMDataBlock {
  rawData : option (list Z);
  isValid : bool;
  size : Z
}.

#[export] Instance eta_NVMDataBlock : Settable NVMDataBlock :=
  fields! mkNVMDataBlock < rawData; isValid; size >.

#[export] Instance NVMDataBlock_eq_dec : EqDecision NVMDataBlock.
Proof. solve_decision. Defined.

(*| NVmain/include/NVMDataBlock.cpp 42-47 NVMDataBlock::NVMDataBlock *)
Definition NVMDataBlock_new : NVMDataBlock := mkNVMDataBlock None false 0.

(** [fresh] is what the allocator left in the new bytes. *)
(*| NVmain/include/NVMDataBlock.cpp 55-61 NVMDataBlock::SetSize *)
Definition SetSize (s : Z) (fresh : nat → Z) (d : NVMDataBlock) : res NVMDataBlock :=
  match rawData d with
  | Some _ => Err AssertFail
  | None =>
      Ok (d <| rawData := Some (fresh <$> seq 0 (Z.to_nat s)) |>
            <| size := s |> <| isValid := true |>)
  end.

(*| NVmain/include/NVMDataBlock.cpp 63-66 NVMDataBlock::GetSize *)
Definition GetSize (d : NVMDataBlock) : Z := size d.

(** Reading the allocation at an index. *)
Definition raw_read (d : NVMDataBlock) (i : Z) : res Z :=
  match rawData d with
  | None => Err NullDeref
  | Some l => deref OutOfBounds (l !! Z.to_nat i)
  end.

Definition raw_write (d : NVMDataBlock) (i v : Z) : res NVMDataBlock :=
  match rawData d with
  | None => Err NullDeref
  | Some l =>
      if bool_decide (Z.to_nat i < length l)%nat
      then Ok (d <| rawData := Some (<[Z.to_nat i := v]> l) |>)
      else Err OutOfBounds
  end.

(** The guard is [byte <= size], one more than the block holds. *)
(*| NVmain/include/NVMDataBlock.cpp 68-78 NVMDataBlock::GetByte *)
Definition GetByte (byte : Z) (d : NVMDataBlock) : res Z :=
  if isValid d && (byte <=? size d) then raw_read d byte else Ok 0.

(*| NVmain/include/NVMDataBlock.cpp 80-90 NVMDataBlock::SetByte *)
Definition SetByte (byte value : Z) (d : NVMDataBlock) : res NVMDataBlock :=
  if byte <=? size d then raw_write d byte value else Err AssertFail.

(*| NVmain/include/NVMDataBlock.cpp 92-95 NVMDataBlock::SetValid *)
Definition SetValid (valid : bool) (d : NVMDataBlock) : NVMDataBlock :=
  d <| isValid := valid |>.

(*| NVmain/include/NVMDataBlock.cpp 97-100 NVMDataBlock::IsValid *)
Definition IsValid (d : NVMDataBlock) : bool := isValid d.

(** [memcpy] of [m.size] bytes into the allocation of [this], which is only
    made when [this] has none. *)
(*| NVmain/include/NVMDataBlock.cpp 112-124 NVMDataBlock::operator= *)
Definition NVMDataBlock_assign (this m : NVMDataBlock) : res NVMDataBlock :=
  raw ← match rawData m with
        | None => Ok (rawData this)
        | Some src =>
            let n := Z.to_nat (size m) in
            let dst := default (replicate n 0) (rawData this) in
            if bool_decide (n ≤ length src)%nat && bool_decide (n ≤ length dst)%nat
            then Ok (Some (take n src ++ drop n dst))
            else Err OutOfBounds
        end;
  Ok (this <| rawData := raw |> <| isValid := isValid m |> <| size := size m |>).

(** A block whose allocation is exactly [size] bytes. *)
Definition block_wf (d : NVMDataBlock) : Prop :=
  ∃ l, rawData d = Some l ∧ Z.of_nat (length l) = size d ∧ isValid d = true ∧
       Forall is_u8 l.

(** The well-formed block with given bytes, and the bytes of a block. *)
Definition blk (l : list Z) : NVMDataBlock := mkNVMDataBlock (Some l) true (Z.of_nat (length l)).

Definition bytes (d : NVMDataBlock) : list Z := match rawData d with Some l => l | None => [] end.

Lemma block_blk d : block_wf d → ∃ l, d = blk l ∧ Forall is_u8 l.
Proof.
  destruct d as [raw v s]. intros (l & E1 & E2 & E3 & E4). cbn in *. subst. by exists l.
Qed.

Lemma blk_block l : Forall is_u8 l → block_wf (blk l).
Proof. by exists l. Qed.

Lemma GetByte_blk l i x : l !! Z.to_nat i = Some x → 0 ≤ i → GetByte i (blk l) = Ok x.
Proof.
  intros E Hi. unfold GetByte, blk. cbn. pose proof (lookup_lt_Some _ _ _ E).
  replace (i <=? Z.of_nat (length l)) with true by (symmetry; apply Z.leb_le; lia).
  unfold raw_read. cbn. by rewrite E.
Qed.

Lemma SetByte_blk l i v :
  0 ≤ i < Z.of_nat (length l) → SetByte i v (blk l) = Ok (blk (<[Z.to_nat i := v]> l)).
Proof.
  intros Hi. unfold SetByte, blk. cbn.
  replace (i <=? Z.of_nat (length l)) with true by (symmetry; apply Z.leb_le; lia).
  unfold raw_write. cbn. rewrite bool_decide_true by lia. by rewrite length_insert.
Qed.

(** ** NVMainRequest *)

(*| NVmain/include/NVMainRequest.h 46-65 OpType *)
Inductive OpType :=
  | NOP | ACTIVATE | READ | READ_PRECHARGE | WRITE | WRITE_PRECHARGE
  | PRECHARGE | PRECHARGE_ALL | POWERDOWN_PDA | POWERDOWN_PDPF | POWERDOWN_PDPS
  | POWERUP | REFRESH | BUS_READ | BUS_WRITE | CACHED_READ | CACHED_WRITE.

#[export] Instance OpType_eq_dec : EqDecision OpType.
Proof. solve_decision. Defined.

(*| NVmain/include/NVMainRequest.h 67-73 MemRequestStatus *)
Inductive MemRequestStatus :=
  | MEM_REQUEST_INCOMPLETE | MEM_REQUEST_COMPLETE | MEM_REQUEST_RETRY | MEM_REQUEST_NUM.

#[export] Instance MemRequestStatus_eq_dec : EqDecision MemRequestStatus.
Proof. solve_decision. Defined.

(*| NVmain/include/NVMainRequest.h 75-80 NVMAccessType *)
Inductive NVMAccessType := UNKNOWN_ACCESS | SUPERVISOR_ACCESS | USER_ACCESS.

#[export] Instance NVMAccessType_eq_dec : EqDecision NVMAccessType.
Proof. solve_decision. Defined.

(*| NVmain/include/NVMainRequest.h 82-113 BulkCommand *)
Inductive BulkCommand :=
  | CMD_NOP | CMD_PRE | CMD_READPRE | CMD_READ2PRE | CMD_READ3PRE | CMD_READ4PRE
  | CMD_WRITEPRE | CMD_WRITE2PRE | CMD_WRITE3PRE | CMD_WRITE4PRE
  | CMD_ACTREADPRE | CMD_ACTREAD2PRE | CMD_ACTREAD3PRE | CMD_ACTREAD4PRE
  | CMD_ACTWRITEPRE | CMD_ACTWRITE2PRE | CMD_ACTWRITE3PRE | CMD_ACTWRITE4PRE
  | CMD_PU_ACT_READ_PRE_PDPF | CMD_PU_ACT_WRITE_PRE_PDPF
  | CMD_ACT_READ_PRE_PDPF | CMD_ACT_WRITE_PRE_PDPF
  | CMD_READ_PRE_PDPF | CMD_WRITE_PRE_PDPF | CMD_PRE_PDPF | CMD_PDPF
  | CMD_PU_ACT_READ_PRE | CMD_PU_ACT_WRITE_PRE.

#[export] Instance BulkCommand_eq_dec : EqDecision BulkCommand.
Proof. solve_decision. Defined.

(** Pointers: requests, simulator objects and events. *)
Abbreviation ReqPtr := positive (only parsing).
Abbreviation ObjPtr := positive (only parsing).

(*| NVmain/include/NVMainRequest.h 150-179 NVMainRequest *)
Record NVMainRequest := mkNVMainRequest {
  address : NVMAddress;
  type : OpType;
  bulkCmd : BulkCommand;
  threadId : Z;
  data : NVMDataBlock;
  oldData : NVMDataBlock;
  status : MemRequestStatus;
  access : NVMAccessType;
  tag : Z;
  reqInfo : option positive;
  flags : Z;
  isPrefetch : bool;
  memread_flag : Z;
  pfTrigger : NVMAddress;
  programCounter : Z;
  burstCount : Z;
  owner : option positive;
  arrivalTick : Z;
  arrivalCycle : Z;
  queueCycle : Z;
  issueCycle : Z;
  completionCycle : Z;
  bankissueCycle : Z;
  memreadstartCycle : Z;
  memreadendCycle : Z;
  drchit_flag : Z;
  writeProgress : Z;
  cancellations : Z
}.

#[export] Instance eta_NVMainRequest : Settable NVMainRequest := fields! mkNVMainRequest
  < address; type; bulkCmd; threadId; data; oldData; status; access; tag; reqInfo;
    flags; isPrefetch; memread_flag; pfTrigger; programCounter; burstCount; owner;
    arrivalTick; arrivalCycle; queueCycle; issueCycle; completionCycle;
    bankissueCycle; memreadstartCycle; memreadendCycle; drchit_flag; writeProgress;
    cancellations >.

(** The constructor; [status], [access] and the [bit] of the two addresses are
    left uninitialised by it and are arguments. *)
(*| NVmain/include/NVMainRequest.h 120-144 NVMainRequest::NVMainRequest *)
Definition NVMainRequest_new (status0 : MemRequestStatus) (access0 : NVMAccessType)
    (bit0 : Z) : NVMainRequest :=
  mkNVMainRequest (NVMAddress_new bit0) NOP CMD_NOP 0 NVMDataBlock_new NVMDataBlock_new
    status0 access0 0 None 0 false 0 (NVMAddress_new bit0) 0 1 None 0
    0 0 0 0 0 0 0 0 0 0.

(** The assignment leaves [flags], [burstCount], [writeProgress] and
    [cancellations] as they were. *)
(*| NVmain/include/NVMainRequest.h 201-231 NVMainRequest::operator= *)
Definition NVMainRequest_assign (this m : NVMainRequest) : res NVMainRequest :=
  d ← NVMDataBlock_assign (data this) (data m);
  od ← NVMDataBlock_assign (oldData this) (oldData m);
  Ok (this <| address := NVMAddress_assign (address this) (address m) |>
           <| type := type m |> <| bulkCmd := bulkCmd m |>
           <| threadId := threadId m |> <| data := d |> <| oldData := od |>
           <| status := status m |> <| access := access m |> <| tag := tag m |>
           <| reqInfo := reqInfo m |> <| isPrefetch := isPrefetch m |>
           <| pfTrigger := NVMAddress_assign (pfTrigger this) (pfTrigger m) |>
           <| programCounter := programCounter m |> <| owner := owner m |>
           <| memread_flag := memread_flag m |>
           <| bankissueCycle := bankissueCycle m |>
           <| arrivalCycle := arrivalCycle m |> <| queueCycle := queueCycle m |>
           <| issueCycle := issueCycle m |>
           <| memreadstartCycle := memreadstartCycle m |>
           <| memreadendCycle := memreadendCycle m |>
           <| completionCycle := completionCycle m |>
           <| drchit_flag := drchit_flag m |> <| arrivalTick := arrivalTick m |>).

(*| NVmain/include/NVMainRequest.h 184-197 NVMainRequest::NVMainRequestFlags *)
Inductive NVMainRequestFlags :=
  | FLAG_LAST_REQUEST | FLAG_IS_READ | FLAG_IS_WRITE | FLAG_CANCELLED | FLAG_PAUSED
  | FLAG_FORCED | FLAG_PRIORITY | FLAG_ISSUED | FLAG_EVICT | FLAG_SKIP_TAG.

Definition flag_mask (f : NVMainRequestFlags) : Z :=
  match f with
  | FLAG_LAST_REQUEST => 1 | FLAG_IS_READ => 2 | FLAG_IS_WRITE => 4
  | FLAG_CANCELLED => 8 | FLAG_PAUSED => 16 | FLAG_FORCED => 32
  | FLAG_PRIORITY => 64 | FLAG_ISSUED => 128 | FLAG_EVICT => 256
  | FLAG_SKIP_TAG => 512
  end.

Definition req_has (f : NVMainRequestFlags) (r : NVMainRequest) : bool :=
  has_flag (flags r) (flag_mask f).
Definition req_set (f : NVMainRequestFlags) (r : NVMainRequest) : NVMainRequest :=
  r <| flags ::= λ x, set_flag x (flag_mask f) |>.
Definition req_clear (f : NVMainRequestFlags) (r : NVMainRequest) : NVMainRequest :=
  r <| flags ::= λ x, clear_flag x (flag_mask f) |>.

(*| NVmain/include/FailReasons.h 39-47 FailReasons *)
Inductive FailReasons :=
  | UNKNOWN_FAILURE | OPEN_REFRESH_WAITING | CLOSED_REFRESH_WAITING
  | REFRESH_OPEN_FAILURE | SUBARRAY_TIMING | BANK_TIMING | RANK_TIMING
  | UNSUPPORTED_COMMAND.

#[export] Instance FailReasons_eq_dec : EqDecision FailReasons.
Proof. solve_decision. Defined.

(** ** Properties *)

Lemma mlog2_loop_log2 fuel r n :
  0 ≤ n < 2 ^ Z.of_nat fuel → -1 ≤ r →
  mlog2_loop (S fuel) r n = Ok (if n =? 0 then r else r + Z.log2 n + 1).
Proof.
  revert r n. induction fuel as [|fuel IH]; intros r n Hn Hr.
  - assert (n = 0) as -> by (cbn in Hn; lia). done.
  - cbn [mlog2_loop]. destruct (Z.eqb_spec n 0) as [->|Hn0]; [done|].
    rewrite Nat2Z.inj_succ, Z.pow_succ_r in Hn by lia.
    rewrite Z.shiftr_div_pow2, Z.pow_1_r by lia.
    change (mlog2_loop (S fuel) (r + 1) (n / 2) =
            Ok (r + Z.log2 n + 1)).
    assert (0 ≤ n / 2 < 2 ^ Z.of_nat fuel) as Hh.
    { split; [apply Z.div_pos; lia | apply Z.div_lt_upper_bound; lia]. }
    rewrite IH by lia. f_equal. destruct (Z.eqb_spec (n / 2) 0) as [E|E].
    + assert (n = 1) as -> by (pose proof (Z.div_mod n 2); pose proof (Z.mod_pos_bound n 2); lia). cbn. lia.
    + assert (2 ≤ n) by (destruct (Z_lt_le_dec n 2); [|lia];
        rewrite Z.div_small in E by lia; lia).
      rewrite <- (Z.div2_div n), Z.div2_spec, Z.log2_shiftr by lia.
      pose proof (Z.log2_pos n). lia.
Qed.

(** [mlog2] is the integer logarithm of every number that is at least 2, and 0
    below: its loop ends within the fuel. *)
Lemma mlog2_log2 num : mlog2 num = Ok (if num <? 2 then 0 else Z.log2 num).
Proof.
  unfold mlog2. destruct (Z.ltb_spec num 2) as [|H2]; [done|].
  rewrite (mlog2_loop_log2 (S (Z.to_nat (Z.log2 num)))); [|split; [lia|]|lia].
  - destruct (Z.eqb_spec num 0); [lia|]. f_equal. lia.
  - rewrite Nat2Z.inj_succ, Z2Nat.id by apply Z.log2_nonneg. apply Z.log2_spec. lia.
Qed.

(** Copying a request may leave a block, but needs no fuel. *)
Lemma fueled_block_assign a b : fueled (NVMDataBlock_assign a b).
Proof. unfold NVMDataBlock_assign, fueled. cbn. repeat case_match; cbn; congruence. Qed.
#[export] Hint Resolve fueled_block_assign : ends.
Lemma fueled_assign a b : fueled (NVMainRequest_assign a b).
Proof. unfold NVMainRequest_assign. fueled_tac. Qed.
#[export] Hint Resolve fueled_assign : ends.
