(* ===== verification/Translation.v ===== *)
(** * Address translation

    [TranslationMethod] (NVmain/src/TranslationMethod.cpp) holds the width and
    the position of each of the six address partitions; [AddressTranslator]
    (NVmain/src/AddressTranslator.cpp) splits a physical address into them and
    rebuilds it. *)

From S2P Require Import Prelude NVMTypes.

(** ** TranslationMethod *)

(*| NVmain/src/TranslationMethod.h 44-53 MemoryPartition *)
Inductive MemoryPartition :=
  | MEM_ROW | MEM_COL | MEM_BANK | MEM_RANK | MEM_CHANNEL | MEM_SUBARRAY | MEM_UNKNOWN.

#[export] Instance MemoryPartition_eq_dec : EqDecision MemoryPartition.
Proof. solve_decision. Defined.

(** The six real partitions: the indices of the arrays. *)
Definition partitions : list MemoryPartition :=
  [MEM_ROW; MEM_COL; MEM_BANK; MEM_RANK; MEM_CHANNEL; MEM_SUBARRAY].

(** An array of six values indexed by a partition. *)
Record six := mkSix {
  s_row : Z; s_col : Z; s_bank : Z; s_rank : Z; s_channel : Z; s_subarray : Z
}.

#[export] Instance six_eq_dec : EqDecision six.
Proof. solve_decision. Defined.

Definition six_get (p : MemoryPartition) (a : six) : res Z :=
  match p with
  | MEM_ROW => Ok (s_row a) | MEM_COL => Ok (s_col a) | MEM_BANK => Ok (s_bank a)
  | MEM_RANK => Ok (s_rank a) | MEM_CHANNEL => Ok (s_channel a)
  | MEM_SUBARRAY => Ok (s_subarray a)
  | MEM_UNKNOWN => Err OutOfBounds
  end.

Definition six_set (p : MemoryPartition) (v : Z) (a : six) : res six :=
  let '(mkSix r c b k h s) := a in
  match p with
  | MEM_ROW => Ok (mkSix v c b k h s) | MEM_COL => Ok (mkSix r v b k h s)
  | MEM_BANK => Ok (mkSix r c v k h s) | MEM_RANK => Ok (mkSix r c b v h s)
  | MEM_CHANNEL => Ok (mkSix r c b k v s) | MEM_SUBARRAY => Ok (mkSix r c b k h v)
  | MEM_UNKNOWN => Err OutOfBounds
  end.

(*| NVmain/src/TranslationMethod.h 74-77 TranslationMethod *)
Record TranslationMethod := mkTranslationMethod {
  bitWidths : six;
  count : six;
  order : six
}.

#[export] Instance eta_TranslationMethod : Settable TranslationMethod :=
  fields! mkTranslationMethod < bitWidths; count; order >.

(*| NVmain/src/TranslationMethod.cpp 58-67 TranslationMethod::SetBitWidths *)
Definition SetBitWidths (rowBits colBits bankBits rankBits channelBits subarrayBits : Z)
    (m : TranslationMethod) : TranslationMethod :=
  m <| bitWidths := mkSix (u32 rowBits) (u32 colBits) (u32 bankBits) (u32 rankBits)
                          (u32 channelBits) (u32 subarrayBits) |>.

(** The uniqueness test only prints a message. *)
(*| NVmain/src/TranslationMethod.cpp 69-86 TranslationMethod::SetOrder *)
Definition SetOrder (row col bank rank channel subarray : Z)
    (m : TranslationMethod) : TranslationMethod :=
  m <| order := mkSix (row - 1) (col - 1) (bank - 1) (rank - 1) (channel - 1) (subarray - 1) |>.

(*| NVmain/src/TranslationMethod.cpp 88-97 TranslationMethod::SetCount *)
Definition SetCount (rows cols banks ranks channels subarrays : Z)
    (m : TranslationMethod) : TranslationMethod :=
  m <| count := mkSix rows cols banks ranks channels subarrays |>.

(*| NVmain/src/TranslationMethod.cpp 99-108 TranslationMethod::GetBitWidths *)
Definition GetBitWidths (m : TranslationMethod) : six := bitWidths m.
(*| NVmain/src/TranslationMethod.cpp 110-118 TranslationMethod::GetOrder *)
Definition GetOrder (m : TranslationMethod) : six := order m.
(*| NVmain/src/TranslationMethod.cpp 120-129 TranslationMethod::GetCount *)
Definition GetCount (m : TranslationMethod) : six := count m.

(** The constructor does not write [count]: its values are the argument. *)
(*| NVmain/src/TranslationMethod.cpp 42-52 TranslationMethod::TranslationMethod *)
Definition TranslationMethod_new (count0 : six) : TranslationMethod :=
  SetOrder 4 1 3 5 6 2
    (SetBitWidths 10 8 3 1 1 6 (mkTranslationMethod (mkSix 0 0 0 0 0 0) count0 (mkSix 0 0 0 0 0 0))).

(** One iteration of the token loop: the order of the named field becomes
    [currentOrder]; an unrecognised token only prints a message. *)
(*| NVmain/src/TranslationMethod.cpp 147-171 TranslationMethod::SetAddressMappingScheme *)
Definition scheme_step (st : six * Z) (tok : string) : six * Z :=
  let '(mkSix r c b k h s, cur) := st in
  (if decide (tok = "R"%string) then mkSix cur c b k h s
   else if decide (tok = "C"%string) then mkSix r cur b k h s
   else if decide (tok = "BK"%string) then mkSix r c cur k h s
   else if decide (tok = "RK"%string) then mkSix r c b cur h s
   else if decide (tok = "CH"%string) then mkSix r c b k cur s
   else if decide (tok = "SA"%string) then mkSix r c b k h cur
   else mkSix r c b k h s, cur - 1).

(** Lines 174-179: a field still at 0 takes the next order. *)
Definition take_order (v cur : Z) : Z * Z := if v =? 0 then (cur, cur - 1) else (v, cur).

(** [strcpy] writes the scheme and its NUL into [char addrMappingScheme[16]]. *)
(*| NVmain/src/TranslationMethod.cpp 135-189 TranslationMethod::SetAddressMappingScheme *)
Definition SetAddressMappingScheme (scheme : string) (m : TranslationMethod)
    : res TranslationMethod :=
  let buf := c_str scheme in
  if 16 <? Z.of_nat (String.length buf) + 1 then Err OutOfBounds else
  let '(f, currentOrder) :=
    fold_left scheme_step (strtok (λ a, Ascii.eqb a ":"%char) buf) (mkSix 0 0 0 0 0 0, 6) in
  let '(subarray, cur) := take_order (s_subarray f) currentOrder in
  let '(channel, cur) := take_order (s_channel f) cur in
  let '(rank, cur) := take_order (s_rank f) cur in
  let '(bank, cur) := take_order (s_bank f) cur in
  let '(row, cur) := take_order (s_row f) cur in
  let '(col, cur) := take_order (s_col f) cur in
  Ok (SetOrder row col bank rank channel subarray m).

(** ** AddressTranslator *)

(*| NVmain/src/AddressTranslator.h 46-55 TranslationField *)
Inductive TranslationField :=
  | NO_FIELD | ROW_FIELD | COL_FIELD | BANK_FIELD | RANK_FIELD | CHANNEL_FIELD
  | SUBARRAY_FIELD.

#[export] Instance TranslationField_eq_dec : EqDecision TranslationField.
Proof. solve_decision. Defined.

(** [Stats] and the statistic name play no part in translation. *)
(*| NVmain/src/AddressTranslator.h 95-103 AddressTranslator *)
Record AddressTranslator := mkAddressTranslator {
  method : option TranslationMethod;
  defaultField : TranslationField;
  busWidth : Z;
  burstLength : Z;
  lowColBits : Z
}.

#[export] Instance eta_AddressTranslator : Settable AddressTranslator :=
  fields! mkAddressTranslator < method; defaultField; busWidth; burstLength; lowColBits >.

(*| NVmain/src/AddressTranslator.cpp 46-57 AddressTranslator::AddressTranslator *)
Definition AddressTranslator_new : AddressTranslator :=
  mkAddressTranslator None NO_FIELD 64 8 0.

(*| NVmain/src/AddressTranslator.cpp 65-68 AddressTranslator::SetTranslationMethod *)
Definition SetTranslationMethod (m : TranslationMethod) (t : AddressTranslator) :=
  t <| method := Some m |>.
(*| NVmain/src/AddressTranslator.cpp 71-74 AddressTranslator::GetTranslationMethod *)
Definition GetTranslationMethod (t : AddressTranslator) : option TranslationMethod := method t.
(*| NVmain/src/AddressTranslator.cpp 160-163 AddressTranslator::SetBusWidth *)
Definition SetBusWidth (bits : Z) (t : AddressTranslator) := t <| busWidth := bits |>.
(*| NVmain/src/AddressTranslator.cpp 170-173 AddressTranslator::SetBurstLength *)
Definition SetBurstLength (beat : Z) (t : AddressTranslator) := t <| burstLength := beat |>.
(*| NVmain/src/AddressTranslator.cpp 321-324 AddressTranslator::SetDefaultField *)
Definition SetDefaultField (f : TranslationField) (t : AddressTranslator) :=
  t <| defaultField := f |>.

(*| NVmain/src/AddressTranslator.cpp 391-417 AddressTranslator::FindOrder *)
Definition FindOrder (m : TranslationMethod) (ord : Z) : MemoryPartition :=
  let o := GetOrder m in
  if s_row o =? ord then MEM_ROW
  else if s_col o =? ord then MEM_COL
  else if s_bank o =? ord then MEM_BANK
  else if s_rank o =? ord then MEM_RANK
  else if s_channel o =? ord then MEM_CHANNEL
  else if s_subarray o =? ord then MEM_SUBARRAY
  else MEM_UNKNOWN.

(*| NVmain/src/AddressTranslator.cpp 329-353 AddressTranslator::Divide *)
Definition Divide (m : TranslationMethod) (partSize : Z) (partition : MemoryPartition) : res Z :=
  let w := GetBitWidths m in
  match partition with
  | MEM_ROW => shr64 partSize (s_row w)
  | MEM_COL => shr64 partSize (s_col w)
  | MEM_BANK => shr64 partSize (s_bank w)
  | MEM_RANK => shr64 partSize (s_rank w)
  | MEM_CHANNEL => shr64 partSize (s_channel w)
  | MEM_SUBARRAY => shr64 partSize (s_subarray w)
  | MEM_UNKNOWN => Ok partSize
  end.

(*| NVmain/src/AddressTranslator.cpp 358-386 AddressTranslator::Modulo *)
Definition Modulo (m : TranslationMethod) (partialAddr : Z) (partition : MemoryPartition) : res Z :=
  let w := GetBitWidths m in
  moduloSize ← match partition with
    | MEM_ROW => shl64 1 (s_row w)
    | MEM_COL => shl64 1 (s_col w)
    | MEM_BANK => shl64 1 (s_bank w)
    | MEM_RANK => shl64 1 (s_rank w)
    | MEM_CHANNEL => shl64 1 (s_channel w)
    | MEM_SUBARRAY => shl64 1 (s_subarray w)
    | MEM_UNKNOWN => Ok 1
    end;
  if moduloSize =? 0 then Err DivideByZero else Ok (partialAddr mod moduloSize).

(** [busOffsetBits] and [lowColBits], common to both directions. *)
(*| NVmain/src/AddressTranslator.cpp 203-205 AddressTranslator::Translate *)
Definition low_bits (t : AddressTranslator) : res (Z * Z) :=
  busOffsetBits ← mlog2 (Z.quot (busWidth t) 8);
  burstBits ← mlog2 (Z.quot (s32 (busWidth t * burstLength t)) 8);
  Ok (busOffsetBits, burstBits - busOffsetBits).

(** One iteration of the loop of [ReverseTranslate]. *)
(*| NVmain/src/AddressTranslator.cpp 108-150 AddressTranslator::ReverseTranslate *)
Definition reverse_step (m : TranslationMethod) (v : six) (st : Z * Z) (i : Z) : res (Z * Z) :=
  let '(phyAddr, unitAddr) := st in
  let part := FindOrder m i in
  match part with
  | MEM_UNKNOWN => Ok (phyAddr, unitAddr)
  | _ =>
      x ← six_get part v;
      w ← six_get part (GetBitWidths m);
      unit' ← shl64 unitAddr w;
      Ok (phyAddr ⊕ (x ⊗ unitAddr), unit')
  end.

(** Without a method the program exits. *)
(*| NVmain/src/AddressTranslator.cpp 76-153 AddressTranslator::ReverseTranslate *)
Definition ReverseTranslate (v : six) (t : AddressTranslator) : res (Z * AddressTranslator) :=
  m ← deref ExitCall (method t);
  '(busOffsetBits, low) ← low_bits t;
  unitAddr ← shl64 1 busOffsetBits;
  unitAddr ← shl64 unitAddr low;
  st ← foldM (reverse_step m v) (0, unitAddr) [0; 1; 2; 3; 4; 5];
  Ok (st.1, t <| lowColBits := low |>).

(** One iteration of the loop of [Translate]: a position no partition has
    indexes [partitions] at 100. *)
(*| NVmain/src/AddressTranslator.cpp 214-230 AddressTranslator::Translate *)
Definition translate_step (m : TranslationMethod) (st : six * Z) (i : Z) : res (six * Z) :=
  let '(out, refAddress) := st in
  let part := FindOrder m i in
  v ← Modulo m refAddress part;
  out' ← six_set part v out;
  ref' ← Divide m refAddress part;
  Ok (out', ref').

(** [out] are the values the result pointers hold before the call: without a
    method they keep them. *)
(*| NVmain/src/AddressTranslator.cpp 189-231 AddressTranslator::Translate *)
Definition Translate (address : Z) (out : six) (t : AddressTranslator)
    : res (six * AddressTranslator) :=
  match method t with
  | None => Ok (out, t)
  | Some m =>
      '(busOffsetBits, low) ← low_bits t;
      refAddress ← shr64 address busOffsetBits;
      refAddress ← shr64 refAddress low;
      st ← foldM (translate_step m) (out, refAddress) [0; 1; 2; 3; 4; 5];
      Ok (st.1, t <| lowColBits := low |>)
  end.

(*| NVmain/src/AddressTranslator.cpp 286-316 AddressTranslator::Translate *)
Definition select_field (f : TranslationField) (v : six) : Z :=
  match f with
  | ROW_FIELD => s_row v | COL_FIELD => s_col v | BANK_FIELD => s_bank v
  | RANK_FIELD => s_rank v | CHANNEL_FIELD => s_channel v
  | SUBARRAY_FIELD => s_subarray v | NO_FIELD => 0
  end.

(** The locals are uninitialised when there is no method: [out]. *)
(*| NVmain/src/AddressTranslator.cpp 279-319 AddressTranslator::Translate *)
Definition TranslateField (address : Z) (out : six) (t : AddressTranslator)
    : res (Z * AddressTranslator) :=
  '(v, t') ← Translate address out t;
  Ok (select_field (defaultField t') v, t').

(*| NVmain/src/AddressTranslator.cpp 233-277 AddressTranslator::Translate *)
Definition TranslateRequest (request : NVMainRequest) (out : six) (t : AddressTranslator)
    : res (Z * AddressTranslator) :=
  let a := address request in
  if IsTranslated a then
    Ok (match defaultField t with
        | ROW_FIELD => GetRow a | COL_FIELD => GetCol a | BANK_FIELD => GetBank a
        | RANK_FIELD => GetRank a | CHANNEL_FIELD => GetChannel a
        | SUBARRAY_FIELD => GetSubArray a | NO_FIELD => 0
        end, t)
  else TranslateField (GetPhysicalAddress a) out t.

(** ** No translation runs out of fuel *)

Lemma fueled_mlog2 n : fueled (mlog2 n).
Proof. by rewrite mlog2_log2. Qed.
#[local] Hint Resolve fueled_mlog2 : ends.
Lemma fueled_low_bits t : fueled (low_bits t).
Proof. unfold low_bits. fueled_tac. Qed.
Lemma fueled_six_get p v : fueled (six_get p v).
Proof. by destruct p. Qed.
Lemma fueled_six_set p x v : fueled (six_set p x v).
Proof. by destruct p, v. Qed.
Lemma fueled_Modulo m x p : fueled (Modulo m x p).
Proof. unfold Modulo. fueled_tac. Qed.
Lemma fueled_Divide m x p : fueled (Divide m x p).
Proof. unfold Divide. fueled_tac. Qed.
#[local] Hint Resolve fueled_low_bits fueled_six_get fueled_six_set fueled_Modulo fueled_Divide : ends.
Lemma fueled_ReverseTranslate v t : fueled (ReverseTranslate v t).
Proof. unfold ReverseTranslate, reverse_step. fueled_tac. Qed.
Lemma fueled_Translate x out t : fueled (Translate x out t).
Proof. unfold Translate, translate_step. fueled_tac. Qed.
#[local] Hint Resolve fueled_Translate : ends.
Lemma fueled_TranslateRequest r out t : fueled (TranslateRequest r out t).
Proof. unfold TranslateRequest, TranslateField. fueled_tac. Qed.
#[export] Hint Resolve fueled_ReverseTranslate fueled_Translate fueled_TranslateRequest : ends.

(** ** The reference: mixed radix

    The partitions from the least significant one up are digits whose radix is
    [2 ^ width]; an address is the number they write, above the low bits. *)

Definition digit (v : six) (p : MemoryPartition) : Z :=
  match six_get p v with Ok x => x | Err _ => 0 end.

Definition layout (m : TranslationMethod) : list MemoryPartition :=
  FindOrder m <$> [0; 1; 2; 3; 4; 5].

Definition widths (m : TranslationMethod) (ps : list MemoryPartition) : Z :=
  foldr (λ p acc, digit (bitWidths m) p + acc) 0 ps.

Fixpoint encode (m : TranslationMethod) (v : six) (ps : list MemoryPartition) : Z :=
  match ps with
  | [] => 0
  | p :: ps => digit v p + 2 ^ digit (bitWidths m) p * encode m v ps
  end.

(** The orders are the six positions, and every width is a legal shift count. *)
Definition orders (m : TranslationMethod) : list Z := digit (order m) <$> partitions.

Definition method_ok (m : TranslationMethod) : Prop :=
  NoDup (orders m) ∧ Forall (λ o, 0 ≤ o < 6) (orders m) ∧
  Forall (λ p, 0 ≤ digit (bitWidths m) p < 64) partitions.

Definition fields_fit (m : TranslationMethod) (v : six) : Prop :=
  Forall (λ p, 0 ≤ digit v p < 2 ^ digit (bitWidths m) p) partitions.

#[export] Instance method_ok_dec m : Decision (method_ok m).
Proof. unfold method_ok. apply _. Defined.
#[export] Instance fields_fit_dec m v : Decision (fields_fit m v).
Proof. unfold fields_fit. apply _. Defined.

(** ** Lemmas *)

Section Layout.
Context (m : TranslationMethod) (Hm : method_ok m).

Lemma FindOrder_order p : p ∈ partitions → FindOrder m (digit (order m) p) = p.
Proof using Hm.
  destruct Hm as (Hnd & _ & _). revert Hnd. unfold orders, FindOrder, GetOrder.
  destruct m as [? ? [r c b k h s]]; cbn. intros Hnd Hp.
  repeat (apply NoDup_cons in Hnd as [? Hnd]). set_unfold in Hp.
  destruct_or?; subst; cbn; rewrite ?Z.eqb_refl; try done;
    repeat match goal with |- context [?a =? ?b] => destruct (Z.eqb_spec a b) end;
    try done; set_solver.
Qed.

Lemma layout_perm : layout m ≡ₚ partitions.
Proof using Hm.
  symmetry. apply submseteq_length_Permutation; [|done].
  apply NoDup_submseteq; [by repeat (constructor; [set_solver|]); constructor|].
  intros p Hp. unfold layout. apply list_elem_of_fmap.
  exists (digit (order m) p). split; [by rewrite FindOrder_order|].
  destruct Hm as (_ & Hr & _). rewrite Forall_forall in Hr.
  assert (0 ≤ digit (order m) p < 6) by (apply Hr, list_elem_of_fmap; eauto).
  set_unfold. lia.
Qed.

Lemma layout_known p : p ∈ layout m → p ∈ partitions.
Proof using Hm. by rewrite layout_perm. Qed.

Lemma layout_width p : p ∈ layout m → 0 ≤ digit (bitWidths m) p < 64.
Proof using Hm.
  intros Hp%layout_known. destruct Hm as (_ & _ & Hw). rewrite Forall_forall in Hw. auto.
Qed.

Lemma layout_NoDup : NoDup (layout m).
Proof using Hm.
  rewrite layout_perm. by repeat (constructor; [set_solver|]); constructor.
Qed.
End Layout.

Lemma six_get_digit p v : p ∈ partitions → six_get p v = Ok (digit v p).
Proof. intros Hp. set_unfold in Hp. destruct_or?; by subst. Qed.

Lemma six_set_digit p x v :
  p ∈ partitions →
  ∃ v', six_set p x v = Ok v' ∧
        ∀ q, digit v' q = if decide (q = p) then x else digit v q.
Proof.
  intros Hp. destruct v. set_unfold in Hp.
  destruct_or?; subst; cbn; eexists; (split; [done|]); intros []; done.
Qed.

Lemma six_ext v w : (∀ p, p ∈ partitions → digit v p = digit w p) → v = w.
Proof.
  intros H. destruct v, w. f_equal;
    [ apply (H MEM_ROW) | apply (H MEM_COL) | apply (H MEM_BANK)
    | apply (H MEM_RANK) | apply (H MEM_CHANNEL) | apply (H MEM_SUBARRAY) ]; set_solver.
Qed.

Lemma widths_nonneg m ps :
  (∀ p, p ∈ ps → 0 ≤ digit (bitWidths m) p) → 0 ≤ widths m ps.
Proof.
  induction ps as [|p ps IH]; cbn; intros H; [lia|].
  pose proof (H p ltac:(set_solver)). specialize (IH ltac:(set_solver)). unfold widths in *. lia.
Qed.

Lemma encode_bound m v ps :
  (∀ p, p ∈ ps → 0 ≤ digit (bitWidths m) p ∧ 0 ≤ digit v p < 2 ^ digit (bitWidths m) p) →
  0 ≤ encode m v ps < 2 ^ widths m ps.
Proof.
  induction ps as [|p ps IH]; cbn [encode widths foldr]; intros H; [cbn; lia|].
  destruct (H p ltac:(set_solver)) as [Hw Hv]. specialize (IH ltac:(set_solver)).
  fold (widths m ps). pose proof (widths_nonneg m ps ltac:(intros; apply H; set_solver)).
  rewrite Z.pow_add_r by lia. nia.
Qed.

Lemma encode_ext m v v' ps :
  (∀ p, p ∈ ps → digit v p = digit v' p) → encode m v ps = encode m v' ps.
Proof.
  induction ps as [|p ps IH]; cbn; intros H; [done|].
  by rewrite IH, (H p) by (intros; try apply H; by constructor).
Qed.

(** One step of each loop at a known partition. *)
Lemma Divide_digit m x p :
  p ∈ partitions → 0 ≤ digit (bitWidths m) p < 64 →
  Divide m x p = Ok (x / 2 ^ digit (bitWidths m) p).
Proof. intros Hp Hw. rewrite <- shr64_ok by done. set_unfold in Hp. by destruct_or?; subst. Qed.

Lemma Modulo_digit m x p :
  p ∈ partitions → 0 ≤ digit (bitWidths m) p < 64 →
  Modulo m x p = Ok (x mod 2 ^ digit (bitWidths m) p).
Proof.
  intros Hp Hw.
  assert (0 < 2 ^ digit (bitWidths m) p < 2 ^ 64) as Hpow.
  { split; [apply Z.pow_pos_nonneg; lia | apply Z.pow_lt_mono_r; lia]. }
  assert (Modulo m x p = (y ← shl64 1 (digit (bitWidths m) p);
            if y =? 0 then Err DivideByZero else Ok (x mod y))) as ->
    by (set_unfold in Hp; by destruct_or?; subst).
  rewrite shl64_ok, Z.mul_1_l, u64_small by (unfold is_u64; lia). cbn.
  destruct (Z.eqb_spec (2 ^ digit (bitWidths m) p) 0); [lia|done].
Qed.

Lemma reverse_step_known m v phy unit i :
  FindOrder m i ∈ partitions →
  reverse_step m v (phy, unit) i =
  (unit' ← shl64 unit (digit (bitWidths m) (FindOrder m i));
   Ok (phy ⊕ (digit v (FindOrder m i) ⊗ unit), unit')).
Proof.
  intros Hp. unfold reverse_step. set_unfold in Hp.
  by destruct_or? Hp; rewrite !Hp.
Qed.

Lemma reverse_loop m v l k phy :
  (∀ i, i ∈ l → FindOrder m i ∈ partitions ∧ 0 ≤ digit (bitWidths m) (FindOrder m i) < 64
     ∧ 0 ≤ digit v (FindOrder m i) < 2 ^ digit (bitWidths m) (FindOrder m i)) →
  0 ≤ k → k + widths m (FindOrder m <$> l) ≤ 64 → 0 ≤ phy < 2 ^ k →
  foldM (reverse_step m v) (phy, u64 (2 ^ k)) l =
  Ok (phy + 2 ^ k * encode m v (FindOrder m <$> l),
      u64 (2 ^ (k + widths m (FindOrder m <$> l)))).
Proof.
  revert k phy. induction l as [|i l IH]; intros k phy H Hk Hsum Hphy.
  { cbn. by rewrite Z.mul_0_r, !Z.add_0_r. }
  destruct (H i ltac:(set_solver)) as (Hp & Hw & Hd).
  cbn [foldM fmap list_fmap encode widths foldr] in *. fold (widths m (FindOrder m <$> l)) in *.
  set (p := FindOrder m i) in *. set (w := digit (bitWidths m) p) in *.
  pose proof (widths_nonneg m (FindOrder m <$> l) ltac:(intros q; rewrite list_elem_of_fmap;
    intros (j & -> & Hj); destruct (H j ltac:(set_solver)); lia)).
  assert (u64 (phy + u64 (digit v p * u64 (2 ^ k))) = phy + 2 ^ k * digit v p) as Ha.
  { assert (2 ^ (k + w) ≤ 2 ^ 64) by (apply Z.pow_le_mono_r; lia).
    rewrite Z.pow_add_r in * by lia. unfold u64.
    rewrite Z.mul_mod_idemp_r, Z.add_mod_idemp_r by lia.
    rewrite (Z.mul_comm (digit v p)). apply Z.mod_small. nia. }
  assert (shl64 (u64 (2 ^ k)) w = Ok (u64 (2 ^ (k + w)))) as Hb.
  { rewrite shl64_ok, Z.pow_add_r by lia. f_equal. unfold u64.
    by rewrite Z.mul_mod_idemp_l by lia. }
  rewrite reverse_step_known by done. fold p. fold w. rewrite Hb.
  cbn [mbind res_bind]. rewrite Ha, IH; [|set_solver|lia|lia|].
  - rewrite (Z.pow_add_r 2 k w) by lia. f_equal. f_equal; [lia|]. f_equal. f_equal. lia.
  - rewrite Z.pow_add_r by lia. nia.
Qed.

Lemma translate_step_known m out x i o1 :
  FindOrder m i ∈ partitions → 0 ≤ digit (bitWidths m) (FindOrder m i) < 64 →
  six_set (FindOrder m i) (x mod 2 ^ digit (bitWidths m) (FindOrder m i)) out = Ok o1 →
  translate_step m (out, x) i = Ok (o1, x / 2 ^ digit (bitWidths m) (FindOrder m i)).
Proof.
  intros Hp Hw Ho. unfold translate_step. rewrite Modulo_digit by done.
  cbn [mbind res_bind]. rewrite Ho. cbn [mbind res_bind]. by rewrite Divide_digit by done.
Qed.

Lemma translate_loop m v l out x :
  (∀ i, i ∈ l → FindOrder m i ∈ partitions ∧ 0 ≤ digit (bitWidths m) (FindOrder m i) < 64) →
  NoDup (FindOrder m <$> l) →
  (∀ i, i ∈ l → 0 ≤ digit v (FindOrder m i) < 2 ^ digit (bitWidths m) (FindOrder m i)) →
  ∃ out', foldM (translate_step m) (out, encode m v (FindOrder m <$> l) +
                   x * 2 ^ widths m (FindOrder m <$> l)) l = Ok (out', x) ∧
    ∀ q, digit out' q = if decide (q ∈ FindOrder m <$> l) then digit v q else digit out q.
Proof.
  revert out. induction l as [|i l IH]; intros out H Hnd Hv.
  { exists out. cbn. rewrite Z.mul_1_r. split; [done|]. intros q. by rewrite decide_False by inversion 1. }
  destruct (H i ltac:(set_solver)) as (Hp & Hw). pose proof (Hv i ltac:(set_solver)) as Hd.
  cbn [foldM fmap list_fmap encode widths foldr] in *. fold (widths m (FindOrder m <$> l)) in *.
  apply NoDup_cons in Hnd as [Hnin Hnd].
  set (p := FindOrder m i) in *. set (w := digit (bitWidths m) p) in *.
  set (E := encode m v (FindOrder m <$> l)) in *. set (W := widths m (FindOrder m <$> l)) in *.
  assert (0 ≤ W) by (apply widths_nonneg; intros q; rewrite list_elem_of_fmap;
    intros (j & -> & Hj); destruct (H j ltac:(set_solver)); lia).
  assert (digit v p + 2 ^ w * E + x * 2 ^ (w + W) = digit v p + (E + x * 2 ^ W) * 2 ^ w) as ->
    by (rewrite Z.pow_add_r by lia; ring).
  assert (0 < 2 ^ w) by lia.
  destruct (six_set_digit p (digit v p) out Hp) as (o1 & Ho1 & Hd1).
  destruct (IH o1 ltac:(set_solver) Hnd ltac:(set_solver)) as (o2 & Ho2 & Hd2).
  exists o2. split.
  - rewrite (translate_step_known _ _ _ _ o1); fold p; fold w; [|done|done|].
    + cbn [mbind res_bind]. by rewrite Z.div_add, Z.div_small by lia.
    + by rewrite Z.mod_add, Z.mod_small by lia.
  - intros q. rewrite Hd2, Hd1. destruct (decide (q = p)) as [->|].
    + rewrite decide_False by done. by rewrite decide_True by set_solver.
    + repeat case_decide; set_solver.
Qed.

Lemma digits_exist m ps x :
  NoDup ps → (∀ p, p ∈ ps → p ∈ partitions ∧ 0 ≤ digit (bitWidths m) p) → 0 ≤ x →
  ∃ v, (∀ p, p ∈ ps → 0 ≤ digit v p < 2 ^ digit (bitWidths m) p) ∧
       encode m v ps = x mod 2 ^ widths m ps.
Proof.
  revert x. induction ps as [|p ps IH]; intros x Hnd H Hx.
  { exists (mkSix 0 0 0 0 0 0). split; [set_solver|]. cbn. by rewrite Z.mod_1_r. }
  apply NoDup_cons in Hnd as [Hnin Hnd]. destruct (H p ltac:(set_solver)) as [Hp Hw].
  cbn [encode widths foldr]. fold (widths m ps). set (w := digit (bitWidths m) p) in *.
  assert (0 < 2 ^ w) by (apply Z.pow_pos_nonneg; lia).
  pose proof (widths_nonneg m ps ltac:(intros q Hq; apply H; set_solver)).
  assert (0 < 2 ^ widths m ps) by (apply Z.pow_pos_nonneg; lia).
  destruct (IH (x / 2 ^ w) Hnd ltac:(set_solver) ltac:(apply Z.div_pos; lia)) as (v & Hv & He).
  destruct (six_set_digit p (x mod 2 ^ w) v Hp) as (v' & _ & Hd). exists v'. split.
  - intros q Hq. rewrite Hd. case_decide; [subst; apply Z.mod_pos_bound; lia|].
    apply Hv. set_solver.
  - assert (encode m v' ps = encode m v ps) as ->.
    { apply encode_ext. intros q Hq. rewrite Hd, decide_False; [done|]. by intros ->. }
    rewrite He, Hd, decide_True by done. by rewrite Z.pow_add_r, Z.rem_mul_r by lia.
Qed.

(** *** Mapping schemes *)

Definition field_tokens : list string := ["R"; "C"; "BK"; "RK"; "CH"; "SA"]%string.

Definition token_part (tok : string) : MemoryPartition :=
  if decide (tok = "R"%string) then MEM_ROW
  else if decide (tok = "C"%string) then MEM_COL
  else if decide (tok = "BK"%string) then MEM_BANK
  else if decide (tok = "RK"%string) then MEM_RANK
  else if decide (tok = "CH"%string) then MEM_CHANNEL
  else if decide (tok = "SA"%string) then MEM_SUBARRAY
  else MEM_UNKNOWN.

Definition join (toks : list string) : string := String.concat ":" toks.

(** Every list of at most [n] distinct elements of [l]. *)
Fixpoint arrangements (n : nat) (l : list string) : list (list string) :=
  [] :: match n with
        | O => []
        | S n => l ≫= λ t, cons t <$> arrangements n (filter (λ u, u ≠ t) l)
        end.

Lemma arrangements_complete n l toks :
  NoDup toks → toks ⊆ l → (length toks ≤ n)%nat → toks ∈ arrangements n l.
Proof.
  revert l toks. induction n as [|n IH]; intros l [|t toks] Hnd Hsub Hn;
    cbn in *; try (by constructor); [lia|]. right.
  apply NoDup_cons in Hnd as [Hnin Hnd]. apply list_elem_of_bind.
  exists t. split; [|by apply Hsub; left].
  apply list_elem_of_fmap. exists toks. split; [done|]. apply IH; [done| |lia].
  intros u Hu. apply list_elem_of_filter. split; [by intros ->|]. apply Hsub. by right.
Qed.

Definition scheme_check (toks : list string) : bool :=
  match SetAddressMappingScheme (join toks) (TranslationMethod_new (mkSix 0 0 0 0 0 0)) with
  | Ok m => bool_decide (NoDup (orders m)) && bool_decide (Forall (λ o, 0 ≤ o < 6) (orders m)) &&
      forallb (λ '(i, t), digit (order m) (token_part t) =? 5 - Z.of_nat i) (imap pair toks)
  | Err _ => false
  end.

Lemma scheme_check_all : forallb scheme_check (arrangements 6 field_tokens) = true.
Proof. vm_compute. reflexivity. Qed.

Lemma scheme_any s m m0 :
  SetAddressMappingScheme s m =
  (m' ← SetAddressMappingScheme s m0; Ok (m <| order := order m' |>)).
Proof.
  unfold SetAddressMappingScheme. destruct (16 <? _); [done|].
  destruct (fold_left _ _ _) as [f cur]. unfold take_order.
  repeat (case_match; simplify_eq); done.
Qed.

(** ** Properties *)

Section Properties.
Context (t : AddressTranslator) (m : TranslationMethod) (busBits low : Z).
Hypothesis (Hmethod : method t = Some m) (Hm : method_ok m)
  (Hlow : low_bits t = Ok (busBits, low)) (Hb : 0 ≤ busBits) (Hl : 0 ≤ low)
  (Hbl : busBits + low < 64).

Lemma Translate_encode v x r out :
  fields_fit m v → 0 ≤ r < 2 ^ (busBits + low) →
  Translate (2 ^ (busBits + low) * (encode m v (layout m) + x * 2 ^ widths m (layout m)) + r)
    out t = Ok (v, t <| lowColBits := low |>).
Proof using Hmethod Hm Hlow Hb Hl Hbl.
  intros Hfit Hr. unfold Translate. rewrite Hmethod, Hlow. cbn [mbind res_bind].
  assert (0 < 2 ^ busBits) by (apply Z.pow_pos_nonneg; lia).
  assert (0 < 2 ^ low) by (apply Z.pow_pos_nonneg; lia).
  rewrite shr64_ok by lia. cbn [mbind res_bind]. rewrite shr64_ok by lia. cbn [mbind res_bind].
  rewrite Z.div_div, <- Z.pow_add_r, (Z.mul_comm (2 ^ (busBits + low))), Z.div_add_l,
    (Z.div_small r), Z.add_0_r by lia.
  unfold fields_fit in Hfit. rewrite Forall_forall in Hfit.
  destruct (translate_loop m v [0; 1; 2; 3; 4; 5] out x) as (o & Ho & Hd).
  - intros i Hi. assert (FindOrder m i ∈ layout m) as Hin by (apply list_elem_of_fmap; eauto).
    split; [by apply (layout_known m Hm) | by apply (layout_width m Hm)].
  - exact (layout_NoDup m Hm).
  - intros i Hi. apply Hfit, (layout_known m Hm). apply list_elem_of_fmap. eauto.
  - change (FindOrder m <$> [0; 1; 2; 3; 4; 5]) with (layout m) in Ho. rewrite Ho.
    cbn. do 2 f_equal. apply six_ext. intros p Hp. rewrite Hd, decide_True; [done|].
    change (p ∈ layout m). by rewrite (layout_perm m Hm).
Qed.

Lemma ReverseTranslate_encode v :
  fields_fit m v → busBits + low + widths m (layout m) ≤ 64 →
  ReverseTranslate v t = Ok (2 ^ (busBits + low) * encode m v (layout m), t <| lowColBits := low |>).
Proof using Hmethod Hm Hlow Hb Hl Hbl.
  intros Hfit Hsum. unfold ReverseTranslate. rewrite Hmethod. cbn [deref mbind res_bind].
  rewrite Hlow. cbn [mbind res_bind].
  assert (2 ^ (busBits + low) < 2 ^ 64) by (apply Z.pow_lt_mono_r; lia).
  assert (2 ^ busBits < 2 ^ 64) by (apply Z.pow_lt_mono_r; lia).
  assert (0 < 2 ^ busBits) by (apply Z.pow_pos_nonneg; lia).
  rewrite shl64_ok, Z.mul_1_l, u64_small by (unfold is_u64; lia). cbn [mbind res_bind].
  rewrite shl64_ok, <- Z.pow_add_r by lia. cbn [mbind res_bind].
  unfold fields_fit in Hfit. rewrite Forall_forall in Hfit.
  rewrite reverse_loop; [by rewrite Z.add_0_l| |lia|exact Hsum|].
  - intros i Hi. assert (FindOrder m i ∈ layout m) as Hin by (apply list_elem_of_fmap; eauto).
    split_and!; try (by apply (layout_known m Hm)); try (by apply (layout_width m Hm));
      by apply Hfit, (layout_known m Hm).
  - split; [lia|]. apply Z.pow_pos_nonneg; lia.
Qed.

(** The fields of any address: they fit, and write the address without the bits
    below the burst and above the layout. *)
Lemma Translate_fits a out : is_u64 a →
  ∃ v, Translate a out t = Ok (v, t <| lowColBits := low |>) ∧ fields_fit m v ∧
    encode m v (layout m) = (a / 2 ^ (busBits + low)) mod 2 ^ widths m (layout m).
Proof using Hmethod Hm Hlow Hb Hl Hbl.
  intros Ha. assert (0 < 2 ^ (busBits + low)) by (apply Z.pow_pos_nonneg; lia).
  destruct (digits_exist m (layout m) (a / 2 ^ (busBits + low))) as (v & Hv & He).
  { by apply layout_NoDup. }
  { intros p Hp. split; [by apply (layout_known m Hm)|]. by apply (layout_width m Hm). }
  { apply Z.div_pos; unfold is_u64 in *; lia. }
  assert (fields_fit m v) as Hfit.
  { unfold fields_fit. apply Forall_forall. intros p Hp. apply Hv. by rewrite (layout_perm m Hm). }
  pose proof (Translate_encode v (a / 2 ^ (busBits + low) / 2 ^ widths m (layout m)) (a mod 2 ^ (busBits + low)) out Hfit
    ltac:(apply Z.mod_pos_bound; lia)) as E.
  assert (∀ x y, y * (x / y) + x mod y = x) as Hdm by (intros; symmetry; apply Z_div_mod_eq_full).
  rewrite He, (Z.mul_comm (_ / _ / _)), (Z.add_comm (_ mod _) (_ * _)), !Hdm in E. by exists v.
Qed.
End Properties.

(** C6.  Round trip of the fields: whenever the six orders are the six
    positions, the fields fit their widths and the whole layout fits 64 bits,
    [ReverseTranslate] succeeds and [Translate] gives the same six fields back,
    whatever the result variables held before. *)
Theorem translate_reverse_translate t m b l v :
  method t = Some m → method_ok m → low_bits t = Ok (b, l) → 0 ≤ b → 0 ≤ l → b + l < 64 →
  fields_fit m v → b + l + widths m (layout m) ≤ 64 →
  ∃ a t', ReverseTranslate v t = Ok (a, t') ∧
    ∀ out, Translate a out t' = Ok (v, t').
Proof.
  intros H1 H2 H3 H4 H5 H6 Hfit Hsum.
  exists (2 ^ (b + l) * encode m v (layout m)), (t <| lowColBits := l |>). split.
  { by apply (ReverseTranslate_encode t m b l). }
  intros out. assert (0 < 2 ^ (b + l)) by (apply Z.pow_pos_nonneg; lia).
  pose proof (Translate_encode (t <| lowColBits := l |>) m b l H1 H2 H3 H4 H5 H6 v 0 0 out Hfit ltac:(lia)) as E.
  rewrite Z.mul_0_l, !Z.add_0_r in E. exact E.
Qed.

(** C7.  Translating any 64-bit address succeeds and gives fields within their
    widths; rebuilding gives the address back with the bits below the burst and
    above the layout cleared. *)
Theorem reverse_translate_translate t m b l a out :
  method t = Some m → method_ok m → low_bits t = Ok (b, l) → 0 ≤ b → 0 ≤ l → b + l < 64 →
  b + l + widths m (layout m) ≤ 64 → is_u64 a →
  ∃ v t', Translate a out t = Ok (v, t') ∧ fields_fit m v ∧
    ReverseTranslate v t' =
    Ok (2 ^ (b + l) * ((a / 2 ^ (b + l)) mod 2 ^ widths m (layout m)), t').
Proof.
  intros H1 H2 H3 H4 H5 H6 Hsum Ha. destruct (Translate_fits t m b l H1 H2 H3 H4 H5 H6 a out Ha) as (v & E & Hfit & He).
  exists v. eexists. split; [exact E|]. split; [done|].
  rewrite (ReverseTranslate_encode (t <| lowColBits := l |>) m b l) by done. by rewrite He.
Qed.

(** C11.  Every mapping scheme built from distinct field names joined with ":"
    fits the parser's buffer and yields six distinct positions, those of the
    named fields counted down from the most significant one; the fields it does
    not name fill the remaining positions.  The widths are untouched. *)
Theorem scheme_orders toks m :
  NoDup toks → toks ⊆ field_tokens →
  ∃ m', SetAddressMappingScheme (join toks) m = Ok m' ∧
    NoDup (orders m') ∧ Forall (λ o, 0 ≤ o < 6) (orders m') ∧
    bitWidths m' = bitWidths m ∧
    ∀ i t, toks !! i = Some t → digit (order m') (token_part t) = 5 - Z.of_nat i.
Proof.
  intros Hnd Hsub.
  pose proof (proj1 (forallb_forall _ _) scheme_check_all toks) as Hc.
  rewrite <- list_elem_of_In in Hc.
  specialize (Hc (arrangements_complete _ _ _ Hnd Hsub
    (submseteq_length _ _ (NoDup_submseteq _ _ Hnd Hsub)))).
  rewrite (scheme_any _ m (TranslationMethod_new (mkSix 0 0 0 0 0 0))).
  unfold scheme_check in Hc.
  destruct (SetAddressMappingScheme (join toks) _) as [m'|]; [|done]. cbn [mbind res_bind].
  b2p. eexists. split; [done|]. split; [done|]. split; [done|]. split; [done|].
  intros i t Hi. apply Z.eqb_eq.
  refine (proj1 (forallb_forall _ _) H0 (i, t) _).
  apply list_elem_of_In, list_elem_of_lookup. exists i. by rewrite list_lookup_imap, Hi.
Qed.

(** ** Witnesses *)

Definition example_method : TranslationMethod :=
  TranslationMethod_new (mkSix 0 0 0 0 0 0).
Definition example_translator : AddressTranslator :=
  SetTranslationMethod example_method AddressTranslator_new.
Definition example_fields : six := mkSix 466 115 4 0 1 15.

Lemma translate_reverse_translate_witness :
  method_ok example_method ∧ fields_fit example_method example_fields ∧
  ∃ a t', ReverseTranslate example_fields example_translator = Ok (a, t') ∧
    ∀ out, Translate a out t' = Ok (example_fields, t').
Proof.
  assert (method_ok example_method) as H by by_decide.
  assert (fields_fit example_method example_fields) as H'
    by by_decide.
  split; [exact H|]. split; [exact H'|].
  apply (translate_reverse_translate example_translator example_method 3 3);
    try (vm_compute; congruence); try done; lia.
Defined.

Lemma reverse_translate_translate_witness :
  is_u64 123456789 ∧
  ∃ v t', Translate 123456789 example_fields example_translator = Ok (v, t') ∧
    fields_fit example_method v ∧
    ReverseTranslate v t' =
    Ok (2 ^ (3 + 3) * ((123456789 / 2 ^ (3 + 3)) mod 2 ^ widths example_method (layout example_method)), t').
Proof.
  split; [unfold is_u64; lia|].
  apply (reverse_translate_translate example_translator example_method 3 3 123456789 example_fields);
    try (vm_compute; congruence); try done; try (unfold is_u64; lia).
  by_decide.
Defined.

Lemma scheme_orders_witness :
  NoDup ["R"; "RK"; "BK"; "CH"; "C"]%string ∧
  ∃ m', SetAddressMappingScheme (join ["R"; "RK"; "BK"; "CH"; "C"]%string) example_method = Ok m' ∧
    NoDup (orders m') ∧ Forall (λ o, 0 ≤ o < 6) (orders m') ∧
    bitWidths m' = bitWidths example_method ∧
    ∀ i t, ["R"; "RK"; "BK"; "CH"; "C"]%string !! i = Some t →
      digit (order m') (token_part t) = 5 - Z.of_nat i.
Proof.
  assert (NoDup ["R"; "RK"; "BK"; "CH"; "C"]%string) as H
    by by_decide.
  split; [exact H|]. apply scheme_orders; [exact H|].
  intros t Ht. repeat (apply elem_of_cons in Ht as [->|Ht]; [by repeat constructor|]).
  by apply elem_of_nil in Ht.
Defined.
