(* ===== verification/Config.v ===== *)
(** * Configuration files

    NVmain/src/Config.cpp: the key/value store every component reads its
    parameters from, the parser of configuration files, and the conversions of
    the C library it uses ([strtoul], [atoi], [atof]). *)

From S2P Require Import Prelude.

#[local] Open Scope string_scope.
#[local] Open Scope Z_scope.

(** ** The C library's conversions

    [isspace] and decimal digits in the C locale. *)

Definition is_space (a : Ascii.ascii) : bool :=
  let n := Z.of_nat (Ascii.nat_of_ascii a) in (n =? 32) || ((9 <=? n) && (n <=? 13)).
Definition digit_of (a : Ascii.ascii) : option Z :=
  let n := Z.of_nat (Ascii.nat_of_ascii a) in
  if (48 <=? n) && (n <=? 57) then Some (n - 48) else None.

Fixpoint skip_spaces (s : string) : string :=
  match s with
  | String a s' => if is_space a then skip_spaces s' else s
  | EmptyString => s
  end.

Definition read_sign (s : string) : bool * string :=
  match s with
  | String "-" s' => (true, s')
  | String "+" s' => (false, s')
  | _ => (false, s)
  end.

(** The value and number of the digits at the front, and what follows. *)
Fixpoint read_digits (acc : Z) (n : nat) (s : string) : Z * nat * string :=
  match s with
  | String a s' =>
      match digit_of a with
      | Some d => read_digits (10 * acc + d) (S n) s'
      | None => (acc, n, s)
      end
  | EmptyString => (acc, n, s)
  end.

(** [strtoul(s, NULL, 10)]: saturates; a minus sign negates modulo 2^64. *)
Definition strtoul (s : string) : Z :=
  let '(neg, s1) := read_sign (skip_spaces s) in
  let '(v, _, _) := read_digits 0 0 s1 in
  if u64_max <? v then u64_max else if neg then u64 (- v) else v.

(** [atoi]: [strtol] cut to an [int]. *)
Definition atoi (s : string) : Z :=
  let '(neg, s1) := read_sign (skip_spaces s) in
  let '(v, _, _) := read_digits 0 0 s1 in
  s32 (if neg then Z.max (- v) (- 9223372036854775808) else Z.min v 9223372036854775807).

(** [m * 10^e] as a [double], correctly rounded. *)
Definition d_scale10 (m e : Z) : double :=
  match m with
  | Zpos p =>
      if 0 <=? e then d_of_Z (m * 10 ^ e)
      else dlit m (Z.to_pos (10 ^ (- e)))
  | _ => dzero
  end.

(** The prefix [p] of lower case letters, in either case. *)
Fixpoint starts_with (p s : string) : bool :=
  match p, s with
  | EmptyString, _ => true
  | String a p, String b s =>
      (Ascii.eqb a b || (Ascii.nat_of_ascii a =? Ascii.nat_of_ascii b + 32)%nat) && starts_with p s
  | _, EmptyString => false
  end.

(** [atof] on decimal literals, infinities and NaNs (no hexadecimal literals). *)
Definition atof (s : string) : double :=
  let '(neg, s1) := read_sign (skip_spaces s) in
  if starts_with "inf" s1 then S754_infinity neg else if starts_with "nan" s1 then S754_nan else
  let '(v1, n1, s2) := read_digits 0 0 s1 in
  let '(v2, n2, s3) :=
    match s2 with
    | String "." s' => read_digits v1 0 s'
    | _ => (v1, 0%nat, s2)
    end in
  if (n1 + n2 =? 0)%nat then dzero else
  let e :=
    match s3 with
    | String a s' =>
        if Ascii.eqb a "e" || Ascii.eqb a "E" then
          let '(eneg, s4) := read_sign s' in
          let '(ev, en, _) := read_digits 0 0 s4 in
          if (en =? 0)%nat then 0 else if eneg then - ev else ev
        else 0
    | EmptyString => 0
    end in
  let d := d_scale10 v2 (e - Z.of_nat n2) in
  if neg then SFopp d else d.

(** [std::string(x)] of an integer: its decimal digits. *)
Fixpoint digits_loop (fuel : nat) (z : Z) (acc : string) : string :=
  match fuel with
  | O => acc
  | S fuel =>
      let acc := String (Ascii.ascii_of_nat (Z.to_nat (48 + z mod 10))) acc in
      if z <? 10 then acc else digits_loop fuel (z / 10) acc
  end.
Definition decimal (z : Z) : string := digits_loop 20 z EmptyString.

(** The lines [getline] returns: the pieces between separators. *)
Fixpoint split_on (sep : Ascii.ascii) (cur : string) (s : string) : list string :=
  match s with
  | EmptyString => [cur]
  | String a s =>
      if Ascii.eqb a sep then cur :: split_on sep EmptyString s
      else split_on sep (cur +:+ String a EmptyString) s
  end.

(** ** The store *)

(*| NVmain/src/Config.h 94-102 Config *)
Record Config := mkConfig {
  fileName : string;
  values : gmap string string;
  warned : gset string;
  hookList : list string;
  debugLogFile : bool;  (* debugLogFile.is_open( ) *)
  useDebugLog : bool
}.

#[export] Instance eta_Config : Settable Config :=
  fields! mkConfig < fileName; values; warned; hookList; debugLogFile; useDebugLog >.

(*| NVmain/src/Config.cpp 46-50 Config::Config *)
Definition Config_new : Config := mkConfig "" ∅ ∅ [] false false.

(** *** The parser *)

Definition is_blank (a : Ascii.ascii) : bool :=
  Ascii.eqb a " " || Ascii.eqb a "009" || Ascii.eqb a "013" || Ascii.eqb a "010".

(** [line.substr(line.find_first_not_of(" \t\r\n"))]; empty if there is none. *)
Fixpoint from_first_not_blank (s : string) : string :=
  match s with
  | String a s' => if is_blank a then from_first_not_blank s' else s
  | EmptyString => s
  end.

(** The part before the first [;]. *)
Fixpoint before_comment (s : string) : string :=
  match s with
  | String a s' => if Ascii.eqb a ";" then EmptyString else String a (before_comment s')
  | EmptyString => s
  end.

(** One line of a file. The first [strtok] cannot return [NULL] unless the line
    starts with a NUL character. *)
(*| NVmain/src/Config.cpp 100-163 Config::Read *)
Definition Read_line (line : string) (c : Config) : res Config :=
  match from_first_not_blank line with
  | EmptyString => Ok c
  | String a _ as rest =>
      if Ascii.eqb a ";" then Ok c else
      let subline := before_comment rest in
      let tokens := strtok (λ a, Ascii.eqb a " ") (c_str subline) in
      ty ← deref NullDeref (head tokens);
      let c := c <| values ::= delete ty |> in
      match tokens with
      | _ :: v :: _ =>
          Ok (if String.eqb ty "AddHook" then c <| hookList ::= λ l, (l ++ [v])%list |>
              else c <| values ::= <[ty := v]> |>)
      | _ => Ok (c <| values ::= <[ty := EmptyString]> |>)
      end
  end.

(** [opens] is the file system: whether a file of that name can be opened for
    writing. A stream that is open already stays open. *)
(*| NVmain/src/Config.cpp 480-495 Config::SetDebugLog *)
Definition SetDebugLog (opens : string → bool) (c : Config) : res Config :=
  match values c !! "DebugLog" with
  | Some debugLogFilename =>
      let c := c <| debugLogFile ::= λ is_open, is_open || opens (c_str debugLogFilename) |> in
      if negb (debugLogFile c) then Err ExitCall else Ok (c <| useDebugLog := true |>)
  | None => Ok c
  end.

(** The copy has every value and hook, an empty set of warnings and a log file of
    its own. The flag is not initialised: its value is an argument. *)
(*| NVmain/src/Config.cpp 57-78 Config::Config *)
Definition Config_copy (opens : string → bool) (useDebugLog0 : bool) (conf : Config) : res Config :=
  SetDebugLog opens (mkConfig (fileName conf) (values conf) ∅ (hookList conf) false useDebugLog0).

(** [content] is the content of the file, [None] if it cannot be opened. *)
(*| NVmain/src/Config.cpp 87-180 Config::Read *)
Definition Read (opens : string → bool) (filename : string) (content : option string) (c : Config) : res Config :=
  let c := c <| fileName := filename |> in
  match content with
  | None => Err ExitCall
  | Some text =>
      c ← foldM (λ c line, Read_line line c) c (split_on "010" EmptyString text);
      SetDebugLog opens c
  end.

(** *** Queries *)

(*| NVmain/src/Config.cpp 182-195 Config::KeyExists *)
Definition KeyExists (key : string) (c : Config) : bool := bool_decide (is_Some (values c !! key)).

Definition warn (key : string) (c : Config) : Config :=
  if KeyExists key c then c else c <| warned ::= λ w, {[ key ]} ∪ w |>.

(** The shape the value queries share: [noread] before any value was read,
    [missing] when the key has no value. *)
(*| NVmain/src/Config.cpp 213-246 Config::GetString *)
Definition lookup_value {A} (noread missing : A) (conv : string → A) (key : string) : ST Config A := λ c,
  if decide (values c = ∅) then Ok (noread, c)
  else Ok (match values c !! key with Some v => conv v | None => missing end, warn key c).

(** The overloads that take a reference: the value is kept when there is none. *)
(*| NVmain/src/Config.cpp 198-210 Config::GetString *)
Definition lookup_ref {A} (get1 : string → ST Config A) (key : string) (value : A) : ST Config A := λ c,
  if negb (KeyExists key c) && negb (bool_decide (key ∈ warned c)) then
    Ok (value, c <| warned ::= λ w, {[ key ]} ∪ w |>)
  else if KeyExists key c then get1 key c
  else Ok (value, c).

(*| NVmain/src/Config.cpp 213-246 Config::GetString *)
Definition GetString : string → ST Config string := lookup_value "" "" (λ s, s).
(*| NVmain/src/Config.cpp 198-210 Config::GetString *)
Definition GetString_ref := lookup_ref GetString.
(*| NVmain/src/Config.cpp 268-300 Config::GetValueUL *)
Definition GetValueUL : string → ST Config Z := lookup_value u64_max u64_max strtoul.
(*| NVmain/src/Config.cpp 254-266 Config::GetValueUL *)
Definition GetValueUL_ref := lookup_ref GetValueUL.
(*| NVmain/src/Config.cpp 316-348 Config::GetValue *)
Definition GetValue : string → ST Config Z := lookup_value (-1) (-1) atoi.
(*| NVmain/src/Config.cpp 302-314 Config::GetValue *)
Definition GetValue_ref := lookup_ref GetValue.
(*| NVmain/src/Config.cpp 376-408 Config::GetEnergy *)
Definition GetEnergy : string → ST Config double := lookup_value (d_of_Z (-1)) (d_of_Z (-1)) atof.
(*| NVmain/src/Config.cpp 362-374 Config::GetEnergy *)
Definition GetEnergy_ref := lookup_ref GetEnergy.

(*| NVmain/src/Config.cpp 430-444 Config::GetBool *)
Definition GetBool (key : string) : ST Config bool := λ c,
  let c := warn key c in
  if KeyExists key c
  then match GetString key c with
       | Ok (v, c) => Ok (String.eqb v "true", c)
       | Err e => Err e
       end
  else Ok (false, c).
(*| NVmain/src/Config.cpp 415-428 Config::GetBool *)
Definition GetBool_ref := lookup_ref GetBool.

(*| NVmain/src/Config.cpp 350-360 Config::SetValue *)
Definition SetValue (key value : string) (c : Config) : Config :=
  c <| values ::= λ m, <[key := value]> (delete key m) |>.

(** [std::map::insert]: an existing value stays. *)
(*| NVmain/src/Config.cpp 249-252 Config::SetString *)
Definition SetString (key value : string) (c : Config) : Config :=
  c <| values ::= λ m, match m !! key with Some _ => m | None => <[key := value]> m end |>.
(*| NVmain/src/Config.cpp 410-413 Config::SetEnergy *)
Definition SetEnergy : string → string → Config → Config := SetString.
(*| NVmain/src/Config.cpp 446-452 Config::SetBool *)
Definition SetBool (key : string) (value : bool) (c : Config) : Config :=
  if value then SetString key "true" c else SetString key "false" c.

(*| NVmain/src/Config.cpp 454-457 Config::GetHooks *)
Definition GetHooks (c : Config) : list string := hookList c.

(** ** Properties *)

(** Characters of a key or a value: nothing the parser gives a meaning to. *)
Definition plain_char (a : Ascii.ascii) : bool :=
  negb (is_blank a) && negb (Ascii.eqb a ";") && negb (Ascii.eqb a "000").
Fixpoint all_chars (f : Ascii.ascii → bool) (s : string) : bool :=
  match s with EmptyString => true | String a s => f a && all_chars f s end.
Definition plain (s : string) : Prop := s ≠ EmptyString ∧ all_chars plain_char s = true.

(** The text of a configuration file with one [key value] pair per line. *)
Fixpoint print_config (l : list (string * string)) : string :=
  match l with
  | [] => EmptyString
  | (k, v) :: l => k +:+ (" " +:+ (v +:+ (String "010" (print_config l))))
  end.

Lemma string_app_cons a s1 s2 : String a s1 +:+ s2 = String a (s1 +:+ s2).
Proof. reflexivity. Qed.
Lemma string_app_nil s : s +:+ EmptyString = s.
Proof. induction s as [|a s IH]; [done|]. by rewrite string_app_cons, IH. Qed.
Lemma string_app_assoc s1 s2 s3 : (s1 +:+ s2) +:+ s3 = s1 +:+ (s2 +:+ s3).
Proof. induction s1 as [|a s1 IH]; [done|]. by rewrite !string_app_cons, IH. Qed.

Lemma all_chars_app f s1 s2 : all_chars f (s1 +:+ s2) = all_chars f s1 && all_chars f s2.
Proof. induction s1 as [|a s1 IH]; [done|]. rewrite string_app_cons. cbn. by rewrite IH, andb_assoc. Qed.

Lemma plain_char_spec a :
  plain_char a = true → is_blank a = false ∧ Ascii.eqb a ";" = false ∧ Ascii.eqb a "000" = false
    ∧ Ascii.eqb a " " = false ∧ Ascii.eqb a "010" = false.
Proof.
  unfold plain_char. intros H. b2p. split_and!; try done; unfold is_blank in *; b2p; done.
Qed.

Lemma split_on_line sep cur s rest :
  all_chars (λ a, negb (Ascii.eqb a sep)) s = true →
  split_on sep cur (s +:+ String sep rest) = (cur +:+ s) :: split_on sep EmptyString rest.
Proof.
  revert cur. induction s as [|a s IH]; intros cur Hs.
  - rewrite string_app_nil. change (EmptyString +:+ String sep rest) with (String sep rest).
    cbn [split_on]. by rewrite Ascii.eqb_refl.
  - rewrite string_app_cons. cbn [all_chars split_on tokens_from] in *. b2p. destruct (Ascii.eqb a sep); [done|].
    rewrite IH by done. by rewrite string_app_assoc.
Qed.

Lemma all_chars_impl f g s : (∀ a, f a = true → g a = true) → all_chars f s = true → all_chars g s = true.
Proof. intros Hfg. induction s as [|a s IH]; cbn; [done|]. intros H. b2p. rewrite Hfg, IH; done. Qed.

Lemma before_comment_plain s : all_chars (λ a, negb (Ascii.eqb a ";")) s = true → before_comment s = s.
Proof. induction s as [|a s IH]; cbn; [done|]. intros H. b2p. destruct (Ascii.eqb a ";"); [done|]. by rewrite IH. Qed.

Lemma c_str_plain s : all_chars (λ a, negb (Ascii.eqb a "000")) s = true → c_str s = s.
Proof.
  induction s as [|a s IH]; cbn; [done|]. intros H. b2p.
  change Ascii.zero with "000"%char. destruct (Ascii.eqb a "000"); [done|]. by rewrite IH.
Qed.

Lemma tokens_from_word cur s rest :
  all_chars (λ a, negb (Ascii.eqb a " ")) s = true → cur +:+ s ≠ EmptyString →
  tokens_from (λ a, Ascii.eqb a " ") cur (s +:+ (" " +:+ rest))
    = (cur +:+ s) :: tokens_from (λ a, Ascii.eqb a " ") EmptyString rest.
Proof.
  revert cur. induction s as [|a s IH]; intros cur Hs Hc.
  - rewrite string_app_nil in *. change (EmptyString +:+ (" " +:+ rest)) with (String " " rest).
    cbn [tokens_from]. cbn. by rewrite decide_False.
  - rewrite string_app_cons. cbn [all_chars split_on tokens_from] in *. b2p. destruct (Ascii.eqb a " "); [done|].
    assert ((cur +:+ String a EmptyString) +:+ s = cur +:+ String a s) as E by (by rewrite string_app_assoc).
    rewrite IH, E; [done|done|by rewrite E].
Qed.

Lemma tokens_from_last cur s :
  all_chars (λ a, negb (Ascii.eqb a " ")) s = true → cur +:+ s ≠ EmptyString →
  tokens_from (λ a, Ascii.eqb a " ") cur s = [cur +:+ s].
Proof.
  revert cur. induction s as [|a s IH]; intros cur Hs Hc.
  - rewrite string_app_nil in *. cbn. by rewrite decide_False.
  - cbn in *. b2p. destruct (Ascii.eqb a " "); [done|].
    assert ((cur +:+ String a EmptyString) +:+ s = cur +:+ String a s) as E by (by rewrite string_app_assoc).
    rewrite IH, E; [done|done|by rewrite E].
Qed.

Lemma Read_line_pair k v c :
  plain k → plain v → k ≠ "AddHook" →
  Read_line (k +:+ (" " +:+ v)) c = Ok (c <| values ::= <[k := v]> |>).
Proof.
  intros [Hk Pk] [Hv Pv] Hh.
  assert (all_chars (λ a, negb (Ascii.eqb a ";")) (k +:+ (" " +:+ v)) = true ∧
          all_chars (λ a, negb (Ascii.eqb a "000")) (k +:+ (" " +:+ v)) = true) as [H1 H2].
  { rewrite !all_chars_app. split; apply andb_true_iff; (split; [|cbn]);
      (eapply all_chars_impl; [|eassumption]); intros a Ha%plain_char_spec; by destruct_and!; simplify_eq;
      apply negb_true_iff. }
  unfold Read_line. assert (from_first_not_blank (k +:+ (" " +:+ v)) = k +:+ (" " +:+ v) ∧
    ∃ a s, k = String a s ∧ Ascii.eqb a ";" = false) as [-> (a & s & Ek & Ea)].
  { destruct k as [|a s]; [done|]. cbn in Pk. b2p. destruct (plain_char_spec a ltac:(done)) as (E & E' & _).
    split; [|eauto]. rewrite string_app_cons. cbn [from_first_not_blank]. by rewrite E. }
  rewrite Ek at 1. rewrite string_app_cons, Ea. cbv zeta. rewrite <- string_app_cons, <- Ek, before_comment_plain, c_str_plain by done.
  assert (∀ s, all_chars plain_char s = true → all_chars (λ a, negb (Ascii.eqb a " ")) s = true) as Hsp.
  { intros s' Hs'. eapply all_chars_impl; [|exact Hs']. intros x Hx%plain_char_spec. destruct_and!. by apply negb_true_iff. }
  unfold strtok. rewrite tokens_from_word, tokens_from_last by auto. cbn.
  f_equal. unfold upd. cbn. rewrite insert_delete_eq. change (EmptyString +:+ k) with k. by rewrite (proj2 (String.eqb_neq _ _)).
Qed.

Lemma Read_lines_print l c :
  Forall (λ kv, plain kv.1 ∧ plain kv.2 ∧ kv.1 ≠ "AddHook") l →
  foldM (λ c line, Read_line line c) c (split_on "010" EmptyString (print_config l))
  = Ok (c <| values ::= λ m, foldl (λ m kv, <[kv.1 := kv.2]> m) m l |>).
Proof.
  intros Hl. revert c. induction Hl as [|[k v] l (Pk & Pv & Hh) Hl IH]; intros c.
  - cbn. by destruct c.
  - cbn [print_config foldl fst snd] in *.
    assert (k +:+ (" " +:+ (v +:+ String "010" (print_config l)))
      = (k +:+ (" " +:+ v)) +:+ String "010" (print_config l)) as -> by (by rewrite !string_app_assoc).
    rewrite split_on_line.
    2: { rewrite !all_chars_app. destruct Pk as [_ Pk], Pv as [_ Pv]. apply andb_true_iff. split; [|cbn];
      (eapply all_chars_impl; [|eassumption]); intros a Ha%plain_char_spec; destruct_and!; by apply negb_true_iff. }
    cbn [foldM]. change (EmptyString +:+ ?x) with x. rewrite Read_line_pair by done. cbn [mbind res_bind]. rewrite IH. done.
Qed.

(** *** Numbers *)

Lemma digit_of_ascii d :
  0 ≤ d < 10 → digit_of (Ascii.ascii_of_nat (Z.to_nat (48 + d))) = Some d.
Proof.
  intros Hd. unfold digit_of. rewrite Ascii.nat_ascii_embedding by lia. rewrite Z2Nat.id by lia.
  rewrite (proj2 (Z.leb_le _ _)), (proj2 (Z.leb_le _ _)) by lia. cbn. f_equal. lia.
Qed.

Lemma digits_loop_read fuel z acc :
  0 ≤ z < 10 ^ Z.of_nat fuel → (0 < fuel)%nat →
  ∃ d s k, digits_loop fuel z acc = String d s ∧ digit_of d ≠ None ∧
    ∀ a n, read_digits a n (digits_loop fuel z acc) = read_digits (a * 10 ^ Z.of_nat k + z) (n + k) acc.
Proof.
  revert z acc. induction fuel as [|fuel IH]; intros z acc Hz Hf; [lia|].
  cbn [digits_loop]. pose proof (Z.mod_pos_bound z 10 ltac:(lia)) as Hm.
  pose proof (digit_of_ascii (z mod 10) ltac:(lia)) as Hd.
  destruct (Z.ltb_spec z 10) as [Hlt|Hge].
  - eexists _, acc, 1%nat. split_and!; [done|by rewrite Hd|]. intros a n. cbn [read_digits]. rewrite Hd.
    rewrite Z.mod_small by lia. f_equal; [|lia]. change (10 ^ Z.of_nat 1) with 10. lia.
  - rewrite Nat2Z.inj_succ, Z.pow_succ_r in Hz by lia.
    destruct (IH (z / 10) (String (Ascii.ascii_of_nat (Z.to_nat (48 + z mod 10))) acc)) as (d & s & k & E & Ed & Er).
    + split; [apply Z.div_pos; lia|]. apply Z.div_lt_upper_bound; lia.
    + destruct fuel; [cbn in Hz; lia|lia].
    + exists d, s, (S k). split_and!; [done|done|]. intros a n. rewrite Er. cbn [read_digits]. rewrite Hd.
      f_equal; [|lia]. rewrite Nat2Z.inj_succ, Z.pow_succ_r by lia. pose proof (Z.div_mod z 10). lia.
Qed.

Lemma strtoul_decimal n : is_u64 n → strtoul (decimal n) = n.
Proof.
  intros Hn. unfold is_u64 in Hn. unfold strtoul, decimal.
  destruct (digits_loop_read 20 n EmptyString) as (d & s & k & E & Ed & Er).
  { change (10 ^ Z.of_nat 20) with 100000000000000000000. lia. } { lia. }
  assert (skip_spaces (String d s) = String d s) as Hsp.
  { cbn. unfold is_space, digit_of in *. set (c := Z.of_nat _) in *.
    destruct (Z.eqb_spec c 32), (Z.leb_spec 9 c), (Z.leb_spec c 13); cbn; try done;
      destruct (Z.leb_spec 48 c); cbn in Ed; try done; lia. }
  assert (read_sign (String d s) = (false, String d s)) as Hsg.
  { destruct d as [[] [] [] [] [] [] [] []]; try reflexivity; by destruct Ed. }
  rewrite E, Hsp, Hsg, <- E, Er. cbn [read_digits].
  rewrite (proj2 (Z.ltb_ge _ _)); unfold u64_max; lia.
Qed.

Lemma digits_loop_plain fuel z acc :
  0 ≤ z → all_chars plain_char acc = true → all_chars plain_char (digits_loop fuel z acc) = true.
Proof.
  revert z acc. induction fuel as [|fuel IH]; intros z acc Hz Ha; [done|].
  assert (plain_char (Ascii.ascii_of_nat (Z.to_nat (48 + z mod 10))) = true) as Hp.
  { pose proof (Z.mod_pos_bound z 10 ltac:(lia)) as Hm.
    assert (z mod 10 ∈ seqZ 0 10) as Hin by (apply elem_of_seqZ; lia).
    revert Hin. generalize (z mod 10). apply Forall_forall. by_decide. }
  assert (all_chars plain_char (String (Ascii.ascii_of_nat (Z.to_nat (48 + z mod 10))) acc) = true)
    by (cbn; by rewrite Hp).
  cbn [digits_loop]. destruct (z <? 10); [done|]. apply IH; [by apply Z.div_pos|done].
Qed.

Lemma decimal_plain n : is_u64 n → plain (decimal n).
Proof.
  intros Hn. unfold is_u64 in Hn. split; [|apply digits_loop_plain; [lia|done]].
  destruct (digits_loop_read 20 n EmptyString) as (d & s & k & E & _); [|lia|].
  { change (10 ^ Z.of_nat 20) with 100000000000000000000. lia. }
  unfold decimal. by rewrite E.
Qed.

Definition pair_ok (kv : string * string) : Prop := plain kv.1 ∧ plain kv.2 ∧ kv.1 ≠ "AddHook".

(** The values name a debug log, none is open, and it cannot be opened. *)
Definition log_fails (opens : string → bool) (is_open : bool) (vals : gmap string string) : bool :=
  match vals !! "DebugLog" with Some name => negb (is_open || opens (c_str name)) | None => false end.

Lemma SetDebugLog_fails opens c :
  log_fails opens (debugLogFile c) (values c) = true → SetDebugLog opens c = Err ExitCall.
Proof. unfold log_fails, SetDebugLog. destruct (values c !! _); [|done]. fields. by intros ->. Qed.

Lemma SetDebugLog_ok opens c :
  log_fails opens (debugLogFile c) (values c) = false →
  ∃ o u, SetDebugLog opens c = Ok (c <| debugLogFile := o |> <| useDebugLog := u |>) ∧
    (values c !! "DebugLog" = None → o = debugLogFile c ∧ u = useDebugLog c) ∧
    (is_Some (values c !! "DebugLog") → o = true ∧ u = true).
Proof.
  unfold log_fails, SetDebugLog. destruct (values c !! _) as [name|]; intros H.
  - exists true, true. fields. apply negb_false_iff in H. rewrite H. unfold upd. cbn. by rewrite H.
  - exists (debugLogFile c), (useDebugLog c). split; [by destruct c|]. split; [done|by intros []].
Qed.

(** C12. Reading back a printed configuration: [Read] of one [key value] line per
    pair (keys and values without blanks, [;] and NUL; no [AddHook]) gives exactly
    these values, a later line overriding an earlier one, on top of the values
    from before, and leaves the hooks alone; the debug log is open and used if
    there is a [DebugLog] value then. The program stops with [exit(1)] exactly if
    that value names a file that cannot be opened and no log is open yet. *)
Theorem Read_print_config opens f l c :
  Forall pair_ok l →
  let vals := foldl (λ m kv, <[kv.1 := kv.2]> m) (values c) l in
  if log_fails opens (debugLogFile c) vals then Read opens f (Some (print_config l)) c = Err ExitCall
  else ∃ c', Read opens f (Some (print_config l)) c = Ok c' ∧ values c' = vals ∧
    hookList c' = hookList c ∧ fileName c' = f ∧ warned c' = warned c ∧
    (is_Some (vals !! "DebugLog") → debugLogFile c' = true ∧ useDebugLog c' = true).
Proof.
  intros Hl vals. unfold Read. rewrite Read_lines_print by done. cbn [mbind res_bind]. fold vals.
  set (c1 := _ <| values ::= _ |>). destruct (log_fails _ _ _) eqn:E.
  - by apply SetDebugLog_fails.
  - destruct (SetDebugLog_ok opens c1) as (o & u & -> & _ & Hs); [done|]. eexists. by split_and!.
Qed.

(** A number written to a configuration file is the number its reader gets. *)
Theorem Read_GetValueUL opens f k n c :
  plain k → k ≠ "AddHook" → is_u64 n → log_fails opens (debugLogFile c) (<[k := decimal n]> (values c)) = false →
  ∃ c', Read opens f (Some (print_config [(k, decimal n)])) c = Ok c' ∧ GetValueUL k c' = Ok (n, c').
Proof.
  intros Pk Hk Hn Hlog. unfold Read. rewrite Read_lines_print.
  2: { apply Forall_singleton. split_and!; [done|by apply decimal_plain|done]. }
  cbn [mbind res_bind foldl fst snd]. set (c1 := _ <| values ::= _ |>).
  destruct (SetDebugLog_ok opens c1 Hlog) as (o & u & -> & _). eexists. split; [reflexivity|].
  assert (∀ c0, values c0 !! k = Some (decimal n) → GetValueUL k c0 = Ok (n, c0)) as Hget.
  { intros c0 E. unfold GetValueUL, lookup_value. rewrite decide_False by (intros E'; by rewrite E' in E).
    rewrite E, strtoul_decimal by done. unfold warn, KeyExists. by rewrite E. }
  apply Hget. subst c1. fields. by rewrite lookup_insert_eq.
Qed.

Lemma Read_print_config_witness :
  (∃ c', Read (λ _, true) "f" (Some (print_config [("tRCD", "9"); ("DebugLog", "log"); ("tRCD", "11")])) Config_new = Ok c' ∧
    values c' !! "tRCD" = Some "11" ∧ useDebugLog c' = true) ∧
  Read (λ _, false) "f" (Some (print_config [("tRCD", "9"); ("DebugLog", "log"); ("tRCD", "11")])) Config_new = Err ExitCall.
Proof.
  set (l := [("tRCD", "9"); ("DebugLog", "log"); ("tRCD", "11")]).
  assert (Forall pair_ok l) as Hl by (repeat constructor; done). split.
  - destruct (Read_print_config (λ _, true) "f" l Config_new Hl) as (c' & H & E & _ & _ & _ & Hd).
    exists c'. rewrite E. split; [exact H|]. split; [reflexivity|]. apply Hd. by eexists.
  - exact (Read_print_config (λ _, false) "f" l Config_new Hl).
Defined.

Lemma Read_GetValueUL_witness :
  ∃ c', Read (λ _, true) "f" (Some (print_config [("ROWS", decimal 65536)])) Config_new = Ok c' ∧
    GetValueUL "ROWS" c' = Ok (65536, c').
Proof. apply Read_GetValueUL; [split; reflexivity || done|done|unfold is_u64; lia|reflexivity]. Defined.
