(* ===== verification/Params.v ===== *)
(** * Parameters

    NVmain/src/Params.cpp: the parameters of the memory system, their defaults,
    and how they are read from a configuration. *)

From S2P Require Import Prelude Config.

#[local] Open Scope string_scope.
#[local] Open Scope Z_scope.

(*| NVmain/src/Params.h 48-51 ProgramMode *)
Inductive ProgramMode := ProgramMode_SRMS | ProgramMode_SSMR.

(*| NVmain/src/Params.h 53-57 PauseMode *)
Inductive PauseMode := PauseMode_Normal | PauseMode_IIWC | PauseMode_Optimal.

#[export] Instance ProgramMode_eq_dec : EqDecision ProgramMode.
Proof. solve_decision. Defined.
#[export] Instance PauseMode_eq_dec : EqDecision PauseMode.
Proof. solve_decision. Defined.

(*| NVmain/src/Params.h 67-235 Params *)
Record Params := mkParams {
  BusWidth : Z;
  DeviceWidth : Z;
  CLK : Z;
  RATE : Z;
  CPUFreq : Z;
  EIDD0 : double;
  EIDD1 : double;
  EIDD2P0 : double;
  EIDD2P1 : double;
  EIDD2N : double;
  EIDD3P : double;
  EIDD3N : double;
  EIDD4R : double;
  EIDD4W : double;
  EIDD5B : double;
  EIDD6 : double;
  Eopenrd : double;
  Erd : double;
  Eref : double;
  Ewr : double;
  Ewrpb : double;
  Eactstdby : double;
  Eprestdby : double;
  Epda : double;
  Epdpf : double;
  Epdps : double;
  Voltage : double;
  Rtt_nom : Z;
  Rtt_wr : Z;
  Rtt_cont : Z;
  Vddq : double;
  Vssq : double;
  RanksPerDIMM : Z;
  EnduranceModel : string;
  DataEncoder : string;
  EnergyModel : string;
  UseLowPower : bool;
  PowerDownMode : string;
  InitPD : bool;
  PrintGraphs : bool;
  PrintAllDevices : bool;
  PrintConfig : bool;
  PrintPreTrace : bool;
  EchoPreTrace : bool;
  RefreshRows : Z;
  UseRefresh : bool;
  StaggerRefresh : bool;
  UsePrecharge : bool;
  OffChipLatency : Z;
  PeriodicStatsInterval : Z;
  ROWS : Z;
  COLS : Z;
  CHANNELS : Z;
  RANKS : Z;
  BANKS : Z;
  BANKGROUPS : Z;
  RAW : Z;
  MATHeight : Z;
  RBSize : Z;
  LogLevel : Z;
  tAL : Z;
  tBURST : Z;
  tCAS : Z;
  tCCD_L : Z;
  tCCD_S : Z;
  tCMD : Z;
  tCWD : Z;
  tRAW : Z;
  tOST : Z;
  tPD : Z;
  tRAS : Z;
  tRCD : Z;
  tRDB : Z;
  tREFW : Z;
  tRFC : Z;
  tRP : Z;
  tRRDR_L : Z;
  tRRDR_S : Z;
  tRRDW : Z;
  tPPD : Z;
  tRTP : Z;
  tRTRS : Z;
  tWP : Z;
  tWR : Z;
  tWTR_L : Z;
  tWTR_S : Z;
  tXP : Z;
  tXPDLL : Z;
  tXS : Z;
  tXSDLL : Z;
  decdelay : Z;
  tRead2Read_diff_part : Z;
  tRead2Write_diff_part : Z;
  tWrite2Read_diff_part : Z;
  tWrite2Write_diff_part : Z;
  tRead2Read_diff_addr : Z;
  tRead2Write_diff_addr : Z;
  tWrite2Read_diff_addr : Z;
  tWrite2Write_diff_addr : Z;
  tRead2Read_same_addr : Z;
  tRead2Write_same_addr : Z;
  tWrite2Read_same_addr : Z;
  tWrite2Write_same_addr : Z;
  tDQ_TURNAROUND : Z;
  tRDPDEN : Z;
  tWRPDEN : Z;
  tWRAPDEN : Z;
  ClosePage : Z;
  ScheduleScheme : Z;
  HighWaterMark : Z;
  LowWaterMark : Z;
  BanksPerRefresh : Z;
  DelayedRefreshThreshold : Z;
  AddressMappingScheme : string;
  MemoryPrefetcher : string;
  PrefetchBufferSize : Z;
  programMode : ProgramMode;
  MLCLevels : Z;
  WPVariance : Z;
  UniformWrites : bool;
  WriteAllBits : bool;
  Ereset : double;
  Eset : double;
  tWP0 : Z;
  tWP1 : Z;
  nWP00 : Z;
  nWP01 : Z;
  nWP10 : Z;
  nWP11 : Z;
  WPMaxVariance : Z;
  DeadlockTimer : Z;
  useTagCache : bool;
  debugOn : bool;
  debugClasses : gset string;
  WritePausing : bool;
  PauseThreshold : double;
  MaxCancellations : Z;
  pauseMode : PauseMode
}.

#[export] Instance eta_Params : Settable Params := fields! mkParams
  < BusWidth; DeviceWidth; CLK; RATE; CPUFreq; EIDD0; EIDD1; EIDD2P0; EIDD2P1; EIDD2N; EIDD3P;
    EIDD3N; EIDD4R; EIDD4W; EIDD5B; EIDD6; Eopenrd; Erd; Eref; Ewr; Ewrpb; Eactstdby;
    Eprestdby; Epda; Epdpf; Epdps; Voltage; Rtt_nom; Rtt_wr; Rtt_cont; Vddq; Vssq;
    RanksPerDIMM; EnduranceModel; DataEncoder; EnergyModel; UseLowPower; PowerDownMode; InitPD;
    PrintGraphs; PrintAllDevices; PrintConfig; PrintPreTrace; EchoPreTrace; RefreshRows;
    UseRefresh; StaggerRefresh; UsePrecharge; OffChipLatency; PeriodicStatsInterval; ROWS;
    COLS; CHANNELS; RANKS; BANKS; BANKGROUPS; RAW; MATHeight; RBSize; LogLevel; tAL; tBURST;
    tCAS; tCCD_L; tCCD_S; tCMD; tCWD; tRAW; tOST; tPD; tRAS; tRCD; tRDB; tREFW; tRFC; tRP;
    tRRDR_L; tRRDR_S; tRRDW; tPPD; tRTP; tRTRS; tWP; tWR; tWTR_L; tWTR_S; tXP; tXPDLL; tXS;
    tXSDLL; decdelay; tRead2Read_diff_part; tRead2Write_diff_part; tWrite2Read_diff_part;
    tWrite2Write_diff_part; tRead2Read_diff_addr; tRead2Write_diff_addr; tWrite2Read_diff_addr;
    tWrite2Write_diff_addr; tRead2Read_same_addr; tRead2Write_same_addr; tWrite2Read_same_addr;
    tWrite2Write_same_addr; tDQ_TURNAROUND; tRDPDEN; tWRPDEN; tWRAPDEN; ClosePage;
    ScheduleScheme; HighWaterMark; LowWaterMark; BanksPerRefresh; DelayedRefreshThreshold;
    AddressMappingScheme; MemoryPrefetcher; PrefetchBufferSize; programMode; MLCLevels;
    WPVariance; UniformWrites; WriteAllBits; Ereset; Eset; tWP0; tWP1; nWP00; nWP01; nWP10;
    nWP11; WPMaxVariance; DeadlockTimer; useTagCache; debugOn; debugClasses; WritePausing;
    PauseThreshold; MaxCancellations; pauseMode >.

(** The constructor; it leaves [BANKGROUPS], [LogLevel] and [tDQ_TURNAROUND]
    uninitialised: their values are arguments. *)
(*| NVmain/src/Params.cpp 46-226 Params::Params *)
Definition Params_new (BANKGROUPS0 LogLevel0 tDQ_TURNAROUND0 : Z) : Params := {|
  BusWidth := 64;
  DeviceWidth := 8;
  CLK := 666;
  RATE := 2;
  CPUFreq := 2000;
  EIDD0 := d_of_Z 85;
  EIDD1 := d_of_Z 54;
  EIDD2P0 := d_of_Z 30;
  EIDD2P1 := d_of_Z 30;
  EIDD2N := d_of_Z 37;
  EIDD3P := d_of_Z 35;
  EIDD3N := d_of_Z 40;
  EIDD4R := d_of_Z 160;
  EIDD4W := d_of_Z 165;
  EIDD5B := d_of_Z 200;
  EIDD6 := d_of_Z 12;
  Eopenrd := dlit 1081080 1000000;
  Erd := dlit 3405401 1000000;
  Eref := dlit 38558533 1000000;
  Ewr := dlit 1023750 1000000;
  Ewrpb := ddiv (dlit 1023750 1000000) (d_of_Z 512);
  Eactstdby := dlit 90090 1000000;
  Eprestdby := dlit 83333 1000000;
  Epda := dlit 0 1000000;
  Epdpf := dlit 0 1000000;
  Epdps := dlit 0 1000000;
  Voltage := dlit 15 10;
  Rtt_nom := 30;
  Rtt_wr := 60;
  Rtt_cont := 75;
  Vddq := dlit 15 10;
  Vssq := dlit 0 10;
  RanksPerDIMM := 1;
  EnduranceModel := "NullModel";
  DataEncoder := "default";
  EnergyModel := "current";
  UseLowPower := true;
  PowerDownMode := "FASTEXIT";
  InitPD := false;
  PrintGraphs := false;
  PrintAllDevices := false;
  PrintConfig := false;
  PrintPreTrace := false;
  EchoPreTrace := false;
  RefreshRows := 4;
  UseRefresh := true;
  StaggerRefresh := false;
  UsePrecharge := true;
  OffChipLatency := 10;
  PeriodicStatsInterval := 0;
  ROWS := 65536;
  COLS := 32;
  CHANNELS := 2;
  RANKS := 2;
  BANKS := 8;
  BANKGROUPS := BANKGROUPS0;
  RAW := 4;
  MATHeight := 65536 (* ROWS *);
  RBSize := 32 (* COLS *);
  LogLevel := LogLevel0;
  tAL := 0;
  tBURST := 4;
  tCAS := 10;
  tCCD_L := 7;
  tCCD_S := 4;
  tCMD := 1;
  tCWD := 7;
  tRAW := 20;
  tOST := 1;
  tPD := 6;
  tRAS := 24;
  tRCD := 9;
  tRDB := 2;
  tREFW := 42666667;
  tRFC := 107;
  tRP := 9;
  tRRDR_L := 7;
  tRRDR_S := 5;
  tRRDW := 5;
  tPPD := 0;
  tRTP := 5;
  tRTRS := 1;
  tWP := 0;
  tWR := 10;
  tWTR_L := 10;
  tWTR_S := 3;
  tXP := 6;
  tXPDLL := 17;
  tXS := 5;
  tXSDLL := 512;
  decdelay := 0;
  tRead2Read_diff_part := 8;
  tRead2Write_diff_part := 8;
  tWrite2Read_diff_part := 8;
  tWrite2Write_diff_part := 31;
  tRead2Read_diff_addr := 46;
  tRead2Write_diff_addr := 79;
  tWrite2Read_diff_addr := 496;
  tWrite2Write_diff_addr := 496;
  tRead2Read_same_addr := 46;
  tRead2Write_same_addr := 79;
  tWrite2Read_same_addr := 1562;
  tWrite2Write_same_addr := 1562;
  tDQ_TURNAROUND := tDQ_TURNAROUND0;
  tRDPDEN := 24;
  tWRPDEN := 19;
  tWRAPDEN := 22;
  ClosePage := 1;
  ScheduleScheme := 1;
  HighWaterMark := 32;
  LowWaterMark := 16;
  BanksPerRefresh := 8 (* BANKS *);
  DelayedRefreshThreshold := 1;
  AddressMappingScheme := "R:SA:RK:BK:CH:C";
  MemoryPrefetcher := "none";
  PrefetchBufferSize := 32;
  programMode := ProgramMode_SRMS;
  MLCLevels := 1;
  WPVariance := 1;
  UniformWrites := true;
  WriteAllBits := true;
  Ereset := dlit 54331 1000000;
  Eset := dlit 101581 1000000;
  tWP0 := 40;
  tWP1 := 60;
  nWP00 := 0;
  nWP01 := 7;
  nWP10 := 5;
  nWP11 := 1;
  WPMaxVariance := 2;
  DeadlockTimer := 10000000;
  useTagCache := false;
  debugOn := false;
  debugClasses := ∅;
  WritePausing := false;
  PauseThreshold := dlit 4 10;
  MaxCancellations := 4;
  pauseMode := PauseMode_Normal
|}.

(** ** Reading *)

(** [std::ceil(value)] as an [ncycle_t]: the units are [ns], [us] and [ms], a
    bare number is a count of cycles. The conversion of a negative, a too large
    or an infinite value is undefined: it is the error [BadConversion]. *)
(*| NVmain/src/Params.cpp 240-272 Params::ConvertTiming *)
Definition ConvertTiming (param : string) : ST Config Z := λ c,
  if negb (KeyExists param c) then Ok (0, c) else
  (stringValue ← GetString param;
   numericValue ← GetEnergy param;
   clk ← GetValue "CLK";
   let clock := d_of_Z (u64 clk) in
   let len := String.length stringValue in
   let units := String.substring (len - 2) 2 stringValue in
   let calculatedValue :=
     if (2 <? len)%nat then
       if String.eqb units "ns" then dmul numericValue (ddiv clock (d_of_Z 1000))
       else if String.eqb units "us" then dmul numericValue clock
       else if String.eqb units "ms" then dmul numericValue (dmul clock (d_of_Z 1000))
       else numericValue
     else numericValue in
   lift (d_ceil_u64 calculatedValue)) c.

(*| NVmain/src/Params.cpp 232-238 Params::ConvertTiming *)
Definition ConvertTiming_ref (param : string) (value : Z) : ST Config Z := λ c,
  if KeyExists param c then ConvertTiming param c else Ok (value, c).

(** [SetParams] reads a configuration and writes the parameters. *)
Definition PST := ST (Config * Params).

Definition set_field {T} (f : Params → T) `{!Setter f} (rd : T → ST Config T) : PST unit := λ s,
  match rd (f s.2) s.1 with
  | Ok (v, c) => Ok ((), (c, s.2 <| f := v |>))
  | Err e => Err e
  end.

Definition cBool key (f : Params → bool) `{!Setter f} := set_field f (GetBool_ref key).
Definition cValueUL key (f : Params → Z) `{!Setter f} := set_field f (GetValueUL_ref key).
Definition cValue key (f : Params → Z) `{!Setter f} := set_field f (GetValue_ref key).
Definition cEnergy key (f : Params → double) `{!Setter f} := set_field f (GetEnergy_ref key).
Definition cString key (f : Params → string) `{!Setter f} := set_field f (GetString_ref key).
Definition cTiming key (f : Params → Z) `{!Setter f} := set_field f (ConvertTiming_ref key).

(** An unknown mode is announced as the default and leaves the mode as it is. *)
(*| NVmain/src/Params.cpp 413-422 Params::SetParams *)
Definition set_programMode : PST unit := set_field programMode (λ old c,
  if KeyExists "ProgramMode" c then
    (s ← GetString "ProgramMode";
     mret (if String.eqb s "SRMS" then ProgramMode_SRMS
           else if String.eqb s "SSMR" then ProgramMode_SSMR else old)) c
  else Ok (old, c)).

(** [getline] on a stream does not return an empty piece after the last comma. *)
(*| NVmain/src/Params.cpp 443-455 Params::SetParams *)
Definition set_debugClasses : PST unit := set_field debugClasses (λ old c,
  if KeyExists "DebugClasses" c then
    (s ← GetString "DebugClasses";
     let pieces := split_on "," EmptyString s in
     let pieces := if decide (last pieces = Some EmptyString) then removelast pieces else pieces in
     mret (list_to_set pieces ∪ old)) c
  else Ok (old, c)).

(** An unknown mode is announced as the default and leaves the mode as it is. *)
(*| NVmain/src/Params.cpp 460-471 Params::SetParams *)
Definition set_pauseMode : PST unit := set_field pauseMode (λ old c,
  if KeyExists "PauseMode" c then
    (s ← GetString "PauseMode";
     mret (if String.eqb s "Normal" then PauseMode_Normal
           else if String.eqb s "IIWC" then PauseMode_IIWC
           else if String.eqb s "Optimal" then PauseMode_Optimal else old)) c
  else Ok (old, c)).

(*| NVmain/src/Params.cpp 277-348 Params::SetParams *)
Definition SetParams_device : PST unit :=
  cBool "TAGCACHE" useTagCache;;
  cValueUL "BusWidth" BusWidth;;
  cValueUL "DeviceWidth" DeviceWidth;;
  cValueUL "CLK" CLK;;
  cValueUL "RATE" RATE;;
  cValueUL "LogLevel" LogLevel;;
  cValueUL "CPUFreq" CPUFreq;;
  cEnergy "EIDD0" EIDD0;;
  cEnergy "EIDD1" EIDD1;;
  cEnergy "EIDD2P0" EIDD2P0;;
  cEnergy "EIDD2P1" EIDD2P1;;
  cEnergy "EIDD2N" EIDD2N;;
  cEnergy "EIDD3P" EIDD3P;;
  cEnergy "EIDD3N" EIDD3N;;
  cEnergy "EIDD4R" EIDD4R;;
  cEnergy "EIDD4W" EIDD4W;;
  cEnergy "EIDD5B" EIDD5B;;
  cEnergy "EIDD6" EIDD6;;
  cEnergy "Eopenrd" Eopenrd;;
  cEnergy "Erd" Erd;;
  cEnergy "Eref" Eref;;
  cEnergy "Ewr" Ewr;;
  cEnergy "Ewrpb" Ewrpb;;
  cEnergy "Eactstdby" Eactstdby;;
  cEnergy "Eprestdby" Eprestdby;;
  cEnergy "Epda" Epda;;
  cEnergy "Epdpf" Epdpf;;
  cEnergy "Epdps" Epdps;;
  cEnergy "Voltage" Voltage;;
  cValue "Rtt_nom" Rtt_nom;;
  cValue "Rtt_wr" Rtt_wr;;
  cValue "Rtt_cont" Rtt_cont;;
  cEnergy "VDDQ" Vddq;;
  cEnergy "VSSQ" Vssq;;
  cValue "RanksPerDIMM" RanksPerDIMM;;
  cString "EnduranceModel" EnduranceModel;;
  cString "DataEncoder" DataEncoder;;
  cString "EnergyModel" EnergyModel;;
  cBool "UseLowPower" UseLowPower;;
  cString "PowerDownMode" PowerDownMode;;
  cBool "InitPD" InitPD;;
  cBool "PrintGraphs" PrintGraphs;;
  cBool "PrintAllDevices" PrintAllDevices;;
  cBool "PrintConfig" PrintConfig;;
  cBool "PrintPreTrace" PrintPreTrace;;
  cBool "EchoPreTrace" EchoPreTrace;;
  cValueUL "RefreshRows" RefreshRows;;
  cBool "UseRefresh" UseRefresh;;
  cBool "StaggerRefresh" StaggerRefresh;;
  cBool "UsePrecharge" UsePrecharge;;
  cValueUL "OffChipLatency" OffChipLatency;;
  cValueUL "PeriodicStatsInterval" PeriodicStatsInterval;;
  cValueUL "ROWS" ROWS;;
  cValueUL "COLS" COLS;;
  cValueUL "CHANNELS" CHANNELS;;
  cValueUL "RANKS" RANKS;;
  cValueUL "BANKS" BANKS;;
  cValueUL "BANKGROUPS" BANKGROUPS;;
  cValueUL "RAW" RAW;;
  cValueUL "MATHeight" MATHeight;;
  cValueUL "RBSize" RBSize.

(*| NVmain/src/Params.cpp 350-396 Params::SetParams *)
Definition SetParams_timing : PST unit :=
  cTiming "tAL" tAL;;
  cTiming "tBURST" tBURST;;
  cTiming "tCAS" tCAS;;
  cTiming "tCCD_L" tCCD_L;;
  cTiming "tCCD_S" tCCD_S;;
  cTiming "tCMD" tCMD;;
  cTiming "tCWD" tCWD;;
  cTiming "tRAW" tRAW;;
  cTiming "tOST" tOST;;
  cTiming "tPD" tPD;;
  cTiming "tRAS" tRAS;;
  cTiming "tRCD" tRCD;;
  cTiming "tRDB" tRDB;;
  cTiming "tREFW" tREFW;;
  cTiming "tRFC" tRFC;;
  cTiming "tRP" tRP;;
  cTiming "tRRDR_L" tRRDR_L;;
  cTiming "tRRDR_S" tRRDR_S;;
  cTiming "tRRDW" tRRDW;;
  cTiming "tPPD" tPPD;;
  cTiming "tRTP" tRTP;;
  cTiming "tRTRS" tRTRS;;
  cTiming "tWP" tWP;;
  cTiming "tWR" tWR;;
  cTiming "tWTR_L" tWTR_L;;
  cTiming "tWTR_S" tWTR_S;;
  cTiming "tXP" tXP;;
  cTiming "tXPDLL" tXPDLL;;
  cTiming "tXS" tXS;;
  cTiming "tXSDLL" tXSDLL;;
  cTiming "tRD2RD_diff_part" tRead2Read_diff_part;;
  cTiming "tRD2WR_diff_part" tRead2Write_diff_part;;
  cTiming "tWR2RD_diff_part" tWrite2Read_diff_part;;
  cTiming "tWR2WR_diff_part" tWrite2Write_diff_part;;
  cTiming "tRD2RD_diff_addr" tRead2Read_diff_addr;;
  cTiming "tRD2WR_diff_addr" tRead2Write_diff_addr;;
  cTiming "tWR2RD_diff_addr" tWrite2Read_diff_addr;;
  cTiming "tWR2WR_diff_addr" tWrite2Write_diff_addr;;
  cTiming "tRD2RD_same_addr" tRead2Read_same_addr;;
  cTiming "tRD2WR_same_addr" tRead2Write_same_addr;;
  cTiming "tWR2RD_same_addr" tWrite2Read_same_addr;;
  cTiming "tWR2WR_same_addr" tWrite2Write_same_addr;;
  cTiming "tDQ_TURNAROUND" tDQ_TURNAROUND.

(*| NVmain/src/Params.cpp 398-471 Params::SetParams *)
Definition SetParams_policy : PST unit :=
  cValueUL "decdelay" decdelay;;
  cValueUL "tRDPDEN" tRDPDEN;;
  cValueUL "tWRPDEN" tWRPDEN;;
  cValueUL "tWRAPDEN" tWRAPDEN;;
  cValueUL "ClosePage" ClosePage;;
  cValue "ScheduleScheme" ScheduleScheme;;
  cValue "HighWaterMark" HighWaterMark;;
  cValue "LowWaterMark" LowWaterMark;;
  cValueUL "BanksPerRefresh" BanksPerRefresh;;
  cValueUL "DelayedRefreshThreshold" DelayedRefreshThreshold;;
  cString "AddressMappingScheme" AddressMappingScheme;;
  cString "MemoryPrefetcher" MemoryPrefetcher;;
  cValueUL "PrefetchBufferSize" PrefetchBufferSize;;
  set_programMode;;
  cValueUL "MLCLevels" MLCLevels;;
  cValueUL "WPVariance" WPVariance;;
  cBool "UniformWrites" UniformWrites;;
  cBool "WriteAllBits" WriteAllBits;;
  cEnergy "Ereset" Ereset;;
  cEnergy "Eset" Eset;;
  cTiming "tWP0" tWP0;;
  cTiming "tWP1" tWP1;;
  cValueUL "nWP00" nWP00;;
  cValueUL "nWP01" nWP01;;
  cValueUL "nWP10" nWP10;;
  cValueUL "nWP11" nWP11;;
  cValueUL "WPMaxVariance" WPMaxVariance;;
  cValueUL "DeadlockTimer" DeadlockTimer;;
  cBool "EnableDebug" debugOn;;
  set_debugClasses;;
  cBool "WritePausing" WritePausing;;
  cEnergy "PauseThreshold" PauseThreshold;;
  cValueUL "MaxCancellations" MaxCancellations;;
  set_pauseMode.

(*| NVmain/src/Params.cpp 275-472 Params::SetParams *)
Definition SetParams : PST unit :=
  SetParams_device;; SetParams_timing;; SetParams_policy.

(** ** The reference

    The parameters a set of values describes: every field on its own, whatever
    the order in which [SetParams] reads them. *)

Section Reference.
Variable vals : gmap string string.

Definition rd {A} (conv : string → A) (key : string) (old : A) : A :=
  match vals !! key with Some v => conv v | None => old end.
Definition rd_bool : string → bool → bool := rd (λ v, String.eqb v "true").

(** The cycles of a time, rounded up: it has to be a 64-bit number. *)
Definition time_value (v : string) : res Z :=
  let clock := d_of_Z (u64 (match vals !! "CLK" with Some k => atoi k | None => -1 end)) in
  let len := String.length v in
  let units := String.substring (len - 2) 2 v in
  d_ceil_u64 (if (2 <? len)%nat then
     if String.eqb units "ns" then dmul (atof v) (ddiv clock (d_of_Z 1000))
     else if String.eqb units "us" then dmul (atof v) clock
     else if String.eqb units "ms" then dmul (atof v) (dmul clock (d_of_Z 1000))
     else atof v else atof v).
Definition timing (v : string) : Z := match time_value v with Ok z => z | Err _ => 0 end.
Definition time_ok (key : string) : bool :=
  match vals !! key with Some v => if time_value v is Ok _ then true else false | None => true end.

Definition timing_keys : list string :=
  ["tAL"; "tBURST"; "tCAS"; "tCCD_L"; "tCCD_S"; "tCMD"; "tCWD";
   "tRAW"; "tOST"; "tPD"; "tRAS"; "tRCD"; "tRDB"; "tREFW";
   "tRFC"; "tRP"; "tRRDR_L"; "tRRDR_S"; "tRRDW"; "tPPD"; "tRTP";
   "tRTRS"; "tWP"; "tWR"; "tWTR_L"; "tWTR_S"; "tXP"; "tXPDLL";
   "tXS"; "tXSDLL"; "tRD2RD_diff_part"; "tRD2WR_diff_part"; "tWR2RD_diff_part"; "tWR2WR_diff_part"; "tRD2RD_diff_addr";
   "tRD2WR_diff_addr"; "tWR2RD_diff_addr"; "tWR2WR_diff_addr"; "tRD2RD_same_addr"; "tRD2WR_same_addr"; "tWR2RD_same_addr"; "tWR2WR_same_addr";
   "tDQ_TURNAROUND"; "tWP0"; "tWP1"].
Definition times_ok : bool := forallb time_ok timing_keys.
End Reference.

Definition debug_classes (s : string) : gset string :=
  let pieces := split_on "," EmptyString s in
  list_to_set (if decide (last pieces = Some EmptyString) then removelast pieces else pieces).

Definition params_of (vals : gmap string string) (p : Params) : Params :=
  {|
  BusWidth := rd vals strtoul "BusWidth" (BusWidth p);
  DeviceWidth := rd vals strtoul "DeviceWidth" (DeviceWidth p);
  CLK := rd vals strtoul "CLK" (CLK p);
  RATE := rd vals strtoul "RATE" (RATE p);
  CPUFreq := rd vals strtoul "CPUFreq" (CPUFreq p);
  EIDD0 := rd vals atof "EIDD0" (EIDD0 p);
  EIDD1 := rd vals atof "EIDD1" (EIDD1 p);
  EIDD2P0 := rd vals atof "EIDD2P0" (EIDD2P0 p);
  EIDD2P1 := rd vals atof "EIDD2P1" (EIDD2P1 p);
  EIDD2N := rd vals atof "EIDD2N" (EIDD2N p);
  EIDD3P := rd vals atof "EIDD3P" (EIDD3P p);
  EIDD3N := rd vals atof "EIDD3N" (EIDD3N p);
  EIDD4R := rd vals atof "EIDD4R" (EIDD4R p);
  EIDD4W := rd vals atof "EIDD4W" (EIDD4W p);
  EIDD5B := rd vals atof "EIDD5B" (EIDD5B p);
  EIDD6 := rd vals atof "EIDD6" (EIDD6 p);
  Eopenrd := rd vals atof "Eopenrd" (Eopenrd p);
  Erd := rd vals atof "Erd" (Erd p);
  Eref := rd vals atof "Eref" (Eref p);
  Ewr := rd vals atof "Ewr" (Ewr p);
  Ewrpb := rd vals atof "Ewrpb" (Ewrpb p);
  Eactstdby := rd vals atof "Eactstdby" (Eactstdby p);
  Eprestdby := rd vals atof "Eprestdby" (Eprestdby p);
  Epda := rd vals atof "Epda" (Epda p);
  Epdpf := rd vals atof "Epdpf" (Epdpf p);
  Epdps := rd vals atof "Epdps" (Epdps p);
  Voltage := rd vals atof "Voltage" (Voltage p);
  Rtt_nom := rd vals atoi "Rtt_nom" (Rtt_nom p);
  Rtt_wr := rd vals atoi "Rtt_wr" (Rtt_wr p);
  Rtt_cont := rd vals atoi "Rtt_cont" (Rtt_cont p);
  Vddq := rd vals atof "VDDQ" (Vddq p);
  Vssq := rd vals atof "VSSQ" (Vssq p);
  RanksPerDIMM := rd vals atoi "RanksPerDIMM" (RanksPerDIMM p);
  EnduranceModel := rd vals (λ s, s) "EnduranceModel" (EnduranceModel p);
  DataEncoder := rd vals (λ s, s) "DataEncoder" (DataEncoder p);
  EnergyModel := rd vals (λ s, s) "EnergyModel" (EnergyModel p);
  UseLowPower := rd_bool vals "UseLowPower" (UseLowPower p);
  PowerDownMode := rd vals (λ s, s) "PowerDownMode" (PowerDownMode p);
  InitPD := rd_bool vals "InitPD" (InitPD p);
  PrintGraphs := rd_bool vals "PrintGraphs" (PrintGraphs p);
  PrintAllDevices := rd_bool vals "PrintAllDevices" (PrintAllDevices p);
  PrintConfig := rd_bool vals "PrintConfig" (PrintConfig p);
  PrintPreTrace := rd_bool vals "PrintPreTrace" (PrintPreTrace p);
  EchoPreTrace := rd_bool vals "EchoPreTrace" (EchoPreTrace p);
  RefreshRows := rd vals strtoul "RefreshRows" (RefreshRows p);
  UseRefresh := rd_bool vals "UseRefresh" (UseRefresh p);
  StaggerRefresh := rd_bool vals "StaggerRefresh" (StaggerRefresh p);
  UsePrecharge := rd_bool vals "UsePrecharge" (UsePrecharge p);
  OffChipLatency := rd vals strtoul "OffChipLatency" (OffChipLatency p);
  PeriodicStatsInterval := rd vals strtoul "PeriodicStatsInterval" (PeriodicStatsInterval p);
  ROWS := rd vals strtoul "ROWS" (ROWS p);
  COLS := rd vals strtoul "COLS" (COLS p);
  CHANNELS := rd vals strtoul "CHANNELS" (CHANNELS p);
  RANKS := rd vals strtoul "RANKS" (RANKS p);
  BANKS := rd vals strtoul "BANKS" (BANKS p);
  BANKGROUPS := rd vals strtoul "BANKGROUPS" (BANKGROUPS p);
  RAW := rd vals strtoul "RAW" (RAW p);
  MATHeight := rd vals strtoul "MATHeight" (MATHeight p);
  RBSize := rd vals strtoul "RBSize" (RBSize p);
  LogLevel := rd vals strtoul "LogLevel" (LogLevel p);
  tAL := rd vals (timing vals) "tAL" (tAL p);
  tBURST := rd vals (timing vals) "tBURST" (tBURST p);
  tCAS := rd vals (timing vals) "tCAS" (tCAS p);
  tCCD_L := rd vals (timing vals) "tCCD_L" (tCCD_L p);
  tCCD_S := rd vals (timing vals) "tCCD_S" (tCCD_S p);
  tCMD := rd vals (timing vals) "tCMD" (tCMD p);
  tCWD := rd vals (timing vals) "tCWD" (tCWD p);
  tRAW := rd vals (timing vals) "tRAW" (tRAW p);
  tOST := rd vals (timing vals) "tOST" (tOST p);
  tPD := rd vals (timing vals) "tPD" (tPD p);
  tRAS := rd vals (timing vals) "tRAS" (tRAS p);
  tRCD := rd vals (timing vals) "tRCD" (tRCD p);
  tRDB := rd vals (timing vals) "tRDB" (tRDB p);
  tREFW := rd vals (timing vals) "tREFW" (tREFW p);
  tRFC := rd vals (timing vals) "tRFC" (tRFC p);
  tRP := rd vals (timing vals) "tRP" (tRP p);
  tRRDR_L := rd vals (timing vals) "tRRDR_L" (tRRDR_L p);
  tRRDR_S := rd vals (timing vals) "tRRDR_S" (tRRDR_S p);
  tRRDW := rd vals (timing vals) "tRRDW" (tRRDW p);
  tPPD := rd vals (timing vals) "tPPD" (tPPD p);
  tRTP := rd vals (timing vals) "tRTP" (tRTP p);
  tRTRS := rd vals (timing vals) "tRTRS" (tRTRS p);
  tWP := rd vals (timing vals) "tWP" (tWP p);
  tWR := rd vals (timing vals) "tWR" (tWR p);
  tWTR_L := rd vals (timing vals) "tWTR_L" (tWTR_L p);
  tWTR_S := rd vals (timing vals) "tWTR_S" (tWTR_S p);
  tXP := rd vals (timing vals) "tXP" (tXP p);
  tXPDLL := rd vals (timing vals) "tXPDLL" (tXPDLL p);
  tXS := rd vals (timing vals) "tXS" (tXS p);
  tXSDLL := rd vals (timing vals) "tXSDLL" (tXSDLL p);
  decdelay := rd vals strtoul "decdelay" (decdelay p);
  tRead2Read_diff_part := rd vals (timing vals) "tRD2RD_diff_part" (tRead2Read_diff_part p);
  tRead2Write_diff_part := rd vals (timing vals) "tRD2WR_diff_part" (tRead2Write_diff_part p);
  tWrite2Read_diff_part := rd vals (timing vals) "tWR2RD_diff_part" (tWrite2Read_diff_part p);
  tWrite2Write_diff_part := rd vals (timing vals) "tWR2WR_diff_part" (tWrite2Write_diff_part p);
  tRead2Read_diff_addr := rd vals (timing vals) "tRD2RD_diff_addr" (tRead2Read_diff_addr p);
  tRead2Write_diff_addr := rd vals (timing vals) "tRD2WR_diff_addr" (tRead2Write_diff_addr p);
  tWrite2Read_diff_addr := rd vals (timing vals) "tWR2RD_diff_addr" (tWrite2Read_diff_addr p);
  tWrite2Write_diff_addr := rd vals (timing vals) "tWR2WR_diff_addr" (tWrite2Write_diff_addr p);
  tRead2Read_same_addr := rd vals (timing vals) "tRD2RD_same_addr" (tRead2Read_same_addr p);
  tRead2Write_same_addr := rd vals (timing vals) "tRD2WR_same_addr" (tRead2Write_same_addr p);
  tWrite2Read_same_addr := rd vals (timing vals) "tWR2RD_same_addr" (tWrite2Read_same_addr p);
  tWrite2Write_same_addr := rd vals (timing vals) "tWR2WR_same_addr" (tWrite2Write_same_addr p);
  tDQ_TURNAROUND := rd vals (timing vals) "tDQ_TURNAROUND" (tDQ_TURNAROUND p);
  tRDPDEN := rd vals strtoul "tRDPDEN" (tRDPDEN p);
  tWRPDEN := rd vals strtoul "tWRPDEN" (tWRPDEN p);
  tWRAPDEN := rd vals strtoul "tWRAPDEN" (tWRAPDEN p);
  ClosePage := rd vals strtoul "ClosePage" (ClosePage p);
  ScheduleScheme := rd vals atoi "ScheduleScheme" (ScheduleScheme p);
  HighWaterMark := rd vals atoi "HighWaterMark" (HighWaterMark p);
  LowWaterMark := rd vals atoi "LowWaterMark" (LowWaterMark p);
  BanksPerRefresh := rd vals strtoul "BanksPerRefresh" (BanksPerRefresh p);
  DelayedRefreshThreshold := rd vals strtoul "DelayedRefreshThreshold" (DelayedRefreshThreshold p);
  AddressMappingScheme := rd vals (λ s, s) "AddressMappingScheme" (AddressMappingScheme p);
  MemoryPrefetcher := rd vals (λ s, s) "MemoryPrefetcher" (MemoryPrefetcher p);
  PrefetchBufferSize := rd vals strtoul "PrefetchBufferSize" (PrefetchBufferSize p);
  programMode := rd vals (λ s, if String.eqb s "SRMS" then ProgramMode_SRMS else
      if String.eqb s "SSMR" then ProgramMode_SSMR else programMode p) "ProgramMode" (programMode p);
  MLCLevels := rd vals strtoul "MLCLevels" (MLCLevels p);
  WPVariance := rd vals strtoul "WPVariance" (WPVariance p);
  UniformWrites := rd_bool vals "UniformWrites" (UniformWrites p);
  WriteAllBits := rd_bool vals "WriteAllBits" (WriteAllBits p);
  Ereset := rd vals atof "Ereset" (Ereset p);
  Eset := rd vals atof "Eset" (Eset p);
  tWP0 := rd vals (timing vals) "tWP0" (tWP0 p);
  tWP1 := rd vals (timing vals) "tWP1" (tWP1 p);
  nWP00 := rd vals strtoul "nWP00" (nWP00 p);
  nWP01 := rd vals strtoul "nWP01" (nWP01 p);
  nWP10 := rd vals strtoul "nWP10" (nWP10 p);
  nWP11 := rd vals strtoul "nWP11" (nWP11 p);
  WPMaxVariance := rd vals strtoul "WPMaxVariance" (WPMaxVariance p);
  DeadlockTimer := rd vals strtoul "DeadlockTimer" (DeadlockTimer p);
  useTagCache := rd_bool vals "TAGCACHE" (useTagCache p);
  debugOn := rd_bool vals "EnableDebug" (debugOn p);
  debugClasses := rd vals (λ s, debug_classes s ∪ debugClasses p) "DebugClasses" (debugClasses p);
  WritePausing := rd_bool vals "WritePausing" (WritePausing p);
  PauseThreshold := rd vals atof "PauseThreshold" (PauseThreshold p);
  MaxCancellations := rd vals strtoul "MaxCancellations" (MaxCancellations p);
  pauseMode := rd vals (λ s, if String.eqb s "Normal" then PauseMode_Normal else
      if String.eqb s "IIWC" then PauseMode_IIWC else
      if String.eqb s "Optimal" then PauseMode_Optimal else pauseMode p) "PauseMode" (pauseMode p)
|}.

(** *** Every step keeps the values, and fails only on a time out of range *)

Definition Step (m : PST unit) (ok : gmap string string → bool) (g : gmap string string → Params → Params) : Prop :=
  ∀ c p, if ok (values c) then ∃ w, m (c, p) = Ok ((), (c <| warned := w |>, g (values c) p))
         else m (c, p) = Err BadConversion.
Definition always : gmap string string → bool := λ _, true.
Definition both (ok ok' : gmap string string → bool) vals : bool := ok vals && ok' vals.

(** The effect of a step, of one field and of a sequence. *)
Definition comp (g g' : gmap string string → Params → Params) v p := g' v (g v p).
Definition assign {T} (f : Params → T) `{!Setter f} (h : gmap string string → T → T) v p :=
  p <| f := h v (f p) |>.

Lemma Step_bind m m' ok ok' g g' : Step m ok g → Step m' ok' g' → Step (m;; m') (both ok ok') (comp g g').
Proof.
  intros H H' c p. specialize (H c p). unfold both. destruct (ok (values c)); [destruct H as [w E]|].
  - specialize (H' (c <| warned := w |>) (g (values c) p)). fields_in H'. cbn [andb].
    rewrite (bind_ok _ _ _ _ _ E). destruct (ok' (values c)); [|done]. destruct H' as [w' ->]. by exists w'.
  - change (match m (c, p) with Ok (_, s) => m' s | Err e => Err e end = Err BadConversion). by rewrite H.
Qed.

(** A query with a default, as a function of the values. *)
Lemma lookup_ref_run {A} (get1 : string → ST Config A) conv key v c :
  (∀ x, values c !! key = Some x → get1 key c = Ok (conv x, c)) →
  ∃ w, lookup_ref get1 key v c = Ok (rd (values c) conv key v, c <| warned := w |>).
Proof.
  intros Hg. unfold lookup_ref, KeyExists, rd. destruct (values c !! key) as [x|] eqn:E.
  - rewrite bool_decide_eq_true_2 by eauto. cbn. exists (warned c). rewrite (Hg x eq_refl). by destruct c.
  - rewrite bool_decide_eq_false_2 by (by intros []). cbn.
    destruct (bool_decide _); cbn; eexists; [by instantiate (1 := warned c); destruct c|reflexivity].
Qed.

Lemma lookup_value_run {A} (a b : A) conv key c x :
  values c !! key = Some x → lookup_value a b conv key c = Ok (conv x, c).
Proof.
  intros E. unfold lookup_value, warn, KeyExists. rewrite decide_False by (intros E'; rewrite E', lookup_empty in E; done).
  rewrite E, bool_decide_eq_true_2 by eauto. done.
Qed.

Lemma GetBool_run key c x : values c !! key = Some x → GetBool key c = Ok (String.eqb x "true", c).
Proof.
  intros E. assert (KeyExists key c = true) as K by (apply bool_decide_eq_true_2; eauto).
  unfold GetBool, GetString, warn. rewrite K. rewrite K. by rewrite (lookup_value_run _ _ _ _ _ _ E).
Qed.

Lemma set_field_step {T} (f : Params → T) `{!Setter f} rdm (g : gmap string string → T → T) :
  (∀ c v, ∃ w, rdm v c = Ok (g (values c) v, c <| warned := w |>)) →
  Step (set_field f rdm) always (assign f g).
Proof.
  intros H c p. destruct (H c (f p)) as [w E]. exists w. unfold set_field. cbn [fst snd]. by rewrite E.
Qed.

Lemma cBool_step key (f : Params → bool) `{!Setter f} :
  Step (cBool key f) always (assign f (λ vals v, rd_bool vals key v)).
Proof.
  apply (set_field_step f _ (λ vals v, rd_bool vals key v)). intros c v.
  apply lookup_ref_run. intros. by apply GetBool_run.
Qed.
Lemma cValueUL_step key (f : Params → Z) `{!Setter f} :
  Step (cValueUL key f) always (assign f (λ vals v, rd vals strtoul key v)).
Proof.
  apply (set_field_step f _ (λ vals v, rd vals strtoul key v)). intros c v.
  apply lookup_ref_run. intros. by apply lookup_value_run.
Qed.
Lemma cValue_step key (f : Params → Z) `{!Setter f} :
  Step (cValue key f) always (assign f (λ vals v, rd vals atoi key v)).
Proof.
  apply (set_field_step f _ (λ vals v, rd vals atoi key v)). intros c v.
  apply lookup_ref_run. intros. by apply lookup_value_run.
Qed.
Lemma cEnergy_step key (f : Params → double) `{!Setter f} :
  Step (cEnergy key f) always (assign f (λ vals v, rd vals atof key v)).
Proof.
  apply (set_field_step f _ (λ vals v, rd vals atof key v)). intros c v.
  apply lookup_ref_run. intros. by apply lookup_value_run.
Qed.
Lemma cString_step key (f : Params → string) `{!Setter f} :
  Step (cString key f) always (assign f (λ vals v, rd vals (λ s, s) key v)).
Proof.
  apply (set_field_step f _ (λ vals v, rd vals (λ s, s) key v)). intros c v.
  apply lookup_ref_run. intros. by apply (lookup_value_run _ _ (λ s, s)).
Qed.

Lemma time_value_error vals v e : time_value vals v = Err e → e = BadConversion.
Proof. unfold time_value, d_ceil_u64. intros H. repeat (case_match; try congruence). Qed.

Lemma GetValue_run key c : values c ≠ ∅ →
  ∃ w, GetValue key c = Ok (match values c !! key with Some k => atoi k | None => -1 end, c <| warned := w |>).
Proof.
  intros Hne. unfold GetValue, lookup_value. rewrite decide_False by done.
  unfold warn, KeyExists. destruct (values c !! key) as [k|] eqn:E.
  - rewrite bool_decide_eq_true_2 by eauto. exists (warned c). by destruct c.
  - rewrite bool_decide_eq_false_2 by (by intros []). by eexists.
Qed.

Lemma ConvertTiming_run key c x : values c !! key = Some x →
  ∃ w, ConvertTiming key c = (v ← time_value (values c) x; Ok (v, c <| warned := w |>)).
Proof.
  intros E. unfold ConvertTiming, KeyExists. rewrite bool_decide_eq_true_2 by eauto. cbn [negb]. unfold GetString, GetEnergy.
  rewrite (bind_ok _ _ _ _ _ (lookup_value_run _ _ (λ s, s) _ _ _ E)), (bind_ok _ _ _ _ _ (lookup_value_run _ _ atof _ _ _ E)).
  destruct (GetValue_run "CLK" c) as [w Ew]; [by intros E'; rewrite E', lookup_empty in E|].
  exists w. by rewrite (bind_ok _ _ _ _ _ Ew).
Qed.

Lemma cTiming_step key (f : Params → Z) `{!Setter f} :
  Step (cTiming key f) (λ vals, time_ok vals key) (assign f (λ vals v, rd vals (timing vals) key v)).
Proof.
  intros c p. unfold cTiming, set_field, ConvertTiming_ref, KeyExists, assign, time_ok, timing, rd. cbn [fst snd].
  destruct (values c !! key) as [x|] eqn:E.
  - rewrite bool_decide_eq_true_2 by eauto. destruct (ConvertTiming_run key c x E) as [w ->].
    destruct (time_value (values c) x) as [v|e] eqn:Ev; cbn; [by exists w|]. by rewrite (time_value_error _ _ _ Ev).
  - rewrite bool_decide_eq_false_2 by (by intros []). exists (warned c). by destruct c.
Qed.

Lemma string_field_step {T} (f : Params → T) `{!Setter f} key (conv : T → string → T) :
  Step (set_field f (λ old c, if KeyExists key c then (s ← GetString key; mret (conv old s)) c else Ok (old, c))) always
    (assign f (λ vals v, rd vals (conv v) key v)).
Proof.
  apply (set_field_step f _ (λ vals v, rd vals (conv v) key v)). intros c v. exists (warned c).
  unfold KeyExists, rd. destruct (values c !! key) as [x|] eqn:E.
  - rewrite bool_decide_eq_true_2 by eauto. unfold GetString.
    rewrite (bind_ok _ _ _ _ _ (lookup_value_run _ _ (λ s, s) _ _ _ E)). by destruct c.
  - rewrite bool_decide_eq_false_2 by (by intros []). by destruct c.
Qed.

Ltac params_step :=
  lazymatch goal with
  | |- Step (_ ≫= _) _ _ => eapply Step_bind; [params_step|params_step]
  | |- Step (cBool _ _) _ _ => apply cBool_step
  | |- Step (cValueUL _ _) _ _ => apply cValueUL_step
  | |- Step (cValue _ _) _ _ => apply cValue_step
  | |- Step (cEnergy _ _) _ _ => apply cEnergy_step
  | |- Step (cString _ _) _ _ => apply cString_step
  | |- Step (cTiming _ _) _ _ => apply cTiming_step
  | |- Step set_programMode _ _ => apply (string_field_step programMode "ProgramMode" (λ old s,
      if String.eqb s "SRMS" then ProgramMode_SRMS
      else if String.eqb s "SSMR" then ProgramMode_SSMR else old))
  | |- Step set_pauseMode _ _ => apply (string_field_step pauseMode "PauseMode" (λ old s,
      if String.eqb s "Normal" then PauseMode_Normal
      else if String.eqb s "IIWC" then PauseMode_IIWC
      else if String.eqb s "Optimal" then PauseMode_Optimal else old))
  | |- Step set_debugClasses _ _ => apply (string_field_step debugClasses "DebugClasses" (λ old s,
      debug_classes s ∪ old))
  end.


Lemma Step_ext m ok ok' g g' : Step m ok g → (∀ v, ok v = ok' v) → (∀ v p, g v p = g' v p) → Step m ok' g'.
Proof.
  intros H Eo E c p. specialize (H c p). rewrite <- Eo. destruct (ok _); [|done].
  destruct H as [w Hw]. exists w. by rewrite <- E.
Qed.

(** [SetParams] computes the reference. *)
Lemma SetParams_params_of : Step SetParams times_ok params_of.
Proof.
  eapply Step_ext.
  - unfold SetParams, SetParams_device, SetParams_timing, SetParams_policy. params_step.
  - intros v. unfold times_ok, timing_keys, both, always. cbn [forallb].
    rewrite ?andb_true_l, ?andb_true_r, <- ?andb_assoc. reflexivity.
  - intros v []. reflexivity.
Qed.

Lemma rd_idem vals {A} (conv : string → A) key old :
  rd vals conv key (rd vals conv key old) = rd vals conv key old.
Proof. unfold rd. by destruct (vals !! key). Qed.

Lemma app_cong {A B} (f g : A → B) x y : f = g → x = y → f x = g y.
Proof. by intros -> ->. Qed.

Ltac field_again :=
  first [apply rd_idem | lazymatch goal with q := params_of _ _ |- _ => subst q end; cbv [params_of rd programMode pauseMode debugClasses];
    lazymatch goal with |- context [?vals !! ?k] => destruct (vals !! k) end;
    [first [set_solver | by repeat case_match] | done]].

Lemma Params_eta (p : Params) : eta_of p = p.
Proof. by destruct p. Qed.

Lemma params_of_again vals p : params_of vals (params_of vals p) = params_of vals p.
Proof.
  set (q := params_of vals p). rewrite <- (Params_eta q) at 2.
  unfold params_of. cbv beta delta [eta_of eta_Params rec_ap rec_pure] iota.
  repeat (simple apply app_cong; [|solve [field_again]]). reflexivity.
Qed.

(** C8. [SetParams] reads a configuration without changing its values. If every
    time the configuration gives is, rounded up to cycles, a 64-bit number, it
    succeeds, and every parameter is the one its key describes: converted from the
    value if the key is set, as before otherwise, independently of the order in
    which the parameters are read. If some time is negative, too large or not a
    number it stops at the undefined conversion of [ConvertTiming]. An unknown
    [ProgramMode] or [PauseMode] leaves the mode as before, where the message says
    that it defaults to [SRMS] or [Normal]. *)
Theorem SetParams_correct c p :
  if times_ok (values c)
  then ∃ w, SetParams (c, p) = Ok ((), (c <| warned := w |>, params_of (values c) p))
  else SetParams (c, p) = Err BadConversion.
Proof. apply SetParams_params_of. Qed.

Lemma SetParams_ok_inv c p c1 p1 : SetParams (c, p) = Ok ((), (c1, p1)) →
  times_ok (values c) = true ∧ values c1 = values c ∧ p1 = params_of (values c) p.
Proof.
  intros H. pose proof (SetParams_params_of c p) as E. destruct (times_ok _); [|congruence].
  destruct E as [w E]. rewrite H in E. by injection E as -> ->.
Qed.

(** Calling [SetParams] again with the same configuration changes nothing. *)
Theorem SetParams_again c p c1 p1 :
  SetParams (c, p) = Ok ((), (c1, p1)) → ∃ c2, SetParams (c1, p1) = Ok ((), (c2, p1)).
Proof.
  intros (Ht & Ev & ->)%SetParams_ok_inv. pose proof (SetParams_params_of c1 (params_of (values c) p)) as E.
  rewrite Ev, Ht in E. destruct E as [w E]. eexists. by rewrite E, params_of_again.
Qed.

Definition test_config : Config :=
  Config_new <| values := {[ "CLK" := "800"; "tRCD" := "15ns"; "ROWS" := "1024"; "EnergyModel" := "energy" ]} |>.

(** 15 ns at 800 MHz are 12 cycles. *)
Example test_params :
  match SetParams (test_config, Params_new 0 0 0) with
  | Ok (_, (_, p)) => tRCD p = 12 ∧ ROWS p = 1024 ∧ tRP p = 9 ∧ EnergyModel p = "energy"
  | Err _ => False
  end.
Proof. vm_compute. done. Qed.

(** A negative time, and one of 2^64 cycles. *)
Example test_bad_times :
  SetParams (test_config <| values ::= <["tRP" := "-5ns"]> |>, Params_new 0 0 0) = Err BadConversion ∧
  SetParams (test_config <| values ::= <["tRFC" := "18446744073709551616"]> |>, Params_new 0 0 0) = Err BadConversion.
Proof. split; vm_compute; done. Qed.

(** An unknown mode keeps the mode read before, whatever the message says. *)
Example test_unknown_mode :
  match SetParams (test_config <| values ::= <["PauseMode" := "other"]> |>,
      (Params_new 0 0 0) <| pauseMode := PauseMode_IIWC |>) with
  | Ok (_, (_, p)) => pauseMode p = PauseMode_IIWC
  | Err _ => False
  end.
Proof. vm_compute. done. Qed.

Lemma SetParams_again_witness :
  ∃ c1 p1 c2, SetParams (test_config, Params_new 0 0 0) = Ok ((), (c1, p1)) ∧
    SetParams (c1, p1) = Ok ((), (c2, p1)).
Proof.
  assert (times_ok (values test_config) = true) as Ht by (vm_compute; reflexivity).
  pose proof (SetParams_params_of test_config (Params_new 0 0 0)) as E. rewrite Ht in E. destruct E as [w E].
  destruct (SetParams_again _ _ _ _ E) as [c2 E2].
  eexists _, _, c2. split; [exact E|exact E2].
Defined.
