(* ===== verification/SimInterface.v ===== *)
(** * The simulator interface

    NVmain/src/SimInterface.cpp: the contents of the memory, kept when endurance
    is modelled. The functions about instruction counts and caches are pure
    virtual and not used by the modelled components. *)

From S2P Require Import Prelude NVMTypes.

(*| NVmain/src/SimInterface.h 65-66 SimInterface *)
Record SimInterface := mkSimInterface {
  memoryData : gmap Z NVMDataBlock;
  accessCounts : gmap Z Z
}.

#[export] Instance eta_SimInterface : Settable SimInterface :=
  fields! mkSimInterface < memoryData; accessCounts >.

(** The block found is assigned to the parameter, which is a pointer passed by
    value: the caller's block does not change, so only the result is left. *)
(*| NVmain/src/SimInterface.cpp 40-56 SimInterface::GetDataAtAddress *)
Definition GetDataAtAddress (addr : Z) (si : SimInterface) : Z :=
  match memoryData si !! addr with None => 0 | Some _ => 1 end.

(*| NVmain/src/SimInterface.cpp 58-73 SimInterface::SetDataAtAddress *)
Definition SetDataAtAddress (addr : Z) (d : NVMDataBlock) (si : SimInterface) : res SimInterface :=
  match accessCounts si !! addr with
  | None =>
      b ← NVMDataBlock_assign NVMDataBlock_new d;
      Ok (si <| memoryData ::= <[addr := b]> |> <| accessCounts ::= <[addr := 0]> |>)
  | Some n =>
      old ← deref NullDeref (memoryData si !! addr);
      b ← NVMDataBlock_assign old d;
      Ok (si <| memoryData ::= <[addr := b]> |> <| accessCounts ::= <[addr := u32 (n + 1)]> |>)
  end.

(** ** Properties *)

Lemma block_assign_wf this m :
  block_wf m → block_wf this ∧ size this = size m ∨ rawData this = None →
  NVMDataBlock_assign this m = Ok m.
Proof.
  intros (l & El & Hs & Hv & Hu) Ht. unfold NVMDataBlock_assign. rewrite El, <- Hs, Nat2Z.id.
  assert (length (default (replicate (length l) 0) (rawData this)) = length l) as Hlen.
  { destruct Ht as [[(l' & El' & Hs' & _) Hsz]| ->]; [|cbn; by rewrite length_replicate]. rewrite El'. cbn. lia. }
  rewrite !bool_decide_eq_true_2 by lia. cbn. rewrite take_ge, drop_ge, app_nil_r by lia.
  destruct m. unfold upd. cbn in *. by rewrite El, <- Hs, Hv.
Qed.

(** The blocks of one size, and a count for exactly the known addresses. *)
Definition si_wf (n : Z) (si : SimInterface) : Prop :=
  (∀ a, is_Some (accessCounts si !! a) ↔ is_Some (memoryData si !! a)) ∧
  map_Forall (λ _ d, block_wf d ∧ size d = n) (memoryData si).

(** Data written at an address is there afterwards, every other address
    keeps its data, and the store stays well formed. *)
Theorem SetDataAtAddress_stores n si addr d :
  si_wf n si → block_wf d → size d = n →
  ∃ si', SetDataAtAddress addr d si = Ok si' ∧ si_wf n si' ∧
    memoryData si' = <[addr := d]> (memoryData si) ∧ GetDataAtAddress addr si' = 1 ∧
    ∀ a, a ≠ addr → GetDataAtAddress a si' = GetDataAtAddress a si.
Proof.
  intros [Hk Hall] Hd Hn. unfold SetDataAtAddress, GetDataAtAddress.
  assert (∀ x, si_wf n (si <| memoryData ::= <[addr := d]> |> <| accessCounts ::= <[addr := x]> |>)) as Hwf.
  { intros x. split.
    - intros a. fields. rewrite !lookup_insert. case_decide; [naive_solver|]. apply Hk.
    - fields. by apply map_Forall_insert_2. }
  destruct (accessCounts si !! addr) as [c|] eqn:E.
  - destruct (proj1 (Hk addr) ltac:(eauto)) as [old Eo]. destruct (Hall _ _ Eo) as [Ho Hos].
    rewrite Eo. cbn. rewrite block_assign_wf by first [done | left; split; [done|lia]]. cbn.
    eexists. split_and!; [done|apply Hwf|done|fields; by rewrite lookup_insert_eq|].
    intros a Ha. fields. by rewrite lookup_insert_ne.
  - rewrite block_assign_wf by first [done | by right]. cbn.
    eexists. split_and!; [done|apply Hwf|done|fields; by rewrite lookup_insert_eq|].
    intros a Ha. fields. by rewrite lookup_insert_ne.
Qed.

Lemma SetDataAtAddress_stores_witness :
  ∃ si', SetDataAtAddress 64 (mkNVMDataBlock (Some [1; 2]) true 2) (mkSimInterface ∅ ∅) = Ok si' ∧
    GetDataAtAddress 64 si' = 1.
Proof.
  destruct (SetDataAtAddress_stores 2 (mkSimInterface ∅ ∅) 64 (mkNVMDataBlock (Some [1; 2]) true 2))
    as (si' & H1 & _ & _ & H2 & _).
  - split; [|by apply map_Forall_empty]. intros a. cbn. rewrite !lookup_empty. done.
  - exists [1; 2]. split_and!; try done. repeat constructor; unfold is_u8; lia.
  - done.
  - eauto.
Defined.
