(* ===== verification/Heap.v ===== *)
(** * The simulator heap

    Requests, events and simulator objects live in one heap and are shared by
    pointer: a request a controller holds is the request its subarray changes.
    [Sim O] is the heap with the event queue of the subsystem and the state [O]
    of the component under study. *)

From S2P Require Import Prelude NVMTypes Translation SimInterface.

(** A hook stands between an object and its parent: a distinct heap object that
    points at its trampoline. *)
(*| NVmain/src/NVMObject.h 143-144 NVMObject_hook *)
Record Hook := mkHook { hook_id : positive; trampoline : ObjPtr }.

#[export] Instance Hook_eq_dec : EqDecision Hook.
Proof. solve_decision. Defined.

(*| NVmain/src/NVMObject.h 97-102 HookType *)
Inductive HookType :=
  | NVMHOOK_NONE | NVMHOOK_PREISSUE | NVMHOOK_POSTISSUE | NVMHOOK_COUNT | NVMHOOK_BOTHISSUE.

#[export] Instance HookType_eq_dec : EqDecision HookType.
Proof. solve_decision. Defined.

(** The state of the base class that is not a pointer to a shared service.
    [hooks] is the array indexed by [HookType] below [NVMHOOK_COUNT]. *)
(*| NVmain/src/NVMObject.h 227-239 NVMObject *)
Record NVMObject := mkNVMObject {
  parent : option Hook;
  decoder : option AddressTranslator;
  children : list Hook;
  hooks_none : list ObjPtr;
  hooks_pre : list ObjPtr;
  hooks_post : list ObjPtr;
  hookType : HookType;
  currentHookType : HookType
}.

#[export] Instance eta_NVMObject : Settable NVMObject := fields! mkNVMObject
  < parent; decoder; children; hooks_none; hooks_pre; hooks_post; hookType; currentHookType >.

(*| NVmain/src/EventQueue.h 52-58 EventType *)
Inductive EventType :=
  | EventUnknown | EventCycle | EventIdle | EventRequest | EventResponse | EventCallback.

#[export] Instance EventType_eq_dec : EqDecision EventType.
Proof. solve_decision. Defined.

(** Callbacks are member functions: named by a number. *)
(*| NVmain/src/EventQueue.h 84-90 Event *)
Record Event := mkEvent {
  ev_type : EventType;
  ev_recipient : option Hook;
  ev_request : option ReqPtr;
  ev_data : Z;
  ev_cycle : Z;
  ev_priority : Z;
  ev_method : nat
}.

#[export] Instance eta_Event : Settable Event := fields! mkEvent
  < ev_type; ev_recipient; ev_request; ev_data; ev_cycle; ev_priority; ev_method >.

(** The constructor leaves the callback uninitialised: an argument. *)
(*| NVmain/src/EventQueue.h 63-64 Event::Event *)
Definition Event_new (method0 : nat) : Event :=
  mkEvent EventUnknown None None 0 0 0 method0.

(** ** The event queue data *)

(*| NVmain/src/EventQueue.h 127-132 EventQueue *)
Record EventQueue := mkEventQueue {
  nextEventCycle : Z;
  lastEventCycle : Z;
  currentCycle : Z;
  frequency : double;
  eventMap : gmap Z (list positive)
}.

#[export] Instance eta_EventQueue : Settable EventQueue := fields! mkEventQueue
  < nextEventCycle; lastEventCycle; currentCycle; frequency; eventMap >.

(** [h_sim] is the simulator interface the configuration points at. *)
Record Heap := mkHeap {
  h_objs : gmap positive NVMObject;
  h_reqs : gmap positive NVMainRequest;
  h_events : gmap positive Event;
  h_next : positive;
  h_sim : option SimInterface
}.

#[export] Instance eta_Heap : Settable Heap := fields! mkHeap
  < h_objs; h_reqs; h_events; h_next; h_sim >.

Record Sim (O : Type) := mkSim { heap : Heap; queue : EventQueue; obj : O }.
Arguments mkSim {O} heap queue obj.
Arguments heap {O} s.
Arguments queue {O} s.
Arguments obj {O} s.

#[export] Instance eta_Sim O : Settable (Sim O) := fields! mkSim < heap; queue; obj >.

(** ** Access *)

Section Access.
Context {O : Type}.

Definition now : ST (Sim O) Z := gets (λ s, currentCycle (queue s)).

Definition load_req (p : ReqPtr) : ST (Sim O) NVMainRequest := λ s,
  match h_reqs (heap s) !! p with Some r => Ok (r, s) | None => Err UseAfterFree end.

Definition store_req (p : ReqPtr) (r : NVMainRequest) : ST (Sim O) unit := λ s,
  match h_reqs (heap s) !! p with
  | Some _ => Ok ((), s <| heap ::= λ h, h <| h_reqs ::= <[p := r]> |> |>)
  | None => Err UseAfterFree
  end.

Definition new_req (r : NVMainRequest) : ST (Sim O) ReqPtr := λ s,
  let p := h_next (heap s) in
  Ok (p, s <| heap ::= λ h, h <| h_reqs ::= <[p := r]> |> <| h_next ::= Pos.succ |> |>).

Definition delete_req (p : ReqPtr) : ST (Sim O) unit := λ s,
  match h_reqs (heap s) !! p with
  | Some _ => Ok ((), s <| heap ::= λ h, h <| h_reqs ::= delete p |> |>)
  | None => Err UseAfterFree
  end.

Definition load_event (p : positive) : ST (Sim O) Event := λ s,
  match h_events (heap s) !! p with Some r => Ok (r, s) | None => Err UseAfterFree end.

Definition store_event (p : positive) (e : Event) : ST (Sim O) unit := λ s,
  match h_events (heap s) !! p with
  | Some _ => Ok ((), s <| heap ::= λ h, h <| h_events ::= <[p := e]> |> |>)
  | None => Err UseAfterFree
  end.

Definition new_event (e : Event) : ST (Sim O) positive := λ s,
  let p := h_next (heap s) in
  Ok (p, s <| heap ::= λ h, h <| h_events ::= <[p := e]> |> <| h_next ::= Pos.succ |> |>).

Definition delete_event (p : positive) : ST (Sim O) unit := λ s,
  match h_events (heap s) !! p with
  | Some _ => Ok ((), s <| heap ::= λ h, h <| h_events ::= delete p |> |>)
  | None => Err UseAfterFree
  end.

Definition load_obj (p : ObjPtr) : ST (Sim O) NVMObject := λ s,
  match h_objs (heap s) !! p with Some r => Ok (r, s) | None => Err UseAfterFree end.

Definition store_obj (p : ObjPtr) (o : NVMObject) : ST (Sim O) unit := λ s,
  match h_objs (heap s) !! p with
  | Some _ => Ok ((), s <| heap ::= λ h, h <| h_objs ::= <[p := o]> |> |>)
  | None => Err UseAfterFree
  end.

Definition new_hook (t : ObjPtr) : ST (Sim O) Hook := λ s,
  Ok (mkHook (h_next (heap s)) t, s <| heap ::= λ h, h <| h_next ::= Pos.succ |> |>).

(** The state of the component, read and written through a projection. *)
Definition self : ST (Sim O) O := gets obj.
Definition set_self (f : O → O) : ST (Sim O) unit := modify (λ s, s <| obj ::= f |>).
End Access.

(** ** Allocation discipline: everything allocated is below [h_next]. *)

Definition heap_wf (h : Heap) : Prop :=
  (∀ p, h_next h ≤ p → h_reqs h !! p = None ∧ h_events h !! p = None)%positive.

Lemma heap_wf_fresh_req h : heap_wf h → h_reqs h !! h_next h = None.
Proof. intros H. apply H. reflexivity. Qed.

Lemma heap_wf_fresh_event h : heap_wf h → h_events h !! h_next h = None.
Proof. intros H. apply H. reflexivity. Qed.

(** A live request was allocated. *)
Lemma heap_wf_lt h q r : heap_wf h → h_reqs h !! q = Some r → (q < h_next h)%positive.
Proof. intros H Hq. apply Pos.lt_nle. intros Hle. destruct (H q Hle) as [Hn _]. congruence. Qed.

Lemma heap_wf_update h h' :
  heap_wf h → (h_next h ≤ h_next h')%positive →
  (∀ p, h_next h' ≤ p → (h_reqs h !! p = None → h_reqs h' !! p = None) ∧ (h_events h !! p = None → h_events h' !! p = None))%positive →
  heap_wf h'.
Proof. intros H Hn Hu p Hp. destruct (H p) as [H1 H2]; [lia|]. destruct (Hu p Hp) as [U1 U2]. auto. Qed.
Ltac wf_update := intros; eapply heap_wf_update; [eassumption|fields; lia|]; intros p Hp; fields_in Hp; fields;
  split; intros; rewrite ?lookup_insert_ne; try done.
Lemma heap_wf_req h q r r0 : heap_wf h → h_reqs h !! q = Some r0 → heap_wf (h <| h_reqs ::= <[q := r]> |>).
Proof. intros H Hq. pose proof (heap_wf_lt _ _ _ H Hq). wf_update. lia. Qed.
Lemma heap_wf_new_req h r : heap_wf h → heap_wf (h <| h_reqs ::= <[h_next h := r]> |> <| h_next ::= Pos.succ |>).
Proof. wf_update. lia. Qed.
Lemma heap_wf_delete_req h q : heap_wf h → heap_wf (h <| h_reqs ::= delete q |>).
Proof. wf_update. apply lookup_delete_None. by right. Qed.
Lemma heap_wf_event_lt h q e : heap_wf h → h_events h !! q = Some e → (q < h_next h)%positive.
Proof. intros H Hq. apply Pos.lt_nle. intros Hle. destruct (H q Hle) as [_ Hn]. congruence. Qed.
Lemma heap_wf_event h q e e0 : heap_wf h → h_events h !! q = Some e0 → heap_wf (h <| h_events ::= <[q := e]> |>).
Proof. intros H Hq. pose proof (heap_wf_event_lt _ _ _ H Hq). wf_update. lia. Qed.
Lemma heap_wf_new_event h e : heap_wf h → heap_wf (h <| h_events ::= <[h_next h := e]> |> <| h_next ::= Pos.succ |>).
Proof. wf_update. lia. Qed.
Lemma heap_wf_delete_event h q : heap_wf h → heap_wf (h <| h_events ::= delete q |>).
Proof. wf_update. apply lookup_delete_None. by right. Qed.

(** Accesses that succeed. *)
Section AccessEquations.
Context {O A : Type}.
Implicit Types (s : Sim O).

Lemma bind_now (f : Z → ST (Sim O) A) s : (now ≫= f) s = f (currentCycle (queue s)) s.
Proof. reflexivity. Qed.
Lemma bind_self (f : O → ST (Sim O) A) s : (self ≫= f) s = f (obj s) s.
Proof. reflexivity. Qed.
Lemma bind_set_self g (f : unit → ST (Sim O) A) s :
  (set_self g ≫= f) s = f () (s <| obj ::= g |>).
Proof. reflexivity. Qed.
Lemma bind_load_req p r (f : NVMainRequest → ST (Sim O) A) s :
  h_reqs (heap s) !! p = Some r → (load_req p ≫= f) s = f r s.
Proof. intros E. rewrite bind_eq. unfold load_req. by rewrite E. Qed.
Lemma bind_store_req p r r0 (f : unit → ST (Sim O) A) s :
  h_reqs (heap s) !! p = Some r0 →
  (store_req p r ≫= f) s = f () (s <| heap ::= λ h, h <| h_reqs ::= <[p := r]> |> |>).
Proof. intros E. rewrite bind_eq. unfold store_req. by rewrite E. Qed.
Lemma bind_new_req r (f : ReqPtr → ST (Sim O) A) s :
  (new_req r ≫= f) s = f (h_next (heap s))
    (s <| heap ::= λ h, h <| h_reqs ::= <[h_next (heap s) := r]> |> <| h_next ::= Pos.succ |> |>).
Proof. reflexivity. Qed.
Lemma bind_delete_req p r0 (f : unit → ST (Sim O) A) s :
  h_reqs (heap s) !! p = Some r0 →
  (delete_req p ≫= f) s = f () (s <| heap ::= λ h, h <| h_reqs ::= delete p |> |>).
Proof. intros E. rewrite bind_eq. unfold delete_req. by rewrite E. Qed.
Lemma bind_load_event p r (f : Event → ST (Sim O) A) s :
  h_events (heap s) !! p = Some r → (load_event p ≫= f) s = f r s.
Proof. intros E. rewrite bind_eq. unfold load_event. by rewrite E. Qed.
Lemma bind_store_event p r r0 (f : unit → ST (Sim O) A) s :
  h_events (heap s) !! p = Some r0 →
  (store_event p r ≫= f) s = f () (s <| heap ::= λ h, h <| h_events ::= <[p := r]> |> |>).
Proof. intros E. rewrite bind_eq. unfold store_event. by rewrite E. Qed.
Lemma bind_new_event r (f : positive → ST (Sim O) A) s :
  (new_event r ≫= f) s = f (h_next (heap s))
    (s <| heap ::= λ h, h <| h_events ::= <[h_next (heap s) := r]> |> <| h_next ::= Pos.succ |> |>).
Proof. reflexivity. Qed.
Lemma bind_delete_event p r0 (f : unit → ST (Sim O) A) s :
  h_events (heap s) !! p = Some r0 →
  (delete_event p ≫= f) s = f () (s <| heap ::= λ h, h <| h_events ::= delete p |> |>).
Proof. intros E. rewrite bind_eq. unfold delete_event. by rewrite E. Qed.
Lemma bind_load_obj p r (f : NVMObject → ST (Sim O) A) s :
  h_objs (heap s) !! p = Some r → (load_obj p ≫= f) s = f r s.
Proof. intros E. rewrite bind_eq. unfold load_obj. by rewrite E. Qed.
End AccessEquations.

#[export] Hint Rewrite @bind_now @bind_self @bind_set_self @bind_new_req @bind_new_event : run.
