(* ===== verification/EventQueue.v ===== *)
(** * The event queue

    NVmain/src/EventQueue.cpp: events are kept in one list per cycle, ordered by
    priority; [Process] runs the list of the next cycle, [Loop] advances time.
    The objects an event calls back are behind the interface [Recipient]. *)

From S2P Require Import Prelude NVMTypes Heap.

(** [std::map::begin()->first]: the least key. *)
Definition first_key {A} (m : gmap Z A) : option Z :=
  foldr (λ k acc, match acc with None => Some k | Some a => Some (Z.min k a) end)
    None (map_to_list m).*1.

Definition next_of {A} (m : gmap Z A) : Z := default u64_max (first_key m).

(** The members of a recipient that [Process] calls. *)
Class Recipient (O : Type) := {
  rc_Cycle : Hook → Z → ST (Sim O) unit;
  rc_RequestComplete : Hook → option ReqPtr → ST (Sim O) bool;
  rc_Callback : ObjPtr → nat → Z → ST (Sim O) unit
}.

(*| NVmain/src/EventQueue.cpp 64-70 EventQueue::EventQueue *)
Definition EventQueue_new (frequency0 : double) : EventQueue :=
  mkEventQueue u64_max 0 0 frequency0 ∅.

Section EventQueue.
Context {O : Type}.

Definition set_queue (f : EventQueue → EventQueue) : ST (Sim O) unit :=
  modify (λ s, s <| queue ::= f |>).

(** The search of the parent's children for the hook of [r], which the
    constructors of events share. *)
(*| NVmain/src/EventQueue.cpp 79-92 EventQueue::InsertEvent *)
Definition find_hook (r : ObjPtr) : ST (Sim O) Hook :=
  o ← load_obj r;
  ph ← lift (deref NullDeref (parent o));
  po ← load_obj (trampoline ph);
  lift (deref AssertFail (List.find (λ h, bool_decide (trampoline h = r)) (children po))).

(*| NVmain/src/EventQueue.cpp 44-62 Event::SetRecipient *)
Definition Event_SetRecipient (e : positive) (r : ObjPtr) : ST (Sim O) unit :=
  hook ← find_hook r;
  ev ← load_event e;
  store_event e (ev <| ev_recipient := Some hook |>).

(** Lines 164-177: before the first event whose priority is greater. *)
(*| NVmain/src/EventQueue.cpp 159-177 EventQueue::InsertEvent *)
Fixpoint insert_by_priority (events : gmap positive Event) (e : positive) (priority : Z)
    (l : list positive) : res (list positive) :=
  match l with
  | [] => Ok [e]
  | x :: l' =>
      ev ← deref UseAfterFree (events !! x);
      if ev_priority ev >? priority then Ok (e :: x :: l')
      else r ← insert_by_priority events e priority l'; Ok (x :: r)
  end.

(*| NVmain/src/EventQueue.cpp 137-179 EventQueue::InsertEvent *)
Definition InsertEvent_at (e : positive) (when priority : Z) : ST (Sim O) unit :=
  ev ← load_event e;
  store_event e (ev <| ev_cycle := when |>);;
  set_queue (λ q, q <| nextEventCycle ::= λ n, if when <? n then when else n |>);;
  s ← get;
  match eventMap (queue s) !! when with
  | None => set_queue (λ q, q <| eventMap ::= <[when := [e]]> |>)
  | Some l =>
      l' ← lift (insert_by_priority (h_events (heap s)) e priority l);
      set_queue (λ q, q <| eventMap ::= <[when := l']> |>)
  end.

(** The priority orders the insertion but is not stored in the event. *)
(*| NVmain/src/EventQueue.cpp 123-135 EventQueue::InsertEvent *)
Definition InsertEvent (type : EventType) (recipient : Hook) (req : option ReqPtr)
    (when data priority : Z) : ST (Sim O) unit :=
  e ← new_event ((Event_new 0)
        <| ev_type := type |> <| ev_recipient := Some recipient |>
        <| ev_request := req |> <| ev_cycle := when |> <| ev_data := data |>);
  InsertEvent_at e when priority.

(*| NVmain/src/EventQueue.cpp 102-121 EventQueue::InsertEvent *)
Definition InsertEvent_obj (type : EventType) (recipient : ObjPtr) (req : option ReqPtr)
    (when data priority : Z) : ST (Sim O) unit :=
  hook ← find_hook recipient;
  InsertEvent type hook req when data priority.

(*| NVmain/src/EventQueue.cpp 76-95 EventQueue::InsertEvent *)
Definition InsertEvent_cycle (type : EventType) (recipient : ObjPtr)
    (when data priority : Z) : ST (Sim O) unit :=
  hook ← find_hook recipient;
  InsertEvent type hook None when data priority.

(*| NVmain/src/EventQueue.cpp 97-100 EventQueue::InsertEvent *)
Definition InsertEvent_hook (type : EventType) (recipient : Hook)
    (when data priority : Z) : ST (Sim O) unit :=
  InsertEvent type recipient None when data priority.

(*| NVmain/src/EventQueue.cpp 182-195 EventQueue::InsertCallback *)
Definition InsertCallback (recipient : ObjPtr) (method : nat)
    (when data priority : Z) : ST (Sim O) unit :=
  e ← new_event ((Event_new method) <| ev_type := EventCallback |>);
  Event_SetRecipient e recipient;;
  ev ← load_event e;
  store_event e (ev <| ev_data := data |> <| ev_cycle := when |>
                    <| ev_priority := priority |> <| ev_method := method |>);;
  InsertEvent_at e when priority.

(** [std::list::erase] of the first node that holds [e]. *)
Fixpoint erase_first (e : positive) (l : list positive) : list positive :=
  match l with
  | [] => []
  | x :: l => if decide (x = e) then l else x :: erase_first e l
  end.

(*| NVmain/src/EventQueue.cpp 198-238 EventQueue::RemoveEvent *)
Definition RemoveEvent (e : positive) (when : Z) : ST (Sim O) bool :=
  s ← get;
  match eventMap (queue s) !! when with
  | None => mret false
  | Some l =>
      let found := bool_decide (e ∈ l) in
      let l' := erase_first e l in
      (if found then
         set_queue (λ q, q <| eventMap ::=
           if decide (l' = []) then delete when else <[when := l']> |>)
       else mret ());;
      set_queue (λ q, q <| nextEventCycle := next_of (eventMap q) |>);;
      mret found
  end.

Definition event_matches (events : gmap positive Event) (f : Event → bool) (e : positive) : res bool :=
  ev ← deref UseAfterFree (events !! e); Ok (f ev).

(** The loop has no [break]: the last match is returned. *)
(*| NVmain/src/EventQueue.cpp 273-280 EventQueue::FindEvent *)
Fixpoint find_last (events : gmap positive Event) (f : Event → bool) (rv : option positive)
    (l : list positive) : res (option positive) :=
  match l with
  | [] => Ok rv
  | e :: l => b ← event_matches events f e;
              find_last events f (if b : bool then Some e else rv) l
  end.

(*| NVmain/src/EventQueue.cpp 263-283 EventQueue::FindEvent *)
Definition FindEvent (type : EventType) (recipient : Hook) (req : option ReqPtr) (when : Z)
    : ST (Sim O) (option positive) :=
  s ← get;
  match eventMap (queue s) !! when with
  | None => mret None
  | Some l => lift (find_last (h_events (heap s)) (λ ev,
      bool_decide (ev_type ev = type) && bool_decide (ev_recipient ev = Some recipient)
      && bool_decide (ev_request ev = req)) None l)
  end.

(*| NVmain/src/EventQueue.cpp 241-260 EventQueue::FindEvent *)
Definition FindEvent_obj (type : EventType) (recipient : ObjPtr) (req : option ReqPtr) (when : Z)
    : ST (Sim O) (option positive) :=
  hook ← find_hook recipient;
  FindEvent type hook req when.

(*| NVmain/src/EventQueue.cpp 294-305 EventQueue::FindCallback *)
Fixpoint find_first (events : gmap positive Event) (f : Event → res bool)
    (l : list positive) : res (option positive) :=
  match l with
  | [] => Ok None
  | e :: l =>
      ev ← deref UseAfterFree (events !! e);
      b ← f ev;
      if b : bool then Ok (Some e) else find_first events f l
  end.

(** The priority of the default argument is 0. *)
(*| NVmain/src/EventQueue.cpp 286-309 EventQueue::FindCallback *)
Definition FindCallback (recipient : ObjPtr) (method : nat) (when data priority : Z)
    : ST (Sim O) (option positive) :=
  s ← get;
  match eventMap (queue s) !! when with
  | None => mret None
  | Some l => lift (find_first (h_events (heap s)) (λ ev,
      h ← deref NullDeref (ev_recipient ev);
      Ok (bool_decide (trampoline h = recipient) && bool_decide (ev_method ev = method)
          && (ev_data ev =? data) && (ev_priority ev =? priority))) l)
  end.

(** ** Processing *)

Context `{Recipient O}.

(*| NVmain/src/EventQueue.cpp 368-398 EventQueue::Process *)
Definition dispatch (ev : Event) : ST (Sim O) unit :=
  match ev_type ev with
  | EventCycle =>
      h ← lift (deref NullDeref (ev_recipient ev));
      steps ← gets (λ s, nextEventCycle (queue s) ⊖ lastEventCycle (queue s));
      rc_Cycle h steps
  | EventResponse =>
      h ← lift (deref NullDeref (ev_recipient ev));
      _ ← rc_RequestComplete h (ev_request ev);
      mret ()
  | EventCallback =>
      h ← lift (deref NullDeref (ev_recipient ev));
      rc_Callback (trampoline h) (ev_method ev) (ev_data ev)
  | EventIdle | EventRequest | EventUnknown => mret ()
  end.

(** The node after [e] in the list of cycle [k] as it is now: the iterator is
    invalid once its node or the whole list is gone. *)
Fixpoint after (e : positive) (l : list positive) : res (option positive) :=
  match l with
  | [] => Err UseAfterFree
  | x :: l' => if decide (x = e) then Ok (head l') else after e l'
  end.

(** The loop over the list; the body may insert into it. *)
(*| NVmain/src/EventQueue.cpp 366-402 EventQueue::Process *)
Fixpoint process_loop (fuel : nat) (k : Z) (cur : option positive) : ST (Sim O) unit :=
  match cur, fuel with
  | None, _ => mret ()
  | Some _, 0%nat => fail OutOfFuel
  | Some e, S fuel =>
      ev ← load_event e;
      dispatch ev;;
      delete_event e;;
      m ← gets (λ s, eventMap (queue s));
      l ← lift (deref UseAfterFree (m !! k));
      nxt ← lift (after e l);
      process_loop fuel k nxt
  end.

(*| NVmain/src/EventQueue.cpp 358-418 EventQueue::Process *)
Definition Process (fuel : nat) : ST (Sim O) unit :=
  s ← get;
  l ← lift (deref AssertFail (eventMap (queue s) !! nextEventCycle (queue s)));
  process_loop fuel (nextEventCycle (queue s)) (head l);;
  set_queue (λ q, q <| eventMap ::= delete (nextEventCycle q) |>);;
  set_queue (λ q, q <| lastEventCycle := nextEventCycle q |>
                    <| nextEventCycle := next_of (eventMap q) |>).

(*| NVmain/src/EventQueue.cpp 312-324 EventQueue::Loop *)
Definition Loop1 (fuel : nat) : ST (Sim O) unit :=
  q ← gets queue;
  (if nextEventCycle q =? currentCycle q then Process fuel else mret ());;
  set_queue (λ q, q <| currentCycle ::= λ c, c ⊕ 1 |>).

(** The [while] of [Loop(steps)]. *)
(*| NVmain/src/EventQueue.cpp 338-354 EventQueue::Loop *)
Fixpoint loop_while (fuel : nat) (pfuel : nat) (stepCycles : Z) : ST (Sim O) unit :=
  match fuel with
  | 0%nat => fail OutOfFuel
  | S fuel =>
      if stepCycles >? 0 then
        q ← gets queue;
        if nextEventCycle q >? currentCycle q ⊕ stepCycles then
          set_queue (λ q, q <| currentCycle ::= λ c, c ⊕ stepCycles |>)
        else
          let currentSteps := nextEventCycle q ⊖ currentCycle q in
          set_queue (λ q, q <| currentCycle ::= λ c, c ⊕ currentSteps |>);;
          Process pfuel;;
          loop_while fuel pfuel (stepCycles ⊖ currentSteps)
      else mret ()
  end.

(*| NVmain/src/EventQueue.cpp 327-355 EventQueue::Loop *)
Definition Loop (fuel pfuel : nat) (steps : Z) : ST (Sim O) unit :=
  q ← gets queue;
  if (steps =? 0) && (nextEventCycle q =? currentCycle q) then Process pfuel
  else loop_while fuel pfuel steps.

(*| NVmain/src/EventQueue.cpp 420-423 EventQueue::SetFrequency *)
Definition SetFrequency (freq : double) : ST (Sim O) unit :=
  set_queue (λ q, q <| frequency := freq |>).
(*| NVmain/src/EventQueue.cpp 430-433 EventQueue::GetNextEvent *)
Definition GetNextEvent : ST (Sim O) Z := gets (λ s, nextEventCycle (queue s)).
(*| NVmain/src/EventQueue.cpp 435-438 EventQueue::GetCurrentCycle *)
Definition GetCurrentCycle : ST (Sim O) Z := now.
(*| NVmain/src/EventQueue.cpp 440-443 EventQueue::SetCurrentCycle *)
Definition SetCurrentCycle (curCycle : Z) : ST (Sim O) unit :=
  set_queue (λ q, q <| currentCycle := curCycle |>).
End EventQueue.

(** ** Lemmas on keys *)

Section Keys.
Context {A : Type}.
Implicit Types (m : gmap Z A) (k : Z).

Lemma foldr_min_spec (l : list Z) :
  match foldr (λ k acc, match acc with None => Some k | Some a => Some (Z.min k a) end) None l with
  | None => l = []
  | Some k => k ∈ l ∧ ∀ j, j ∈ l → k ≤ j
  end.
Proof.
  induction l as [|k l IH]; cbn; [done|].
  destruct (foldr _ None l) as [a|].
  - destruct IH as [Ha Hmin]. split.
    + destruct (Z.min_spec k a) as [[_ ->]|[_ ->]]; [by left | by right].
    + intros j [->|Hj]%elem_of_cons; [lia|]. specialize (Hmin j Hj). lia.
  - subst. split; [by left|]. intros j [->|Hj]%elem_of_cons; [lia|].
    by apply elem_of_nil in Hj.
Qed.

Lemma first_key_Some m k :
  first_key m = Some k ↔ is_Some (m !! k) ∧ ∀ j, is_Some (m !! j) → k ≤ j.
Proof.
  assert (∀ j, j ∈ (map_to_list m).*1 ↔ is_Some (m !! j)) as Hin.
  { intros j. rewrite list_elem_of_fmap. split.
    - intros ([i x] & -> & Hx%elem_of_map_to_list). eauto.
    - intros [x Hx]. exists (j, x). by rewrite elem_of_map_to_list. }
  unfold first_key. pose proof (foldr_min_spec (map_to_list m).*1) as H.
  destruct (foldr _ None _) as [a|].
  - destruct H as [Ha Hmin]. split.
    + intros [= ->]. split; [by apply Hin|]. intros j Hj. by apply Hmin, Hin.
    + intros [Hk Hmin']. f_equal. apply Hin in Ha. apply Hin in Hk.
      specialize (Hmin k Hk). specialize (Hmin' a Ha). lia.
  - split; [done|]. intros [Hk%Hin _]. rewrite H in Hk. by apply elem_of_nil in Hk.
Qed.

Lemma first_key_None m : first_key m = None ↔ m = ∅.
Proof.
  unfold first_key. pose proof (foldr_min_spec (map_to_list m).*1) as H.
  destruct (foldr _ None _) as [a|].
  - destruct H as [Ha _]. split; [done|]. intros ->.
    rewrite map_to_list_empty in Ha. by apply elem_of_nil in Ha.
  - split; [|done]. intros _. apply fmap_nil_inv in H. by apply map_to_list_empty_iff.
Qed.

(** [next_of] is the least key, or the largest cycle when there is none. *)
Lemma next_of_spec m k :
  (∀ j, is_Some (m !! j) → j < u64_max) →
  next_of m = k ↔ (k = u64_max ∧ m = ∅) ∨ (is_Some (m !! k) ∧ ∀ j, is_Some (m !! j) → k ≤ j).
Proof.
  intros Hb. unfold next_of. destruct (first_key m) as [a|] eqn:E; cbn.
  - pose proof (proj1 (first_key_Some m a) E) as [Ha Hmin]. split.
    + intros ->. by right.
    + intros [[-> ->]|[Hk Hk']]; [by rewrite lookup_empty in Ha; destruct Ha|].
      specialize (Hmin k Hk). specialize (Hk' a Ha). lia.
  - apply first_key_None in E as ->. split; [by left|].
    intros [[-> _]|[[? Hk] _]]; [done|]. by rewrite lookup_empty in Hk.
Qed.

Lemma next_of_insert m k x :
  k < u64_max → (∀ j, is_Some (m !! j) → j < u64_max) →
  next_of (<[k := x]> m) = if k <? next_of m then k else next_of m.
Proof.
  intros Hk Hb. apply next_of_spec.
  { intros j. rewrite lookup_insert. case_decide; [by subst|]. apply Hb. }
  right. pose proof (proj1 (next_of_spec m (next_of m) Hb) eq_refl) as Hn.
  split.
  - destruct (Z.ltb_spec k (next_of m)) as [Hlt|Hge]; [by rewrite lookup_insert_eq|].
    destruct Hn as [[Hn _]|[[y Hn] _]]; [lia|]. rewrite lookup_insert. case_decide; eauto.
  - intros j. rewrite lookup_insert. case_decide as Hj; [subst|].
    + intros _. destruct (Z.ltb_spec j (next_of m)); lia.
    + intros Hj'. destruct Hn as [[_ ->]|[_ Hmin]]; [by rewrite lookup_empty in Hj'; destruct Hj'|].
      specialize (Hmin j Hj'). destruct (Z.ltb_spec k (next_of m)); lia.
Qed.
End Keys.

(** ** The invariant *)

Definition list_ok (h : Heap) (k : Z) (l : list positive) : Prop :=
  l ≠ [] ∧ NoDup l ∧
  ∀ e, e ∈ l → ∃ ev, h_events h !! e = Some ev ∧ ev_cycle ev = k.

Record eq_wf {O} (s : Sim O) : Prop := {
  wf_next : nextEventCycle (queue s) = next_of (eventMap (queue s));
  wf_lists : ∀ k l, eventMap (queue s) !! k = Some l → list_ok (heap s) k l;
  wf_keys : ∀ k, is_Some (eventMap (queue s) !! k) → 0 ≤ k < u64_max;
  wf_heap : heap_wf (heap s)
}.

(** Which of the events in a list run before [e] inserted with priority [p]. *)
Definition prios_le (h : Heap) (p : Z) (l : list positive) : Prop :=
  ∀ e, e ∈ l → ∃ ev, h_events h !! e = Some ev ∧ ev_priority ev ≤ p.

Definition first_gt (h : Heap) (p : Z) (l : list positive) : Prop :=
  match l with
  | [] => True
  | e :: _ => ∃ ev, h_events h !! e = Some ev ∧ p < ev_priority ev
  end.

(** The priorities of a list of events are in ascending order. *)
Definition prio_of (h : Heap) (e : positive) : Z :=
  match h_events h !! e with Some ev => ev_priority ev | None => 0 end.
Definition prio_sorted (h : Heap) (l : list positive) : Prop :=
  Sorted Z.le (prio_of h <$> l).

Lemma insert_by_priority_spec h e p l :
  (∀ x, x ∈ l → is_Some (h_events h !! x)) →
  ∃ l1 l2, l = l1 ++ l2 ∧ insert_by_priority (h_events h) e p l = Ok (l1 ++ e :: l2) ∧
    prios_le h p l1 ∧ first_gt h p l2.
Proof.
  induction l as [|x l IH]; intros Hl.
  { exists [], []. split_and!; try done. intros ? ?%elem_of_nil. done. }
  destruct (Hl x ltac:(by left)) as [ev Hev]. cbn. rewrite Hev. cbn.
  destruct (Z.gtb_spec (ev_priority ev) p) as [Hgt|Hle].
  - exists [], (x :: l). split_and!; try done; [|cbn; exists ev; split; [done|lia]].
    intros ? ?%elem_of_nil. done.
  - destruct IH as (l1 & l2 & -> & Hi & H1 & H2); [intros; apply Hl; by right|].
    exists (x :: l1), l2. rewrite Hi. split_and!; try done.
    intros y [->|Hy]%elem_of_cons; [exists ev; split; [done|lia] | by apply H1].
Qed.

Lemma insert_by_priority_ext ev ev' e p l :
  (∀ x, x ∈ l → ev !! x = ev' !! x) →
  insert_by_priority ev e p l = insert_by_priority ev' e p l.
Proof.
  induction l as [|x l IH]; intros H; [done|]. cbn.
  rewrite (H x) by by left. destruct (ev' !! x); [|done]. cbn.
  by rewrite IH by (intros; apply H; by right).
Qed.

Lemma erase_first_app e l :
  e ∈ l → ∃ l1 l2, l = l1 ++ e :: l2 ∧ (e ∉ l1) ∧ erase_first e l = l1 ++ l2.
Proof.
  induction l as [|x l IH]; [by intros ?%elem_of_nil|]. intros He. cbn.
  destruct (decide (x = e)) as [->|Hne].
  - exists [], l. split_and!; try done. by intros ?%elem_of_nil.
  - apply elem_of_cons in He as [->|He]; [done|].
    destruct (IH He) as (l1 & l2 & -> & Hn & ->). exists (x :: l1), l2.
    split_and!; try done. intros [?|?]%elem_of_cons; congruence.
Qed.

Lemma bind_set_queue {O A} g (f : unit → ST (Sim O) A) s :
  (set_queue g ≫= f) s = f () (s <| queue ::= g |>).
Proof. reflexivity. Qed.
#[export] Hint Rewrite @bind_set_queue : run.

Section Theory.
Context {O : Type}.
Implicit Types (s : Sim O).

Lemma list_ok_heap h h' k l :
  (∀ e, e ∈ l → h_events h' !! e = h_events h !! e) → list_ok h k l → list_ok h' k l.
Proof.
  intros He (H1 & H2 & H3). split_and!; [done|done|]. intros e Hin. rewrite He by done. auto.
Qed.
(** The state after an insertion. *)
Definition inserted s e ev when l' : Sim O :=
  s <| heap ::= λ h, h <| h_events ::= <[e := ev <| ev_cycle := when |>]> |> |>
    <| queue ::= λ q, q <| nextEventCycle ::= λ n, if when <? n then when else n |>
                        <| eventMap ::= <[when := l']> |> |>.


Lemma InsertEvent_at_run s e ev when p :
  h_events (heap s) !! e = Some ev →
  (∀ l, eventMap (queue s) !! when = Some l → list_ok (heap s) when l ∧ (e ∉ l)) →
  ∃ l1 l2, default [] (eventMap (queue s) !! when) = l1 ++ l2 ∧
    prios_le (heap s) p l1 ∧ first_gt (heap s) p l2 ∧
    InsertEvent_at e when p s = Ok ((), inserted s e ev when (l1 ++ e :: l2)).
Proof.
  intros He Hl. unfold InsertEvent_at, inserted.
  rewrite (bind_load_event _ _ _ _ He), (bind_store_event _ _ _ _ _ He).
  run. fields. destruct (eventMap (queue s) !! when) as [l|] eqn:El.
  - destruct (insert_by_priority_spec (heap s) e p l) as (l1 & l2 & -> & Hi & H1 & H2).
    { intros x Hx. destruct (Hl _ eq_refl) as [(_ & _ & Hev) _].
      destruct (Hev x Hx) as (? & -> & _). eauto. }
    exists l1, l2. split_and!; try done.
    rewrite (insert_by_priority_ext _ (h_events (heap s))), Hi; [by run|].
    intros x Hx. apply lookup_insert_ne. intros ->. by destruct (Hl _ eq_refl).
  - exists [], []. split_and!; try done. intros ? ?%elem_of_nil. done.
Qed.

(** Insertion of a fresh event at a time not before any queued one keeps the
    invariant. *)
Lemma inserted_wf s e ev when l' :
  eq_wf s → h_events (heap s) !! e = Some ev →
  (∀ k l, eventMap (queue s) !! k = Some l → e ∉ l) → 0 ≤ when < u64_max →
  l' ≡ₚ e :: default [] (eventMap (queue s) !! when) →
  eq_wf (inserted s e ev when l').
Proof.
  intros [Hn Hl Hk Hh] He Hnin Hw Hp. unfold inserted.
  assert (e ∉ default [] (eventMap (queue s) !! when)) as Hne.
  { destruct (_ !! when) eqn:E; cbn; [eauto|]. by intros ?%elem_of_nil. }
  split; fields.
  - rewrite next_of_insert, <- Hn; [done|lia|]. intros j Hj. by apply Hk.
  - intros k l. rewrite lookup_insert. case_decide as Hkw.
    + intros [= <-]. subst k. split_and!.
      * intros ->. by apply Permutation_nil_cons in Hp.
      * rewrite Hp. apply NoDup_cons. split; [done|].
        destruct (_ !! when) eqn:E; cbn; [by apply Hl in E as (_ & ? & _) | constructor].
      * intros x Hx. fields. rewrite Hp in Hx. apply elem_of_cons in Hx as [->|Hx].
        { exists (ev <| ev_cycle := when |>). by rewrite lookup_insert_eq. }
        rewrite lookup_insert_ne by congruence.
        destruct (_ !! when) eqn:E; cbn in Hx; [|by apply elem_of_nil in Hx].
        apply Hl in E as (_ & _ & E). auto.
    + intros Hlk. eapply list_ok_heap; [|by apply Hl]. intros x Hx. fields.
      apply lookup_insert_ne. intros ->. by eapply Hnin.
  - intros k. rewrite lookup_insert. case_decide; [by subst|]. apply Hk.
  - intros x Hx. fields. destruct (Hh x Hx) as [Hr Hev]. split; [done|].
    rewrite lookup_insert_ne; [done|]. intros ->. congruence.
Qed.

(** *** Removal *)

Definition removed s when l' : Sim O :=
  s <| queue ::= λ q, q <| eventMap ::=
           if decide (l' = []) then delete when else <[when := l']> |> |>
    <| queue ::= λ q, q <| nextEventCycle := next_of (eventMap q) |> |>.

Lemma RemoveEvent_run s e when l :
  eventMap (queue s) !! when = Some l → e ∈ l →
  RemoveEvent e when s = Ok (true, removed s when (erase_first e l)).
Proof.
  intros El He. unfold RemoveEvent. run. rewrite El.
  rewrite bool_decide_eq_true_2 by done. by run.
Qed.

Lemma removed_wf s when l1 l2 e :
  eq_wf s → eventMap (queue s) !! when = Some (l1 ++ e :: l2) →
  eq_wf (removed s when (l1 ++ l2)).
Proof.
  intros [Hn Hl Hk Hh] El. destruct (Hl _ _ El) as (_ & Hnd & Hev).
  assert (∀ x, x ∈ l1 ++ l2 → x ∈ l1 ++ e :: l2) as Hsub by (intros x; rewrite !elem_of_app; set_solver).
  split; unfold removed; fields; [done| | |done].
  - intros k l. case_decide as E.
    + rewrite lookup_delete. case_decide; [done|]. apply Hl.
    + rewrite lookup_insert. case_decide as Hkw; [|apply Hl].
      intros [= <-]. subst k. split_and!; [done| |auto].
      apply NoDup_app in Hnd as (? & Hd & [? ?]%NoDup_cons). apply NoDup_app.
      split_and!; [done| |done]. intros x Hx ?. apply (Hd x Hx). by right.
  - intros k. case_decide.
    + rewrite lookup_delete. case_decide; [by intros []|]. apply Hk.
    + rewrite lookup_insert. case_decide; [|apply Hk]. intros _. apply Hk. subst. by rewrite El.
Qed.

(** *** Fresh events *)

Definition hook_of (h : Heap) (r : ObjPtr) : option Hook :=
  o ← h_objs h !! r; ph ← parent o; po ← h_objs h !! trampoline ph;
  List.find (λ k, bool_decide (trampoline k = r)) (children po).

Lemma bind_find_hook {A} s r k (f : Hook → ST (Sim O) A) :
  hook_of (heap s) r = Some k → (find_hook r ≫= f) s = f k s.
Proof.
  unfold hook_of, find_hook. intros E.
  destruct (h_objs (heap s) !! r) as [o|] eqn:E1; [|done]. cbn in E.
  destruct (parent o) as [ph|] eqn:E2; [|done]. cbn in E.
  destruct (h_objs (heap s) !! trampoline ph) as [po|] eqn:E3; [|done]. cbn in E.
  run. rewrite (bind_load_obj _ _ _ _ E1), E2. run. rewrite (bind_load_obj _ _ _ _ E3), E. by run.
Qed.

Definition allocated s ev : Sim O :=
  s <| heap ::= λ h, h <| h_events ::= <[h_next (heap s) := ev]> |> <| h_next ::= Pos.succ |> |>.

Lemma allocated_wf s ev :
  eq_wf s → eq_wf (allocated s ev) ∧
  (∀ k l, eventMap (queue s) !! k = Some l → h_next (heap s) ∉ l).
Proof.
  intros [Hn Hl Hk Hh].
  assert (∀ k l, eventMap (queue s) !! k = Some l → h_next (heap s) ∉ l) as Hnin.
  { intros k l El Hin. destruct (Hl _ _ El) as (_ & _ & Hev).
    destruct (Hev _ Hin) as (ev' & E & _). by rewrite (heap_wf_fresh_event _ Hh) in E. }
  split; [|done]. split; unfold allocated; fields; try done.
  - intros k l El. eapply list_ok_heap; [|by apply Hl]. intros x Hx. fields.
    apply lookup_insert_ne. intros <-. by eapply Hnin.
  - intros x Hx. fields_in Hx. fields. destruct (Hh x ltac:(lia)) as [Hr Hev]. split; [done|].
    rewrite lookup_insert_ne by lia. done.
Qed.

(** The state after a fresh event [ev] is queued at [when]. *)
Definition enqueued s ev when l' : Sim O :=
  inserted (allocated s ev) (h_next (heap s)) ev when l'.

Lemma enqueue_run s ev when p :
  eq_wf s → 0 ≤ when < u64_max →
  ∃ l1 l2, default [] (eventMap (queue s) !! when) = l1 ++ l2 ∧
    prios_le (heap s) p l1 ∧ first_gt (heap s) p l2 ∧
    InsertEvent_at (h_next (heap s)) when p (allocated s ev) =
      Ok ((), enqueued s ev when (l1 ++ h_next (heap s) :: l2)) ∧
    eq_wf (enqueued s ev when (l1 ++ h_next (heap s) :: l2)).
Proof.
  intros Hwf Hw. destruct (allocated_wf s ev Hwf) as [Hwf' Hnin].
  assert (h_events (heap (allocated s ev)) !! h_next (heap s) = Some ev) as He
    by (unfold allocated; fields; apply lookup_insert_eq).
  destruct (InsertEvent_at_run (allocated s ev) _ ev when p He) as (l1 & l2 & Hl & H1 & H2 & Hr).
  { intros l El. split; [by apply (wf_lists _ Hwf') | by eapply Hnin]. }
  assert (∀ x, x ∈ l1 ++ l2 → h_events (heap (allocated s ev)) !! x = h_events (heap s) !! x) as Hx.
  { intros x Hin. unfold allocated. fields. apply lookup_insert_ne. intros <-.
    change (eventMap (queue (allocated s ev))) with (eventMap (queue s)) in Hl.
    destruct (eventMap (queue s) !! when) as [l|] eqn:E; cbn in Hl; [subst; by eapply Hnin|].
    rewrite <- Hl in Hin. by apply elem_of_nil in Hin. }
  exists l1, l2. split_and!; [done| | |done|].
  - intros x Hin. destruct (H1 x Hin) as (y & Hy & ?). rewrite Hx in Hy by (apply elem_of_app; auto). eauto.
  - destruct l2 as [|x l2]; [done|]. destruct H2 as (y & Hy & ?).
    rewrite Hx in Hy by (apply elem_of_app; right; by left). exists y. eauto.
  - apply inserted_wf; try done. change (eventMap (queue (allocated s ev))) with (eventMap (queue s)) in *.
    rewrite Hl. by rewrite Permutation_middle.
Qed.

Lemma prio_sorted_insert h h' p l1 l2 e ev :
  (∀ x, x ∈ l1 ++ l2 → h_events h' !! x = h_events h !! x) →
  h_events h' !! e = Some ev → ev_priority ev = p →
  prios_le h p l1 → first_gt h p l2 → prio_sorted h (l1 ++ l2) →
  prio_sorted h' (l1 ++ e :: l2).
Proof.
  intros Hx He Hp H1 H2. unfold prio_sorted. rewrite !fmap_app. intros Hs.
  assert (∀ l : list positive, (∀ x, x ∈ l → x ∈ l1 ++ l2) → prio_of h' <$> l = prio_of h <$> l) as Hmap.
  { intros l Hl. apply list_fmap_ext. intros i x Hi. unfold prio_of.
    rewrite Hx; [done|]. apply Hl. by eapply list_elem_of_lookup_2. }
  rewrite fmap_cons, !Hmap by (intros; apply elem_of_app; auto).
  assert (prio_of h' e = p) as -> by (unfold prio_of; by rewrite He).
  clear Hmap He Hx. induction l1 as [|x l1 IH]; cbn in *.
  - constructor; [done|]. destruct l2 as [|y l2]; cbn; [constructor|].
    constructor. destruct H2 as (ey & Hy & ?). unfold prio_of. rewrite Hy. lia.
  - apply Sorted_inv in Hs as [Hs Hh]. constructor.
    { apply IH; [|done]. intros y Hy. apply H1. by right. }
    destruct l1 as [|z l1]; cbn in *; [|by inversion Hh; constructor].
    constructor. destruct (H1 x ltac:(by left)) as (ey & Hy & ?). unfold prio_of. by rewrite Hy.
Qed.
End Theory.

(** ** Processing

    What the handler of one event does: run it, then free it. *)

Section Processing.
Context {O : Type} `{Recipient O}.
Implicit Types (s : Sim O).

Definition handle (e : positive) : ST (Sim O) unit :=
  ev ← load_event e; dispatch ev;; delete_event e.

(** Every event of the list in order: the reference for [process_loop]. *)
Fixpoint foreach (l : list positive) : ST (Sim O) unit :=
  match l with
  | [] => mret ()
  | e :: l => handle e;; foreach l
  end.

Definition finish s : Sim O :=
  s <| queue ::= λ q, q <| eventMap ::= delete (nextEventCycle q) |> |>
    <| queue ::= λ q, q <| lastEventCycle := nextEventCycle q |>
                        <| nextEventCycle := next_of (eventMap q) |> |>.

(** What must hold of the queue while the list of cycle [k] is processed: the
    lists of the later cycles are well formed. *)
Record mid_ok (k : Z) s : Prop := {
  mid_later : ∀ j l, k < j → eventMap (queue s) !! j = Some l → list_ok (heap s) j l;
  mid_keys : ∀ j, is_Some (eventMap (queue s) !! j) → 0 ≤ j < u64_max;
  mid_heap : heap_wf (heap s)
}.

(** What a step of the current cycle [k] may do to the queue: schedule only
    after [k], and leave the live events of the current list that satisfy [P]
    alone. *)
Record queue_step (k : Z) (P : positive → Prop) s s' : Prop := {
  fs_now : ∀ j, j ≤ k → eventMap (queue s') !! j = eventMap (queue s) !! j;
  fs_next : nextEventCycle (queue s') = nextEventCycle (queue s);
  fs_last : lastEventCycle (queue s') = lastEventCycle (queue s);
  fs_cur : currentCycle (queue s') = currentCycle (queue s);
  fs_pending : ∀ l x ev, eventMap (queue s) !! k = Some l → x ∈ l → P x →
    h_events (heap s) !! x = Some ev → h_events (heap s') !! x = Some ev;
  fs_mid : mid_ok k s → mid_ok k s'
}.

#[global] Instance queue_step_refl k P : Reflexive (queue_step k P).
Proof. intros s. by split. Qed.

#[global] Instance queue_step_trans k P : Transitive (queue_step k P).
Proof.
  intros s1 s2 s3 [A1 A2 A3 A4 A5 A6] [B1 B2 B3 B4 B5 B6]. split; try congruence; [|eauto|auto].
  - intros j Hj. by rewrite B1, A1.
  - intros l x ev El. intros. eapply B5; eauto. by rewrite A1.
Qed.

(** The promise of the objects behind the queue: in a state satisfying their
    invariant, handling a pending event ends and schedules only the future. *)
Class FutureRecipient (I : Sim O → Prop) := {
  fr_handle : ∀ s e ev l, I s → mid_ok (currentCycle (queue s)) s →
    eventMap (queue s) !! currentCycle (queue s) = Some l → e ∈ l →
    h_events (heap s) !! e = Some ev → ev_cycle ev = currentCycle (queue s) →
    nextEventCycle (queue s) = currentCycle (queue s) →
    ∃ s', handle e s = Ok ((), s') ∧ I s' ∧
      queue_step (currentCycle (queue s)) (λ x, x ≠ e) s s';
  fr_finish : ∀ s, I s → I (finish s);
  fr_time : ∀ s c, I s → currentCycle (queue s) ≤ c ≤ nextEventCycle (queue s) →
    I (s <| queue ::= λ q, q <| currentCycle := c |> |>)
}.

Lemma after_here e dn l : e ∉ dn → after e (dn ++ e :: l) = Ok (head l).
Proof.
  induction dn as [|x dn IH]; intros Hn; cbn; [by rewrite decide_True|].
  rewrite decide_False by (intros ->; apply Hn; by left). apply IH. intros ?. apply Hn. by right.
Qed.

Context {I : Sim O → Prop} `{!FutureRecipient I}.

Definition live_at (k : Z) s (l : list positive) : Prop :=
  ∀ e, e ∈ l → ∃ ev, h_events (heap s) !! e = Some ev ∧ ev_cycle ev = k.

Lemma process_loop_foreach pend : ∀ dn s fuel,
  I s → mid_ok (currentCycle (queue s)) s → nextEventCycle (queue s) = currentCycle (queue s) →
  eventMap (queue s) !! currentCycle (queue s) = Some (dn ++ pend) → NoDup (dn ++ pend) →
  live_at (currentCycle (queue s)) s pend → (length pend ≤ fuel)%nat →
  ∃ s', foreach pend s = Ok ((), s') ∧
    process_loop fuel (currentCycle (queue s)) (head pend) s = Ok ((), s') ∧ I s' ∧
    queue_step (currentCycle (queue s)) (λ _, False) s s'.
Proof.
  induction pend as [|e pend IH]; intros dn s fuel HI Hm Hn El Hnd Hlive Hf.
  { exists s. by destruct fuel. }
  destruct fuel as [|fuel]; [cbn in Hf; lia|].
  assert (e ∈ dn ++ e :: pend) as Hin by (apply elem_of_app; right; by left).
  destruct (Hlive e ltac:(by left)) as (ev & Hev & Hcy).
  destruct (fr_handle s e ev _ HI Hm El Hin Hev Hcy Hn) as (s1 & Hh & HI1 & Hfs).
  assert ((e ∉ dn) ∧ (e ∉ pend)) as [Hd Hp].
  { apply NoDup_app in Hnd as (_ & Hd & [? ?]%NoDup_cons). split; [|done].
    intros ?. apply (Hd e); [done|by left]. }
  pose proof (fs_cur _ _ _ _ Hfs) as Hc. pose proof (fs_now _ _ _ _ Hfs) as Hnow.
  destruct (IH (dn ++ [e]) s1 fuel) as (s' & R1 & R2 & R3 & R4); rewrite ?Hc.
  { done. } { by apply (fs_mid _ _ _ _ Hfs). } { by rewrite (fs_next _ _ _ _ Hfs). }
  { rewrite Hnow by lia. by rewrite <- app_assoc. } { by rewrite <- app_assoc. }
  { intros x Hx. destruct (Hlive x ltac:(by right)) as (evx & Hx1 & Hx2). exists evx.
    split; [|done]. eapply (fs_pending _ _ _ _ Hfs); [done| |by intros ->|done].
    apply elem_of_app; right; by right. }
  { cbn in Hf. lia. }
  rewrite Hc in *. exists s'. split_and!.
  - cbn. by rewrite (bind_ok _ _ _ _ _ Hh).
  - cbn [process_loop head]. unfold handle in Hh.
    rewrite (bind_load_event _ _ _ _ Hev) in Hh. rewrite (bind_load_event _ _ _ _ Hev), <- bind_assoc.
    rewrite (bind_ok _ _ s () s1 Hh). run.
    rewrite Hnow, El by lia. run. rewrite (after_here e dn pend) by done. by run.
  - done.
  - etransitivity; [|exact R4]. destruct Hfs as [? ? ? ? F ?]. split; try done.
Qed.

(** After [Process]: the list of the cycle is gone. *)
Lemma Process_run s l fuel :
  I s → eq_wf s → nextEventCycle (queue s) = currentCycle (queue s) →
  eventMap (queue s) !! currentCycle (queue s) = Some l → (length l ≤ fuel)%nat →
  ∃ s1, foreach l s = Ok ((), s1) ∧ Process fuel s = Ok ((), finish s1) ∧
    I (finish s1) ∧ eq_wf (finish s1) ∧
    currentCycle (queue (finish s1)) = currentCycle (queue s) ∧
    lastEventCycle (queue (finish s1)) = currentCycle (queue s) ∧
    currentCycle (queue s) < nextEventCycle (queue (finish s1)) ∧
    eventMap (queue (finish s1)) !! currentCycle (queue s) = None.
Proof.
  intros HI [Wn Wl Wk Wh] Hn El Hf. destruct (Wl _ _ El) as (_ & Hnd & Hlive).
  destruct (process_loop_foreach l [] s fuel) as (s1 & R1 & R2 & R3 & R4); try done.
  { split; [|done|done]. intros j l' _ El'. by apply Wl. }
  destruct R4 as [F1 F2 F3 F4 F5 F6].
  destruct F6 as [M1 M2 M3]. { split; [|done|done]. intros j l' _ El'. by apply Wl. }
  set (k := currentCycle (queue s)) in *.
  assert (∀ j, is_Some (eventMap (queue (finish s1)) !! j) → k < j ∧ is_Some (eventMap (queue s1) !! j)) as Hgt.
  { intros j. unfold finish. fields. rewrite F2, Hn, lookup_delete.
    case_decide; [by intros []|]. intros Hj. split; [|done].
    destruct (Z_lt_le_dec k j) as [|Hle]; [done|]. rewrite F1 in Hj by done.
    rewrite Hn in Wn. symmetry in Wn. apply next_of_spec in Wn as [[_ Hemp]|[_ Hmin]].
    - rewrite Hemp, lookup_empty in Hj. by destruct Hj.
    - specialize (Hmin j Hj). fold k in Hmin. lia.
    - intros i Hi. by apply Wk. }
  exists s1. split_and!; [done| |by apply fr_finish| | | | |].
  - unfold Process. run. rewrite Hn, El. run. rewrite (bind_ok _ _ _ _ _ R2). done.
  - split; [done| | |done].
    + intros j l' Hj. destruct (Hgt j ltac:(eauto)) as [Hkj _]. apply M1; [done|].
      revert Hj. unfold finish. fields. rewrite F2, Hn. rewrite lookup_delete_ne by lia. done.
    + intros j Hj. by apply M2, Hgt.
  - unfold finish. fields. done.
  - unfold finish. fields. by rewrite F2, Hn.
  - assert (nextEventCycle (queue (finish s1)) = next_of (eventMap (queue (finish s1)))) as -> by done.
    destruct (proj1 (next_of_spec (eventMap (queue (finish s1))) _
      ltac:(intros j Hj; apply M2, Hgt, Hj)) eq_refl) as [[-> _]|[Hs _]].
    + apply Wk. eauto.
    + by apply Hgt.
  - unfold finish. fields. rewrite F2, Hn. by rewrite lookup_delete_eq.
Qed.

(** ** Time

    The reference for [Loop]: the events at or before [T] run in the order of
    their cycles, each at its own cycle, and time then stands at [T]. *)

Definition at_cycle (c : Z) s : Sim O := s <| queue ::= λ q, q <| currentCycle := c |> |>.

Inductive advance (T : Z) : Sim O → Sim O → Prop :=
  | advance_done s : T < nextEventCycle (queue s) → advance T s (at_cycle T s)
  | advance_step s l s1 s' :
      nextEventCycle (queue s) ≤ T →
      eventMap (queue s) !! nextEventCycle (queue s) = Some l →
      foreach l (at_cycle (nextEventCycle (queue s)) s) = Ok ((), s1) →
      advance T (finish s1) s' → advance T s s'.

Lemma at_cycle_wf c s : eq_wf s → eq_wf (at_cycle c s).
Proof. intros [? ? ? ?]. by split. Qed.

Lemma at_cycle_self s : at_cycle (currentCycle (queue s)) s = s.
Proof. by destruct s as [h [? ? ? ? ?] o]. Qed.

Lemma at_cycle_eq c g s :
  g (currentCycle (queue s)) = c → s <| queue ::= λ q, q <| currentCycle ::= g |> |> = at_cycle c s.
Proof. intros <-. by destruct s as [h [? ? ? ? ?] o]. Qed.

(** Processing the next cycle, from the moment time has moved there. *)
Lemma Process_next s T :
  I s → eq_wf s → currentCycle (queue s) ≤ nextEventCycle (queue s) →
  nextEventCycle (queue s) ≤ T → T < u64_max →
  ∃ N s1, (∀ pfuel, (N ≤ pfuel)%nat →
      Process pfuel (at_cycle (nextEventCycle (queue s)) s) = Ok ((), s1)) ∧
    I s1 ∧ eq_wf s1 ∧ currentCycle (queue s1) = nextEventCycle (queue s) ∧
    nextEventCycle (queue s) < nextEventCycle (queue s1) ∧
    (∀ s', advance T s1 s' → advance T s s').
Proof.
  intros HI Hwf Hc Hn HT.
  destruct (proj1 (next_of_spec (eventMap (queue s)) (nextEventCycle (queue s))
    ltac:(intros j Hj; apply (wf_keys _ Hwf), Hj)) (eq_sym (wf_next _ Hwf)))
    as [[? _]|[[l Hl] _]]; [lia|].
  destruct (Process_run (at_cycle (nextEventCycle (queue s)) s) l (length l))
    as (s1 & R1 & R2 & R3 & R4 & R5 & R6 & R7 & R8); try done.
  { apply fr_time; [done|lia]. } { by apply at_cycle_wf. }
  exists (length l), (finish s1). split_and!; try done.
  - intros pfuel Hp.
    destruct (Process_run (at_cycle (nextEventCycle (queue s)) s) l pfuel)
      as (s1' & R1' & R2' & _); try done.
    { apply fr_time; [done|lia]. } { by apply at_cycle_wf. }
    congruence.
  - intros s' Hs'. by apply (advance_step T s l s1).
Qed.

Lemma loop_while_advance n : ∀ s steps,
  0 ≤ steps ≤ Z.of_nat n → I s → eq_wf s →
  0 ≤ currentCycle (queue s) < nextEventCycle (queue s) →
  currentCycle (queue s) + steps < u64_max →
  ∃ N s', (∀ fuel pfuel, (n < fuel)%nat → (N ≤ pfuel)%nat →
      loop_while fuel pfuel steps s = Ok ((), s')) ∧
    I s' ∧ eq_wf s' ∧ currentCycle (queue s') = currentCycle (queue s) + steps ∧
    currentCycle (queue s') < nextEventCycle (queue s') ∧
    advance (currentCycle (queue s) + steps) s s'.
Proof.
  induction n as [|n IH]; intros s steps Hs HI Hwf Hc HT.
  { exists 0%nat, s. assert (steps = 0) as -> by lia. split_and!; try done; try lia.
    - intros [|fuel] ? ?; [lia|]. done.
    - rewrite Z.add_0_r. pose proof (advance_done (currentCycle (queue s)) s ltac:(lia)) as A.
      by rewrite at_cycle_self in A. }
  destruct (Z.eq_dec steps 0) as [->|Hnz].
  { destruct (IH s 0) as (N & s' & R & ?); try done; try lia.
    exists N, s'. split; [|done]. intros fuel pfuel Hf. apply R. lia. }
  unfold u64_max in *.
  destruct (Z_lt_le_dec (currentCycle (queue s) + steps) (nextEventCycle (queue s))) as [Hlt|Hle].
  - exists 0%nat, (at_cycle (currentCycle (queue s) + steps) s).
    split_and!; try done.
    + intros [|fuel] pfuel Hf _; [lia|]. cbn [loop_while].
      rewrite (gtb_true steps 0) by lia. run.
      unwrap64. rewrite gtb_true by lia.
      unfold set_queue, modify. by rewrite (at_cycle_eq (currentCycle (queue s) + steps)) by (by unwrap64).
    + apply fr_time; [done|lia].
    + by apply at_cycle_wf.
    + by apply advance_done.
  - destruct (Process_next s (currentCycle (queue s) + steps))
      as (N1 & s1 & P1 & P2 & P3 & P4 & P5 & P6); try done; try (unfold u64_max; lia).
    destruct (IH s1 (steps - (nextEventCycle (queue s) - currentCycle (queue s))))
      as (N2 & s' & Q1 & Q2 & Q3 & Q4 & Q5 & Q6); try done; try (unfold u64_max; lia).
    exists (N1 `max` N2)%nat, s'. split_and!; try done; try lia.
    + intros [|fuel] pfuel Hf Hp; [lia|]. cbn [loop_while].
      rewrite (gtb_true steps 0) by lia. run. unwrap64.
      rewrite gtb_false by lia. run. unwrap64.
      rewrite (at_cycle_eq (nextEventCycle (queue s))) by (unwrap64; lia).
      rewrite (bind_ok _ _ _ _ _ (P1 pfuel ltac:(lia))). apply Q1; lia.
    + apply P6. replace (currentCycle (queue s) + steps) with
        (currentCycle (queue s1) + (steps - (nextEventCycle (queue s) - currentCycle (queue s)))) by lia.
      done.
Qed.

(** [Loop] from any state between events: it ends, and it is [advance]. *)
Lemma Loop_advance s steps :
  0 ≤ steps → I s → eq_wf s →
  0 ≤ currentCycle (queue s) ≤ nextEventCycle (queue s) →
  currentCycle (queue s) + steps < u64_max →
  ∃ N s', (∀ fuel pfuel, (Z.to_nat steps + 1 < fuel)%nat → (N ≤ pfuel)%nat →
      Loop fuel pfuel steps s = Ok ((), s')) ∧
    I s' ∧ eq_wf s' ∧ currentCycle (queue s') = currentCycle (queue s) + steps ∧
    currentCycle (queue s') < nextEventCycle (queue s') ∧
    advance (currentCycle (queue s) + steps) s s'.
Proof.
  intros Hs HI Hwf Hc HT. unfold u64_max in *.
  destruct (Z_lt_le_dec (currentCycle (queue s)) (nextEventCycle (queue s))) as [Hlt|Hge].
  { destruct (loop_while_advance (Z.to_nat steps) s steps) as (N & s' & R & ?); try done;
      try (unfold u64_max; lia).
    exists N, s'. split; [|done]. intros fuel pfuel Hf Hp. unfold Loop. run.
    rewrite (proj2 (Z.eqb_neq (nextEventCycle _) _)), andb_false_r by lia. apply R; lia. }
  assert (nextEventCycle (queue s) = currentCycle (queue s)) as Hn by lia.
  destruct (Process_next s (currentCycle (queue s) + steps))
      as (N1 & s1 & P1 & P2 & P3 & P4 & P5 & P6); try done; try (unfold u64_max; lia).
  rewrite Hn, at_cycle_self in P1. rewrite Hn in P4, P5.
  destruct (loop_while_advance (Z.to_nat steps) s1 steps)
      as (N2 & s' & Q1 & Q2 & Q3 & Q4 & Q5 & Q6); try done; try (unfold u64_max; lia).
  rewrite P4 in Q4, Q6. exists (N1 `max` N2)%nat, s'. split_and!; try done; [|by apply P6].
  intros [|fuel] pfuel Hf Hp; [lia|]. unfold Loop. run. rewrite Hn, Z.eqb_refl, andb_true_r.
  destruct (Z.eqb_spec steps 0) as [->|Hnz].
  - rewrite (P1 pfuel) by lia. specialize (Q1 fuel pfuel ltac:(lia) ltac:(lia)).
    destruct fuel as [|fuel]; [lia|]. cbn in Q1. by injection Q1 as ->.
  - cbn [loop_while]. rewrite (gtb_true steps 0) by lia. run. rewrite Hn. unwrap64.
    rewrite gtb_false by lia. run.
    rewrite Z.sub_diag. change (u64 0) with 0.
    rewrite (at_cycle_eq (currentCycle (queue s))), at_cycle_self by (unwrap64; lia).
    rewrite (bind_ok _ _ _ _ _ (P1 pfuel ltac:(lia))). rewrite Z.sub_0_r. unwrap64. apply Q1; lia.
Qed.
End Processing.

(** ** What a handler may rely on *)

Section Future.
Context {O : Type}.
Implicit Types (s : Sim O).

(** Queueing a fresh event after the current cycle. *)
Lemma enqueue_step k P s ev when p :
  mid_ok k s → nextEventCycle (queue s) ≤ k → k < when < u64_max → 0 ≤ k →
  ∃ l', InsertEvent_at (h_next (heap s)) when p (allocated s ev) = Ok ((), enqueued s ev when l') ∧
    queue_step k P s (enqueued s ev when l').
Proof.
  intros [ML MK MH] Hn Hw Hk.
  assert (∀ j l, k < j → eventMap (queue s) !! j = Some l → h_next (heap s) ∉ l) as Hnin.
  { intros j l Hj El Hin. destruct (ML _ _ Hj El) as (_ & _ & Hev).
    destruct (Hev _ Hin) as (ev' & E & _). by rewrite (heap_wf_fresh_event _ MH) in E. }
  assert (∀ j l x ev', k < j → eventMap (queue s) !! j = Some l → x ∈ l →
    (<[h_next (heap s) := ev']> (<[h_next (heap s) := ev]> (h_events (heap s)))) !! x
    = h_events (heap s) !! x) as Hold.
  { intros j l x ev' Hj El Hx. rewrite !lookup_insert_ne; [done| |]; intros <-; by eapply Hnin. }
  destruct (InsertEvent_at_run (allocated s ev) (h_next (heap s)) ev when p) as (l1 & l2 & Hl & _ & _ & Hr).
  { unfold allocated. fields. apply lookup_insert_eq. }
  { unfold allocated. fields. intros l El. split; [|by eapply Hnin; [|exact El]; lia].
    eapply list_ok_heap; [|by apply ML; [lia|]]. intros x Hx. fields.
    apply lookup_insert_ne. intros <-. by eapply Hnin; [|exact El|exact Hx]; lia. }
  unfold allocated in Hl. fields_in Hl.
  exists (l1 ++ h_next (heap s) :: l2). split; [exact Hr|].
  unfold enqueued, inserted, allocated. split; fields; try done.
  - intros j Hj. apply lookup_insert_ne. lia.
  - destruct (Z.ltb_spec when (nextEventCycle (queue s))); [lia|done].
  - intros l x evx El Hx _ Hevx. rewrite !lookup_insert_ne; [done| |];
      intros <-; by rewrite (heap_wf_fresh_event _ MH) in Hevx.
  - intros _. split; fields.
    + intros j l Hj. rewrite lookup_insert. case_decide as E.
      * intros [= <-]. subst j. split_and!.
        { by destruct l1. }
        { destruct (eventMap (queue s) !! when) as [l|] eqn:El; cbn in Hl.
          - destruct (ML _ _ Hj El) as (_ & Hnd & _). subst l.
            apply NoDup_Permutation_proper with (h_next (heap s) :: l1 ++ l2);
              [by rewrite Permutation_middle|]. apply NoDup_cons. split; [by eapply Hnin|done].
          - destruct l1; [|done]. destruct l2; [|done]. apply NoDup_singleton. }
        intros x Hx. fields. destruct (decide (x = h_next (heap s))) as [->|Hne].
        { rewrite lookup_insert_eq. eauto. }
        assert (x ∈ default [] (eventMap (queue s) !! when)) as Hin.
        { rewrite Hl. rewrite elem_of_app in *. rewrite elem_of_cons in Hx. naive_solver. }
        destruct (eventMap (queue s) !! when) as [l|] eqn:El; cbn in Hin; [|by apply elem_of_nil in Hin].
        rewrite (Hold _ _ _ _ Hj El Hin). by apply (ML _ _ Hj El).
      * intros El. eapply list_ok_heap; [|by apply (ML j)]. intros x Hx. fields. by eapply Hold.
    + intros j. rewrite lookup_insert. case_decide; [by subst; lia|]. apply MK.
    + intros x Hx. fields_in Hx. fields. destruct (MH x ltac:(lia)) as [? Hx']. split; [done|].
      rewrite !lookup_insert_ne by lia. done.
Qed.

Definition freed s e : Sim O := s <| heap ::= λ h, h <| h_events ::= delete e |> |>.

(** Freeing the event that just ran. *)
Lemma free_step k s e ev :
  h_events (heap s) !! e = Some ev → ev_cycle ev = k →
  queue_step k (λ x, x ≠ e) s (freed s e).
Proof.
  intros He Hc. unfold freed. split; fields; try done.
  - intros l x evx _ _ Hx. by rewrite lookup_delete_ne by done.
  - intros [ML MK MH]. split; fields; [|done|].
    + intros j l Hj El. eapply list_ok_heap; [|by apply (ML j)]. intros x Hx. fields.
      apply lookup_delete_ne. intros <-. destruct (ML _ _ Hj El) as (_ & _ & Hev).
      destruct (Hev _ Hx) as (? & E & ?). rewrite He in E. injection E as <-. lia.
    + intros x Hx. fields_in Hx. fields. destruct (MH x Hx) as [? E]. split; [done|].
      rewrite lookup_delete. by case_decide.
Qed.
End Future.

(** ** A recipient

    A client that counts its clock cycles and responses and reschedules its
    [Cycle] ten cycles later until cycle 1000. *)

Module Ticker.
Definition period : Z := 10.

#[global] Instance recipient : Recipient Z := {|
  rc_Cycle h _ :=
    set_self (Z.add 1);;
    c ← now;
    if c <? 1000 then InsertEvent EventCycle h None (c + period) 0 0 else mret ();
  rc_RequestComplete _ _ := set_self (Z.add 100);; mret true;
  rc_Callback _ _ d := set_self (Z.add d)
|}.

(** Every event has somewhere to go. *)
Definition ok (s : Sim Z) : Prop :=
  map_Forall (λ _ ev, is_Some (ev_recipient ev)) (h_events (heap s)) ∧ 0 ≤ currentCycle (queue s).

Lemma dispatch_ok s e ev :
  ok s → mid_ok (currentCycle (queue s)) s → h_events (heap s) !! e = Some ev →
  nextEventCycle (queue s) = currentCycle (queue s) →
  ∃ s', dispatch ev s = Ok ((), s') ∧ ok s' ∧ h_events (heap s') !! e = Some ev ∧
    queue_step (currentCycle (queue s)) (λ _, True) s s'.
Proof.
  intros [Hok H0] Hm He Hn. destruct (Hok e ev He) as [hk Hhk].
  assert (∀ g, queue_step (currentCycle (queue s)) (λ _, True) s (s <| obj ::= g |>)) as Hobj.
  { intros g. split; try done. intros [? ? ?]. by split. }
  unfold dispatch. destruct (ev_type ev); rewrite ?Hhk; run.
  1,3,4: exists s; split_and!; done.
  - cbn [rc_Cycle recipient]. run. fields.
    destruct (Z.ltb_spec (currentCycle (queue s)) 1000) as [Hlt|Hge].
    + set (s1 := s <| obj ::= Z.add 1 |>).
      set (ev' := (Event_new 0) <| ev_type := EventCycle |> <| ev_recipient := Some hk |>
        <| ev_request := None |> <| ev_cycle := currentCycle (queue s) + period |> <| ev_data := 0 |>).
      destruct (enqueue_step (currentCycle (queue s)) (λ _, True) s1 ev'
        (currentCycle (queue s) + period) 0) as (l' & R & Q).
      { destruct Hm. by split. } { change (nextEventCycle (queue s) ≤ currentCycle (queue s)). lia. }
      { unfold u64_max, period. lia. } { done. }
      exists (enqueued s1 ev' (currentCycle (queue s) + period) l'). split_and!.
      * unfold InsertEvent. run. exact R.
      * split; [|done]. unfold enqueued, inserted, allocated. fields.
        apply map_Forall_insert_2; [by exists hk|]. apply map_Forall_insert_2; [by exists hk|]. done.
      * unfold enqueued, inserted, allocated. fields.
        rewrite !lookup_insert_ne; [done| |]; intros <-;
          change (h_next (heap s1)) with (h_next (heap s)) in He;
          by rewrite (heap_wf_fresh_event _ (mid_heap _ _ Hm)) in He.
      * etransitivity; [apply Hobj|exact Q].
    + eexists. split_and!; [done|done|done|apply Hobj].
  - eexists. split_and!; [done|done|done|apply Hobj].
  - eexists. split_and!; [done|done|done|apply Hobj].
Qed.

#[global] Instance future : FutureRecipient ok.
Proof.
  split.
  - intros s e ev l Hok Hm El Hin He Hc Hn.
    destruct (dispatch_ok s e ev Hok Hm He Hn) as (s1 & R & Hok1 & He1 & Q).
    exists (freed s1 e). unfold handle. rewrite (bind_load_event _ _ _ _ He), (bind_ok _ _ _ _ _ R).
    split_and!.
    + unfold delete_event. by rewrite He1.
    + destruct Hok1 as [F1 F2]. split; [|done]. unfold freed. fields. by apply map_Forall_delete.
    + etransitivity; [|by eapply free_step]. destruct Q. split; eauto.
  - intros s [? ?]. split; [done|]. unfold finish. by fields.
  - intros s c [H1 H2] Hc. split; [done|]. fields. lia.
Qed.

(** One event queued at cycle 5, with the ticker behind hook 1. *)
Definition hook : Hook := mkHook 1 2.
Definition event0 : Event :=
  (Event_new 0) <| ev_type := EventCycle |> <| ev_recipient := Some hook |> <| ev_cycle := 5 |>.
Definition tree : gmap positive NVMObject := {[
  2%positive := mkNVMObject (Some (mkHook 6 5)) None [] [] [] [] NVMHOOK_NONE NVMHOOK_NONE;
  5%positive := mkNVMObject None None [hook] [] [] [] NVMHOOK_NONE NVMHOOK_NONE ]}.
Definition start : Sim Z :=
  mkSim (mkHeap tree ∅ {[ 3%positive := event0 ]} 7 None)
    ((EventQueue_new dzero) <| eventMap := {[ 5 := [3%positive] ]} |> <| nextEventCycle := 5 |>) 0.

Lemma start_ok : ok start ∧ eq_wf start.
Proof.
  split.
  - split; [|done]. intros x ev Hx. apply (proj1 (lookup_singleton_Some 3%positive x event0 ev)) in Hx as [_ <-]. by exists hook.
  - split.
    + vm_compute. done.
    + intros k l Hl. apply (proj1 (lookup_singleton_Some 5 k [3%positive] l)) in Hl as [<- <-]. split_and!; [done|apply NoDup_singleton|].
      intros x ->%list_elem_of_singleton. by exists event0.
    + intros k [l Hl]. apply (proj1 (lookup_singleton_Some 5 k [3%positive] l)) in Hl as [<- _]. unfold u64_max. lia.
    + intros x Hx. cbn in *. split; [done|]. apply lookup_singleton_ne. lia.
Qed.
End Ticker.

(** ** Queueing and cancelling callbacks *)

Section Callbacks.
Context {O : Type}.
Implicit Types (s : Sim O).

Definition callback_event (k : Hook) (method : nat) (when data priority : Z) : Event :=
  mkEvent EventCallback (Some k) None data when priority method.

Lemma InsertCallback_run s r k method when data p :
  hook_of (heap s) r = Some k →
  InsertCallback r method when data p s =
  InsertEvent_at (h_next (heap s)) when p (allocated s (callback_event k method when data p)).
Proof.
  intros Hk. unfold InsertCallback, Event_SetRecipient. run. cbv beta.
  rewrite (bind_find_hook _ r k) by done.
  do 2 (run; erewrite bind_load_event, bind_store_event by (fields; by rewrite lookup_insert_eq)).
  f_equal. unfold allocated. destruct s as [[h1 h2 h3 h4 h5] q o]. unfold upd. cbn.
  by rewrite !insert_insert_eq.
Qed.

Lemma first_gt_sorted h p l :
  prio_sorted h l → first_gt h p l → ∀ x, x ∈ l → p < prio_of h x.
Proof.
  intros Hs%Sorted_StronglySorted Hf x Hx; [|intros ? ? ?; lia].
  destruct l as [|y l]; [by apply elem_of_nil in Hx|]. destruct Hf as (ev & Hy & Hp).
  assert (p < prio_of h y) as Hpy by (unfold prio_of; by rewrite Hy).
  apply elem_of_cons in Hx as [->|Hx]; [done|].
  apply StronglySorted_inv in Hs as [_ Hall].
  rewrite List.Forall_forall in Hall. specialize (Hall (prio_of h x)).
  apply (Z.lt_le_trans _ (prio_of h y)); [done|]. by apply Hall, list_elem_of_In, list_elem_of_fmap_2.
Qed.

Lemma InsertCallback_inserts s r k method when data p :
  eq_wf s → hook_of (heap s) r = Some k → 0 ≤ when < u64_max →
  ∃ l1 l2, let e := h_next (heap s) in
    let s' := enqueued s (callback_event k method when data p) when (l1 ++ e :: l2) in
    InsertCallback r method when data p s = Ok ((), s') ∧ eq_wf s' ∧
    default [] (eventMap (queue s) !! when) = l1 ++ l2 ∧
    prios_le (heap s) p l1 ∧ first_gt (heap s) p l2.
Proof.
  intros Hwf Hk Hw. destruct (enqueue_run s (callback_event k method when data p) when p Hwf Hw)
    as (l1 & l2 & H1 & H2 & H3 & H4 & H5).
  exists l1, l2. cbn. rewrite (InsertCallback_run s r k) by done. done.
Qed.

Lemma enqueued_old s ev when l' x :
  x ≠ h_next (heap s) → h_events (heap (enqueued s ev when l')) !! x = h_events (heap s) !! x.
Proof. intros Hx. unfold enqueued, inserted, allocated. fields. by rewrite !lookup_insert_ne. Qed.

Lemma enqueued_new s ev when l' :
  h_events (heap (enqueued s ev when l')) !! h_next (heap s) = Some (ev <| ev_cycle := when |>).
Proof. unfold enqueued, inserted, allocated. fields. by rewrite lookup_insert_eq. Qed.

Lemma wf_not_fresh s k l x : eq_wf s → eventMap (queue s) !! k = Some l → x ∈ l → x ≠ h_next (heap s).
Proof. intros Hwf El Hx ->. by destruct (allocated_wf s (Event_new 0) Hwf) as [_ H]; eapply H. Qed.

(** C10. [InsertCallback] keeps the queue well formed and the list of its cycle
    in ascending order of priority, after every callback of the same priority
    that was queued before: equal priorities run first come, first served. *)
Theorem InsertCallback_fifo s r k method when data p :
  eq_wf s → hook_of (heap s) r = Some k → 0 ≤ when < u64_max →
  (∀ l, eventMap (queue s) !! when = Some l → prio_sorted (heap s) l) →
  ∃ s' l1 l2, let e := h_next (heap s) in
    InsertCallback r method when data p s = Ok ((), s') ∧ eq_wf s' ∧
    h_events (heap s') !! e = Some (callback_event k method when data p) ∧
    default [] (eventMap (queue s) !! when) = l1 ++ l2 ∧
    eventMap (queue s') = <[when := l1 ++ e :: l2]> (eventMap (queue s)) ∧
    nextEventCycle (queue s') = Z.min when (nextEventCycle (queue s)) ∧
    prio_sorted (heap s') (l1 ++ e :: l2) ∧
    (∀ x, x ∈ l1 → prio_of (heap s) x ≤ p) ∧ (∀ x, x ∈ l2 → p < prio_of (heap s) x).
Proof.
  intros Hwf Hk Hw Hs.
  destruct (InsertCallback_inserts s r k method when data p Hwf Hk Hw) as (l1 & l2 & R & W & L & H1 & H2).
  assert (prio_sorted (heap s) (l1 ++ l2)) as Hs'.
  { rewrite <- L. destruct (eventMap (queue s) !! when) eqn:E; [by apply Hs|constructor]. }
  assert (∀ x, x ∈ l1 ++ l2 → x ≠ h_next (heap s)) as Hold.
  { intros x Hx. rewrite <- L in Hx. destruct (eventMap (queue s) !! when) as [l|] eqn:E;
      [by eapply wf_not_fresh|by apply elem_of_nil in Hx]. }
  eexists _, l1, l2. split_and!; [exact R|exact W|by rewrite enqueued_new|done|done| | | |].
  - unfold enqueued, inserted, allocated. fields. destruct (Z.ltb_spec when (nextEventCycle (queue s))); lia.
  - eapply (prio_sorted_insert (heap s)); [|by rewrite enqueued_new|done|done|done|done].
    intros x Hx. by apply enqueued_old, Hold.
  - intros x Hx. destruct (H1 x Hx) as (ev & E & ?). unfold prio_of. by rewrite E.
  - apply first_gt_sorted; [|done]. unfold prio_sorted in *. rewrite fmap_app in Hs'.
    by apply Sorted_StronglySorted, StronglySorted_app_1_r, StronglySorted_Sorted in Hs'; [|intros ? ? ?; lia].
Qed.

(** Cancelling a callback that was just queued restores the queue: the
    event map and the time of the next event are as before. *)
Theorem InsertCallback_RemoveEvent s r k method when data p :
  eq_wf s → hook_of (heap s) r = Some k → 0 ≤ when < u64_max →
  ∃ s', (InsertCallback r method when data p;; RemoveEvent (h_next (heap s)) when) s = Ok (true, s') ∧
    queue s' = queue s ∧ eq_wf s'.
Proof.
  intros Hwf Hk Hw.
  destruct (InsertCallback_inserts s r k method when data p Hwf Hk Hw) as (l1 & l2 & R & W & L & _).
  set (s1 := enqueued s _ _ _) in *. set (e := h_next (heap s)) in *.
  assert (eventMap (queue s1) !! when = Some (l1 ++ e :: l2)) as E.
  { subst s1. unfold enqueued, inserted. fields. apply lookup_insert_eq. }
  destruct (erase_first_app e (l1 ++ e :: l2)) as (a & b & Eab & Ha & Er); [set_solver|].
  assert (a = l1 ∧ b = l2) as [-> ->].
  { destruct (wf_lists _ W _ _ E) as (_ & Hnd & _).
    assert (e ∉ l1) as Hl1. { apply NoDup_app in Hnd as (_ & Hd & _). intros H. apply (Hd e H). by left. }
    by eapply split_unique in Eab. }
  eexists. rewrite (bind_ok _ _ _ _ _ R), (RemoveEvent_run _ _ _ _ E), Er by set_solver.
  split; [done|]. split; [|by eapply removed_wf].
  assert ((if decide (l1 ++ l2 = []) then delete when else <[when := l1 ++ l2]>) (eventMap (queue s1))
    = eventMap (queue s)) as Em.
  { subst s1. unfold enqueued, inserted, allocated. fields.
    destruct (eventMap (queue s) !! when) as [l|] eqn:El; cbn in L.
    - destruct (wf_lists _ Hwf _ _ El) as (Hne & _). rewrite decide_False by congruence.
      rewrite insert_insert_eq. apply insert_id. congruence.
    - rewrite <- L, decide_True by done. by apply delete_insert_id. }
  unfold removed. destruct Hwf as [Hn _ _ _]. clear -Em Hn. subst s1.
  unfold enqueued, inserted, allocated in *. destruct s as [h [? ? ? ? m] o]. unfold upd in *. cbn in *.
  rewrite Em. by rewrite Hn.
Qed.

(** An event queued by [InsertEvent] carries priority 0 whatever priority
    it was given: a callback of a smaller priority queued later for the same
    cycle still runs after it. *)
Theorem InsertEvent_priority_not_stored s t h req r k method when data data' p1 p2 :
  eq_wf s → hook_of (heap s) r = Some k → 0 ≤ when < u64_max →
  eventMap (queue s) !! when = None → 0 ≤ p2 < p1 →
  ∃ s', (InsertEvent t h req when data p1;; InsertCallback r method when data' p2) s = Ok ((), s') ∧
    eventMap (queue s') !! when = Some [h_next (heap s); Pos.succ (h_next (heap s))] ∧
    prio_of (heap s') (h_next (heap s)) = 0.
Proof.
  intros Hwf Hk Hw Hn Hp.
  set (ev := (Event_new 0) <| ev_type := t |> <| ev_recipient := Some h |>
        <| ev_request := req |> <| ev_cycle := when |> <| ev_data := data |>).
  destruct (enqueue_run s ev when p1 Hwf Hw) as (l1 & l2 & L & H1 & H2 & R & W).
  rewrite Hn in L. cbn in L. destruct l1; [|done]. destruct l2; [|done]. cbn in R, W.
  set (s1 := enqueued s ev when [h_next (heap s)]) in *.
  destruct (InsertCallback_inserts s1 r k method when data' p2 W) as (a & b & R' & W' & L' & H1' & H2');
    [done|done|].
  assert (h_next (heap s1) = Pos.succ (h_next (heap s))) as Hnx by done.
  assert (eventMap (queue s1) !! when = Some [h_next (heap s)]) as E1.
  { subst s1. unfold enqueued, inserted. fields. apply lookup_insert_eq. }
  assert (h_events (heap s1) !! h_next (heap s) = Some (ev <| ev_cycle := when |>)) as E2 by apply enqueued_new.
  rewrite E1 in L'. cbn in L'. rewrite Hnx in *.
  assert (a = [h_next (heap s)] ∧ b = []) as [-> ->].
  { destruct a as [|x a].
    - cbn in L'. subst b. destruct H2' as (evx & E & Hlt). rewrite E2 in E. injection E as <-.
      unfold ev, upd in Hlt. cbn in Hlt. lia.
    - injection L' as -> La. destruct a; [|done]. by destruct b. }
  eexists. rewrite (bind_ok _ _ s () s1), R'; [|unfold InsertEvent; run; exact R].
  split; [done|]. split.
  - unfold enqueued, inserted. fields. by rewrite lookup_insert_eq.
  - unfold prio_of. rewrite enqueued_old by (rewrite Hnx; lia). by rewrite E2.
Qed.
End Callbacks.

Lemma InsertCallback_fifo_witness :
  ∃ s' l1 l2, InsertCallback 2 1 5 0 20 Ticker.start = Ok ((), s') ∧ eq_wf s' ∧
    eventMap (queue s') !! 5 = Some (l1 ++ 7%positive :: l2) ∧ prio_sorted (heap s') (l1 ++ 7%positive :: l2).
Proof.
  destruct (InsertCallback_fifo Ticker.start 2 Ticker.hook 1 5 0 20) as (s' & l1 & l2 & H).
  - apply Ticker.start_ok.
  - reflexivity.
  - done.
  - intros l Hl. apply (proj1 (lookup_singleton_Some 5 5 [3%positive] l)) in Hl as [_ <-].
    repeat constructor.
  - cbn in H. destruct H as (H1 & H2 & _ & _ & H3 & _ & H4 & _). exists s', l1, l2.
    split_and!; [exact H1|exact H2| |exact H4]. rewrite H3. apply lookup_insert_eq.
Defined.

Lemma InsertCallback_RemoveEvent_witness :
  ∃ s', (InsertCallback 2 1 5 0 20;; RemoveEvent 7 5) Ticker.start = Ok (true, s') ∧
    queue s' = queue Ticker.start ∧ eq_wf s'.
Proof.
  apply (InsertCallback_RemoveEvent Ticker.start 2 Ticker.hook 1 5 0 20);
    [apply Ticker.start_ok|reflexivity|done].
Defined.

Lemma InsertEvent_priority_not_stored_witness :
  ∃ s', (InsertEvent EventCycle Ticker.hook None 8 0 30;; InsertCallback 2 1 8 0 20) Ticker.start = Ok ((), s') ∧
    eventMap (queue s') !! 8 = Some [7%positive; 8%positive] ∧ prio_of (heap s') 7 = 0.
Proof.
  apply (InsertEvent_priority_not_stored Ticker.start EventCycle Ticker.hook None 2 Ticker.hook 1 8 0 0 30 20);
    [apply Ticker.start_ok|reflexivity|done|reflexivity|done].
Defined.

(** C3. [Loop] from any state between events, for objects that schedule only
    the future: it ends, it runs exactly the queued events at or before the last
    cycle in the order of their cycles, each list from front to back at its own
    cycle, and it leaves a well-formed queue whose next event is in the future. *)
Theorem Loop_refines_advance {O} `{Recipient O} (I : Sim O → Prop) `{!FutureRecipient I}
    (s : Sim O) (steps : Z) :
  0 ≤ steps → I s → eq_wf s →
  0 ≤ currentCycle (queue s) ≤ nextEventCycle (queue s) →
  currentCycle (queue s) + steps < u64_max →
  ∃ N s', (∀ fuel pfuel, (Z.to_nat steps + 1 < fuel)%nat → (N ≤ pfuel)%nat →
      Loop fuel pfuel steps s = Ok ((), s')) ∧
    I s' ∧ eq_wf s' ∧ currentCycle (queue s') = currentCycle (queue s) + steps ∧
    currentCycle (queue s') < nextEventCycle (queue s') ∧
    advance (currentCycle (queue s) + steps) s s'.
Proof. apply Loop_advance. Qed.

Lemma Loop_refines_advance_witness :
  ∃ N s', (∀ fuel pfuel, (Z.to_nat 100 + 1 < fuel)%nat → (N ≤ pfuel)%nat →
      Loop fuel pfuel 100 Ticker.start = Ok ((), s')) ∧
    Ticker.ok s' ∧ eq_wf s' ∧ currentCycle (queue s') = 0 + 100 ∧
    currentCycle (queue s') < nextEventCycle (queue s') ∧ advance (0 + 100) Ticker.start s'.
Proof.
  apply (Loop_refines_advance Ticker.ok Ticker.start 100); [done|apply Ticker.start_ok..| |done].
  split; vm_compute; discriminate.
Defined.

(** The ticker ran ten times in the first hundred cycles. *)
Example Ticker_runs :
  match Loop 102 5 100 Ticker.start with
  | Ok (_, s) => obj s = 10 ∧ nextEventCycle (queue s) = 105
  | Err _ => False
  end.
Proof. vm_compute. done. Qed.
