(* ===== verification/Frame.v ===== *)
(** * What computations preserve

    [pres R m]: every run of [m] that ends well relates the states before and
    after by [R]. The relations are preorders that hold when the component's own
    state is unchanged ([ObjRel]); the accesses to the heap and to the event queue
    are of this kind, so only the updates of the component's state are left. *)

From S2P Require Import Prelude NVMTypes SimInterface Heap EventQueue.

Definition pres {S A} (R : S → S → Prop) (m : ST S A) : Prop :=
  ∀ s a s', m s = Ok (a, s') → R s s'.

Class ObjRel {O} (R : Sim O → Sim O → Prop) := {
  objrel_trans :: Transitive R;
  objrel_obj : ∀ s s', obj s' = obj s → R s s'
}.

#[export] Hint Mode ObjRel ! ! : typeclass_instances.

Create HintDb pres discriminated.
#[export] Hint Constants Opaque : pres.

(** [est Q m]: every run of [m] that ends well ends in [Q]. *)
Definition est {S A} (Q : S → Prop) (m : ST S A) : Prop :=
  ∀ s a s', m s = Ok (a, s') → Q s'.

Lemma pres_bind {S A B} (R : S → S → Prop) `{!Transitive R} (m : ST S A) (f : A → ST S B) :
  pres R m → (∀ a, pres R (f a)) → pres R (m ≫= f).
Proof.
  intros Hm Hf s b s' H. apply bind_inv in H as (a & s1 & H1 & H2).
  transitivity s1; [by eapply Hm | by eapply Hf].
Qed.

(** Established by the first part and kept by the second, or by the second. *)
Lemma est_left {S A B} (R : S → S → Prop) (Q : S → Prop) (m : ST S A) (f : A → ST S B) :
  (∀ s s', Q s → R s s' → Q s') → est Q m → (∀ a, pres R (f a)) → est Q (m ≫= f).
Proof.
  intros HQ Hm Hf s b s' H. apply bind_inv in H as (a & s1 & H1 & H2).
  eapply HQ; [by eapply Hm | by eapply Hf].
Qed.
Lemma est_right {S A B} (Q : S → Prop) (m : ST S A) (f : A → ST S B) :
  (∀ a, est Q (f a)) → est Q (m ≫= f).
Proof. intros Hf s b s' H. apply bind_inv in H as (a & s1 & H1 & H2). by eapply Hf. Qed.
Lemma est_set_self {O} (Q : Sim O → Prop) f : (∀ s, Q (s <| obj ::= f |>)) → est Q (set_self f).
Proof. intros H s a s' [= _ <-]. apply H. Qed.

(** Reading the heap. *)
Lemma load_req_inv {O} (s : Sim O) q r s' :
  load_req q s = Ok (r, s') → s' = s ∧ h_reqs (heap s) !! q = Some r.
Proof. unfold load_req. case_match; [|done]. by intros [= <- <-]. Qed.

(** The first part of a computation that ended well, and a read at its head. *)
Ltac next H := let r := fresh "r" in let x := fresh "x" in let E := fresh "E" in
  apply bind_inv in H as (r & x & E & H).
Ltac load H := let r := fresh "r" in let x := fresh "x" in let E := fresh "E" in
  apply bind_inv in H as (r & x & E & H); apply load_req_inv in E as [-> E].

Section Frame.
Context {O : Type} (R : Sim O → Sim O → Prop) `{!ObjRel R}.
Implicit Types (s : Sim O).

(** A computation that leaves the component alone. *)
Definition quiet {A} (m : ST (Sim O) A) : Prop := ∀ s a s', m s = Ok (a, s') → obj s' = obj s.

Lemma quiet_pres {A} (m : ST (Sim O) A) : quiet m → pres R m.
Proof. intros Hm s a s' H. by apply objrel_obj, (Hm _ _ _ H). Qed.

Lemma pres_ret {A} (a : A) : pres R (mret a).
Proof. apply quiet_pres. by intros s b s' [= _ <-]. Qed.
Lemma pres_gets {A} (f : Sim O → A) : pres R (gets f).
Proof. apply quiet_pres. by intros s b s' [= _ <-]. Qed.
Lemma pres_get : pres R get.
Proof. apply quiet_pres. by intros s b s' [= _ <-]. Qed.
Lemma pres_lift {A} (m : res A) : pres R (lift m).
Proof. apply quiet_pres. intros s b s'. unfold lift. destruct m; [by intros [= _ <-]|done]. Qed.
Lemma pres_fail {A} e : pres R (fail (A := A) e).
Proof. by intros s b s'. Qed.
Lemma pres_self : pres R self.
Proof. apply pres_gets. Qed.
Lemma pres_now : pres R now.
Proof. apply pres_gets. Qed.
Lemma pres_set_self f : (∀ s, R s (s <| obj ::= f |>)) → pres R (set_self f).
Proof. intros H s a s' [= _ <-]. apply H. Qed.
Lemma pres_modify f : (∀ s, obj (f s) = obj s) → pres R (modify f).
Proof. intros H s a s' [= _ <-]. by apply objrel_obj. Qed.
End Frame.

Section Quiet.
Context {O : Type}.
Implicit Types (s : Sim O).

(** Being quiet is preservation for the equality of the component's state. *)
Definition same_obj : Sim O → Sim O → Prop := λ s s', obj s' = obj s.
#[global] Instance same_obj_rel : ObjRel same_obj.
Proof. split; [intros ? ? ? E1 E2; unfold same_obj in *; congruence | done]. Qed.

Lemma quiet_bind {A B} (m : ST (Sim O) A) (f : A → ST (Sim O) B) :
  quiet m → (∀ a, quiet (f a)) → quiet (m ≫= f).
Proof. apply (pres_bind same_obj); apply _. Qed.

Ltac access := intros s a s'; unfold load_req, store_req, delete_req, load_event, store_event,
  delete_event, load_obj, store_obj, new_req, new_event, new_hook; repeat case_match; intros; simplify_eq; reflexivity.

Lemma quiet_load_req p : quiet (O := O) (load_req p). Proof. access. Qed.
Lemma quiet_store_req p r : quiet (O := O) (store_req p r). Proof. access. Qed.
Lemma quiet_new_req r : quiet (O := O) (new_req r). Proof. access. Qed.
Lemma quiet_delete_req p : quiet (O := O) (delete_req p). Proof. access. Qed.
Lemma quiet_load_event p : quiet (O := O) (load_event p). Proof. access. Qed.
Lemma quiet_store_event p e : quiet (O := O) (store_event p e). Proof. access. Qed.
Lemma quiet_new_event e : quiet (O := O) (new_event e). Proof. access. Qed.
Lemma quiet_delete_event p : quiet (O := O) (delete_event p). Proof. access. Qed.
Lemma quiet_load_obj p : quiet (O := O) (load_obj p). Proof. access. Qed.
Lemma quiet_store_obj p o : quiet (O := O) (store_obj p o). Proof. access. Qed.
Lemma quiet_new_hook t : quiet (O := O) (new_hook t). Proof. access. Qed.
Lemma quiet_ret {A} (a : A) : quiet (O := O) (mret a). Proof. apply (pres_ret same_obj). Qed.
Lemma quiet_get : quiet (O := O) get. Proof. apply (pres_get same_obj). Qed.
Lemma quiet_gets {A} (f : Sim O → A) : quiet (gets f). Proof. apply (pres_gets same_obj). Qed.
Lemma quiet_lift {A} (m : res A) : quiet (O := O) (lift m). Proof. apply (pres_lift same_obj). Qed.
Lemma quiet_fail {A} e : quiet (O := O) (fail (A := A) e). Proof. apply (pres_fail same_obj). Qed.
Lemma quiet_set_queue f : quiet (O := O) (set_queue f).
Proof. apply (pres_modify same_obj). done. Qed.
End Quiet.

#[export] Hint Resolve quiet_load_req quiet_store_req quiet_new_req quiet_delete_req quiet_load_event
  quiet_store_event quiet_new_event quiet_delete_event quiet_load_obj quiet_store_obj quiet_new_hook
  quiet_ret quiet_get quiet_gets quiet_lift quiet_fail quiet_set_queue : pres.

(** A local definition or a case analysis at the head of a computation; the
    value of a definition is forgotten. *)
Ltac head_step :=
  lazymatch goal with
  | |- ?f (let x := ?v in @?b x) =>
      let H := fresh in enough (∀ x, f (b x)) as H by exact (H v); intros ?; cbv beta
  | |- _ (match ?x with _ => _ end) => destruct x
  end.

(** Through the structure of a computation: binds, matches and the hints. *)
Ltac quiet_tac :=
  repeat first
    [ solve [eauto with pres nocore]
    | apply quiet_bind; [|intros ?]
    | head_step ].

Section QuietQueue.
Context {O : Type}.

Lemma quiet_find_hook r : quiet (O := O) (find_hook r).
Proof. unfold find_hook. quiet_tac. Qed.
#[local] Hint Resolve quiet_find_hook : pres.
Lemma quiet_InsertEvent_at e w p : quiet (O := O) (InsertEvent_at e w p).
Proof. unfold InsertEvent_at. quiet_tac. Qed.
#[local] Hint Resolve quiet_InsertEvent_at : pres.
Lemma quiet_InsertEvent t h r w d p : quiet (O := O) (InsertEvent t h r w d p).
Proof. unfold InsertEvent. quiet_tac. Qed.
#[local] Hint Resolve quiet_InsertEvent : pres.
Lemma quiet_InsertEvent_obj t o r w d p : quiet (O := O) (InsertEvent_obj t o r w d p).
Proof. unfold InsertEvent_obj. quiet_tac. Qed.
Lemma quiet_InsertEvent_cycle t o w d p : quiet (O := O) (InsertEvent_cycle t o w d p).
Proof. unfold InsertEvent_cycle. quiet_tac. Qed.
Lemma quiet_SetRecipient e r : quiet (O := O) (Event_SetRecipient e r).
Proof. unfold Event_SetRecipient. quiet_tac. Qed.
#[local] Hint Resolve quiet_SetRecipient : pres.
Lemma quiet_InsertCallback r m w d p : quiet (O := O) (InsertCallback r m w d p).
Proof. unfold InsertCallback. quiet_tac. Qed.
Lemma quiet_RemoveEvent e w : quiet (O := O) (RemoveEvent e w).
Proof. unfold RemoveEvent. quiet_tac. Qed.
Lemma quiet_FindEvent t h r w : quiet (O := O) (FindEvent t h r w).
Proof. unfold FindEvent. quiet_tac. Qed.
#[local] Hint Resolve quiet_FindEvent : pres.
Lemma quiet_FindEvent_obj t o r w : quiet (O := O) (FindEvent_obj t o r w).
Proof. unfold FindEvent_obj. quiet_tac. Qed.
Lemma quiet_FindCallback r m w d p : quiet (O := O) (FindCallback r m w d p).
Proof. unfold FindCallback. quiet_tac. Qed.
End QuietQueue.

#[export] Hint Resolve quiet_find_hook quiet_InsertEvent_at quiet_InsertEvent quiet_InsertEvent_obj
  quiet_InsertEvent_cycle quiet_SetRecipient quiet_InsertCallback quiet_RemoveEvent quiet_FindEvent
  quiet_FindEvent_obj quiet_FindCallback : pres.
#[export] Hint Resolve pres_ret pres_gets pres_get pres_lift pres_fail pres_self pres_now : pres.

(** The same for [pres]; what is left are the updates of the component. *)
Ltac pres_tac :=
  repeat first
    [ solve [eauto with pres nocore typeclass_instances]
    | lazymatch goal with |- pres ?R _ =>
        first
          [ apply (quiet_pres R); solve [eauto with pres nocore]
          | apply (pres_bind R); [|intros ?]
          | apply (pres_modify R); solve [intros; reflexivity]
          | apply (pres_set_self R); intros ? ] end
    | head_step ].

(** ** Time does not pass inside an operation

    and what it allocates is new: the heap stays well formed. *)

Section Timeless.
Context {O : Type}.
Implicit Types (s : Sim O).

Record steady s s' : Prop := {
  steady_now : currentCycle (queue s') = currentCycle (queue s);
  steady_wf : heap_wf (heap s) → heap_wf (heap s')
}.
#[global] Instance steady_preorder : PreOrder steady.
Proof. split; [by split|]. intros s1 s2 s3 [E1 H1] [E2 H2]. split; [congruence|auto]. Qed.
Lemma steady_same s s' : heap s' = heap s → queue s' = queue s → steady s s'.
Proof. intros Eh Eq. split; by rewrite ?Eh, ?Eq. Qed.

Definition timeless {A} (m : ST (Sim O) A) : Prop := pres steady m.

Lemma timeless_bind {A B} (m : ST (Sim O) A) (f : A → ST (Sim O) B) :
  timeless m → (∀ a, timeless (f a)) → timeless (m ≫= f).
Proof. apply pres_bind. apply _. Qed.

Ltac access := intros ???; unfold self, now, set_self, load_req, store_req, delete_req, load_event, store_event,
  delete_event, load_obj, store_obj, new_req, new_event, new_hook, lift, gets, get, fail, modify, mret, st_ret; cbv beta;
  repeat case_match; intros; simplify_eq; (split; [reflexivity|]); fields; intros;
  first [ done | by eapply heap_wf_req | by apply heap_wf_new_req | by apply heap_wf_delete_req | by eapply heap_wf_event
        | by apply heap_wf_new_event | by apply heap_wf_delete_event ].

Lemma timeless_load_req p : timeless (load_req p). Proof. access. Qed.
Lemma timeless_store_req p r : timeless (store_req p r). Proof. access. Qed.
Lemma timeless_new_req r : timeless (new_req r). Proof. access. Qed.
Lemma timeless_delete_req p : timeless (delete_req p). Proof. access. Qed.
Lemma timeless_load_event p : timeless (load_event p). Proof. access. Qed.
Lemma timeless_store_event p e : timeless (store_event p e). Proof. access. Qed.
Lemma timeless_new_event e : timeless (new_event e). Proof. access. Qed.
Lemma timeless_delete_event p : timeless (delete_event p). Proof. access. Qed.
Lemma timeless_load_obj p : timeless (load_obj p). Proof. access. Qed.
Lemma timeless_ret {A} (a : A) : timeless (mret a). Proof. access. Qed.
Lemma timeless_get : timeless get. Proof. access. Qed.
Lemma timeless_gets {A} (f : Sim O → A) : timeless (gets f). Proof. access. Qed.
Lemma timeless_lift {A} (m : res A) : timeless (lift m). Proof. access. Qed.
Lemma timeless_fail {A} e : timeless (fail (A := A) e). Proof. access. Qed.
Lemma timeless_self : timeless self. Proof. access. Qed.
Lemma timeless_now : timeless now. Proof. access. Qed.
Lemma timeless_set_self f : timeless (set_self f). Proof. access. Qed.
Lemma timeless_heap f : (∀ h, heap_wf h → heap_wf (f h)) → timeless (modify (λ s, s <| heap ::= f |>)).
Proof. intros Hf s a s' [= _ <-]. split; [reflexivity|apply Hf]. Qed.
Lemma timeless_set_queue f : (∀ q, currentCycle (f q) = currentCycle q) → timeless (set_queue f).
Proof. intros Hf s a s' [= _ <-]. split; fields; [apply Hf|done]. Qed.
End Timeless.

Create HintDb timeless discriminated.
#[export] Hint Constants Opaque : timeless.
#[export] Hint Resolve timeless_load_req timeless_store_req timeless_new_req timeless_delete_req
  timeless_load_event timeless_store_event timeless_new_event timeless_delete_event timeless_load_obj
  timeless_ret timeless_get timeless_gets timeless_lift timeless_fail timeless_self timeless_now
  timeless_set_self : timeless.
#[export] Hint Extern 2 (timeless (modify _)) => apply timeless_heap; solve [intros [] ?; done] : timeless.

Ltac timeless_tac :=
  repeat first
    [ solve [eauto with timeless nocore]
    | apply timeless_set_queue; solve [intros ?; repeat case_match; by fields]
    | apply timeless_bind; [|intros ?]
    | head_step ].

Section TimelessQueue.
Context {O : Type}.

Lemma timeless_find_hook r : timeless (O := O) (find_hook r).
Proof. unfold find_hook. timeless_tac. Qed.
#[local] Hint Resolve timeless_find_hook : timeless.
Lemma timeless_InsertEvent_at e w p : timeless (O := O) (InsertEvent_at e w p).
Proof. unfold InsertEvent_at. timeless_tac. Qed.
#[local] Hint Resolve timeless_InsertEvent_at : timeless.
Lemma timeless_InsertEvent t h r w d p : timeless (O := O) (InsertEvent t h r w d p).
Proof. unfold InsertEvent. timeless_tac. Qed.
#[local] Hint Resolve timeless_InsertEvent : timeless.
Lemma timeless_InsertEvent_obj t o r w d p : timeless (O := O) (InsertEvent_obj t o r w d p).
Proof. unfold InsertEvent_obj. timeless_tac. Qed.
Lemma timeless_SetRecipient e r : timeless (O := O) (Event_SetRecipient e r).
Proof. unfold Event_SetRecipient. timeless_tac. Qed.
#[local] Hint Resolve timeless_SetRecipient : timeless.
Lemma timeless_InsertCallback r m w d p : timeless (O := O) (InsertCallback r m w d p).
Proof. unfold InsertCallback. timeless_tac. Qed.
Lemma timeless_RemoveEvent e w : timeless (O := O) (RemoveEvent e w).
Proof. unfold RemoveEvent. timeless_tac. Qed.
Lemma timeless_InsertEvent_cycle t o w d p : timeless (O := O) (InsertEvent_cycle t o w d p).
Proof. unfold InsertEvent_cycle. timeless_tac. Qed.
Lemma timeless_FindEvent t h r w : timeless (O := O) (FindEvent t h r w).
Proof. unfold FindEvent. timeless_tac. Qed.
#[local] Hint Resolve timeless_FindEvent : timeless.
Lemma timeless_FindEvent_obj t o r w : timeless (O := O) (FindEvent_obj t o r w).
Proof. unfold FindEvent_obj. timeless_tac. Qed.
Lemma timeless_FindCallback r m w d p : timeless (O := O) (FindCallback r m w d p).
Proof. unfold FindCallback. timeless_tac. Qed.
End TimelessQueue.

#[export] Hint Resolve timeless_find_hook timeless_InsertEvent_at timeless_InsertEvent timeless_InsertEvent_obj
  timeless_SetRecipient timeless_InsertCallback timeless_RemoveEvent timeless_InsertEvent_cycle timeless_FindEvent
  timeless_FindEvent_obj timeless_FindCallback : timeless.

(** ** Requests that are alive stay what they are

    The type, the burst count and the address of a request that is already
    allocated survive the computation. *)

Definition keeps_req (q : ReqPtr) (h h' : Heap) : Prop :=
  (q < h_next h → q < h_next h' ∧
    ∀ r, h_reqs h !! q = Some r → ∃ r', h_reqs h' !! q = Some r' ∧
      type r' = type r ∧ burstCount r' = burstCount r ∧ address r' = address r)%positive.

Section Keeping.
Context {O : Type}.
Implicit Types (s : Sim O) (q : ReqPtr).

Definition keeps q s s' : Prop := keeps_req q (heap s) (heap s').

#[global] Instance keeps_trans q : Transitive (keeps q).
Proof.
  intros s1 s2 s3 H1 H2 Hq. destruct (H1 Hq) as [Hq' K1]. destruct (H2 Hq') as [Hq'' K2].
  split; [done|]. intros r Hr. destruct (K1 r Hr) as (r1 & Hr1 & ? & ? & ?).
  destruct (K2 r1 Hr1) as (r2 & Hr2 & ? & ? & ?). exists r2. split_and!; [done|congruence..].
Qed.

Lemma keeps_heap q s s' : heap s' = heap s → keeps q s s'.
Proof. intros E'. unfold keeps, keeps_req. rewrite E'. naive_solver. Qed.

(** Nothing but new objects. *)
Lemma keeps_same q s s' :
  h_reqs (heap s') = h_reqs (heap s) → (h_next (heap s) ≤ h_next (heap s'))%positive → keeps q s s'.
Proof. intros E' Hle Hq. rewrite E'. split; [lia|eauto]. Qed.

Definition keeping q {A} (m : ST (Sim O) A) : Prop := pres (keeps q) m.

Lemma keeping_bind q {A B} (m : ST (Sim O) A) (f : A → ST (Sim O) B) :
  keeping q m → (∀ a, keeping q (f a)) → keeping q (m ≫= f).
Proof. apply pres_bind. apply _. Qed.

Lemma keeping_pure q {A} (m : ST (Sim O) A) :
  (∀ s a s', m s = Ok (a, s') → heap s' = heap s) → keeping q m.
Proof. intros Hm s a s' Hr. by eapply keeps_heap, Hm. Qed.

Lemma keeping_store q q' r r' s s' :
  h_reqs (heap s) !! q' = Some r → type r' = type r → burstCount r' = burstCount r → address r' = address r →
  store_req q' r' s = Ok ((), s') → keeps q s s'.
Proof.
  intros Hl Ht Hb Ha. unfold store_req. rewrite Hl. intros [= <-] Hq. fields. split; [done|].
  intros r0 Hr0. rewrite lookup_insert. case_decide; [|eauto]. subst q'. exists r'.
  split_and!; [done|congruence..].
Qed.

Lemma keeping_new_req q r : keeping q (new_req r).
Proof.
  intros s a s' [= _ <-] Hq. fields. split; [lia|]. intros r0 Hr0. exists r0.
  rewrite lookup_insert_ne; [done|]. intros <-. lia.
Qed.

Ltac access := intros ???; unfold self, now, set_self, load_req, load_event, store_event,
  delete_event, load_obj, store_obj, new_event, new_hook, set_queue, lift, gets, get, fail, modify, mret, st_ret;
  cbv beta; repeat case_match; intros; simplify_eq; apply keeps_same; fields; first [reflexivity | lia].

Lemma keeping_load_req q p : keeping q (load_req p). Proof. access. Qed.
Lemma keeping_load_event q p : keeping q (load_event p). Proof. access. Qed.
Lemma keeping_store_event q p e : keeping q (store_event p e). Proof. access. Qed.
Lemma keeping_new_event q e : keeping q (new_event e). Proof. access. Qed.
Lemma keeping_delete_event q p : keeping q (delete_event p). Proof. access. Qed.
Lemma keeping_load_obj q p : keeping q (load_obj p). Proof. access. Qed.
Lemma keeping_store_obj q p o : keeping q (store_obj p o). Proof. access. Qed.
Lemma keeping_new_hook q t : keeping q (new_hook t). Proof. access. Qed.
Lemma keeping_ret q {A} (a : A) : keeping q (mret a). Proof. access. Qed.
Lemma keeping_get q : keeping q get. Proof. access. Qed.
Lemma keeping_gets q {A} (f : Sim O → A) : keeping q (gets f). Proof. access. Qed.
Lemma keeping_lift q {A} (m : res A) : keeping q (lift m). Proof. access. Qed.
Lemma keeping_fail q {A} e : keeping q (fail (A := A) e). Proof. access. Qed.
Lemma keeping_self q : keeping q self. Proof. access. Qed.
Lemma keeping_now q : keeping q now. Proof. access. Qed.
Lemma keeping_set_self q f : keeping q (set_self f). Proof. access. Qed.
Lemma keeping_set_queue q f : keeping q (set_queue f). Proof. access. Qed.
End Keeping.

Create HintDb keeping discriminated.
#[export] Hint Constants Opaque : keeping.
#[export] Hint Resolve keeping_new_req keeping_load_req keeping_load_event keeping_store_event keeping_new_event
  keeping_delete_event keeping_load_obj keeping_store_obj keeping_new_hook keeping_ret keeping_get keeping_gets
  keeping_lift keeping_fail keeping_self keeping_now keeping_set_self keeping_set_queue : keeping.

Ltac keeping_tac :=
  repeat first
    [ solve [eauto with keeping nocore]
    | apply keeping_bind; [|intros ?]
    | solve [intros ??? [= _ <-]; apply keeps_same; fields; reflexivity]
    | head_step ].

Section KeepingQueue.
Context {O : Type}.

Lemma keeping_find_hook q r : keeping (O := O) q (find_hook r).
Proof. unfold find_hook. keeping_tac. Qed.
#[local] Hint Resolve keeping_find_hook : keeping.
Lemma keeping_InsertEvent_at q e w p : keeping (O := O) q (InsertEvent_at e w p).
Proof. unfold InsertEvent_at. keeping_tac. Qed.
#[local] Hint Resolve keeping_InsertEvent_at : keeping.
Lemma keeping_InsertEvent q t h r w d p : keeping (O := O) q (InsertEvent t h r w d p).
Proof. unfold InsertEvent. keeping_tac. Qed.
#[local] Hint Resolve keeping_InsertEvent : keeping.
Lemma keeping_InsertEvent_obj q t o r w d p : keeping (O := O) q (InsertEvent_obj t o r w d p).
Proof. unfold InsertEvent_obj. keeping_tac. Qed.
Lemma keeping_RemoveEvent q e w : keeping (O := O) q (RemoveEvent e w).
Proof. unfold RemoveEvent. keeping_tac. Qed.
End KeepingQueue.

#[export] Hint Resolve keeping_InsertEvent keeping_InsertEvent_obj keeping_RemoveEvent : keeping.

(** ** Computations that do not run out of fuel *)

Definition ends {S A} (m : ST S A) : Prop := ∀ s, m s ≠ Err OutOfFuel.

Section Ends.
Context {S : Type}.

Lemma ends_bind {A B} (m : ST S A) (f : A → ST S B) : ends m → (∀ a, ends (f a)) → ends (m ≫= f).
Proof.
  intros Hm Hf s. rewrite bind_eq. pose proof (Hm s) as H. destruct (m s) as [[a s1]|e]; [apply Hf|].
  intros [= ->]. by apply H.
Qed.
(** The first part keeps what the second needs. *)
Lemma ends_bind_at {A B} (m : ST S A) (f : A → ST S B) s :
  m s ≠ Err OutOfFuel → (∀ a s', m s = Ok (a, s') → f a s' ≠ Err OutOfFuel) → (m ≫= f) s ≠ Err OutOfFuel.
Proof.
  intros Hm Hf. rewrite bind_eq. destruct (m s) as [[a s1]|e]; [by apply Hf|]. intros [= ->]. by apply Hm.
Qed.
Lemma ends_lift {A} (m : res A) : fueled m → ends (S := S) (lift m).
Proof. intros Hm s. unfold lift. destruct m; [done|]. by intros [= ->]. Qed.
Lemma ends_fail {A} e : e ≠ OutOfFuel → ends (S := S) (fail (A := A) e).
Proof. by intros He s [= ->]. Qed.
Lemma ends_ret {A} (a : A) : ends (S := S) (mret a). Proof. by intros s. Qed.
Lemma ends_get : ends (S := S) get. Proof. by intros s. Qed.
Lemma ends_gets {A} (f : S → A) : ends (gets f). Proof. by intros s. Qed.
Lemma ends_modify (f : S → S) : ends (modify f). Proof. by intros s. Qed.
End Ends.
#[export] Hint Resolve ends_ret ends_get ends_gets ends_modify ends_lift : ends.
#[export] Hint Extern 1 (ends (fail _)) => apply ends_fail; discriminate : ends.

Ltac ends_tac :=
  repeat first
    [ solve [eauto with ends nocore]
    | apply ends_bind; [|intros ?]
    | lazymatch goal with |- ends (lift _) => apply ends_lift; solve [fueled_tac] end
    | head_step ].

Section EndsHeap.
Context {O : Type}.
Ltac access := intros s; unfold load_req, store_req, delete_req, load_event, store_event,
  delete_event, load_obj, store_obj, new_req, new_event, new_hook; by repeat case_match.

Lemma ends_load_req p : ends (S := Sim O) (load_req p). Proof. access. Qed.
Lemma ends_store_req p r : ends (S := Sim O) (store_req p r). Proof. access. Qed.
Lemma ends_new_req r : ends (S := Sim O) (new_req r). Proof. access. Qed.
Lemma ends_delete_req p : ends (S := Sim O) (delete_req p). Proof. access. Qed.
Lemma ends_load_event p : ends (S := Sim O) (load_event p). Proof. access. Qed.
Lemma ends_store_event p e : ends (S := Sim O) (store_event p e). Proof. access. Qed.
Lemma ends_new_event e : ends (S := Sim O) (new_event e). Proof. access. Qed.
Lemma ends_load_obj p : ends (S := Sim O) (load_obj p). Proof. access. Qed.
Lemma ends_now : ends (S := Sim O) now. Proof. access. Qed.
Lemma ends_self : ends (S := Sim O) self. Proof. access. Qed.
Lemma ends_set_self f : ends (S := Sim O) (set_self f). Proof. access. Qed.
Lemma ends_set_queue f : ends (S := Sim O) (set_queue f). Proof. access. Qed.
#[local] Hint Resolve ends_load_req ends_store_req ends_new_req ends_delete_req ends_load_event ends_store_event
  ends_new_event ends_load_obj ends_now ends_self ends_set_self ends_set_queue : ends.

Lemma fueled_insert events e p l : fueled (insert_by_priority events e p l).
Proof. induction l as [|x l IH]; cbn [insert_by_priority]; fueled_tac. Qed.
Lemma fueled_find_first events f l : (∀ ev, fueled (f ev)) → fueled (find_first events f l).
Proof. intros Hf. induction l as [|x l IH]; cbn [find_first]; fueled_tac. Qed.
Lemma fueled_find_last events f l : ∀ rv, fueled (find_last events f rv l).
Proof. induction l as [|x l IH]; intros rv; cbn [find_last]; unfold event_matches; fueled_tac. Qed.
#[local] Hint Resolve fueled_insert fueled_find_last : ends.

Lemma ends_find_hook r : ends (S := Sim O) (find_hook r).
Proof. unfold find_hook. ends_tac. Qed.
#[local] Hint Resolve ends_find_hook : ends.
Lemma ends_InsertEvent_at e w p : ends (S := Sim O) (InsertEvent_at e w p).
Proof. unfold InsertEvent_at. ends_tac. Qed.
#[local] Hint Resolve ends_InsertEvent_at : ends.
Lemma ends_InsertEvent t h r w d p : ends (S := Sim O) (InsertEvent t h r w d p).
Proof. unfold InsertEvent. ends_tac. Qed.
#[local] Hint Resolve ends_InsertEvent : ends.
Lemma ends_InsertEvent_obj t o r w d p : ends (S := Sim O) (InsertEvent_obj t o r w d p).
Proof. unfold InsertEvent_obj. ends_tac. Qed.
Lemma ends_InsertEvent_cycle t o w d p : ends (S := Sim O) (InsertEvent_cycle t o w d p).
Proof. unfold InsertEvent_cycle. ends_tac. Qed.
Lemma ends_SetRecipient e r : ends (S := Sim O) (Event_SetRecipient e r).
Proof. unfold Event_SetRecipient. ends_tac. Qed.
#[local] Hint Resolve ends_SetRecipient : ends.
Lemma ends_InsertCallback r m w d p : ends (S := Sim O) (InsertCallback r m w d p).
Proof. unfold InsertCallback. ends_tac. Qed.
Lemma ends_FindCallback r m w d p : ends (S := Sim O) (FindCallback r m w d p).
Proof. unfold FindCallback. ends_tac. apply ends_lift, fueled_find_first. intros ev. fueled_tac. Qed.
Lemma ends_FindEvent t h r w : ends (S := Sim O) (FindEvent t h r w).
Proof. unfold FindEvent. ends_tac. Qed.
#[local] Hint Resolve ends_FindEvent : ends.
Lemma ends_FindEvent_obj t o r w : ends (S := Sim O) (FindEvent_obj t o r w).
Proof. unfold FindEvent_obj. ends_tac. Qed.
End EndsHeap.
#[export] Hint Resolve ends_load_req ends_store_req ends_new_req ends_delete_req ends_load_event ends_store_event
  ends_new_event ends_load_obj ends_now ends_self ends_set_self ends_set_queue ends_find_hook ends_InsertEvent_at
  ends_InsertEvent ends_InsertEvent_obj ends_InsertEvent_cycle ends_SetRecipient ends_InsertCallback ends_FindCallback
  ends_FindEvent ends_FindEvent_obj : ends.
