(* ===== verification/SubArray.v ===== *)
(** * The subarray

    NVmain/src/SubArray.cpp: the end point of the command hierarchy. It keeps
    the row state, the earliest cycles of the next commands, and the write in
    progress with its cancellation and pausing. *)

From S2P Require Import Prelude NVMTypes Config Params SimInterface Heap EventQueue.

(** ** What a subarray needs from others *)

(** A data encoder (NVmain/src/DataEncoder.h): may rewrite the data of the
    request and returns the extra latency. *)
Class DataEncoderOps (E : Type) := {
  de_SetConfig : Config → E → E;
  de_Read : NVMainRequest → E → res (Z * NVMainRequest * E);
  de_Write : NVMainRequest → E → res (Z * NVMainRequest * E)
}.

(** What the subarray relies on: only the two data blocks change. *)
Class DataEncoderLaws (E : Type) `{DataEncoderOps E} := {
  de_Write_frame : ∀ r e l r' e', de_Write r e = Ok (l, r', e') →
    r' = r <| data := data r' |> <| oldData := oldData r' |>
}.

(** An endurance model (NVmain/src/EnduranceModel.h); the latency is signed,
    negative on a hard error. *)
Class EnduranceModelOps (M : Type) := {
  em_SetConfig : Config → M → M;
  em_is_null : M → bool;
  em_Write : NVMainRequest → NVMDataBlock → M → res (Z * M)
}.

(** The default encoder leaves the data alone. *)
Inductive BaseEncoder := base_encoder.
(*| NVmain/src/DataEncoder.cpp 56-59 DataEncoder::Read *)
Definition DataEncoder_Read (r : NVMainRequest) (e : BaseEncoder) : res (Z * NVMainRequest * BaseEncoder) := Ok (0, r, e).
(*| NVmain/src/DataEncoder.cpp 62-65 DataEncoder::Write *)
Definition DataEncoder_Write (r : NVMainRequest) (e : BaseEncoder) : res (Z * NVMainRequest * BaseEncoder) := Ok (0, r, e).

#[export] Instance base_encoder_ops : DataEncoderOps BaseEncoder := {|
  de_SetConfig _ e := e;
  de_Read := DataEncoder_Read;
  de_Write := DataEncoder_Write
|}.
#[export] Instance base_encoder_laws : DataEncoderLaws BaseEncoder.
Proof. split. intros r [] l r' [] [= _ <-]. by destruct r. Qed.

(** The model that never wears out. *)
Inductive NullModel := null_model.
(*| NVmain/Endurance/NullModel/NullModel.cpp 51-54 NullModel::Write *)
Definition NullModel_Write (r : NVMainRequest) (old : NVMDataBlock) (m : NullModel) : res (Z * NullModel) := Ok (0, m).

#[export] Instance null_model_ops : EnduranceModelOps NullModel := {|
  em_SetConfig _ m := m;
  em_is_null _ := true;
  em_Write := NullModel_Write
|}.

Module SA.

(*| NVmain/src/SubArray.h 64-71 SubArrayState *)
Inductive SubArrayState :=
  | SUBARRAY_UNKNOWN | SUBARRAY_OPEN | SUBARRAY_CLOSED | SUBARRAY_PRECHARGING | SUBARRAY_REFRESHING.

#[export] Instance SubArrayState_eq_dec : EqDecision SubArrayState.
Proof. solve_decision. Defined.

(*| NVmain/src/SubArray.h 73-78 WriteMode *)
Inductive WriteMode := WRITE_BACK | WRITE_THROUGH | DELAYED_WRITE.

#[export] Instance WriteMode_eq_dec : EqDecision WriteMode.
Proof. solve_decision. Defined.

Section Data.
Context {E M : Type}.

(** The members, less the strings that only print. [sa_conf] and [params] are
    the pointers [conf] and [p]. *)
(*| NVmain/src/SubArray.h 125-199 SubArray *)
Record SubArray : Type := mkSubArray {
  sa_conf : option Config;
  params : Params;
  psInterval : Z;
  MATWidth : Z;
  sa_MATHeight : Z;
  state : SubArrayState;
  nextCommand : BulkCommand;
  cycle_ns : double;
  sa_useTagCache : bool;
  lastActivate : Z;
  nextActivate : Z;
  nextPrecharge : Z;
  nextRead : Z;
  nextWrite : Z;
  nextPowerDown : Z;
  writeCycle : bool;
  writeBackRequests : list ReqPtr;
  isWriting : bool;
  writeEnd : Z;
  writeStart : Z;
  writeIterationStarts : list Z;
  writeRequest : option ReqPtr;
  writeEvent : option positive;
  writeEventTime : Z;
  writeMode : WriteMode;
  nextActivatePreWrite : Z;
  nextPrechargePreWrite : Z;
  nextReadPreWrite : Z;
  nextWritePreWrite : Z;
  nextPowerDownPreWrite : Z;
  dataCycles : Z;
  worstCaseWrite : Z;
  num00Writes : Z;
  num01Writes : Z;
  num10Writes : Z;
  num11Writes : Z;
  averageWriteTime : double;
  measuredWriteTimes : Z;
  averageWriteIterations : Z;
  averagePausesPerRequest : double;
  measuredPauses : Z;
  averagePausedRequestProgress : double;
  measuredProgresses : Z;
  dramTagLatency : Z;
  cancelledWrites : Z;
  cancelledWriteTime : Z;
  pausedWrites : Z;
  sa_decdelay : Z;
  actWaits : Z;
  actWaitTotal : Z;
  actWaitAverage : double;
  subArrayEnergy : double;
  activeEnergy : double;
  burstEnergy : double;
  writeEnergy : double;
  refreshEnergy : double;
  reads : Z;
  writes : Z;
  activates : Z;
  precharges : Z;
  refreshes : Z;
  idleTimer : Z;
  openRow : Z;
  dataEncoder : option E;
  endrModel : option M;
  subArrayId : Z;
  mlcTimingMap : gmap Z Z;
  cancelCountMap : gmap Z Z;
  wpPauseMap : list (double * Z);
  wpCancelMap : list (double * Z)
}.

End Data.
Arguments SubArray : clear implicits.

#[export] Instance eta_SubArray E M : Settable (SubArray E M) := fields! mkSubArray
  < sa_conf; params; psInterval; MATWidth; sa_MATHeight; state; nextCommand; cycle_ns;
    sa_useTagCache; lastActivate; nextActivate; nextPrecharge; nextRead; nextWrite;
    nextPowerDown; writeCycle; writeBackRequests; isWriting; writeEnd; writeStart;
    writeIterationStarts; writeRequest; writeEvent; writeEventTime; writeMode;
    nextActivatePreWrite; nextPrechargePreWrite; nextReadPreWrite; nextWritePreWrite;
    nextPowerDownPreWrite; dataCycles; worstCaseWrite; num00Writes; num01Writes;
    num10Writes; num11Writes; averageWriteTime; measuredWriteTimes; averageWriteIterations;
    averagePausesPerRequest; measuredPauses; averagePausedRequestProgress;
    measuredProgresses; dramTagLatency; cancelledWrites; cancelledWriteTime; pausedWrites;
    sa_decdelay; actWaits; actWaitTotal; actWaitAverage; subArrayEnergy; activeEnergy;
    burstEnergy; writeEnergy; refreshEnergy; reads; writes; activates; precharges;
    refreshes; idleTimer; openRow; dataEncoder; endrModel; subArrayId; mlcTimingMap;
    cancelCountMap; wpPauseMap; wpCancelMap >.

(** The constructor. Members it leaves uninitialised are arguments; [p0] is what
    the pointer [p] designates before [SetConfig]. *)
(*| NVmain/src/SubArray.cpp 62-145 SubArray::SubArray *)
Definition SubArray_new {E M} (p0 : Params) (MATWidth0 MATHeight0 : Z) (cycle_ns0 : double)
    (useTagCache0 : bool) (dramTagLatency0 : Z) : SubArray E M := {|
  sa_conf := None;
  params := p0;
  psInterval := 0;
  MATWidth := MATWidth0;
  sa_MATHeight := MATHeight0;
  state := SUBARRAY_CLOSED;
  nextCommand := CMD_NOP;
  cycle_ns := cycle_ns0;
  sa_useTagCache := useTagCache0;
  lastActivate := 0;
  nextActivate := 0;
  nextPrecharge := 0;
  nextRead := 0;
  nextWrite := 0;
  nextPowerDown := 0;
  writeCycle := false;
  writeBackRequests := [];
  isWriting := false;
  writeEnd := 0;
  writeStart := 0;
  writeIterationStarts := [];
  writeRequest := None;
  writeEvent := None;
  writeEventTime := 0;
  writeMode := WRITE_THROUGH;
  nextActivatePreWrite := 0;
  nextPrechargePreWrite := 0;
  nextReadPreWrite := 0;
  nextWritePreWrite := 0;
  nextPowerDownPreWrite := 0;
  dataCycles := 0;
  worstCaseWrite := 0;
  num00Writes := 0;
  num01Writes := 0;
  num10Writes := 0;
  num11Writes := 0;
  averageWriteTime := dzero;
  measuredWriteTimes := 0;
  averageWriteIterations := 1;
  averagePausesPerRequest := dzero;
  measuredPauses := 0;
  averagePausedRequestProgress := dzero;
  measuredProgresses := 0;
  dramTagLatency := dramTagLatency0;
  cancelledWrites := 0;
  cancelledWriteTime := 0;
  pausedWrites := 0;
  sa_decdelay := 0;
  actWaits := 0;
  actWaitTotal := 0;
  actWaitAverage := dzero;
  subArrayEnergy := dzero;
  activeEnergy := dzero;
  burstEnergy := dzero;
  writeEnergy := dzero;
  refreshEnergy := dzero;
  reads := 0;
  writes := 0;
  activates := 0;
  precharges := 0;
  refreshes := 0;
  idleTimer := 0;
  openRow := 0;
  dataEncoder := None;
  endrModel := None;
  subArrayId := u64_max;
  mlcTimingMap := ∅;
  cancelCountMap := ∅;
  wpPauseMap := [];
  wpCancelMap := []
|}.

(** ** Counting bits *)

(** The word [i] of a buffer of bytes read as [uint32_t]s (little endian). *)
Definition word_at (raw : list Z) (i : Z) : res Z :=
  let k := Z.to_nat (4 * i) in
  b0 ← deref OutOfBounds (raw !! k); b1 ← deref OutOfBounds (raw !! S k);
  b2 ← deref OutOfBounds (raw !! S (S k)); b3 ← deref OutOfBounds (raw !! S (S (S k)));
  Ok (Z.lor b0 (Z.lor (Z.shiftl b1 8) (Z.lor (Z.shiftl b2 16) (Z.shiftl b3 24)))).

(*| NVmain/src/SubArray.cpp 1569-1581 SubArray::Count32MLC1 *)
Definition Count32MLC1 (data : Z) : Z :=
  let count := data in
  let count := u32 (count - Z.land (Z.shiftr count 1) 0x55555555) in
  let count := u32 (Z.land count 0x33333333 + Z.land (Z.shiftr count 2) 0x33333333) in
  Z.shiftr (u32 (Z.land (u32 (count + Z.shiftr count 4)) 0x0f0f0f0f * 0x01010101)) 24.

(*| NVmain/src/SubArray.cpp 1584-1596 SubArray::CountBitsMLC1 *)
Definition CountBitsMLC1 (value : Z) (data : list Z) (words : Z) : res Z :=
  count ← foldM (λ count i, w ← word_at data i; Ok (count ⊕ Count32MLC1 w)) 0 (seqZ 0 words);
  Ok (if value =? 1 then count else (words ⊗ 32) ⊖ count).

(*| NVmain/src/SubArray.cpp 1530-1553 SubArray::Count32MLC2 *)
Definition Count32MLC2 (value data : Z) : res Z :=
  let data := if value =? 0 then Z.lxor data 0xFFFFFFFF
              else if value =? 1 then Z.lxor data 0xAAAAAAAA
              else if value =? 2 then Z.lxor data 0x55555555 else data in
  _ ← cassert (value <? 4);
  let count := Z.land (Z.land data 0x55555555) (Z.shiftr (Z.land data 0xAAAAAAAA) 1) in
  Ok (Count32MLC1 count).

(*| NVmain/src/SubArray.cpp 1556-1566 SubArray::CountBitsMLC2 *)
Definition CountBitsMLC2 (value : Z) (data : list Z) (words : Z) : res Z :=
  foldM (λ count i, w ← word_at data i; c ← Count32MLC2 value w; Ok (count ⊕ c)) 0 (seqZ 0 words).

(** ** Helpers

    [std::set<ncycle_t>] as a sorted list; a histogram keyed by [double] as the
    list of its keys and counts (two keys are the same when neither is less). *)

Fixpoint set_insert (x : Z) (l : list Z) : list Z :=
  match l with
  | [] => [x]
  | y :: l' => if x <? y then x :: l else if x =? y then l else y :: set_insert x l'
  end.

Fixpoint hist_bump (k : double) (l : list (double * Z)) : list (double * Z) :=
  match l with
  | [] => [(k, 1)]
  | (x, n) :: l' => if negb (dlt x k) && negb (dlt k x) then (x, n ⊕ 1) :: l' else (x, n) :: hist_bump k l'
  end.

(** The last iteration start that is not after [now]. *)
(*| NVmain/src/SubArray.cpp 876-887 SubArray::CheckWritePausing *)
Fixpoint last_start (now cur : Z) (l : list Z) : Z :=
  match l with
  | [] => cur
  | x :: l => if x >? now then cur else last_start now x l
  end.

Section SubArray.
Context {E M : Type} `{DataEncoderOps E, EnduranceModelOps M}.

(** The object itself, the upward call of [RequestComplete], and the values the
    random generator of [NormalDistribution] returns at a cycle for a mean and variance. *)
Variable this : ObjPtr.
Variable parent_RequestComplete : ReqPtr → ST (Sim (SubArray E M)) bool.
Variable norm_GetEndurance : Z → Z → Z → Z.

Abbreviation sa := (SubArray E M) (only parsing).
Implicit Types (r : NVMainRequest).

Definition upd_req (q : ReqPtr) (f : NVMainRequest → NVMainRequest) : ST (Sim sa) unit :=
  r ← load_req q; store_req q (f r).

(** [new NVMainRequest( )] and the assignment of [*request]. *)
Definition copy_request (r : NVMainRequest) (f : NVMainRequest → NVMainRequest) : ST (Sim sa) ReqPtr :=
  r' ← lift (NVMainRequest_assign (NVMainRequest_new MEM_REQUEST_INCOMPLETE UNKNOWN_ACCESS 0) r);
  new_req (f r').

Definition insert_response (q : ReqPtr) (when : Z) : ST (Sim sa) unit :=
  InsertEvent_obj EventResponse this (Some q) when 0 0.

Definition current_model (p : Params) : bool := String.eqb (EnergyModel p) "current".

(** [MAX( p->tBURST, p->tCCD_L )], the time of one burst. *)
Definition burst (p : Params) : Z := MAX (tBURST p) (tCCD_L p).

(*| NVmain/src/SubArray.cpp 862-948 SubArray::CheckWritePausing *)
Definition CheckWritePausing : ST (Sim sa) unit :=
  s ← self; n ← now;
  let p := params s in
  if negb (WritePausing p && isWriting s) then mret () else
  let writeTimer := writeEnd s ⊖ writeStart s in
  let progress :=
    if decide (pauseMode p = PauseMode_Optimal) then writeEnd s ⊖ n
    else writeEnd s ⊖ last_start n (writeStart s) (writeIterationStarts s) in
  wr ← lift (deref NullDeref (writeRequest s));
  upd_req wr (λ r, r <| writeProgress := progress |>);;
  let writePercent := fsub (f_of_Z 1) (fdiv (f_of_Z progress) (f_of_Z writeTimer)) in
  set_self (λ s, s
    <| averagePausedRequestProgress :=
         ddiv (dadd (dmul (averagePausedRequestProgress s) (d_of_Z (measuredProgresses s))) writePercent)
              (d_of_Z (measuredProgresses s ⊕ 1)) |>
    <| measuredProgresses ::= λ m, m ⊕ 1 |>);;
  (if dlt (PauseThreshold p) writePercent then
     (if negb (progress =? writeEnd s) then
        upd_req wr (req_set FLAG_PAUSED);;
        set_self (λ s, s <| pausedWrites ::= λ m, m ⊕ 1 |>)
      else mret ());;
     set_self (λ s, s <| wpPauseMap ::= hist_bump writePercent |>)
   else
     upd_req wr (req_set FLAG_CANCELLED);;
     upd_req wr (λ r, r <| cancellations ::= λ c, c ⊕ 1 |>);;
     r ← load_req wr;
     (if cancellations r >=? MaxCancellations p then upd_req wr (req_set FLAG_FORCED) else mret ());;
     set_self (λ s, s <| cancelledWrites ::= λ m, m ⊕ 1 |>
                      <| cancelledWriteTime ::= λ t, t ⊕ (n ⊖ writeStart s) |>
                      <| wpCancelMap ::= hist_bump writePercent |>));;
  (match writeEvent s with
   | Some e => _ ← RemoveEvent e (writeEventTime s); delete_event e
   | None => mret ()
   end);;
  set_self (λ s, s <| writeEvent := None |>);;
  insert_response wr (n ⊕ 1);;
  set_self (λ s, s
    <| nextActivate := nextActivatePreWrite s |>
    <| nextPrecharge := nextPrechargePreWrite s |>
    <| nextWrite := nextWritePreWrite s |>
    <| nextRead := nextReadPreWrite s |>
    <| nextPowerDown := nextPowerDownPreWrite s |>).

(** The energies of the [current] model. *)
(*| NVmain/src/SubArray.cpp 346-356 SubArray::Activate *)
Definition activate_energy (p : Params) : double :=
  let tRC := tRAS p ⊕ tRP p in
  ddiv (dsub (dmul (EIDD0 p) (d_of_Z tRC))
          (dadd (dmul (EIDD3N p) (d_of_Z (tRAS p))) (dmul (EIDD2N p) (d_of_Z (tRP p)))))
    (d_of_Z (BANKS p)).

(*| NVmain/src/SubArray.cpp 286-367 SubArray::Activate *)
Definition Activate (q : ReqPtr) : ST (Sim sa) bool :=
  request ← load_req q;
  let activateRow := GetRow (address request) in
  CheckWritePausing;;
  s ← self; n ← now;
  let p := params s in
  if nextActivate s >? n then mret false
  else if UsePrecharge p && negb (bool_decide (state s = SUBARRAY_CLOSED)) then mret false
  else
    set_self (λ s, s
      <| nextPrecharge ::= λ x, MAX x (n ⊕ MAX (tRCD p) (tRAS p)) |>
      <| nextRead ::= λ x, MAX x ((n ⊕ tRCD p) ⊖ tAL p) |>
      <| nextWrite ::= λ x, MAX x ((n ⊕ tRCD p) ⊖ tAL p) |>
      <| nextPowerDown ::= λ x, MAX x (n ⊕ MAX (tRCD p) (tRAS p)) |>);;
    upd_req q (λ r, r <| owner := Some this |>);;
    insert_response q (n ⊕ tRCD p);;
    set_self (λ s, s <| openRow := activateRow |> <| state := SUBARRAY_OPEN |>
                     <| writeCycle := false |> <| lastActivate := n |>);;
    let energy := if current_model p then activate_energy p else Erd p in
    set_self (λ s, s <| subArrayEnergy ::= λ e, dadd e energy |>
                     <| activeEnergy ::= λ e, dadd e energy |>
                     <| activates ::= λ m, m ⊕ 1 |>);;
    mret true.

(*| NVmain/src/SubArray.cpp 483-497 SubArray::Read *)
Definition read_energy (p : Params) : double :=
  if current_model p
  then ddiv (dmul (dsub (EIDD4R p) (EIDD3N p)) (d_of_Z (tBURST p))) (d_of_Z (BANKS p))
  else Eopenrd p.

(** The contents of the memory are tracked only for an endurance model. *)
(*| NVmain/src/SubArray.cpp 499-520 SubArray::Read *)
Definition track_read (r : NVMainRequest) : ST (Sim sa) unit :=
  s ← self; h ← gets (λ s, h_sim (heap s));
  match h, endrModel s with
  | Some si, Some _ =>
      if GetDataAtAddress (GetPhysicalAddress (address r)) si =? 0 then
        si' ← lift (SetDataAtAddress (GetPhysicalAddress (address r)) (data r) si);
        modify (λ s, s <| heap ::= λ h, h <| h_sim := Some si' |> |>)
      else mret ()
  | _, _ => mret ()
  end.

(*| NVmain/src/SubArray.cpp 372-526 SubArray::Read *)
Definition Read (q : ReqPtr) : ST (Sim sa) bool :=
  request ← load_req q;
  let readRow := GetRow (address request) in
  CheckWritePausing;;
  s ← self; n ← now;
  let p := params s in
  if nextRead s >? n then mret false
  else if negb (bool_decide (state s = SUBARRAY_OPEN)) then mret false
  else if negb (readRow =? openRow s) then mret false
  else
    let decLat := sa_decdelay s in
    request ← load_req q;
    let b := burstCount request in
    (if decide (type request = READ_PRECHARGE) then
       set_self (λ s, s
         <| nextActivate ::= λ x, MAX x (u64 (n + burst p * (b - 1) + tAL p + tRTP p + tRP p + decLat)) |>);;
       set_self (λ s, s
         <| nextPrecharge ::= λ x, MAX x (nextActivate s) |>
         <| nextRead ::= λ x, MAX x (nextActivate s) |>
         <| nextWrite ::= λ x, MAX x (nextActivate s) |>);;
       preReq ← copy_request request (λ r, r <| owner := Some this |>);
       insert_response preReq (u64 (n + tAL p + tRTP p + decLat + burst p * (b - 1)))
     else
       set_self (λ s, s
         <| nextPrecharge ::= λ x, MAX x
              (u64 (n + burst p * (b - 1) + tAL p + tBURST p + tRTP p - tCCD_L p + decLat)) |>
         <| nextRead ::= λ x, MAX x (u64 (n + burst p * b)) |>
         <| nextWrite ::= λ x, MAX x
              (u64 (n + burst p * (b - 1) + tCAS p + tBURST p + tRTRS p - tCWD p + decLat)) |>));;
    set_self (λ s, s
      <| nextPowerDown ::= λ x, MAX x
           (u64 (n + burst p * (b - 1) + tCAS p + tAL p + tBURST p + 1 + decLat)) |>);;
    busReq ← copy_request request (λ r, r <| type := BUS_WRITE |> <| owner := Some this |>);
    (if sa_useTagCache s then
       insert_response busReq (u64 (n + tCAS p + decLat + dramTagLatency s));;
       insert_response q (u64 (n + tCAS p + tBURST p + dramTagLatency s))
     else
       insert_response busReq (u64 (n + tCAS p + decLat));;
       insert_response q (u64 (n + tCAS p + tBURST p + decLat)));;
    set_self (λ s, s <| subArrayEnergy ::= λ e, dadd e (read_energy p) |>
                     <| burstEnergy ::= λ e, dadd e (read_energy p) |>);;
    track_read request;;
    set_self (λ s, s <| reads ::= λ m, m ⊕ 1 |> <| dataCycles ::= λ m, m ⊕ tBURST p |>);;
    mret true.

(** *** The cells *)

(** Energy of resetting and setting cells; nothing in the [current] model. *)
(*| NVmain/src/SubArray.cpp 997-1003 SubArray::WriteCellData *)
Definition cell_energy (p : Params) (count0 count1 : Z) : ST (Sim sa) unit :=
  if current_model p then mret ()
  else
    let add e := dadd (dadd e (dmul (Ereset p) (d_of_Z count0))) (dmul (Eset p) (d_of_Z count1)) in
    set_self (λ s, s <| subArrayEnergy ::= add |> <| writeEnergy ::= add |>).

(*| NVmain/src/SubArray.cpp 966-966 SubArray::WriteCellData *)
Definition word_size (p : Params) : Z := u32 (tBURST p ⊗ RATE p ⊗ BusWidth p).

(*| NVmain/src/SubArray.cpp 971-979 SubArray::WriteCellData *)
Fixpoint uniform_starts (k : nat) (iter base pulse : Z) (l : list Z) : list Z :=
  match k with
  | O => l
  | S k => uniform_starts k (iter + 1) base pulse (set_insert (base ⊕ (iter ⊗ pulse)) l)
  end.

(*| NVmain/src/SubArray.cpp 1106-1114 SubArray::WriteCellData *)
Fixpoint pulse_starts (k : nat) (iterStart pulse : Z) (l : list Z) : list Z :=
  match k with
  | O => l
  | S k => pulse_starts k (iterStart ⊕ pulse) pulse (set_insert iterStart l)
  end.

(*| NVmain/src/SubArray.cpp 962-1129 SubArray::WriteCellData *)
Definition WriteCellData (r : NVMainRequest) : ST (Sim sa) Z :=
  set_self (λ s, s <| writeIterationStarts := [] |>);;
  s ← self; n ← now;
  let p := params s in
  let raw := rawData (data r) in
  let memoryWordSize := word_size p in
  let writeBytes32 := memoryWordSize / 32 in
  if UniformWrites p then
    (if MLCLevels p >? 1 then
       let k := averageWriteIterations s in
       set_self (λ s, s <| writeIterationStarts := uniform_starts (Z.to_nat k) 0 n (tWP p / k) [] |>)
     else mret ());;
    '(count0, count1) ← lift (match raw with
      | Some bytes => c0 ← CountBitsMLC1 0 bytes writeBytes32;
                      c1 ← CountBitsMLC1 1 bytes writeBytes32; Ok (c0, c1)
      | None => Ok (256, 256)
      end);
    cell_energy p count0 count1;;
    mret (tWP p)
  else
    match raw with
    | None => mret (tWP0 p)
    | Some bytes =>
        if MLCLevels p =? 1 then
          count0 ← lift (CountBitsMLC1 0 bytes writeBytes32);
          count1 ← lift (CountBitsMLC1 1 bytes writeBytes32);
          cell_energy p count0 count1;;
          let delay0 := if count0 =? 0 then 0 else tWP0 p in
          let delay1 := if count1 =? 0 then 0 else tWP1 p in
          mret (MAX delay0 delay1)
        else if MLCLevels p =? 2 then
          c00 ← lift (CountBitsMLC2 0 bytes writeBytes32);
          c01 ← lift (CountBitsMLC2 1 bytes writeBytes32);
          c10 ← lift (CountBitsMLC2 2 bytes writeBytes32);
          c11 ← lift (CountBitsMLC2 3 bytes writeBytes32);
          lift (cassert (c00 ⊕ c01 ⊕ c10 ⊕ c11 =? memoryWordSize / 2));;
          let delay c n := if c =? 0 then 0 else n in
          let programPulseCount :=
            MAX (MAX (delay c00 (nWP00 p)) (delay c01 (nWP01 p)))
                (MAX (delay c10 (nWP10 p)) (delay c11 (nWP11 p))) in
          let '(once, repeat, pulses) :=
            if negb (c01 =? 0) || negb (c10 =? 0) then
              let max_stddev := s64 (WPMaxVariance p) in
              let maxPulseCount := s64 (max_stddev + programPulseCount) in
              let minPulseCount := MAX 0 (s64 (programPulseCount - max_stddev)) in
              let x := norm_GetEndurance n programPulseCount (WPVariance p) in
              let x := if x >? u64 maxPulseCount then u64 maxPulseCount else x in
              let x := if x <? u64 minPulseCount then u64 minPulseCount else x in
              if decide (programMode p = ProgramMode_SRMS) then (tWP0 p, tWP1 p, x) else (tWP1 p, tWP0 p, x)
            else if negb (c00 =? 0) && (c11 =? 0) then (tWP0 p, 0, 0)
            else if (c00 =? 0) && negb (c11 =? 0) then (tWP1 p, 0, 0)
            else (MAX (tWP0 p) (tWP1 p), 0, 0) in
          let maxDelay := once ⊕ (pulses ⊗ repeat) in
          set_self (λ s, s
            <| writeIterationStarts := pulse_starts (Z.to_nat pulses) (n ⊕ once) repeat [n] |>
            <| mlcTimingMap ::= λ m, <[maxDelay := match m !! maxDelay with Some k => k ⊕ 1 | None => 1 end]> m |>
            <| worstCaseWrite ::= λ w, if maxDelay >? w then maxDelay else w |>);;
          mret maxDelay
        else mret 0
    end.

(*| NVmain/src/SubArray.cpp 1401-1472 SubArray::UpdateEndurance *)
Definition UpdateEndurance (r : NVMainRequest) : ST (Sim sa) Z :=
  s ← self; h ← gets (λ s, h_sim (heap s));
  match endrModel s, h with
  | None, _ => mret 0
  | Some m, _ =>
      if em_is_null m then mret 0 else
      match h with
      | None => mret 0
      | Some si =>
          let p := params s in
          let wordSize := (BusWidth p ⊗ (tBURST p ⊗ RATE p)) / 8 in
          let addr := GetPhysicalAddress (address r) in
          old ← lift (
            if IsValid (oldData r) then NVMDataBlock_assign NVMDataBlock_new (oldData r)
            else if GetDataAtAddress addr si =? 0 then
              foldM (λ d i, SetByte i 0 d) NVMDataBlock_new (seqZ 0 wordSize)
            else Ok NVMDataBlock_new);
          si' ← lift (SetDataAtAddress addr (data r) si);
          modify (λ s, s <| heap ::= λ h, h <| h_sim := Some si' |> |>);;
          '(extraLatency, m') ← lift (em_Write r old m);
          set_self (λ s, s <| endrModel := Some m' |>);;
          mret (u64 (if extraLatency <? 0 then - extraLatency - 1 else extraLatency))
      end
  end.

(** [dataEncoder ? dataEncoder->Write( request ) : 0]. *)
(*| NVmain/src/SubArray.cpp 563-563 SubArray::Write *)
Definition encoder_Write (q : ReqPtr) : ST (Sim sa) Z :=
  s ← self;
  match dataEncoder s with
  | None => mret 0
  | Some e =>
      r ← load_req q;
      '(lat, r', e') ← lift (de_Write r e);
      store_req q r';;
      set_self (λ s, s <| dataEncoder := Some e' |>);;
      mret lat
  end.

(** The bits of the request that differ from the old data. *)
(*| NVmain/src/SubArray.cpp 567-583 SubArray::Write *)
Definition unchanged_bits (r : NVMainRequest) : res Z :=
  let n := GetSize (data r) in
  bytes ← foldM (λ acc i, a ← GetByte i (data r); b ← GetByte i (oldData r); Ok (acc ++ [Z.lxor a b]))
            [] (seqZ 0 n);
  changed ← CountBitsMLC1 1 bytes (n / 4);
  _ ← cassert (n ⊗ 8 >=? changed);
  Ok ((n ⊗ 8) ⊖ changed).

Definition average (avg : double) (count x : Z) : double :=
  ddiv (dadd (dmul avg (d_of_Z count)) (d_of_Z x)) (dadd (d_of_Z count) (d_of_Z 1)).

(** The write-through work before the timing: encoding, endurance, changed bits. *)
(*| NVmain/src/SubArray.cpp 561-584 SubArray::Write *)
Definition write_through (q : ReqPtr) : ST (Sim sa) (Z * Z * Z) :=
  encLat ← encoder_Write q;
  r ← load_req q;
  endrLat ← UpdateEndurance r;
  s ← self;
  unchanged ← (if WriteAllBits (params s) then mret 0 else lift (unchanged_bits r));
  mret (encLat, endrLat, unchanged).

(** The time of the write, and the state a cancellation restores. *)
(*| NVmain/src/SubArray.cpp 586-626 SubArray::Write *)
Definition write_timer (q : ReqPtr) (encLat endrLat : Z) : ST (Sim sa) Z :=
  r ← load_req q;
  cells ← WriteCellData r;
  writeTimer ← (if req_has FLAG_PAUSED r then
                  upd_req q (req_clear FLAG_PAUSED);; mret (writeProgress r)
                else mret cells);
  (if req_has FLAG_CANCELLED r then upd_req q (req_clear FLAG_CANCELLED) else mret ());;
  s ← self;
  writeTimer ← (if decide (writeMode s = WRITE_BACK ∧ writeCycle s = true) then
                  r ← load_req q;
                  c ← copy_request r id;
                  set_self (λ s, s <| writeBackRequests ::= λ l, l ++ [c] |>);;
                  mret 0
                else mret writeTimer);
  (if decide (writeMode s = WRITE_THROUGH) then upd_req q (λ r, r <| writeProgress := writeTimer |>) else mret ());;
  set_self (λ s, s
    <| nextActivatePreWrite := nextActivate s |> <| nextPrechargePreWrite := nextPrecharge s |>
    <| nextReadPreWrite := nextRead s |> <| nextWritePreWrite := nextWrite s |>
    <| nextPowerDownPreWrite := nextPowerDown s |>);;
  if decide (writeMode s = WRITE_THROUGH) then
    let writeTimer := writeTimer ⊕ (encLat ⊕ endrLat) in
    set_self (λ s, s <| averageWriteTime := average (averageWriteTime s) (measuredWriteTimes s) writeTimer |>
                     <| measuredWriteTimes ::= λ m, m ⊕ 1 |>);;
    mret writeTimer
  else mret writeTimer.

(*| NVmain/src/SubArray.cpp 628-669 SubArray::Write *)
Definition write_timing (q : ReqPtr) (n writeTimer : Z) : ST (Sim sa) unit :=
  request ← load_req q;
  s ← self;
  let p := params s in
  let b := burstCount request in
  let last := n + burst p * (b - 1) in
  (if decide (type request = WRITE_PRECHARGE) then
     set_self (λ s, s
       <| nextActivate ::= λ x, MAX x (u64 (last + tAL p + tCWD p + tBURST p + writeTimer + tWR p + tRP p)) |>);;
     set_self (λ s, s
       <| nextPrecharge ::= λ x, MAX x (nextActivate s) |>
       <| nextRead ::= λ x, MAX x (nextActivate s) |>
       <| nextWrite ::= λ x, MAX x (nextActivate s) |>);;
     preReq ← copy_request request (λ r, r <| owner := Some this |>);
     insert_response preReq (u64 (last + tAL p + tCWD p + tBURST p + writeTimer + tWR p))
   else
     set_self (λ s, s
       <| nextPrecharge ::= λ x, MAX x (u64 (last + tAL p + tCWD p + tBURST p + writeTimer + tWR p)) |>
       <| nextRead ::= λ x, MAX x (u64 (last + tCWD p + tBURST p + tWTR_L p + writeTimer)) |>
       <| nextWrite ::= λ x, MAX x (u64 (n + burst p * b + writeTimer)) |>));;
  set_self (λ s, s <| nextPowerDown ::= λ x, MAX x (nextPrecharge s) |>).

(** The write in progress and the events that end it. *)
(*| NVmain/src/SubArray.cpp 671-719 SubArray::Write *)
Definition write_events (q : ReqPtr) (n writeTimer : Z) : ST (Sim sa) unit :=
  request ← load_req q;
  s ← self;
  let p := params s in
  set_self (λ s, s
    <| isWriting := true |> <| writeRequest := Some q |> <| writeStart := n |>
    <| writeEnd := n ⊕ writeTimer |>
    <| writeEventTime := u64 (n + tCWD p + burst p * burstCount request + writeTimer) |>);;
  hook ← find_hook this;
  e ← new_event ((Event_new 0) <| ev_type := EventResponse |> <| ev_recipient := Some hook |>
                               <| ev_request := Some q |>);
  set_self (λ s, s <| writeEvent := Some e |>);;
  busReq ← copy_request request (λ r, r <| type := BUS_READ |> <| owner := Some this |>);
  insert_response busReq (n ⊕ tCWD p);;
  s ← self;
  if sa_useTagCache s then InsertEvent_at e (writeEventTime s ⊕ dramTagLatency s) 0
  else InsertEvent_at e (writeEventTime s) 0.

(*| NVmain/src/SubArray.cpp 531-743 SubArray::Write *)
Definition Write (q : ReqPtr) : ST (Sim sa) bool :=
  request ← load_req q;
  let writeRow := GetRow (address request) in
  s ← self; n ← now;
  let p := params s in
  if nextWrite s >? n then mret false
  else if negb (bool_decide (state s = SUBARRAY_OPEN)) then mret false
  else if negb (writeRow =? openRow s) then mret false
  else
    '(encLat, endrLat, numUnchangedBits) ←
      (if decide (writeMode s = WRITE_THROUGH) then write_through q else mret (0, 0, 0));
    writeTimer ← write_timer q encLat endrLat;
    write_timing q n writeTimer;;
    write_events q n writeTimer;;
    (if current_model p then
       let e := ddiv (dmul (dsub (EIDD4W p) (EIDD3N p)) (d_of_Z (tBURST p))) (d_of_Z (BANKS p)) in
       set_self (λ s, s <| subArrayEnergy ::= λ x, dadd x e |> <| burstEnergy ::= λ x, dadd x e |>)
     else
       set_self (λ s, s
         <| subArrayEnergy ::= λ x, dadd x (dsub (Ewr p) (dmul (Ewrpb p) (d_of_Z numUnchangedBits))) |>
         <| burstEnergy ::= λ x, dadd x (Ewr p) |>));;
    set_self (λ s, s <| writeCycle := true |> <| writes ::= λ m, m ⊕ 1 |>
                     <| dataCycles ::= λ m, m ⊕ tBURST p |>);;
    mret true.

(** The write-back of the modified row. *)
(*| NVmain/src/SubArray.cpp 769-789 SubArray::Precharge *)
Definition write_back (request : NVMainRequest) : ST (Sim sa) Z :=
  s ← self;
  let p := params s in
  cells ← WriteCellData request;
  let fix loop (l : list ReqPtr) (encLat endrLat : Z) : ST (Sim sa) (Z * Z) :=
    match l with
    | [] => mret (encLat, endrLat)
    | w :: l =>
        e ← encoder_Write w;
        r ← load_req w;
        d ← UpdateEndurance r;
        loop l (encLat ⊕ e) (endrLat ⊕ d)
    end in
  '(encLat, endrLat) ← loop (writeBackRequests s) 0 0;
  let writeTimer := MAX 1 (tRP p ⊕ cells) ⊕ (encLat ⊕ endrLat) in
  set_self (λ s, s <| writeBackRequests := [] |>
    <| averageWriteTime := average (averageWriteTime s) (measuredWriteTimes s) writeTimer |>
    <| measuredWriteTimes ::= λ m, m ⊕ 1 |>);;
  mret writeTimer.

(*| NVmain/src/SubArray.cpp 748-803 SubArray::Precharge *)
Definition Precharge (q : ReqPtr) : ST (Sim sa) bool :=
  request ← load_req q;
  s ← self; n ← now;
  let p := params s in
  if nextPrecharge s >? n then mret false
  else if negb (bool_decide (state s = SUBARRAY_CLOSED)) && negb (bool_decide (state s = SUBARRAY_OPEN))
  then mret false
  else
    writeTimer ← (if decide (writeMode s = WRITE_BACK ∧ writeCycle s = true)
                  then write_back request else mret (MAX 1 (tRP p)));
    set_self (λ s, s <| nextActivate ::= λ x, MAX x (n ⊕ writeTimer) |>);;
    upd_req q (λ r, r <| owner := Some this |>);;
    insert_response q (n ⊕ writeTimer);;
    set_self (λ s, s <| state := SUBARRAY_PRECHARGING |>);;
    mret true.

(*| NVmain/src/SubArray.cpp 841-857 SubArray::Refresh *)
Definition refresh_energy (p : Params) : double :=
  if current_model p
  then ddiv (dmul (dsub (EIDD5B p) (EIDD3N p)) (d_of_Z (tRFC p))) (d_of_Z (BANKS p))
  else Eref p.

(*| NVmain/src/SubArray.cpp 809-860 SubArray::Refresh *)
Definition Refresh (q : ReqPtr) : ST (Sim sa) bool :=
  _ ← load_req q;
  s ← self; n ← now;
  let p := params s in
  if nextActivate s >? n then mret false
  else if negb (bool_decide (state s = SUBARRAY_CLOSED)) && UsePrecharge p then mret false
  else
    set_self (λ s, s <| nextActivate ::= λ x, MAX x (n ⊕ tRFC p) |>);;
    upd_req q (λ r, r <| owner := Some this |>);;
    insert_response q (n ⊕ tRFC p);;
    set_self (λ s, s <| state := SUBARRAY_REFRESHING |>
      <| subArrayEnergy ::= λ e, dadd e (refresh_energy p) |>
      <| refreshEnergy ::= λ e, dadd e (refresh_energy p) |>);;
    mret true.

(** *** Queries *)

(*| NVmain/src/SubArray.cpp 950-960 SubArray::BetweenWriteIterations *)
Definition BetweenWriteIterations (s : sa) (n : Z) : bool :=
  isWriting s && bool_decide (n ∈ writeIterationStarts s).

(*| NVmain/src/SubArray.cpp 1131-1142 SubArray::NextIssuable *)
Definition NextIssuable (s : sa) r : Z :=
  match type r with
  | ACTIVATE => nextActivate s
  | READ => nextRead s
  | WRITE => nextWrite s
  | PRECHARGE => nextPrecharge s
  | _ => 0
  end.

(** A write that may not be paused any more is in progress. *)
(*| NVmain/src/SubArray.cpp 1161-1161 SubArray::IsIssuable *)
Definition forced_write (s : sa) (reqs : gmap positive NVMainRequest) : res bool :=
  if WritePausing (params s) && isWriting s then
    wr ← deref NullDeref (writeRequest s);
    w ← deref UseAfterFree (reqs !! wr);
    Ok (req_has FLAG_FORCED w)
  else Ok false.

(** The disjunctions of the conditions are evaluated left to right: the
    dereference of [writeRequest] happens only when the conditions before it
    are false. *)
Definition or_else (b : bool) (m : res bool) : res bool := if b then Ok true else m.

(** Why a request cannot be issued now ([Some] of the reason), if so. *)
(*| NVmain/src/SubArray.cpp 1147-1251 SubArray::IsIssuable *)
Definition blocked (s : sa) (reqs : gmap positive NVMainRequest) (n : Z) r : res (option FailReasons) :=
  let p := params s in
  let opRow := GetRow (address r) in
  let timing b := b ← b; Ok (if (b : bool) then Some SUBARRAY_TIMING else None) in
  match type r with
  | ACTIVATE =>
      timing (or_else (nextActivate s >? n)
             (or_else (UsePrecharge p && negb (bool_decide (state s = SUBARRAY_CLOSED)))
             (f ← forced_write s reqs;
              Ok (f || (WritePausing p && isWriting s && negb (req_has FLAG_PRIORITY r))))))
  | READ | READ_PRECHARGE =>
      timing (or_else (nextRead s >? n)
             (or_else (negb (bool_decide (state s = SUBARRAY_OPEN)))
             (or_else (negb (opRow =? openRow s)) (forced_write s reqs))))
  | WRITE | WRITE_PRECHARGE =>
      timing (Ok ((nextWrite s >? n) || negb (bool_decide (state s = SUBARRAY_OPEN))
                  || negb (opRow =? openRow s)))
  | PRECHARGE | PRECHARGE_ALL =>
      timing (Ok ((nextPrecharge s >? n)
                  || (negb (bool_decide (state s = SUBARRAY_OPEN))
                      && negb (bool_decide (state s = SUBARRAY_CLOSED)))))
  | POWERDOWN_PDA | POWERDOWN_PDPF | POWERDOWN_PDPS =>
      timing (Ok ((nextPowerDown s >? n) || isWriting s))
  | POWERUP => Ok None
  | REFRESH =>
      timing (Ok ((nextActivate s >? n)
                  || (negb (bool_decide (state s = SUBARRAY_CLOSED)) && UsePrecharge p)))
  | _ => Ok (Some UNSUPPORTED_COMMAND)
  end.

(** The answer, the failure reason that is written through the pointer, and the
    statistics of an early activation. *)
(*| NVmain/src/SubArray.cpp 1147-1251 SubArray::IsIssuable *)
Definition IsIssuable (q : ReqPtr) : ST (Sim sa) (bool * option FailReasons) :=
  r ← load_req q;
  s ← self; n ← now;
  if negb (bool_decide (nextCommand s = CMD_NOP)) then mret (false, None) else
  reqs ← gets (λ s, h_reqs (heap s));
  why ← lift (blocked s reqs n r);
  match why with
  | None => mret (true, None)
  | Some reason =>
      (if bool_decide (type r = ACTIVATE) && (nextActivate s >? n) then
         set_self (λ s, s <| actWaits ::= λ m, m ⊕ 1 |>
                          <| actWaitTotal ::= λ m, m ⊕ (nextActivate s ⊖ n) |>)
       else mret ());;
      mret (false, Some reason)
  end.

(** A command that [IsIssuable] accepts and the switch does not know succeeds
    without effect. *)
(*| NVmain/src/SubArray.cpp 1256-1302 SubArray::IssueCommand *)
Definition IssueCommand (q : ReqPtr) : ST (Sim sa) bool :=
  '(ok, _) ← IsIssuable q;
  if negb ok then mret false else
  r ← load_req q;
  match type r with
  | ACTIVATE => Activate q
  | READ | READ_PRECHARGE => Read q
  | WRITE | WRITE_PRECHARGE => Write q
  | PRECHARGE | PRECHARGE_ALL => Precharge q
  | REFRESH => Refresh q
  | _ => mret true
  end.

(** The end of a write: statistics, and [isWriting] if no later write began. *)
(*| NVmain/src/SubArray.cpp 1306-1328 SubArray::RequestComplete *)
Definition write_complete (q : ReqPtr) r : ST (Sim sa) unit :=
  s ← self;
  (if bool_decide (writeRequest s = Some q) then set_self (λ s, s <| isWriting := false |>) else mret ());;
  if req_has FLAG_PAUSED r || req_has FLAG_CANCELLED r then mret ()
  else set_self (λ s, s
    <| averagePausesPerRequest := average (averagePausesPerRequest s) (measuredPauses s) (cancellations r) |>
    <| measuredPauses ::= λ m, m ⊕ 1 |>
    <| cancelCountMap ::= λ m, <[cancellations r :=
         match m !! cancellations r with None => 0 | Some k => k ⊕ 1 end]> m |>).

(*| NVmain/src/SubArray.cpp 1304-1399 SubArray::RequestComplete *)
Definition RequestComplete (q : ReqPtr) : ST (Sim sa) bool :=
  r ← load_req q;
  (if bool_decide (type r = WRITE) || bool_decide (type r = WRITE_PRECHARGE)
   then write_complete q r else mret ());;
  if negb (bool_decide (owner r = Some this)) then parent_RequestComplete q else
  s ← self; n ← now;
  let p := params s in
  match type r with
  | READ_PRECHARGE | WRITE_PRECHARGE =>
      upd_req q (λ r, r <| type := PRECHARGE |>);;
      set_self (λ s, s <| state := SUBARRAY_PRECHARGING |>);;
      insert_response q (n ⊕ tRP p);;
      mret true
  | PRECHARGE | PRECHARGE_ALL =>
      set_self (λ s, s <| state := SUBARRAY_CLOSED |> <| openRow := ROWS p |>
                       <| precharges ::= λ m, m ⊕ 1 |>);;
      delete_req q;; mret true
  | REFRESH =>
      (if UsePrecharge p
       then set_self (λ s, s <| state := SUBARRAY_CLOSED |> <| openRow := ROWS p |>)
       else set_self (λ s, s <| state := SUBARRAY_OPEN |>));;
      set_self (λ s, s <| refreshes ::= λ m, m ⊕ 1 |>);;
      delete_req q;; mret true
  | _ => delete_req q;; mret true
  end.

(*| NVmain/src/SubArray.cpp 1474-1477 SubArray::GetState *)
Definition GetState (s : sa) : SubArrayState := state s.
(*| NVmain/src/SubArray.cpp 1486-1489 SubArray::SetId *)
Definition SetId (id : Z) : ST (Sim sa) unit := set_self (λ s, s <| subArrayId := id |>).
(*| NVmain/src/SubArray.cpp 1516-1519 SubArray::Idle *)
Definition Idle (s : sa) : bool :=
  bool_decide (state s = SUBARRAY_CLOSED) || bool_decide (state s = SUBARRAY_PRECHARGING).

(** The factories choose a model by name; [uninit] are the members the
    constructor of [Params] leaves uninitialised. *)
(*| NVmain/src/SubArray.cpp 151-213 SubArray::SetConfig *)
Definition SetConfig (c : Config) (createChildren : bool) (uninit : Z * Z * Z)
    (CreateEnduranceModel : string → option M) (CreateNewDataEncoder : string → option E)
    (s : sa) : res (Config * sa) :=
  let '(u1, u2, u3) := uninit in
  '(_, (c, p)) ← SetParams (c, Params_new u1 u2 u3);
  '(w, c) ← (if KeyExists "MATWidth" c then '(v, c) ← GetValue "MATWidth" c; Ok (u64 v, c)
             else Ok (MATWidth s, c));
  '(wm, c) ← (if KeyExists "WriteMode" c then
                '(v, c) ← GetString "WriteMode" c;
                Ok (if String.eqb v "WriteBack" then WRITE_BACK else WRITE_THROUGH, c)
              else Ok (writeMode s, c));
  '(clk, c) ← GetValue "CLK" c;
  let total := nWP00 p ⊕ nWP01 p ⊕ nWP10 p ⊕ nWP11 p in
  let ns := ddiv (d_of_Z 1) (ddiv (d_of_Z clk) (d_of_Z 1000)) in
  tag ← (if useTagCache p then d_ceil_u64 (ddiv (d_of_Z 4) ns) else Ok (dramTagLatency s));
  Ok (c, s <| sa_conf := Some c |> <| params := p |> <| sa_decdelay := decdelay p |>
    <| sa_MATHeight := MATHeight p |> <| MATWidth := w |> <| writeMode := wm |>
    <| averageWriteIterations := (total ⊕ 2) / 4 |>
    <| endrModel ::= λ m, if createChildren then em_SetConfig c <$> CreateEnduranceModel (EnduranceModel p) else m |>
    <| dataEncoder ::= λ e, if createChildren then de_SetConfig c <$> CreateNewDataEncoder (DataEncoder p) else e |>
    <| cycle_ns := ns |> <| sa_useTagCache := useTagCache p |>
    <| dramTagLatency := tag |>).
End SubArray.
End SA.
