(* ===== verification/BitCount.v ===== *)
(** * Counting bits

    The subarray counts the bits of the data it writes with word-parallel
    arithmetic (NVmain/src/SubArray.cpp, [Count32MLC1] and its callers). Here the
    tricks are proved equal to counting bit by bit. *)

From S2P Require Import Prelude NVMTypes Config Params SimInterface Heap EventQueue SubArray.
Import SA.

(** ** Reference: the number of ones *)

Fixpoint pos_ones (p : positive) : Z :=
  match p with xH => 1 | xO p => pos_ones p | xI p => 1 + pos_ones p end.
Definition ones (z : Z) : Z := match z with Zpos p => pos_ones p | _ => 0 end.

Lemma ones_double z b : 0 ≤ z → 0 ≤ b < 2 → ones (2 * z + b) = ones z + b.
Proof.
  intros Hz Hb. assert (b = 0 ∨ b = 1) as [-> | ->] by lia.
  - rewrite !Z.add_0_r. by destruct z.
  - destruct z as [|p|p]; [done| |lia]. change (2 * Zpos p + 1) with (Zpos p~1).
    change (ones (Zpos p~1)) with (1 + pos_ones p). change (ones (Zpos p)) with (pos_ones p). lia.
Qed.

Lemma ones_split n h l :
  0 ≤ h → 0 ≤ l < 2 ^ Z.of_nat n → ones (2 ^ Z.of_nat n * h + l) = ones h + ones l.
Proof.
  revert h l. induction n as [|n IH]; intros h l Hh Hl.
  - change (2 ^ Z.of_nat 0) with 1 in *. assert (l = 0) as -> by lia.
    replace (1 * h + 0) with h by lia. change (ones 0) with 0. lia.
  - rewrite Nat2Z.inj_succ, Z.pow_succ_r in * by lia.
    pose proof (Z.div_mod l 2 ltac:(lia)) as Hd. pose proof (Z.mod_pos_bound l 2 ltac:(lia)) as Hm.
    assert (0 ≤ l / 2 < 2 ^ Z.of_nat n) as Hq.
    { split; [apply Z.div_pos; lia|]. apply Z.div_lt_upper_bound; lia. }
    replace (2 * 2 ^ Z.of_nat n * h + l) with (2 * (2 ^ Z.of_nat n * h + l / 2) + l mod 2) by lia.
    rewrite ones_double, IH by lia. rewrite Hd at 3. rewrite ones_double by lia. lia.
Qed.

Lemma ones_byte h l : 0 ≤ h → 0 ≤ l < 256 → ones (256 * h + l) = ones h + ones l.
Proof. apply (ones_split 8). Qed.

(** ** Words as four bytes *)

Definition word (b0 b1 b2 b3 : Z) : Z := b0 + 256 * (b1 + 256 * (b2 + 256 * b3)).

Lemma word_of w :
  is_u32 w → ∃ b0 b1 b2 b3, w = word b0 b1 b2 b3 ∧ is_u8 b0 ∧ is_u8 b1 ∧ is_u8 b2 ∧ is_u8 b3.
Proof.
  unfold is_u32, is_u8, word. intros Hw.
  exists (w mod 256), ((w / 256) mod 256), ((w / 65536) mod 256), (w / 16777216).
  Z.to_euclidean_division_equations. lia.
Qed.

Lemma ones_word b0 b1 b2 b3 :
  is_u8 b0 → is_u8 b1 → is_u8 b2 → is_u8 b3 →
  ones (word b0 b1 b2 b3) = ones b0 + ones b1 + ones b2 + ones b3.
Proof.
  unfold is_u8, word. intros. rewrite Z.add_comm, ones_byte by lia.
  rewrite (Z.add_comm b1), ones_byte, (Z.add_comm b2), ones_byte by lia. lia.
Qed.

(** Bitwise operations act byte by byte. *)
Section Bytewise.
Variable f : bool → bool → bool.
Variable op : Z → Z → Z.
Hypothesis op_spec : ∀ a b n, Z.testbit (op a b) n = f (Z.testbit a n) (Z.testbit b n).
Hypothesis op_byte : ∀ a b, is_u8 a → is_u8 b → is_u8 (op a b).

Lemma testbit_byte h l n :
  is_u8 l → Z.testbit (l + 256 * h) n =
  if n <? 0 then false else if n <? 8 then Z.testbit l n else Z.testbit h (n - 8).
Proof.
  unfold is_u8. intros Hl. destruct (Z.ltb_spec n 0); [by apply Z.testbit_neg_r|].
  replace (l + 256 * h) with (Z.lor l (Z.shiftl h 8)).
  2: { assert (Z.land l (Z.shiftl h 8) = 0) as Hland.
       { apply Z.bits_inj'. intros i Hi. rewrite Z.land_spec, Z.bits_0.
         destruct (Z.ltb_spec i 8); [rewrite Z.shiftl_spec_low by lia; by rewrite andb_false_r|].
         rewrite <- (Z.mod_small l (2 ^ 8)) by (change (2 ^ 8) with 256; lia).
         by rewrite Z.mod_pow2_bits_high by lia. }
       rewrite <- (Z.add_0_r (Z.lor _ _)), <- Hland, Z.add_lor_land, Z.shiftl_mul_pow2 by lia.
       change (2 ^ 8) with 256. lia. }
  rewrite Z.lor_spec. destruct (Z.ltb_spec n 8).
  - rewrite Z.shiftl_spec_low by lia. by rewrite orb_false_r.
  - rewrite Z.shiftl_spec by lia.
    rewrite <- (Z.mod_small l (2 ^ 8)) by (change (2 ^ 8) with 256; lia).
    by rewrite Z.mod_pow2_bits_high by lia.
Qed.

Lemma op_bytes h l h' l' :
  is_u8 l → is_u8 l' → op (l + 256 * h) (l' + 256 * h') = op l l' + 256 * op h h'.
Proof.
  intros Hl Hl'. apply Z.bits_inj'. intros n Hn.
  rewrite op_spec, !testbit_byte by auto.
  destruct (Z.ltb_spec n 0); [lia|]. destruct (Z.ltb_spec n 8); by rewrite op_spec.
Qed.

Lemma op_word a0 a1 a2 a3 b0 b1 b2 b3 :
  is_u8 a0 → is_u8 a1 → is_u8 a2 → is_u8 b0 → is_u8 b1 → is_u8 b2 →
  op (word a0 a1 a2 a3) (word b0 b1 b2 b3) = word (op a0 b0) (op a1 b1) (op a2 b2) (op a3 b3).
Proof. intros. unfold word. by rewrite !op_bytes. Qed.
End Bytewise.

Lemma Forall_bytes (P : Z → Prop) `{!∀ z, Decision (P z)} :
  bool_decide (Forall P (seqZ 0 256)) = true → ∀ z, is_u8 z → P z.
Proof.
  intros Hb z Hz. apply bool_decide_eq_true in Hb. rewrite Forall_forall in Hb. apply Hb.
  apply elem_of_seqZ. unfold is_u8 in Hz. lia.
Qed.
Ltac by_bytes := lazymatch goal with
  |- ∀ b, is_u8 b → @?P b => apply (Forall_bytes P); vm_compute; reflexivity end.

Lemma byte_log2 z : 0 ≤ z → is_u8 z ↔ Z.log2 z < 8.
Proof.
  intros Hz. unfold is_u8. destruct (Z.eq_dec z 0) as [->|]; [by split; cbn; lia|].
  split; intros Hl; [apply Z.log2_lt_pow2; lia|].
  split; [done|]. apply (Z.log2_lt_pow2 _ 8); lia.
Qed.

Lemma land_byte a b : is_u8 a → is_u8 b → is_u8 (Z.land a b).
Proof.
  intros Ha Hb. pose proof Ha as [Ha0 _]. pose proof Hb as [Hb0 _].
  apply byte_log2; [apply Z.land_nonneg; lia|]. apply byte_log2 in Ha; [|done].
  pose proof (Z.log2_land a b Ha0 Hb0). lia.
Qed.

Lemma lxor_byte a b : is_u8 a → is_u8 b → is_u8 (Z.lxor a b).
Proof.
  intros Ha Hb. pose proof Ha as [Ha0 _]. pose proof Hb as [Hb0 _].
  apply byte_log2; [apply Z.lxor_nonneg; lia|]. apply byte_log2 in Ha, Hb; [|done..].
  pose proof (Z.log2_lxor a b Ha0 Hb0). lia.
Qed.

Lemma land_word a0 a1 a2 a3 b0 b1 b2 b3 :
  is_u8 a0 → is_u8 a1 → is_u8 a2 → is_u8 b0 → is_u8 b1 → is_u8 b2 →
  Z.land (word a0 a1 a2 a3) (word b0 b1 b2 b3)
  = word (Z.land a0 b0) (Z.land a1 b1) (Z.land a2 b2) (Z.land a3 b3).
Proof. apply (op_word andb Z.land Z.land_spec land_byte). Qed.

Lemma lxor_word a0 a1 a2 a3 b0 b1 b2 b3 :
  is_u8 a0 → is_u8 a1 → is_u8 a2 → is_u8 b0 → is_u8 b1 → is_u8 b2 →
  Z.lxor (word a0 a1 a2 a3) (word b0 b1 b2 b3)
  = word (Z.lxor a0 b0) (Z.lxor a1 b1) (Z.lxor a2 b2) (Z.lxor a3 b3).
Proof. apply (op_word xorb Z.lxor Z.lxor_spec lxor_byte). Qed.

(** ** Counting ones in parallel *)

Lemma shiftr_word k b0 b1 b2 b3 :
  0 ≤ k ≤ 8 → is_u8 b0 → is_u8 b1 → is_u8 b2 → is_u8 b3 →
  let c b := 2 ^ (8 - k) * (b mod 2 ^ k) in
  Z.shiftr (word b0 b1 b2 b3) k = word (b0 / 2 ^ k + c b1) (b1 / 2 ^ k + c b2) (b2 / 2 ^ k + c b3) (b3 / 2 ^ k).
Proof.
  intros Hk H0 H1 H2 H3. cbv zeta. rewrite Z.shiftr_div_pow2 by lia. unfold word, is_u8 in *.
  assert (k = 0 ∨ k = 1 ∨ k = 2 ∨ k = 3 ∨ k = 4 ∨ k = 5 ∨ k = 6 ∨ k = 7 ∨ k = 8) as Hc by lia.
  destruct Hc as [->|[->|[->|[->|[->|[->|[->|[->| ->]]]]]]]]; cbn -[Z.mul Z.div Z.modulo Z.add];
    Z.to_euclidean_division_equations; lia.
Qed.

(** The three steps on one byte: pairs, nibbles, the byte. *)
Definition step1 (b : Z) : Z := b - Z.land (b / 2) 85.
Definition step2 (b : Z) : Z := Z.land b 51 + Z.land (b / 4) 51.
Definition pairs (b : Z) : Z := step2 (step1 b).

Lemma step1_cross c b : is_u8 b → 0 ≤ c < 2 → Z.land (b / 2 + 128 * c) 85 = Z.land (b / 2) 85.
Proof.
  intros Hb Hc. assert (c = 0 ∨ c = 1) as [-> | ->] by lia; [by rewrite Z.add_0_r|].
  revert b Hb. by_bytes.
Qed.
Lemma step1_byte b : is_u8 b → 0 ≤ step1 b < 256.
Proof. revert b. by_bytes. Qed.
Lemma step2_cross c b : is_u8 b → 0 ≤ c < 4 → Z.land (b / 4 + 64 * c) 51 = Z.land (b / 4) 51.
Proof.
  intros Hb Hc. assert (c = 0 ∨ c = 1 ∨ c = 2 ∨ c = 3) as [->|[->|[->| ->]]] by lia; [by rewrite Z.add_0_r|..];
  revert b Hb; by_bytes.
Qed.
Lemma pairs_byte b : is_u8 b → 0 ≤ pairs b ≤ 68 ∧ 0 ≤ pairs b mod 16 ≤ 4.
Proof. revert b. by_bytes. Qed.
Lemma pairs_sum c b : is_u8 b → 0 ≤ c ≤ 4 →
  0 ≤ pairs b + pairs b / 16 + 16 * c < 256 ∧ Z.land (pairs b + pairs b / 16 + 16 * c) 15 = ones b.
Proof.
  intros Hb Hc. assert (c = 0 ∨ c = 1 ∨ c = 2 ∨ c = 3 ∨ c = 4) as [->|[->|[->|[->| ->]]]] by lia;
  revert b Hb; by_bytes.
Qed.
Lemma ones_byte_bound b : is_u8 b → 0 ≤ ones b ≤ 8.
Proof. revert b. by_bytes. Qed.

Lemma Count32MLC1_ones w : is_u32 w → Count32MLC1 w = ones w.
Proof.
  intros Hw. destruct (word_of w Hw) as (b0 & b1 & b2 & b3 & -> & H0 & H1 & H2 & H3).
  assert (∀ b k, is_u8 b → 0 < k → 0 ≤ b mod k < k) as Hmod by (intros; apply Z.mod_pos_bound; lia).
  assert (∀ b, is_u8 b → is_u8 (b / 2 + 128 * 0) ∧ is_u8 (b / 2 + 128 * 1)) as Hs1 by by_bytes.
  assert (∀ b c, is_u8 b → is_u8 (b / 2 + 128 * (c mod 2))) as Hs1'.
  { intros b c Hb. pose proof (Z.mod_pos_bound c 2 ltac:(lia)).
    assert (c mod 2 = 0 ∨ c mod 2 = 1) as [-> | ->] by lia; by apply Hs1. }
  unfold Count32MLC1. cbv zeta.
  assert (u32 (word b0 b1 b2 b3 - Z.land (Z.shiftr (word b0 b1 b2 b3) 1) 0x55555555)
    = word (step1 b0) (step1 b1) (step1 b2) (step1 b3)) as ->.
  { rewrite shiftr_word by (try done; lia). cbv zeta. change (2 ^ (8 - 1)) with 128. change (2 ^ 1) with 2.
    change 0x55555555 with (word 85 85 85 85).
    rewrite land_word by (done || auto).
    rewrite !step1_cross by (done || (apply Z.mod_pos_bound; lia)).
    pose proof (step1_byte _ H0). pose proof (step1_byte _ H1). pose proof (step1_byte _ H2).
    pose proof (step1_byte _ H3). unfold step1 in *. rewrite u32_small; unfold word, is_u32, is_u8 in *; lia. }
  pose proof (step1_byte _ H0) as S0. pose proof (step1_byte _ H1) as S1.
  pose proof (step1_byte _ H2) as S2. pose proof (step1_byte _ H3) as S3.
  assert (∀ b c, is_u8 b → is_u8 (b / 4 + 64 * (c mod 4))) as Hs2.
  { intros b c Hb. pose proof (Z.mod_pos_bound c 4 ltac:(lia)). unfold is_u8 in *.
    Z.to_euclidean_division_equations. lia. }
  pose proof (pairs_byte _ H0) as [P0 P0']. pose proof (pairs_byte _ H1) as [P1 P1'].
  pose proof (pairs_byte _ H2) as [P2 P2']. pose proof (pairs_byte _ H3) as [P3 P3'].
  assert (u32 (Z.land (word (step1 b0) (step1 b1) (step1 b2) (step1 b3)) 0x33333333 +
      Z.land (Z.shiftr (word (step1 b0) (step1 b1) (step1 b2) (step1 b3)) 2) 0x33333333)
    = word (pairs b0) (pairs b1) (pairs b2) (pairs b3)) as ->.
  { rewrite shiftr_word by (try done; lia). cbv zeta. change (2 ^ (8 - 2)) with 64. change (2 ^ 2) with 4.
    change 0x33333333 with (word 51 51 51 51).
    rewrite !land_word by (done || auto).
    rewrite !step2_cross by (done || (apply Z.mod_pos_bound; lia)).
    unfold pairs, step2 in *. rewrite u32_small; unfold word, is_u32, is_u8 in *; lia. }
  assert (u32 (word (pairs b0) (pairs b1) (pairs b2) (pairs b3) +
       Z.shiftr (word (pairs b0) (pairs b1) (pairs b2) (pairs b3)) 4)
    = word (pairs b0 + pairs b0 / 16 + 16 * (pairs b1 mod 16)) (pairs b1 + pairs b1 / 16 + 16 * (pairs b2 mod 16))
        (pairs b2 + pairs b2 / 16 + 16 * (pairs b3 mod 16)) (pairs b3 + pairs b3 / 16 + 16 * 0)) as ->.
  { rewrite shiftr_word by (unfold is_u8; lia). cbv zeta. change (2 ^ (8 - 4)) with 16. change (2 ^ 4) with 16.
    destruct (pairs_sum _ _ H0 P1') as [? _]. destruct (pairs_sum _ _ H1 P2') as [? _].
    destruct (pairs_sum _ _ H2 P3') as [? _]. destruct (pairs_sum 0 _ H3 ltac:(lia)) as [? _].
    rewrite u32_small; unfold word, is_u32 in *; lia. }
  destruct (pairs_sum _ _ H0 P1') as [Q0 E0]. destruct (pairs_sum _ _ H1 P2') as [Q1 E1].
  destruct (pairs_sum _ _ H2 P3') as [Q2 E2]. destruct (pairs_sum 0 _ H3 ltac:(lia)) as [Q3 E3].
  change 0x0f0f0f0f with (word 15 15 15 15). rewrite land_word by (done || (unfold is_u8; lia)).
  rewrite E0, E1, E2, E3, ones_word by done.
  generalize (ones_byte_bound _ H0) (ones_byte_bound _ H1) (ones_byte_bound _ H2) (ones_byte_bound _ H3).
  generalize (ones b0) (ones b1) (ones b2) (ones b3). clear. intros n0 n1 n2 n3 ? ? ? ?.
  rewrite Z.shiftr_div_pow2 by lia. change (2 ^ 24) with 16777216. unfold word, u32.
  set (t := n0 + 256 * (n0 + n1) + 65536 * (n0 + n1 + n2)).
  set (u := n1 + n2 + n3 + 256 * (n2 + n3) + 65536 * n3).
  replace ((n0 + 256 * (n1 + 256 * (n2 + 256 * n3))) * 0x1010101)
    with (((n0 + n1 + n2 + n3) * 16777216 + t) + u * 4294967296) by (subst t u; lia).
  rewrite Z.mod_add, Z.mod_small, Z.div_add_l, Z.div_small by (subst t u; lia). lia.
Qed.

(** ** Buffers of words *)

Definition sum_list (l : list Z) : Z := foldr Z.add 0 l.

Lemma sum_list_cons x l : sum_list (x :: l) = x + sum_list l.
Proof. reflexivity. Qed.

Lemma sum_list_app l1 l2 : sum_list (l1 ++ l2) = sum_list l1 + sum_list l2.
Proof. induction l1 as [|x l1 IH]; cbn; [done|]. unfold sum_list in *. lia. Qed.

Lemma lor_byte l h : is_u8 l → Z.lor l (Z.shiftl h 8) = l + 256 * h.
Proof.
  intros Hl. apply Z.bits_inj'. intros n Hn. rewrite testbit_byte by done. rewrite Z.lor_spec.
  destruct (Z.ltb_spec n 0); [lia|]. unfold is_u8 in Hl. destruct (Z.ltb_spec n 8).
  - rewrite Z.shiftl_spec_low by lia. by rewrite orb_false_r.
  - rewrite Z.shiftl_spec by lia. rewrite <- (Z.mod_small l (2 ^ 8)) by (change (2 ^ 8) with 256; lia).
    by rewrite Z.mod_pow2_bits_high by lia.
Qed.

(** Any buffer is read as words of four consecutive bytes. *)
Lemma word_at_app l1 b0 b1 b2 b3 l2 i :
  length l1 = Z.to_nat (4 * i) → is_u8 b0 → is_u8 b1 → is_u8 b2 →
  word_at (l1 ++ b0 :: b1 :: b2 :: b3 :: l2) i = Ok (word b0 b1 b2 b3).
Proof.
  intros Hl H0 H1 H2. unfold word_at. rewrite <- Hl.
  assert (∀ k, (l1 ++ b0 :: b1 :: b2 :: b3 :: l2) !! (length l1 + k)%nat = (b0 :: b1 :: b2 :: b3 :: l2) !! k) as Hk.
  { intros k. rewrite lookup_app_r by lia. f_equal. lia. }
  pose proof (Hk 0%nat) as K0. rewrite Nat.add_0_r in K0. pose proof (Hk 1%nat) as K1. pose proof (Hk 2%nat) as K2. pose proof (Hk 3%nat) as K3.
  replace (length l1 + 1)%nat with (S (length l1)) in K1 by lia.
  replace (length l1 + 2)%nat with (S (S (length l1))) in K2 by lia.
  replace (length l1 + 3)%nat with (S (S (S (length l1)))) in K3 by lia.
  rewrite K0, K1, K2, K3. cbn. f_equal. unfold word.
  change 24 with (8 + (8 + 8)) at 1. change 16 with (8 + 8).
  rewrite <- !Z.shiftl_shiftl, <- !Z.shiftl_lor, !lor_byte by (done || lia). lia.
Qed.

(** The sum over the words of a buffer of a function of the bytes. *)
Lemma foldM_words (g : Z → res Z) (h : Z → Z) data words :
  0 ≤ words → 4 * words ≤ Z.of_nat (length data) → words < 288230376151711744 → Forall is_u8 data →
  (∀ b0 b1 b2 b3, is_u8 b0 → is_u8 b1 → is_u8 b2 → is_u8 b3 →
    g (word b0 b1 b2 b3) = Ok (h b0 + h b1 + h b2 + h b3)) →
  (∀ b, is_u8 b → 0 ≤ h b ≤ 8) →
  foldM (λ count i, w ← word_at data i; c ← g w; Ok (count ⊕ c)) 0 (seqZ 0 words)
    = Ok (sum_list (h <$> take (Z.to_nat (4 * words)) data)) ∧
  0 ≤ sum_list (h <$> take (Z.to_nat (4 * words)) data) ≤ 32 * words.
Proof.
  intros Hw Hlen Hmax Hd Hg Hh. revert words Hw Hlen Hmax. apply (natlike_ind (λ words,
    4 * words ≤ Z.of_nat (length data) → words < 288230376151711744 → _)).
  { intros _ _. change (Z.to_nat (4 * 0)) with 0%nat. rewrite take_0. change (sum_list (h <$> [])) with 0. split; [done|lia]. }
  intros n Hn IH Hlen Hmax. destruct IH as [IH1 IH2]; [lia..|]. unfold Z.succ in *.
  assert (∃ l1 b0 b1 b2 b3 l2, data = l1 ++ b0 :: b1 :: b2 :: b3 :: l2 ∧ length l1 = Z.to_nat (4 * n)) as
    (l1 & b0 & b1 & b2 & b3 & l2 & -> & Hl1).
  { exists (take (Z.to_nat (4 * n)) data). destruct (drop (Z.to_nat (4 * n)) data) as [|b0 [|b1 [|b2 [|b3 l2]]]] eqn:E;
      try (apply (f_equal length) in E; rewrite length_drop in E; cbn in E; lia).
    exists b0, b1, b2, b3, l2. rewrite <- E, take_drop, length_take. split; [done|lia]. }
  rewrite !Forall_app, !Forall_cons in Hd. destruct Hd as (Hd1 & H0 & H1 & H2 & H3 & Hd2).
  rewrite seqZ_app by lia. change (seqZ (0 + n) 1) with [0 + n]. rewrite foldM_app, IH1. cbn [mbind res_bind foldM].
  rewrite word_at_app by (done || (rewrite Hl1; f_equal; lia)). cbn [mbind res_bind]. rewrite Hg by done. cbn [mbind res_bind].
  rewrite <- Hl1, take_app_length in IH2 |- *.
  replace (Z.to_nat (4 * (n + 1))) with (length l1 + 4)%nat by lia.
  rewrite take_app_add. cbn [take]. rewrite take_0, fmap_app, sum_list_app.
  change (sum_list (h <$> [b0; b1; b2; b3])) with (h b0 + (h b1 + (h b2 + (h b3 + 0)))).
  pose proof (Hh _ H0). pose proof (Hh _ H1). pose proof (Hh _ H2). pose proof (Hh _ H3).
  rewrite u64_small by (unfold is_u64; lia). split; [f_equal; lia|lia].
Qed.

(** The single-level counter: the words of a buffer are counted bit by bit,
    ones for the value 1 and zeros otherwise. *)
Theorem CountBitsMLC1_correct value data words :
  0 ≤ words → 4 * words ≤ Z.of_nat (length data) → words < 288230376151711744 → Forall is_u8 data →
  let n := sum_list (ones <$> take (Z.to_nat (4 * words)) data) in
  CountBitsMLC1 value data words = Ok (if value =? 1 then n else 32 * words - n) ∧ 0 ≤ n ≤ 32 * words.
Proof.
  intros Hw Hlen Hmax Hd. cbv zeta.
  destruct (foldM_words (λ w, Ok (Count32MLC1 w)) ones data words Hw Hlen Hmax Hd) as [H1 H2].
  - intros b0 b1 b2 b3 H0 H1 H2 H3. f_equal.
    rewrite Count32MLC1_ones, ones_word by (done || (unfold is_u32, is_u8, word in *; lia)). lia.
  - apply ones_byte_bound.
  - split; [|done]. unfold CountBitsMLC1. cbn in H1. rewrite H1. cbn. f_equal.
    destruct (value =? 1); [done|]. unwrap64. lia.
Qed.

Lemma CountBitsMLC1_correct_witness :
  CountBitsMLC1 0 [255; 1; 0; 0; 7; 7; 7; 7] 2 = Ok (64 - 21) ∧ 21 ≤ 64.
Proof.
  destruct (CountBitsMLC1_correct 0 [255; 1; 0; 0; 7; 7; 7; 7] 2) as [H1 H2]; cbn; try lia.
  - repeat constructor; unfold is_u8; lia.
  - split; [exact H1|lia].
Defined.

(** ** Two bits per cell *)

(** How many of the four cells of a byte hold [v]. *)
Definition cells (v b : Z) : Z :=
  sum_list ((λ i, if (b / 4 ^ i) mod 4 =? v then 1 else 0) <$> [0; 1; 2; 3]).

Definition mlc_mask (v : Z) : Z := if v =? 0 then 255 else if v =? 1 then 170 else if v =? 2 then 85 else 0.

Lemma cells_byte v b :
  0 ≤ v < 4 → is_u8 b →
  ones (Z.land (Z.land (Z.lxor b (mlc_mask v)) 85) (Z.land (Z.lxor b (mlc_mask v)) 170 / 2)) = cells v b ∧
  0 ≤ cells v b ≤ 4.
Proof.
  intros Hv Hb. assert (v = 0 ∨ v = 1 ∨ v = 2 ∨ v = 3) as [->|[->|[->| ->]]] by lia; revert b Hb; by_bytes.
Qed.

Lemma cells_sum b : is_u8 b → cells 0 b + cells 1 b + cells 2 b + cells 3 b = 4.
Proof. revert b. by_bytes. Qed.

Lemma Count32MLC2_cells v b0 b1 b2 b3 :
  0 ≤ v < 4 → is_u8 b0 → is_u8 b1 → is_u8 b2 → is_u8 b3 →
  Count32MLC2 v (word b0 b1 b2 b3) = Ok (cells v b0 + cells v b1 + cells v b2 + cells v b3).
Proof.
  intros Hv H0 H1 H2 H3. unfold Count32MLC2. set (m := mlc_mask v).
  assert (is_u8 m) as Hm by (subst m; unfold mlc_mask, is_u8; repeat case_match; lia).
  assert ((if v =? 0 then Z.lxor (word b0 b1 b2 b3) 0xFFFFFFFF
    else if v =? 1 then Z.lxor (word b0 b1 b2 b3) 0xAAAAAAAA
    else if v =? 2 then Z.lxor (word b0 b1 b2 b3) 0x55555555 else word b0 b1 b2 b3)
    = word (Z.lxor b0 m) (Z.lxor b1 m) (Z.lxor b2 m) (Z.lxor b3 m)) as ->.
  { subst m. unfold mlc_mask. repeat case_match.
    - change 0xFFFFFFFF with (word 255 255 255 255). by rewrite lxor_word.
    - change 0xAAAAAAAA with (word 170 170 170 170). by rewrite lxor_word.
    - change 0x55555555 with (word 85 85 85 85). by rewrite lxor_word.
    - by rewrite !Z.lxor_0_r. }
  assert (∀ b, is_u8 b → is_u8 (Z.lxor b m)) as Hx by (intros; by apply lxor_byte).
  assert (∀ b, is_u8 b → Z.land b 170 / 2 + 128 * 0 = Z.land b 170 / 2 ∧ Z.land b 170 mod 2 = 0 ∧
    is_u8 (Z.land b 170) ∧ is_u8 (Z.land b 85) ∧ is_u8 (Z.land b 170 / 2)) as Hb by by_bytes.
  cbv zeta. rewrite (proj2 (Z.ltb_lt v 4)) by lia. cbn [cassert mbind res_bind]. f_equal.
  change 0x55555555 with (word 85 85 85 85). change 0xAAAAAAAA with (word 170 170 170 170).
  pose proof (Hb _ (Hx _ H0)) as (_ & Z0 & A0 & B0 & C0). pose proof (Hb _ (Hx _ H1)) as (_ & Z1 & A1 & B1 & C1).
  pose proof (Hb _ (Hx _ H2)) as (_ & Z2 & A2 & B2 & C2). pose proof (Hb _ (Hx _ H3)) as (_ & Z3 & A3 & B3 & C3).
  rewrite !land_word, shiftr_word by (auto || done || lia). cbv zeta. change (2 ^ 1) with 2.
  rewrite Z1, Z2, Z3, !Z.mul_0_r, !Z.add_0_r, land_word by done.
  rewrite Count32MLC1_ones, ones_word by (apply land_byte || (unfold is_u32, word;
    pose proof (land_byte _ _ B0 C0); pose proof (land_byte _ _ B1 C1);
    pose proof (land_byte _ _ B2 C2); pose proof (land_byte _ _ B3 C3); unfold is_u8 in *; lia); done).
  subst m. by rewrite !(fun b H => proj1 (cells_byte v b Hv H)) by done.
Qed.

Lemma CountBitsMLC2_cells v data words :
  0 ≤ v < 4 → 0 ≤ words → 4 * words ≤ Z.of_nat (length data) → words < 288230376151711744 → Forall is_u8 data →
  CountBitsMLC2 v data words = Ok (sum_list (cells v <$> take (Z.to_nat (4 * words)) data)).
Proof.
  intros Hv Hw Hlen Hmax Hd. apply (foldM_words (Count32MLC2 v) (cells v)); try done.
  - intros. by apply Count32MLC2_cells.
  - intros b Hb. destruct (cells_byte v b Hv Hb). lia.
Qed.

(** C9. The two-level counter: every one of the four counts is the number of
    cells with that value, so together they are all the cells of the words and
    the assertion of [WriteCellData] holds. *)
Theorem CountBitsMLC2_correct data words :
  0 ≤ words → 4 * words ≤ Z.of_nat (length data) → words < 288230376151711744 → Forall is_u8 data →
  ∃ c, (∀ v, 0 ≤ v < 4 → CountBitsMLC2 v data words = Ok (c v) ∧
      c v = sum_list (cells v <$> take (Z.to_nat (4 * words)) data)) ∧
    c 0 ⊕ c 1 ⊕ c 2 ⊕ c 3 = 32 * words / 2.
Proof.
  intros Hw Hlen Hmax Hd. exists (λ v, sum_list (cells v <$> take (Z.to_nat (4 * words)) data)).
  split; [intros v Hv; split; [by apply CountBitsMLC2_cells|done]|].
  assert (Forall is_u8 (take (Z.to_nat (4 * words)) data)) as Hd' by by apply Forall_take.
  assert (length (take (Z.to_nat (4 * words)) data) = Z.to_nat (4 * words)) as Hl by (rewrite length_take; lia).
  revert Hd' Hl. generalize (take (Z.to_nat (4 * words)) data). intros l Hl Hn.
  assert (sum_list (cells 0 <$> l) + sum_list (cells 1 <$> l) + sum_list (cells 2 <$> l) + sum_list (cells 3 <$> l)
    = 4 * Z.of_nat (length l) ∧ 0 ≤ sum_list (cells 0 <$> l) ∧ 0 ≤ sum_list (cells 1 <$> l) ∧
    0 ≤ sum_list (cells 2 <$> l) ∧ 0 ≤ sum_list (cells 3 <$> l)) as (E & ? & ? & ? & ?).
  { clear Hn. induction Hl as [|b l Hb Hl IH]; [done|].
    rewrite !fmap_cons, !sum_list_cons, length_cons. pose proof (cells_sum b Hb).
    destruct (cells_byte 0 b ltac:(lia) Hb) as [_ ?]. destruct (cells_byte 1 b ltac:(lia) Hb) as [_ ?].
    destruct (cells_byte 2 b ltac:(lia) Hb) as [_ ?]. destruct (cells_byte 3 b ltac:(lia) Hb) as [_ ?].
    lia. }
  rewrite Hn in E. unwrap64. rewrite E. replace (32 * words) with (16 * words * 2) by lia.
  rewrite Z.div_mul by lia. lia.
Qed.

Lemma CountBitsMLC2_correct_witness :
  ∃ c, CountBitsMLC2 2 [228; 27; 0; 255] 1 = Ok (c 2) ∧ c 0 ⊕ c 1 ⊕ c 2 ⊕ c 3 = 32 * 1 / 2.
Proof.
  destruct (CountBitsMLC2_correct [228; 27; 0; 255] 1) as (c & H1 & H2); cbn; try lia.
  - repeat constructor; unfold is_u8; lia.
  - exists c. split; [apply H1; lia|exact H2].
Defined.
