(* ===== verification/SubArrayTiming.v ===== *)
(** * Timing of the subarray

    The subarray enforces the timing parameters of the memory: whatever happens
    in between, a command is only issuable when the minimum time since every
    earlier command has passed. *)

From S2P Require Import Prelude NVMTypes Config Params SimInterface Heap EventQueue Frame SubArray.
Import SA.

Section Timing.
Context {E M : Type} `{DataEncoderOps E, EnduranceModelOps M}.
Variable this : ObjPtr.
Variable parent_RequestComplete : ReqPtr → ST (Sim (SubArray E M)) bool.
Variable norm_GetEndurance : Z → Z → Z → Z.
Abbreviation sa := (SubArray E M) (only parsing).
Implicit Types (s : Sim sa).

#[local] Abbreviation Activate := (Activate this).
#[local] Abbreviation Read := (Read this).
#[local] Abbreviation Write := (Write this norm_GetEndurance).
#[local] Abbreviation Precharge := (Precharge this norm_GetEndurance).
#[local] Abbreviation Refresh := (Refresh this).
#[local] Abbreviation IssueCommand := (IssueCommand this norm_GetEndurance).
#[local] Abbreviation RequestComplete := (RequestComplete this parent_RequestComplete).

(** ** Monotonicity

    Unless writes may be paused, no operation moves the earliest cycle of a
    command backwards. *)

Definition ahead (o o' : sa) : Prop :=
  nextActivate o ≤ nextActivate o' ∧ nextPrecharge o ≤ nextPrecharge o' ∧
  nextRead o ≤ nextRead o' ∧ nextWrite o ≤ nextWrite o' ∧ nextPowerDown o ≤ nextPowerDown o'.

Definition same_conf (o o' : sa) : Prop :=
  params o' = params o ∧ sa_decdelay o' = sa_decdelay o ∧ writeMode o' = writeMode o.

Definition mono s s' : Prop :=
  same_conf (obj s) (obj s') ∧ (WritePausing (params (obj s)) = false → ahead (obj s) (obj s')).

#[export] Instance mono_rel : ObjRel mono.
Proof.
  clear.
  split.
  - intros s1 s2 s3 [(E1 & E2 & E3) H1] [(F1 & F2 & F3) H2]. split.
    { unfold same_conf. intuition congruence. }
    intros Hw. specialize (H1 Hw). specialize (H2 ltac:(congruence)). unfold ahead in *. lia.
  - intros s s' E'. unfold mono, same_conf, ahead. rewrite E'. intuition lia.
Qed.

#[local] Instance mono_refl : Reflexive mono.
Proof. intros s. by apply objrel_obj. Qed.

Ltac mono_update := unfold mono, same_conf, ahead; fields;
  (split; [by split_and! | intros _; split_and!; first [reflexivity | apply MAX_l]]).

Lemma mono_copy_request r f : quiet (copy_request (E := E) (M := M) r f).
Proof. unfold copy_request. quiet_tac. Qed.
Lemma mono_upd_req q f : quiet (upd_req (E := E) (M := M) q f).
Proof. unfold upd_req. quiet_tac. Qed.
Lemma mono_insert_response q w : quiet (insert_response (E := E) (M := M) this q w).
Proof. unfold insert_response. quiet_tac. Qed.
#[local] Hint Resolve mono_copy_request mono_upd_req mono_insert_response : pres.

Lemma CheckWritePausing_off s :
  WritePausing (params (obj s)) = false → CheckWritePausing (E := E) (M := M) this s = Ok ((), s).
Proof. intros Hw. unfold CheckWritePausing. run. by rewrite Hw. Qed.

#[local] Instance same_conf_rel : ObjRel (λ s s', same_conf (obj s) (obj s')).
Proof.
  unfold same_conf. split; [intros ? ? ? ? ?; intuition congruence | by intros s s' ->].
Qed.

Lemma conf_CheckWritePausing :
  pres (λ s s', same_conf (obj s) (obj s')) (CheckWritePausing (E := E) (M := M) this).
Proof. unfold CheckWritePausing. pres_tac; unfold same_conf; by fields. Qed.

Lemma mono_CheckWritePausing : pres mono (CheckWritePausing (E := E) (M := M) this).
Proof.
  intros s a s' Hrun. split; [by eapply conf_CheckWritePausing|]. intros Hw.
  rewrite CheckWritePausing_off in Hrun by done. injection Hrun as _ <-. by apply mono_refl.
Qed.
#[local] Hint Resolve mono_CheckWritePausing : pres.

Ltac mono_tac := pres_tac; mono_update.

Lemma mono_track_read r : pres mono (track_read (E := E) (M := M) r).
Proof. unfold track_read. mono_tac. Qed.
Lemma mono_cell_energy p a b : pres mono (cell_energy (E := E) (M := M) p a b).
Proof. unfold cell_energy. mono_tac. Qed.
#[local] Hint Resolve mono_track_read mono_cell_energy : pres.
Lemma mono_WriteCellData r : pres mono (WriteCellData (E := E) (M := M) norm_GetEndurance r).
Proof. unfold WriteCellData. mono_tac. Qed.
Lemma mono_UpdateEndurance r : pres mono (UpdateEndurance (E := E) (M := M) r).
Proof. unfold UpdateEndurance. mono_tac. Qed.
Lemma mono_encoder_Write q : pres mono (encoder_Write (E := E) (M := M) q).
Proof. unfold encoder_Write. mono_tac. Qed.
#[local] Hint Resolve mono_WriteCellData mono_UpdateEndurance mono_encoder_Write : pres.
Lemma mono_write_through q : pres mono (write_through (E := E) (M := M) q).
Proof. unfold write_through. mono_tac. Qed.
Lemma mono_write_timer q a b : pres mono (write_timer (E := E) (M := M) norm_GetEndurance q a b).
Proof. unfold write_timer. mono_tac. Qed.
Lemma mono_write_timing q n t : pres mono (write_timing (E := E) (M := M) this q n t).
Proof. unfold write_timing. mono_tac. Qed.
Lemma mono_write_events q n t : pres mono (write_events (E := E) (M := M) this q n t).
Proof. unfold write_events. mono_tac. Qed.
#[local] Hint Resolve mono_write_through mono_write_timer mono_write_timing mono_write_events : pres.

Lemma mono_Activate q : pres mono (Activate q).
Proof. unfold SA.Activate. mono_tac. Qed.
Lemma mono_Read q : pres mono (Read q).
Proof. unfold SA.Read. mono_tac. Qed.
Lemma mono_Write q : pres mono (Write q).
Proof. unfold SA.Write. mono_tac. Qed.
Lemma mono_write_back r : pres mono (write_back (E := E) (M := M) norm_GetEndurance r).
Proof.
  unfold write_back. pres_tac; try mono_update.
  match goal with |- context [?f (writeBackRequests ?x) 0 0] =>
    assert (∀ l a b, pres mono (f l a b)) as Hloop; [|apply Hloop] end.
  induction l as [|w l IH]; intros; cbn; pres_tac.
Qed.
#[local] Hint Resolve mono_write_back : pres.
Lemma mono_Precharge q : pres mono (Precharge q).
Proof. unfold SA.Precharge. mono_tac. Qed.
Lemma mono_Refresh q : pres mono (Refresh q).
Proof. unfold SA.Refresh. mono_tac. Qed.
Lemma mono_IsIssuable q : pres mono (IsIssuable (E := E) (M := M) q).
Proof. unfold IsIssuable. mono_tac. Qed.
#[local] Hint Resolve mono_Activate mono_Read mono_Write mono_Precharge mono_Refresh mono_IsIssuable : pres.
Lemma mono_IssueCommand q : pres mono (IssueCommand q).
Proof. unfold SA.IssueCommand. mono_tac. Qed.
Lemma mono_write_complete q r : pres mono (write_complete (E := E) (M := M) q r).
Proof. unfold write_complete. mono_tac. Qed.
#[local] Hint Resolve mono_write_complete : pres.
Lemma mono_RequestComplete q :
  (∀ q, quiet (parent_RequestComplete q)) → pres mono (RequestComplete q).
Proof. intros Hp. unfold SA.RequestComplete. mono_tac. Qed.

(** ** What each command establishes *)

Tactic Notation "rest_mono" ident(H) "as" ident(Hm) := match type of H with
  | ?m ?x = Ok (_, ?y) => assert (mono x y) as Hm by
      (let P := fresh in assert (pres mono m) as P by mono_tac; exact (P _ _ _ H))
  end.
Ltac bounds Hm Hw := destruct Hm as [_ Hm]; revert Hm; unfold ahead; fields; rewrite ?MAX_max;
  intros Hm; specialize (Hm Hw); lia.

(** The bounds that hold from a state on, once they hold. *)
Definition from_on (b : sa → Prop) s : Prop := WritePausing (params (obj s)) = false → b (obj s).

Lemma from_on_mono (b : sa → Prop) s s' :
  (∀ o o', ahead o o' → b o → b o') → from_on b s → mono s s' → from_on b s'.
Proof. intros Hb H1 [(E1 & _) H2] Hw. rewrite E1 in Hw. eapply Hb; [by apply H2|by apply H1]. Qed.

Lemma Activate_bounds q s s' :
  WritePausing (params (obj s)) = false → Activate q s = Ok (true, s') →
  let p := params (obj s) in let n := currentCycle (queue s) in let o := obj s' in
  (n ⊕ tRCD p) ⊖ tAL p ≤ nextRead o ∧ (n ⊕ tRCD p) ⊖ tAL p ≤ nextWrite o ∧
  n ⊕ MAX (tRCD p) (tRAS p) ≤ nextPrecharge o ∧ n ⊕ MAX (tRCD p) (tRAS p) ≤ nextPowerDown o.
Proof.
  intros Hw Hr. cbv zeta. unfold SA.Activate in Hr. load Hr.
  rewrite (bind_ok _ _ _ _ _ (CheckWritePausing_off s Hw)) in Hr.
  autorewrite with run in Hr. cbv beta zeta in Hr.
  destruct (_ >? _); [done|]. destruct (_ && _); [done|].
  rewrite bind_set_self in Hr. rest_mono Hr as Hm. bounds Hm Hw.
Qed.

Lemma mono_wp s s' : mono s s' → WritePausing (params (obj s)) = false →
  WritePausing (params (obj s')) = false ∧ same_conf (obj s) (obj s') ∧ ahead (obj s) (obj s').
Proof. intros [C A] Hw. pose proof C as (E' & _). rewrite E'. auto. Qed.

Lemma Read_bounds q s s' r :
  WritePausing (params (obj s)) = false → h_reqs (heap s) !! q = Some r → Read q s = Ok (true, s') →
  let p := params (obj s) in let n := currentCycle (queue s) in let o := obj s' in
  let b := burstCount r in let dec := sa_decdelay (obj s) in
  (type r = READ_PRECHARGE →
     let v := u64 (n + burst p * (b - 1) + tAL p + tRTP p + tRP p + dec) in
     v ≤ nextActivate o ∧ v ≤ nextPrecharge o ∧ v ≤ nextRead o ∧ v ≤ nextWrite o) ∧
  (type r ≠ READ_PRECHARGE →
     u64 (n + burst p * (b - 1) + tAL p + tBURST p + tRTP p - tCCD_L p + dec) ≤ nextPrecharge o ∧
     u64 (n + burst p * b) ≤ nextRead o ∧
     u64 (n + burst p * (b - 1) + tCAS p + tBURST p + tRTRS p - tCWD p + dec) ≤ nextWrite o) ∧
  u64 (n + burst p * (b - 1) + tCAS p + tAL p + tBURST p + 1 + dec) ≤ nextPowerDown o.
Proof.
  intros Hw Hq Hr. cbv zeta. unfold SA.Read in Hr. load Hr.
  rewrite (bind_ok _ _ _ _ _ (CheckWritePausing_off s Hw)) in Hr.
  autorewrite with run in Hr. cbv beta zeta in Hr.
  destruct (_ >? _); [done|]. destruct (negb _); [done|]. destruct (negb _); [done|].
  load Hr. rewrite Hq in E1. injection E1 as <-. next Hr.
  rewrite bind_set_self in Hr. rest_mono Hr as Hm. rest_mono E1 as Hx.
  destruct (mono_wp _ _ Hx Hw) as (Hwx & _ & Hax).
  assert (nextPowerDown (obj x) ≤ nextPowerDown (obj s') ∧
    nextActivate (obj x) ≤ nextActivate (obj s') ∧ nextPrecharge (obj x) ≤ nextPrecharge (obj s') ∧
    nextRead (obj x) ≤ nextRead (obj s') ∧ nextWrite (obj x) ≤ nextWrite (obj s') ∧
    u64 (currentCycle (queue s) + burst (params (obj s)) * (burstCount r - 1) + tCAS (params (obj s)) +
      tAL (params (obj s)) + tBURST (params (obj s)) + 1 + sa_decdelay (obj s)) ≤ nextPowerDown (obj s'))
    as (_ & B1 & B2 & B3 & B4 & B5).
  { bounds Hm Hwx. }
  split_and!; [| |done]; intros Ht;
    [rewrite decide_True in E1 by done; autorewrite with run in E1 | rewrite decide_False in E1 by done].
  - rest_mono E1 as Hm'. bounds Hm' Hw.
  - injection E1 as _ <-. revert B2 B3 B4. fields. rewrite !MAX_max. lia.
Qed.

Lemma Precharge_bounds q s s' :
  WritePausing (params (obj s)) = false → writeMode (obj s) = WRITE_THROUGH → Precharge q s = Ok (true, s') →
  currentCycle (queue s) ⊕ MAX 1 (tRP (params (obj s))) ≤ nextActivate (obj s').
Proof.
  intros Hw Ht Hr. unfold SA.Precharge in Hr. load Hr.
  autorewrite with run in Hr. cbv beta zeta in Hr.
  destruct (_ >? _); [done|]. destruct (_ && _); [done|].
  rewrite decide_False in Hr by (intros []; congruence).
  autorewrite with run in Hr. rest_mono Hr as Hm. bounds Hm Hw.
Qed.

Lemma Refresh_bounds q s s' :
  WritePausing (params (obj s)) = false → Refresh q s = Ok (true, s') →
  currentCycle (queue s) ⊕ tRFC (params (obj s)) ≤ nextActivate (obj s').
Proof.
  intros Hw Hr. unfold SA.Refresh in Hr. load Hr.
  autorewrite with run in Hr. cbv beta zeta in Hr.
  destruct (_ >? _); [done|]. destruct (_ && _); [done|].
  autorewrite with run in Hr. rest_mono Hr as Hm. bounds Hm Hw.
Qed.

(** *** A write reads its request again after encoding it

    The type and the burst count of a live request survive the first half of
    [Write]. *)

Context `{!DataEncoderLaws E}.

Lemma keeping_upd_req q q' (f : NVMainRequest → NVMainRequest) :
  (∀ r, type (f r) = type r ∧ burstCount (f r) = burstCount r ∧ address (f r) = address r) → keeping q (upd_req (E := E) (M := M) q' f).
Proof.
  intros Hf s a s' Hr. unfold upd_req in Hr. load Hr. destruct (Hf r) as (? & ? & ?). destruct a. by eapply keeping_store.
Qed.

Lemma keeping_copy_request q r f : keeping q (copy_request (E := E) (M := M) r f).
Proof.
  unfold copy_request. apply keeping_bind; [|intros r'].
  - apply keeping_lift.
  - apply keeping_new_req.
Qed.

Lemma keeping_encoder_Write q q' : keeping q (encoder_Write (E := E) (M := M) q').
Proof.
  intros s a s' Hr. unfold encoder_Write in Hr. autorewrite with run in Hr.
  destruct (dataEncoder (obj s)) as [e|]; [|injection Hr as _ <-; by apply keeps_heap].
  load Hr. destruct (de_Write r e) as [[[l r'] e']|] eqn:Ee; [|done]. autorewrite with run in Hr.
  cbn in Hr. next Hr. injection Hr as _ <-. apply de_Write_frame in Ee.
  destruct r0. eapply transitivity; [eapply (keeping_store _ _ _ _ _ _ E0); [| | |exact E1]|by apply keeps_heap].
  all: rewrite Ee; by fields.
Qed.

#[local] Hint Resolve keeping_encoder_Write keeping_copy_request : keeping.
#[local] Hint Extern 1 (keeping _ (upd_req _ _)) =>
  apply keeping_upd_req; solve [intros ?; unfold req_set, req_clear; by fields] : keeping.

Lemma keeping_cell_energy q p a b : keeping q (cell_energy (E := E) (M := M) p a b).
Proof. unfold cell_energy. keeping_tac. Qed.
#[local] Hint Resolve keeping_cell_energy : keeping.
Lemma keeping_WriteCellData q r : keeping q (WriteCellData (E := E) (M := M) norm_GetEndurance r).
Proof. unfold WriteCellData. keeping_tac. Qed.
#[local] Hint Resolve keeping_WriteCellData : keeping.
Lemma keeping_UpdateEndurance q r : keeping q (UpdateEndurance (E := E) (M := M) r).
Proof. unfold UpdateEndurance. keeping_tac. Qed.
#[local] Hint Resolve keeping_UpdateEndurance : keeping.
Lemma keeping_write_through q q' : keeping q (write_through (E := E) (M := M) q').
Proof. unfold write_through. keeping_tac. Qed.
Lemma keeping_write_timer q q' a b : keeping q (write_timer (E := E) (M := M) norm_GetEndurance q' a b).
Proof. unfold write_timer. keeping_tac. Qed.

Definition same_end s s' : Prop := writeEnd (obj s') = writeEnd (obj s).
#[local] Instance same_end_rel : ObjRel same_end.
Proof. unfold same_end. split; [intros ? ? ? ? ?; congruence | intros ? ? Eo; by rewrite Eo]. Qed.

Lemma write_timing_bounds q n wt s s' r :
  WritePausing (params (obj s)) = false → h_reqs (heap s) !! q = Some r →
  write_timing this q n wt s = Ok ((), s') →
  let p := params (obj s) in let o := obj s' in let b := burstCount r in
  let base := n + burst p * (b - 1) in
  (type r = WRITE_PRECHARGE →
     let v := u64 (base + tAL p + tCWD p + tBURST p + wt + tWR p + tRP p) in
     v ≤ nextActivate o ∧ v ≤ nextPrecharge o ∧ v ≤ nextRead o ∧ v ≤ nextWrite o ∧ v ≤ nextPowerDown o) ∧
  (type r ≠ WRITE_PRECHARGE →
     let v := u64 (base + tAL p + tCWD p + tBURST p + wt + tWR p) in
     v ≤ nextPrecharge o ∧ v ≤ nextPowerDown o ∧
     u64 (base + tCWD p + tBURST p + tWTR_L p + wt) ≤ nextRead o ∧
     u64 (n + burst p * b + wt) ≤ nextWrite o).
Proof.
  intros Hw Hq Hr. cbv zeta. unfold write_timing in Hr. load Hr. rewrite Hq in E0. injection E0 as <-.
  autorewrite with run in Hr. cbv beta zeta in Hr. next Hr. injection Hr as <-. fields. rewrite MAX_max.
  split; intros Ht; [rewrite decide_True in E0 by done | rewrite decide_False in E0 by done].
  - autorewrite with run in E0. rest_mono E0 as Hm.
    destruct Hm as [_ Hm]. revert Hm. unfold ahead. fields. rewrite ?MAX_max.
    intros Hm; specialize (Hm Hw); lia.
  - injection E0 as _ <-. fields. rewrite !MAX_max. lia.
Qed.

Lemma Write_bounds q s s' r :
  WritePausing (params (obj s)) = false → heap_wf (heap s) →
  h_reqs (heap s) !! q = Some r → Write q s = Ok (true, s') →
  let p := params (obj s) in let n := currentCycle (queue s) in let o := obj s' in
  let b := burstCount r in let we := writeEnd o in
  (type r = WRITE_PRECHARGE →
     let v := u64 (we + burst p * (b - 1) + tAL p + tCWD p + tBURST p + tWR p + tRP p) in
     v ≤ nextActivate o ∧ v ≤ nextPrecharge o ∧ v ≤ nextRead o ∧ v ≤ nextWrite o ∧ v ≤ nextPowerDown o) ∧
  (type r ≠ WRITE_PRECHARGE →
     let v := u64 (we + burst p * (b - 1) + tAL p + tCWD p + tBURST p + tWR p) in
     v ≤ nextPrecharge o ∧ v ≤ nextPowerDown o ∧
     u64 (we + burst p * (b - 1) + tCWD p + tBURST p + tWTR_L p) ≤ nextRead o ∧
     u64 (we + burst p * b) ≤ nextWrite o).
Proof.
  intros Hw Hh Hq Hr. cbv zeta. unfold SA.Write in Hr. load Hr.
  autorewrite with run in Hr. cbv beta zeta in Hr.
  destruct (_ >? _); [done|]. destruct (negb _); [done|]. destruct (negb _); [done|].
  next Hr. destruct r1 as [[enc endr] unch]. next Hr. rename r1 into wt. next Hr. next Hr.
  assert (q < h_next (heap s))%positive as Hlt.
  { apply Pos.lt_nle. intros Hle. destruct (Hh q Hle) as [Hn _]. congruence. }
  assert (keeps q s x0) as Hk.
  { transitivity x; [|by eapply keeping_write_timer].
    destruct (decide _); [by eapply keeping_write_through|]. injection E1 as _ _ _ <-. by apply keeps_heap. }
  destruct (Hk Hlt) as [_ K]. destruct (K r Hq) as (r' & Hr' & Et & Eb & _).
  assert (mono s x0) as Hm0.
  { transitivity x; [|by eapply mono_write_timer].
    destruct (decide _); [by eapply mono_write_through|]. injection E1 as _ _ _ <-. apply mono_refl. }
  destruct (mono_wp _ _ Hm0 Hw) as (Hw0 & (Ep & _) & _).
  rest_mono E3 as Hm1. destruct (mono_wp _ _ Hm1 Hw0) as (Hw1 & _ & _).
  rest_mono E4 as Hm2. destruct (mono_wp _ _ Hm2 Hw1) as (Hw2 & _ & A2).
  rest_mono Hr as Hm3. destruct (mono_wp _ _ Hm3 Hw2) as (_ & _ & A3).
  destruct r1. pose proof (write_timing_bounds _ _ _ _ _ _ Hw0 Hr' E3) as [B1 B2].
  assert (writeEnd (obj s') = currentCycle (queue s) ⊕ wt) as ->.
  { transitivity (writeEnd (obj x2)).
    - match type of Hr with ?m ?y = _ => assert (pres same_end m) as P end.
      { pres_tac; unfold same_end; by fields. }
      apply (P _ _ _ Hr).
    - unfold write_events in E4. load E4. autorewrite with run in E4. cbv beta zeta in E4.
      match type of E4 with ?m ?y = _ => assert (pres same_end m) as P end.
      { pres_tac; unfold same_end; by fields. }
      pose proof (P _ _ _ E4) as Ewe. unfold same_end in Ewe. rewrite Ewe. by fields. }
  rewrite Ep, Et, Eb in *. unfold ahead in *.
  set (p := params (obj s)) in *. set (n := currentCycle (queue s)) in *. set (b := burstCount r) in *.
  split; intros Ht; [specialize (B1 Ht) | specialize (B2 Ht)]; cbv zeta in *.
  - replace (u64 (n ⊕ wt + burst p * (b - 1) + tAL p + tCWD p + tBURST p + tWR p + tRP p))
      with (u64 (n + burst p * (b - 1) + tAL p + tCWD p + tBURST p + wt + tWR p + tRP p));
      [lia|]. rewrite <- !Z.add_assoc, u64_add_l. f_equal. lia.
  - replace (u64 (n ⊕ wt + burst p * (b - 1) + tAL p + tCWD p + tBURST p + tWR p))
      with (u64 (n + burst p * (b - 1) + tAL p + tCWD p + tBURST p + wt + tWR p)).
    2: { rewrite <- !Z.add_assoc, u64_add_l. f_equal. lia. }
    replace (u64 (n ⊕ wt + burst p * (b - 1) + tCWD p + tBURST p + tWTR_L p))
      with (u64 (n + burst p * (b - 1) + tCWD p + tBURST p + tWTR_L p + wt)).
    2: { rewrite <- !Z.add_assoc, u64_add_l. f_equal. lia. }
    replace (u64 (n ⊕ wt + burst p * b)) with (u64 (n + burst p * b + wt)).
    2: { rewrite u64_add_l. f_equal. lia. }
    lia.
Qed.

(** ** The timing table *)

Definition is_read (c : OpType) : bool := match c with READ | READ_PRECHARGE => true | _ => false end.
Definition is_write (c : OpType) : bool := match c with WRITE | WRITE_PRECHARGE => true | _ => false end.
Definition is_pre (c : OpType) : bool := match c with PRECHARGE | PRECHARGE_ALL => true | _ => false end.
Definition is_act (c : OpType) : bool := match c with ACTIVATE | REFRESH => true | _ => false end.
Definition is_pd (c : OpType) : bool :=
  match c with POWERDOWN_PDA | POWERDOWN_PDPF | POWERDOWN_PDPS => true | _ => false end.

(** The cycle that must not be in the future for [c] to be issuable. *)
Definition cmd_next (o : sa) (c : OpType) : option Z :=
  if is_act c then Some (nextActivate o) else if is_read c then Some (nextRead o)
  else if is_write c then Some (nextWrite o) else if is_pre c then Some (nextPrecharge o)
  else if is_pd c then Some (nextPowerDown o) else None.

(** The first cycle at which the parameters allow [c2] after [c1] was issued at
    cycle [n] with burst count [b]; [we] is the end of the write, [dec] the
    decoding delay. *)
Definition earliest (p : Params) (dec b n we : Z) (c1 c2 : OpType) : option Z :=
  let last := burst p * (b - 1) in
  match c1 with
  | ACTIVATE =>
      if is_read c2 || is_write c2 then Some (n + tRCD p - tAL p)
      else if is_pre c2 || is_pd c2 then Some (n + MAX (tRCD p) (tRAS p)) else None
  | READ =>
      if is_pre c2 then Some (n + last + tAL p + tBURST p + tRTP p - tCCD_L p + dec)
      else if is_read c2 then Some (n + burst p * b)
      else if is_write c2 then Some (n + last + tCAS p + tBURST p + tRTRS p - tCWD p + dec)
      else if is_pd c2 then Some (n + last + tCAS p + tAL p + tBURST p + 1 + dec) else None
  | READ_PRECHARGE =>
      if is_pd c2 then Some (n + last + tCAS p + tAL p + tBURST p + 1 + dec)
      else if is_act c2 || is_read c2 || is_write c2 || is_pre c2
      then Some (n + last + tAL p + tRTP p + tRP p + dec) else None
  | WRITE =>
      if is_pre c2 || is_pd c2 then Some (we + last + tAL p + tCWD p + tBURST p + tWR p)
      else if is_read c2 then Some (we + last + tCWD p + tBURST p + tWTR_L p)
      else if is_write c2 then Some (we + burst p * b) else None
  | WRITE_PRECHARGE =>
      if is_act c2 || is_read c2 || is_write c2 || is_pre c2 || is_pd c2
      then Some (we + last + tAL p + tCWD p + tBURST p + tWR p + tRP p) else None
  | PRECHARGE | PRECHARGE_ALL => if is_act c2 then Some (n + MAX 1 (tRP p)) else None
  | REFRESH => if is_act c2 then Some (n + tRFC p) else None
  | _ => None
  end.

Lemma IsIssuable_true q s w s' :
  IsIssuable q s = Ok ((true, w), s') →
  s' = s ∧ ∃ r, h_reqs (heap s) !! q = Some r ∧
    ∀ x, cmd_next (obj s) (type r) = Some x → x ≤ currentCycle (queue s).
Proof.
  intros Hr. unfold IsIssuable in Hr. load Hr. autorewrite with run in Hr.
  destruct (negb _); [done|]. autorewrite with run in Hr.
  destruct (blocked _ _ _ r) as [why|] eqn:Eb; [|done]. autorewrite with run in Hr.
  destruct why as [reason|].
  { exfalso. destruct (_ && _); autorewrite with run in Hr; done. }
  injection Hr as _ <-. split; [done|]. exists r. split; [done|]. intros y.
  assert (∀ a b : Z, (a >? b) = false → a ≤ b) as Hle by (intros a b; rewrite Z.gtb_ltb; apply Z.ltb_ge).
  unfold blocked, or_else in Eb. unfold cmd_next, is_act, is_read, is_write, is_pre, is_pd.
  destruct (type r); try done; intros [= <-]; apply Hle;
    match goal with |- (?a >? ?b) = false => destruct (a >? b); [discriminate Eb|done] end.
Qed.

Lemma cmd_next_mono o o' c x :
  ahead o o' → cmd_next o c = Some x → ∃ x', cmd_next o' c = Some x' ∧ x ≤ x'.
Proof.
  unfold ahead, cmd_next. intros Ha. repeat case_match; intros [= <-]; eexists; (split; [done|lia]).
Qed.

Lemma IssueCommand_earliest q1 r1 s0 s1 c2 e :
  WritePausing (params (obj s0)) = false → writeMode (obj s0) = WRITE_THROUGH → heap_wf (heap s0) →
  h_reqs (heap s0) !! q1 = Some r1 → IssueCommand q1 s0 = Ok (true, s1) →
  earliest (params (obj s0)) (sa_decdelay (obj s0)) (burstCount r1) (currentCycle (queue s0))
    (writeEnd (obj s1)) (type r1) c2 = Some e →
  ∃ x, cmd_next (obj s1) c2 = Some x ∧ u64 e ≤ x.
Proof.
  intros Hw Ht Hh Hq Hr He. unfold SA.IssueCommand in Hr. next Hr. destruct r as [ok w].
  destruct ok; [|done]. cbn [negb] in Hr. apply IsIssuable_true in E0 as (-> & _).
  load Hr. rewrite Hq in E0. injection E0 as <-.
  assert (∀ a b c, u64 (u64 (a + b) - c) = u64 (a + b - c)) as Hsub.
  { intros. unfold u64. by rewrite Zminus_mod_idemp_l. }
  unfold cmd_next. destruct (type r1) eqn:Et; try discriminate He; cbn [earliest] in He.
  - destruct (Activate_bounds _ _ _ Hw Hr) as (B1 & B2 & B3 & B4). cbv zeta in *. rewrite Hsub in *.
    destruct c2; cbn in *; simplify_eq; eexists; (split; [reflexivity|done]).
  - destruct (Read_bounds _ _ _ _ Hw Hq Hr) as (_ & B2 & B3). rewrite Et in B2.
    destruct (B2 ltac:(done)) as (C1 & C2 & C3).
    destruct c2; cbn in *; simplify_eq; eexists; (split; [reflexivity|done]).
  - destruct (Read_bounds _ _ _ _ Hw Hq Hr) as (B2 & _ & B3). rewrite Et in B2.
    destruct (B2 ltac:(done)) as (C1 & C2 & C3 & C4).
    destruct c2; cbn in *; simplify_eq; eexists; (split; [reflexivity|done]).
  - destruct (Write_bounds _ _ _ _ Hw Hh Hq Hr) as (_ & B2). rewrite Et in B2.
    destruct (B2 ltac:(done)) as (C1 & C2 & C3 & C4).
    destruct c2; cbn in *; simplify_eq; eexists; (split; [reflexivity|done]).
  - destruct (Write_bounds _ _ _ _ Hw Hh Hq Hr) as (B2 & _). rewrite Et in B2.
    destruct (B2 ltac:(done)) as (C1 & C2 & C3 & C4 & C5).
    destruct c2; cbn in *; simplify_eq; eexists; (split; [reflexivity|done]).
  - pose proof (Precharge_bounds _ _ _ Hw Ht Hr).
    destruct c2; cbn in *; simplify_eq; eexists; (split; [reflexivity|done]).
  - pose proof (Precharge_bounds _ _ _ Hw Ht Hr).
    destruct c2; cbn in *; simplify_eq; eexists; (split; [reflexivity|done]).
  - pose proof (Refresh_bounds _ _ _ Hw Hr).
    destruct c2; cbn in *; simplify_eq; eexists; (split; [reflexivity|done]).
Qed.

(** What can happen to a subarray between two commands: it is asked, given
    commands and completions in any order, and the rest of the system does
    whatever leaves its state alone (time passing included). *)
Inductive sa_step : Sim sa → Sim sa → Prop :=
  | step_issue s q b s' : IssueCommand q s = Ok (b, s') → sa_step s s'
  | step_query s q a s' : IsIssuable q s = Ok (a, s') → sa_step s s'
  | step_complete s q b s' : RequestComplete q s = Ok (b, s') → sa_step s s'
  | step_env s s' : obj s' = obj s → sa_step s s'.

Lemma sa_steps_mono s s' :
  (∀ q, quiet (parent_RequestComplete q)) → rtc sa_step s s' → mono s s'.
Proof.
  intros Hp. induction 1 as [s|s1 s2 s3 H1 H2 IH]; [apply mono_refl|]. etransitivity; [|exact IH].
  destruct H1.
  - by eapply mono_IssueCommand.
  - by eapply mono_IsIssuable.
  - by eapply mono_RequestComplete.
  - by apply objrel_obj.
Qed.

Lemma timing_table q1 r1 s0 s1 s2 q2 r2 w s3 e :
  (∀ q, quiet (parent_RequestComplete q)) →
  WritePausing (params (obj s0)) = false → writeMode (obj s0) = WRITE_THROUGH → heap_wf (heap s0) →
  h_reqs (heap s0) !! q1 = Some r1 → IssueCommand q1 s0 = Ok (true, s1) →
  rtc sa_step s1 s2 →
  h_reqs (heap s2) !! q2 = Some r2 → IsIssuable q2 s2 = Ok ((true, w), s3) →
  earliest (params (obj s0)) (sa_decdelay (obj s0)) (burstCount r1) (currentCycle (queue s0))
    (writeEnd (obj s1)) (type r1) (type r2) = Some e → is_u64 e →
  e ≤ currentCycle (queue s2).
Proof.
  intros Hp Hw Ht Hh Hq1 H1 Hs Hq2 H2 He Hu.
  destruct (IssueCommand_earliest _ _ _ _ _ _ Hw Ht Hh Hq1 H1 He) as (x & Hx & Hle).
  destruct (mono_wp _ _ (mono_IssueCommand _ _ _ _ H1) Hw) as (Hw1 & _ & _).
  destruct (mono_wp _ _ (sa_steps_mono _ _ Hp Hs) Hw1) as (_ & _ & Ha).
  destruct (cmd_next_mono _ _ _ _ Ha Hx) as (x' & Hx' & Hle').
  destruct (IsIssuable_true _ _ _ _ H2) as (_ & r & Hr & Hn). rewrite Hq2 in Hr. injection Hr as <-.
  specialize (Hn _ Hx'). rewrite u64_small in Hle by done. lia.
Qed.
End Timing.

(** C2. Timing safety: after a command was issued to a subarray without write
    pausing and that writes through ([WRITE_THROUGH]), and whatever happens in
    between, a second command is issuable only when the minimum time the parameters
    demand between the two has passed; the end of that time is a 64-bit cycle. *)
Theorem timing_safety {E M} `{DataEncoderOps E, EnduranceModelOps M, !DataEncoderLaws E}
    this parent norm (q1 q2 : ReqPtr) r1 r2 (s0 s1 s2 s3 : Sim (SubArray E M)) w e :
  (∀ q, quiet (parent q)) →
  WritePausing (params (obj s0)) = false → writeMode (obj s0) = WRITE_THROUGH → heap_wf (heap s0) →
  h_reqs (heap s0) !! q1 = Some r1 → IssueCommand this norm q1 s0 = Ok (true, s1) →
  rtc (sa_step this parent norm) s1 s2 →
  h_reqs (heap s2) !! q2 = Some r2 → IsIssuable q2 s2 = Ok ((true, w), s3) →
  earliest (params (obj s0)) (sa_decdelay (obj s0)) (burstCount r1) (currentCycle (queue s0))
    (writeEnd (obj s1)) (type r1) (type r2) = Some e → is_u64 e →
  e ≤ currentCycle (queue s2).
Proof. intros. by eapply (timing_table this parent norm q1 r1 s0 s1 s2 q2 r2 w s3 e). Qed.

(** ** A subarray for the examples *)

Module Bench.
Definition O : Type := SubArray BaseEncoder NullModel.
Definition p0 : Params := Params_new 0 0 0.
Definition subarray0 : O := SubArray_new p0 0 0 dzero false 0.
Definition parent : ReqPtr → ST (Sim O) bool := λ _, mret true.
Definition norm : Z → Z → Z → Z := λ _ m _, m.

Definition request (t : OpType) (rw : Z) : NVMainRequest :=
  (NVMainRequest_new MEM_REQUEST_INCOMPLETE UNKNOWN_ACCESS 0)
    <| type := t |> <| address ::= λ a, a <| row := rw |> |>.
(** The subarray is object 2, child of object 5; requests start at 10. *)
Definition tree : gmap positive NVMObject := {[
  2%positive := mkNVMObject (Some (mkHook 6 5)) None [] [] [] [] NVMHOOK_NONE NVMHOOK_NONE;
  5%positive := mkNVMObject None None [mkHook 1 2] [] [] [] NVMHOOK_NONE NVMHOOK_NONE ]}.
Definition reqs : gmap positive NVMainRequest := {[
  10%positive := request ACTIVATE 7;
  11%positive := request READ 7;
  12%positive := request WRITE 7 ]}.
Definition start : Sim O :=
  mkSim (mkHeap tree reqs ∅ 20 None) (EventQueue_new dzero) subarray0.

Definition run (q : ReqPtr) (s : Sim O) : Sim O :=
  match IssueCommand 2 norm q s with Ok (_, s) => s | Err _ => s end.
Definition at_time (n : Z) (s : Sim O) : Sim O := s <| queue ::= λ q, q <| currentCycle := n |> |>.

Lemma start_heap_wf : heap_wf (heap start).
Proof.
  intros x Hx. cbn in *. split; [|done]. unfold reqs.
  repeat (rewrite lookup_insert_ne by lia). apply lookup_singleton_ne. lia.
Qed.
End Bench.

(** A row opened at cycle 0 is read at cycle 20, not before 9. *)
Lemma timing_safety_witness : 9 ≤ 20.
Proof.
  refine (timing_safety 2 Bench.parent Bench.norm 10 11 (Bench.request ACTIVATE 7) (Bench.request READ 7)
    Bench.start (Bench.run 10 Bench.start) (Bench.at_time 20 (Bench.run 10 Bench.start))
    (Bench.at_time 20 (Bench.run 10 Bench.start)) None 9 _ _ _ Bench.start_heap_wf _ _ _ _ _ _ _).
  - intros q. apply quiet_ret.
  - reflexivity.
  - reflexivity.
  - reflexivity.
  - vm_compute. reflexivity.
  - apply rtc_once, step_env. reflexivity.
  - vm_compute. reflexivity.
  - vm_compute. reflexivity.
  - vm_compute. reflexivity.
  - unfold is_u64. lia.
Defined.
