(* ===== verification/SubArrayProtocol.v ===== *)
(** * Commands of the subarray

    The sanity checks inside the commands are redundant: a command that
    [IsIssuable] accepts does what it says. The states of the row buffer follow
    the DRAM protocol. *)

From S2P Require Import Prelude NVMTypes Config Params SimInterface Heap EventQueue Frame SubArray SubArrayTiming.
Import SA.

Section Protocol.
Context {E M : Type} `{DataEncoderOps E, EnduranceModelOps M}.
Variable this : ObjPtr.
Variable parent_RequestComplete : ReqPtr → ST (Sim (SubArray E M)) bool.
Variable norm_GetEndurance : Z → Z → Z → Z.
Abbreviation sa := (SubArray E M) (only parsing).
Implicit Types (s : Sim sa).

#[local] Abbreviation Activate := (Activate this).
#[local] Abbreviation Read := (Read this).
#[local] Abbreviation Write := (Write this norm_GetEndurance).
#[local] Abbreviation Precharge := (Precharge this norm_GetEndurance).
#[local] Abbreviation Refresh := (Refresh this).
#[local] Abbreviation IssueCommand := (IssueCommand this norm_GetEndurance).
#[local] Abbreviation RequestComplete := (RequestComplete this parent_RequestComplete).

#[local] Hint Resolve mono_copy_request mono_upd_req mono_insert_response : pres.

(** ** The saved times

    What a cancelled write restores is never later than the current times. *)

Definition saved_le (o : sa) : Prop :=
  nextActivatePreWrite o ≤ nextActivate o ∧ nextPrechargePreWrite o ≤ nextPrecharge o ∧
  nextReadPreWrite o ≤ nextRead o ∧ nextWritePreWrite o ≤ nextWrite o ∧
  nextPowerDownPreWrite o ≤ nextPowerDown o.

Definition saved_inv s s' : Prop := saved_le (obj s) → saved_le (obj s').
#[local] Instance saved_inv_rel : ObjRel saved_inv.
Proof. unfold saved_inv. split; [intros ? ? ? ? ?; auto | intros ? ? Eo; by rewrite Eo]. Qed.

Ltac saved_tac := pres_tac; unfold saved_inv, saved_le; fields; rewrite ?MAX_max; lia.

Lemma saved_CheckWritePausing : pres saved_inv (CheckWritePausing (E := E) (M := M) this).
Proof. unfold CheckWritePausing. saved_tac. Qed.
#[local] Hint Resolve saved_CheckWritePausing : pres.
Lemma saved_track_read r : pres saved_inv (track_read (E := E) (M := M) r).
Proof. unfold track_read. saved_tac. Qed.
Lemma saved_cell_energy p a b : pres saved_inv (cell_energy (E := E) (M := M) p a b).
Proof. unfold cell_energy. saved_tac. Qed.
#[local] Hint Resolve saved_track_read saved_cell_energy : pres.
Lemma saved_WriteCellData r : pres saved_inv (WriteCellData (E := E) (M := M) norm_GetEndurance r).
Proof. unfold WriteCellData. saved_tac. Qed.
Lemma saved_UpdateEndurance r : pres saved_inv (UpdateEndurance (E := E) (M := M) r).
Proof. unfold UpdateEndurance. saved_tac. Qed.
Lemma saved_encoder_Write q : pres saved_inv (encoder_Write (E := E) (M := M) q).
Proof. unfold encoder_Write. saved_tac. Qed.
#[local] Hint Resolve saved_WriteCellData saved_UpdateEndurance saved_encoder_Write : pres.
Lemma saved_write_through q : pres saved_inv (write_through (E := E) (M := M) q).
Proof. unfold write_through. saved_tac. Qed.
Lemma saved_write_timer q a b : pres saved_inv (write_timer (E := E) (M := M) norm_GetEndurance q a b).
Proof. unfold write_timer. saved_tac. Qed.
Lemma saved_write_timing q n t : pres saved_inv (write_timing (E := E) (M := M) this q n t).
Proof. unfold write_timing. saved_tac. Qed.
Lemma saved_write_events q n t : pres saved_inv (write_events (E := E) (M := M) this q n t).
Proof. unfold write_events. saved_tac. Qed.
#[local] Hint Resolve saved_write_through saved_write_timer saved_write_timing saved_write_events : pres.
Lemma saved_write_back r : pres saved_inv (write_back (E := E) (M := M) norm_GetEndurance r).
Proof.
  unfold write_back. pres_tac; try (unfold saved_inv, saved_le; fields; lia).
  match goal with |- context [?f (writeBackRequests ?x) 0 0] =>
    assert (∀ l a b, pres saved_inv (f l a b)) as Hloop; [|apply Hloop] end.
  induction l as [|w l IH]; intros; cbn; pres_tac.
Qed.
#[local] Hint Resolve saved_write_back : pres.
Lemma saved_Activate q : pres saved_inv (Activate q).
Proof. unfold SA.Activate. saved_tac. Qed.
Lemma saved_Read q : pres saved_inv (Read q).
Proof. unfold SA.Read. saved_tac. Qed.
Lemma saved_Write q : pres saved_inv (Write q).
Proof. unfold SA.Write. saved_tac. Qed.
Lemma saved_Precharge q : pres saved_inv (Precharge q).
Proof. unfold SA.Precharge. saved_tac. Qed.
Lemma saved_Refresh q : pres saved_inv (Refresh q).
Proof. unfold SA.Refresh. saved_tac. Qed.
Lemma saved_IsIssuable q : pres saved_inv (IsIssuable (E := E) (M := M) q).
Proof. unfold IsIssuable. saved_tac. Qed.
#[local] Hint Resolve saved_Activate saved_Read saved_Write saved_Precharge saved_Refresh saved_IsIssuable : pres.
Lemma saved_IssueCommand q : pres saved_inv (IssueCommand q).
Proof. unfold SA.IssueCommand. saved_tac. Qed.
Lemma saved_write_complete q r : pres saved_inv (write_complete (E := E) (M := M) q r).
Proof. unfold write_complete. saved_tac. Qed.
#[local] Hint Resolve saved_write_complete : pres.
Lemma saved_RequestComplete q :
  (∀ q, quiet (parent_RequestComplete q)) → pres saved_inv (RequestComplete q).
Proof. intros Hp. unfold SA.RequestComplete. saved_tac. Qed.

Lemma sa_steps_saved s s' :
  (∀ q, quiet (parent_RequestComplete q)) →
  rtc (sa_step this parent_RequestComplete norm_GetEndurance) s s' → saved_inv s s'.
Proof.
  intros Hp. induction 1 as [s|s1 s2 s3 H1 H2 IH]; [by intros ?|]. etransitivity; [|exact IH]. destruct H1.
  - by eapply saved_IssueCommand.
  - by eapply saved_IsIssuable.
  - by eapply saved_RequestComplete.
  - by apply objrel_obj.
Qed.

(** ** Pausing a write only moves the next times back to the saved ones *)

Definition paused (o o' : sa) : Prop :=
  params o' = params o ∧ state o' = state o ∧ openRow o' = openRow o ∧
  (nextActivate o' = nextActivate o ∨ nextActivate o' = nextActivatePreWrite o) ∧
  (nextRead o' = nextRead o ∨ nextRead o' = nextReadPreWrite o) ∧
  nextActivatePreWrite o' = nextActivatePreWrite o ∧ nextReadPreWrite o' = nextReadPreWrite o.
Definition pausing s s' : Prop := paused (obj s) (obj s').
#[local] Instance pausing_rel : ObjRel pausing.
Proof.
  unfold pausing, paused. split; [intros ? ? ? ? ?; intuition congruence|].
  intros ? ? Eo. rewrite Eo. intuition.
Qed.

Lemma CheckWritePausing_paused : pres pausing (CheckWritePausing (E := E) (M := M) this).
Proof. unfold CheckWritePausing. pres_tac; unfold pausing, paused; fields; intuition. Qed.

Lemma timeless_CheckWritePausing : timeless (CheckWritePausing (E := E) (M := M) this).
Proof. unfold CheckWritePausing, upd_req, insert_response. timeless_tac. Qed.

(** ** The sanity checks of the commands *)

Ltac never := exfalso; repeat match goal with
  | H : context [?a >? ?b] |- _ => rewrite (gtb_false a b) in H by lia
  end; discriminate.

Definition succeeds (m : ST (Sim sa) bool) : Prop := ∀ s b s', m s = Ok (b, s') → b = true.

Lemma succeeds_bind {A} (m : ST (Sim sa) A) (f : A → ST (Sim sa) bool) :
  (∀ a, succeeds (f a)) → succeeds (m ≫= f).
Proof. intros Hf s b s' Hr. apply bind_inv in Hr as (a & s1 & _ & Hr). by eapply Hf. Qed.
Lemma succeeds_ret : succeeds (mret true).
Proof. by intros s b s' [= <- _]. Qed.
Ltac succeeds_tac := repeat first [apply succeeds_ret | apply succeeds_bind; intros ? | head_step].

Lemma Activate_true s q b s' r :
  saved_le (obj s) → h_reqs (heap s) !! q = Some r → type r = ACTIVATE →
  blocked (obj s) (h_reqs (heap s)) (currentCycle (queue s)) r = Ok None →
  Activate q s = Ok (b, s') → b = true.
Proof.
  intros Hs Hq Ht Hb Hr. unfold SA.Activate in Hr.
  apply bind_inv in Hr as (r0 & x & E0 & Hr). apply load_req_inv in E0 as [-> E0].
  apply bind_inv in Hr as (u & s1 & Ec & Hr).
  pose proof (CheckWritePausing_paused _ _ _ Ec) as (P1 & P2 & P3 & P4 & P5 & _).
  destruct (timeless_CheckWritePausing _ _ _ Ec) as [Et _].
  autorewrite with run in Hr. cbv zeta in Hr. rewrite Et, P1, P2 in Hr.
  unfold blocked, or_else in Hb. rewrite Ht in Hb. unfold saved_le in Hs.
  destruct (Z.gtb_spec (nextActivate (obj s)) (currentCycle (queue s))) as [|Hle]; [discriminate Hb|].
  rewrite (gtb_false (nextActivate (obj s1))) in Hr by (destruct P4 as [->| ->]; lia).
  destruct (UsePrecharge _ && _); [discriminate Hb|].
  revert Hr. match goal with |- ?m _ = _ → _ => assert (succeeds m) as Hm by succeeds_tac end. apply Hm.
Qed.

Lemma Read_true s q b s' r :
  saved_le (obj s) → h_reqs (heap s) !! q = Some r → type r = READ ∨ type r = READ_PRECHARGE →
  blocked (obj s) (h_reqs (heap s)) (currentCycle (queue s)) r = Ok None →
  Read q s = Ok (b, s') → b = true.
Proof.
  intros Hs Hq Ht Hb Hr. unfold SA.Read in Hr.
  apply bind_inv in Hr as (r0 & x & E0 & Hr). apply load_req_inv in E0 as [-> E0].
  rewrite Hq in E0. injection E0 as <-.
  apply bind_inv in Hr as (u & s1 & Ec & Hr).
  pose proof (CheckWritePausing_paused _ _ _ Ec) as (P1 & P2 & P3 & P4 & P5 & _).
  destruct (timeless_CheckWritePausing _ _ _ Ec) as [Et _].
  autorewrite with run in Hr. cbv zeta in Hr. rewrite Et, P2, P3 in Hr.
  unfold blocked, or_else in Hb. unfold saved_le in Hs.
  destruct Ht as [Ht|Ht]; rewrite Ht in Hb;
    (destruct (Z.gtb_spec (nextRead (obj s)) (currentCycle (queue s))) as [|Hle]; [discriminate Hb|];
     rewrite (gtb_false (nextRead (obj s1))) in Hr by (destruct P5 as [->| ->]; lia);
     destruct (negb (bool_decide _)); [discriminate Hb|]; destruct (negb (_ =? _)); [discriminate Hb|];
     revert Hr; match goal with |- ?m _ = _ → _ => assert (succeeds m) as Hm by succeeds_tac end; apply Hm).
Qed.

Lemma Write_true s q b s' r :
  h_reqs (heap s) !! q = Some r → type r = WRITE ∨ type r = WRITE_PRECHARGE →
  blocked (obj s) (h_reqs (heap s)) (currentCycle (queue s)) r = Ok None →
  Write q s = Ok (b, s') → b = true.
Proof.
  intros Hq Ht Hb Hr. unfold SA.Write in Hr.
  apply bind_inv in Hr as (r0 & x & E0 & Hr). apply load_req_inv in E0 as [-> E0].
  rewrite Hq in E0. injection E0 as <-. autorewrite with run in Hr. cbv zeta in Hr.
  unfold blocked in Hb. revert Hr.
  destruct Ht as [Ht|Ht]; rewrite Ht in Hb; cbn in Hb;
    (destruct (nextWrite (obj s) >? _); [discriminate Hb|]; destruct (negb (bool_decide _)); [discriminate Hb|];
     destruct (negb (_ =? _)); [discriminate Hb|];
     match goal with |- ?m _ = _ → _ => assert (succeeds m) as Hm by succeeds_tac end; apply Hm).
Qed.

Lemma Precharge_true s q b s' r :
  h_reqs (heap s) !! q = Some r → type r = PRECHARGE ∨ type r = PRECHARGE_ALL →
  blocked (obj s) (h_reqs (heap s)) (currentCycle (queue s)) r = Ok None →
  Precharge q s = Ok (b, s') → b = true.
Proof.
  intros Hq Ht Hb Hr. unfold SA.Precharge in Hr.
  apply bind_inv in Hr as (r0 & x & E0 & Hr). apply load_req_inv in E0 as [-> E0].
  autorewrite with run in Hr. cbv zeta in Hr. rewrite andb_comm in Hr.
  unfold blocked in Hb. revert Hr.
  destruct Ht as [Ht|Ht]; rewrite Ht in Hb; cbn in Hb;
    (destruct (nextPrecharge (obj s) >? _); [discriminate Hb|]; destruct (_ && _); [discriminate Hb|];
     match goal with |- ?m _ = _ → _ => assert (succeeds m) as Hm by succeeds_tac end; apply Hm).
Qed.

Lemma Refresh_true s q b s' r :
  h_reqs (heap s) !! q = Some r → type r = REFRESH →
  blocked (obj s) (h_reqs (heap s)) (currentCycle (queue s)) r = Ok None →
  Refresh q s = Ok (b, s') → b = true.
Proof.
  intros Hq Ht Hb Hr. unfold SA.Refresh in Hr.
  apply bind_inv in Hr as (r0 & x & E0 & Hr). apply load_req_inv in E0 as [-> E0].
  autorewrite with run in Hr. cbv zeta in Hr.
  unfold blocked in Hb. revert Hr. rewrite Ht in Hb; cbn in Hb.
  destruct (nextActivate (obj s) >? _); [discriminate Hb|]; destruct (_ && _); [discriminate Hb|].
  match goal with |- ?m _ = _ → _ => assert (succeeds m) as Hm by succeeds_tac end; apply Hm.
Qed.

Lemma IsIssuable_blocked q s w s' :
  IsIssuable q s = Ok ((true, w), s') → s' = s ∧ ∃ r, h_reqs (heap s) !! q = Some r ∧
    blocked (obj s) (h_reqs (heap s)) (currentCycle (queue s)) r = Ok None.
Proof.
  intros Hr. unfold IsIssuable in Hr.
  apply bind_inv in Hr as (r & x & E0 & Hr). apply load_req_inv in E0 as [-> E0].
  autorewrite with run in Hr.
  destruct (negb _); [done|]. autorewrite with run in Hr.
  destruct (blocked _ _ _ r) as [why|] eqn:Eb; [|done]. autorewrite with run in Hr.
  destruct why as [reason|].
  { exfalso. destruct (_ && _); autorewrite with run in Hr; done. }
  injection Hr as _ <-. eauto.
Qed.

Lemma trusted q s w s1 b s2 :
  saved_le (obj s) → IsIssuable q s = Ok ((true, w), s1) → IssueCommand q s = Ok (b, s2) → b = true.
Proof.
  intros Hs Hi Hr. unfold SA.IssueCommand in Hr. rewrite (bind_ok _ _ _ _ _ Hi) in Hr. cbn [negb] in Hr.
  destruct (IsIssuable_blocked _ _ _ _ Hi) as (-> & r & Hq & Hb).
  apply bind_inv in Hr as (r0 & x & E0 & Hr). apply load_req_inv in E0 as [-> E0].
  rewrite Hq in E0. injection E0 as <-.
  destruct (type r) eqn:Et; try (injection Hr as <- _; done);
    eauto using Activate_true, Read_true, Write_true, Precharge_true, Refresh_true.
Qed.

(** ** The row buffer *)

Definition same_row (o o' : sa) : Prop :=
  state o' = state o ∧ openRow o' = openRow o ∧ params o' = params o.
Definition row_kept s s' : Prop := same_row (obj s) (obj s').
#[local] Instance row_kept_rel : ObjRel row_kept.
Proof.
  unfold row_kept, same_row. split; [intros ? ? ? ? ?; intuition congruence|].
  intros ? ? Eo. rewrite Eo. intuition.
Qed.
Lemma row_kept_refl s : row_kept s s.
Proof. by apply objrel_obj. Qed.

Ltac row_tac := pres_tac; unfold row_kept, same_row; fields; split_and!; reflexivity.

Lemma row_CheckWritePausing : pres row_kept (CheckWritePausing (E := E) (M := M) this).
Proof. unfold CheckWritePausing. row_tac. Qed.
#[local] Hint Resolve row_CheckWritePausing : pres.
Lemma row_track_read r : pres row_kept (track_read (E := E) (M := M) r).
Proof. unfold track_read. row_tac. Qed.
Lemma row_cell_energy p a b : pres row_kept (cell_energy (E := E) (M := M) p a b).
Proof. unfold cell_energy. row_tac. Qed.
#[local] Hint Resolve row_track_read row_cell_energy : pres.
Lemma row_WriteCellData r : pres row_kept (WriteCellData (E := E) (M := M) norm_GetEndurance r).
Proof. unfold WriteCellData. row_tac. Qed.
Lemma row_UpdateEndurance r : pres row_kept (UpdateEndurance (E := E) (M := M) r).
Proof. unfold UpdateEndurance. row_tac. Qed.
Lemma row_encoder_Write q : pres row_kept (encoder_Write (E := E) (M := M) q).
Proof. unfold encoder_Write. row_tac. Qed.
#[local] Hint Resolve row_WriteCellData row_UpdateEndurance row_encoder_Write : pres.
Lemma row_write_through q : pres row_kept (write_through (E := E) (M := M) q).
Proof. unfold write_through. row_tac. Qed.
Lemma row_write_timer q a b : pres row_kept (write_timer (E := E) (M := M) norm_GetEndurance q a b).
Proof. unfold write_timer. row_tac. Qed.
Lemma row_write_timing q n t : pres row_kept (write_timing (E := E) (M := M) this q n t).
Proof. unfold write_timing. row_tac. Qed.
Lemma row_write_events q n t : pres row_kept (write_events (E := E) (M := M) this q n t).
Proof. unfold write_events. row_tac. Qed.
#[local] Hint Resolve row_write_through row_write_timer row_write_timing row_write_events : pres.
Lemma row_write_back r : pres row_kept (write_back (E := E) (M := M) norm_GetEndurance r).
Proof.
  unfold write_back. pres_tac; try (unfold row_kept, same_row; fields; split_and!; reflexivity).
  match goal with |- context [?f (writeBackRequests ?x) 0 0] =>
    assert (∀ l a b, pres row_kept (f l a b)) as Hloop; [|apply Hloop] end.
  induction l as [|w l IH]; intros; cbn; pres_tac.
Qed.
#[local] Hint Resolve row_write_back : pres.
Lemma row_Read q : pres row_kept (Read q).
Proof. unfold SA.Read. row_tac. Qed.
Lemma row_Write q : pres row_kept (Write q).
Proof. unfold SA.Write. row_tac. Qed.
Lemma row_IsIssuable q : pres row_kept (IsIssuable (E := E) (M := M) q).
Proof. unfold IsIssuable. row_tac. Qed.

(** What a command that was carried out requires and does. *)
Definition allowed (o : sa) (r : NVMainRequest) (o' : sa) : Prop :=
  let opRow := GetRow (address r) in
  match type r with
  | ACTIVATE =>
      (UsePrecharge (params o) = true → state o = SUBARRAY_CLOSED) ∧
      state o' = SUBARRAY_OPEN ∧ openRow o' = opRow
  | READ | READ_PRECHARGE | WRITE | WRITE_PRECHARGE =>
      state o = SUBARRAY_OPEN ∧ openRow o = opRow ∧ state o' = SUBARRAY_OPEN ∧ openRow o' = openRow o
  | PRECHARGE | PRECHARGE_ALL =>
      (state o = SUBARRAY_OPEN ∨ state o = SUBARRAY_CLOSED) ∧
      state o' = SUBARRAY_PRECHARGING ∧ openRow o' = openRow o
  | REFRESH =>
      (UsePrecharge (params o) = true → state o = SUBARRAY_CLOSED) ∧
      state o' = SUBARRAY_REFRESHING ∧ openRow o' = openRow o
  | POWERDOWN_PDA | POWERDOWN_PDPF | POWERDOWN_PDPS | POWERUP =>
      state o' = state o ∧ openRow o' = openRow o
  | _ => False
  end.

Ltac row_of E := match type of E with ?m ?s = Ok (_, ?s') =>
  let P := fresh in assert (pres row_kept m) as P by row_tac; apply P in E end.

Lemma Activate_row q s b s' r :
  h_reqs (heap s) !! q = Some r → Activate q s = Ok (b, s') →
  if b then (UsePrecharge (params (obj s)) = true → state (obj s) = SUBARRAY_CLOSED) ∧
    state (obj s') = SUBARRAY_OPEN ∧ openRow (obj s') = GetRow (address r)
  else row_kept s s'.
Proof.
  intros Hq Hr. unfold SA.Activate in Hr. load Hr. rewrite Hq in E0. injection E0 as <-.
  next Hr. apply row_CheckWritePausing in E0. destruct E0 as (R1 & R2 & R3).
  autorewrite with run in Hr. cbv zeta in Hr.
  destruct (_ >? _); [by injection Hr as <- <-|].
  destruct (UsePrecharge (params (obj x)) && _) eqn:Eu; [by injection Hr as <- <-|].
  autorewrite with run in Hr. do 2 next Hr. autorewrite with run in Hr. injection Hr as <- <-.
  split; [|by fields]. rewrite <- R1, <- R3. intros Hu. rewrite Hu in Eu. cbn in Eu.
  by apply negb_false_iff, bool_decide_eq_true_1 in Eu.
Qed.

Lemma Read_row q s b s' r :
  h_reqs (heap s) !! q = Some r → Read q s = Ok (b, s') →
  row_kept s s' ∧ (b = true → state (obj s) = SUBARRAY_OPEN ∧ openRow (obj s) = GetRow (address r)).
Proof.
  intros Hq Hr. split; [by eapply row_Read|]. intros ->. unfold SA.Read in Hr. load Hr.
  rewrite Hq in E0. injection E0 as <-.
  next Hr. apply row_CheckWritePausing in E0. destruct E0 as (R1 & R2 & R3).
  autorewrite with run in Hr. cbv zeta in Hr.
  destruct (_ >? _); [done|]. destruct (negb (bool_decide _)) eqn:E1; [done|].
  destruct (negb (_ =? _)) eqn:E2; [done|]. b2p. split; congruence.
Qed.

Lemma Write_row q s b s' r :
  h_reqs (heap s) !! q = Some r → Write q s = Ok (b, s') →
  row_kept s s' ∧ (b = true → state (obj s) = SUBARRAY_OPEN ∧ openRow (obj s) = GetRow (address r)).
Proof.
  intros Hq Hr. split; [by eapply row_Write|]. intros ->. unfold SA.Write in Hr. load Hr.
  rewrite Hq in E0. injection E0 as <-. autorewrite with run in Hr. cbv zeta in Hr.
  destruct (_ >? _); [done|]. destruct (negb (bool_decide _)) eqn:E1; [done|].
  destruct (negb (_ =? _)) eqn:E2; [done|]. b2p. split; congruence.
Qed.

Lemma Precharge_row q s b s' :
  Precharge q s = Ok (b, s') →
  if b then (state (obj s) = SUBARRAY_OPEN ∨ state (obj s) = SUBARRAY_CLOSED) ∧
    state (obj s') = SUBARRAY_PRECHARGING ∧ openRow (obj s') = openRow (obj s)
  else row_kept s s'.
Proof.
  intros Hr. unfold SA.Precharge in Hr. load Hr. autorewrite with run in Hr. cbv zeta in Hr.
  destruct (_ >? _); [by injection Hr as <- <-|].
  destruct (negb _ && negb _) eqn:Eu; [by injection Hr as <- <-|].
  next Hr. row_of E1. destruct E1 as (R1 & R2 & R3). autorewrite with run in Hr. next Hr.
  row_of E1. next Hr. row_of E2. autorewrite with run in Hr. injection Hr as <- <-.
  destruct E1 as (S1 & S2 & _), E2 as (T1 & T2 & _). revert S1 S2. fields. intros S1 S2.
  split; [|split; [done|congruence]].
  apply andb_false_iff in Eu as [Eu|Eu]; b2p; auto.
Qed.

Lemma Refresh_row q s b s' :
  Refresh q s = Ok (b, s') →
  if b then (UsePrecharge (params (obj s)) = true → state (obj s) = SUBARRAY_CLOSED) ∧
    state (obj s') = SUBARRAY_REFRESHING ∧ openRow (obj s') = openRow (obj s)
  else row_kept s s'.
Proof.
  intros Hr. unfold SA.Refresh in Hr. load Hr. autorewrite with run in Hr. cbv zeta in Hr.
  destruct (_ >? _); [by injection Hr as <- <-|].
  destruct (negb _ && _) eqn:Eu; [by injection Hr as <- <-|].
  autorewrite with run in Hr. next Hr. row_of E1. next Hr. row_of E2.
  autorewrite with run in Hr. injection Hr as <- <-.
  destruct E1 as (S1 & S2 & _), E2 as (T1 & T2 & _). revert S1 S2. fields. intros S1 S2.
  split; [|split; [done|congruence]].
  intros Hu. rewrite Hu, andb_true_r in Eu. by b2p.
Qed.

Lemma protocol q s b s' r :
  h_reqs (heap s) !! q = Some r → IssueCommand q s = Ok (b, s') →
  if b then allowed (obj s) r (obj s') else row_kept s s'.
Proof.
  intros Hq Hr. unfold SA.IssueCommand in Hr. next Hr. destruct r0 as [ok w]. destruct ok; cbn [negb] in Hr.
  2: { injection Hr as <- <-. by apply row_IsIssuable in E0. }
  destruct (IsIssuable_blocked _ _ _ _ E0) as (-> & r' & Hq' & Hb). rewrite Hq in Hq'. injection Hq' as <-.
  load Hr. rewrite Hq in E1. injection E1 as <-. unfold allowed. destruct (type r) eqn:Et;
    try (injection Hr as <- <-; unfold blocked in Hb; rewrite Et in Hb; done).
  - by eapply Activate_row.
  - destruct (Read_row _ _ _ _ _ Hq Hr) as [(R1 & R2 & R3) Ho]. destruct b; [|done].
    destruct (Ho eq_refl). split_and!; congruence.
  - destruct (Read_row _ _ _ _ _ Hq Hr) as [(R1 & R2 & R3) Ho]. destruct b; [|done].
    destruct (Ho eq_refl). split_and!; congruence.
  - destruct (Write_row _ _ _ _ _ Hq Hr) as [(R1 & R2 & R3) Ho]. destruct b; [|done].
    destruct (Ho eq_refl). split_and!; congruence.
  - destruct (Write_row _ _ _ _ _ Hq Hr) as [(R1 & R2 & R3) Ho]. destruct b; [|done].
    destruct (Ho eq_refl). split_and!; congruence.
  - by eapply Precharge_row.
  - by eapply Precharge_row.
  - by eapply Refresh_row.
Qed.
End Protocol.

(** C4. The sanity checks inside the commands can never fail: in every state
    reached from the initial times by commands, queries and completions, a
    request that [IsIssuable] accepts is carried out by [IssueCommand]. *)
Theorem IsIssuable_trusted {E M} `{DataEncoderOps E, EnduranceModelOps M}
    this parent norm (s0 s : Sim (SubArray E M)) q w s1 b s2 :
  (∀ q, quiet (parent q)) → saved_le (obj s0) → rtc (sa_step this parent norm) s0 s →
  IsIssuable q s = Ok ((true, w), s1) → IssueCommand this norm q s = Ok (b, s2) → b = true.
Proof.
  intros Hp Hs Hr Hi Hc. eapply (trusted this parent norm); [|exact Hi|exact Hc].
  by eapply (sa_steps_saved this parent norm s0 s).
Qed.

(** C5. The row buffer follows the DRAM protocol: a command that is carried out
    found the row buffer in the state it needs, reads and writes only touch the
    open row, and a command that is refused leaves the row buffer alone. *)
Theorem IssueCommand_protocol {E M} `{DataEncoderOps E, EnduranceModelOps M}
    this norm (s s' : Sim (SubArray E M)) q b r :
  h_reqs (heap s) !! q = Some r → IssueCommand this norm q s = Ok (b, s') →
  if b then allowed (obj s) r (obj s') else row_kept s s'.
Proof. intros. by eapply (protocol this (λ _, mret true) norm). Qed.

Lemma IsIssuable_trusted_witness :
  IssueCommand 2 Bench.norm 10 Bench.start = Ok (true, Bench.run 10 Bench.start) ∧ true = true.
Proof.
  assert (IssueCommand 2 Bench.norm 10 Bench.start = Ok (true, Bench.run 10 Bench.start)) as Hr
    by (vm_compute; reflexivity).
  split; [exact Hr|].
  refine (IsIssuable_trusted 2 Bench.parent Bench.norm Bench.start Bench.start 10 None Bench.start true
    (Bench.run 10 Bench.start) _ _ _ _ Hr).
  - intros q. apply quiet_ret.
  - unfold saved_le. vm_compute. split_and!; discriminate.
  - reflexivity.
  - vm_compute. reflexivity.
Defined.

Lemma IssueCommand_protocol_witness :
  allowed (obj Bench.start) (Bench.request ACTIVATE 7) (obj (Bench.run 10 Bench.start)).
Proof.
  refine (IssueCommand_protocol 2 Bench.norm Bench.start (Bench.run 10 Bench.start) 10 true
    (Bench.request ACTIVATE 7) _ _); vm_compute; reflexivity.
Defined.
