(* ===== verification/FlipNWrite.v ===== *)
(** * The Flip-N-Write data encoder

    NVmain/DataEncoders/FlipNWrite/FlipNWrite.cpp: a word is cut into partitions
    of [fpSize] bits; a partition in which more than half of the bits would
    change is stored inverted, and its number is remembered. The encoder is an
    instance of the interface the subarray expects ([DataEncoderOps]). *)

From S2P Require Import Prelude NVMTypes Config Params SimInterface Heap EventQueue SubArray.

(** [flipNWriteReduction] is only set by [CalculateStats]. *)
(*| NVmain/DataEncoders/FlipNWrite/FlipNWrite.h 56-61 FlipNWrite *)
Record FlipNWrite := mkFlipNWrite {
  fn_params : Params;
  flippedAddresses : gset Z;
  bitsFlipped : Z;
  bitCompareSwapWrites : Z;
  flipNWriteReduction : double;
  fpSize : Z
}.

#[export] Instance eta_FlipNWrite : Settable FlipNWrite := fields! mkFlipNWrite
  < fn_params; flippedAddresses; bitsFlipped; bitCompareSwapWrites; flipNWriteReduction; fpSize >.

(** The constructor leaves the last two members uninitialised: arguments. *)
(*| NVmain/DataEncoders/FlipNWrite/FlipNWrite.cpp 40-47 FlipNWrite::FlipNWrite *)
Definition FlipNWrite_new (p : Params) (reduction0 : double) (fpSize0 : Z) : FlipNWrite :=
  mkFlipNWrite p ∅ 0 0 reduction0 fpSize0.

(** [uninit]: the members of [Params] its constructor leaves alone. *)
(*| NVmain/DataEncoders/FlipNWrite/FlipNWrite.cpp 57-69 FlipNWrite::SetConfig *)
Definition FlipNWrite_SetConfig (uninit : Z * Z * Z) (c : Config) (e : FlipNWrite) : res (Config * FlipNWrite) :=
  let '(u1, u2, u3) := uninit in
  '(_, (c, p)) ← SetParams (c, Params_new u1 u2 u3);
  '(v, c) ← GetValue "FlipNWriteGranularity" c;
  Ok (c, e <| fn_params := p |> <| fpSize := if v =? -1 then 32 else v |>).

(** One bit of [InvertData]: [st] holds [shiftByte] and [newByte]. *)
(*| NVmain/DataEncoders/FlipNWrite/FlipNWrite.cpp 96-112 FlipNWrite::InvertData *)
Definition invert_bit (startBit endBit i : Z) (st : Z * Z) (j : Z) : Z * Z :=
  let '(shiftByte, newByte) := st in
  let currentBit := u64 (s32 (i * 8 + j)) in
  if (currentBit <? startBit) || (currentBit >=? endBit) then (Z.shiftr shiftByte 1, newByte)
  else (Z.shiftr shiftByte 1,
        if Z.land shiftByte 1 =? 0 then u8 (Z.lor newByte (Z.shiftl 1 (7 - j))) else newByte).

(*| NVmain/DataEncoders/FlipNWrite/FlipNWrite.cpp 90-115 FlipNWrite::InvertData *)
Definition invert_byte (startBit endBit : Z) (data : NVMDataBlock) (i : Z) : res NVMDataBlock :=
  originalByte ← GetByte (u64 i) data;
  let '(_, newByte) := foldl (invert_bit startBit endBit i) (originalByte, 0) (seqZ 0 8) in
  SetByte (u64 i) newByte data.

(*| NVmain/DataEncoders/FlipNWrite/FlipNWrite.cpp 78-116 FlipNWrite::InvertData *)
Definition InvertData (startBit endBit : Z) (data : NVMDataBlock) : res NVMDataBlock :=
  let startByte := s32 (startBit / 8) in
  let endByte := s32 ((endBit ⊖ 1) / 8) in
  foldM (invert_byte startBit endBit) data (seqZ startByte (endByte - startByte + 1)).

(*| NVmain/DataEncoders/FlipNWrite/FlipNWrite.cpp 118-125 FlipNWrite::Read *)
Definition FlipNWrite_Read (r : NVMainRequest) (e : FlipNWrite) : res (Z * NVMainRequest * FlipNWrite) := Ok (0, r, e).

(** Division of a [uint64_t] by an [int], which is converted first. *)
Definition udiv_int (a b : Z) : res Z := if b =? 0 then Err DivideByZero else Ok (a / u64 b).

(*| NVmain/DataEncoders/FlipNWrite/FlipNWrite.cpp 157-159 FlipNWrite::Write *)
Definition fn_wordSize (p : Params) : Z := (BusWidth p ⊗ (tBURST p ⊗ RATE p)) / 8.

(** The number of partition [i] of the word at [row], [col]. *)
(*| NVmain/DataEncoders/FlipNWrite/FlipNWrite.cpp 180-180 FlipNWrite::Write *)
Definition curAddr (row rowPartitions col flipPartitions i : Z) : Z :=
  row ⊗ rowPartitions ⊕ col ⊗ flipPartitions ⊕ i.

(** The old data as it is stored: partitions written inverted are inverted. *)
(*| NVmain/DataEncoders/FlipNWrite/FlipNWrite.cpp 178-186 FlipNWrite::Write *)
Definition stored_data (e : FlipNWrite) (addr : Z → Z) (flipPartitions : Z) (oldData : NVMDataBlock) : res NVMDataBlock :=
  foldM (λ d i, if decide (addr i ∈ flippedAddresses e)
                then InvertData (i ⊗ u64 (fpSize e)) ((i + 1) ⊗ u64 (fpSize e)) d
                else Ok d) oldData (seqZ 0 flipPartitions).

(** Adding one to a counter of [modifyCount]. *)
Definition bump (modifyCount : list Z) (i : Z) : res (list Z) :=
  if 0 <=? i
  then match modifyCount !! Z.to_nat i with
       | Some c => Ok (<[Z.to_nat i := s32 (c + 1)]> modifyCount)
       | None => Err OutOfBounds
       end
  else Err OutOfBounds.

(*| NVmain/DataEncoders/FlipNWrite/FlipNWrite.cpp 210-223 FlipNWrite::Write *)
Definition count_bit (fp oldByte newByte : Z) (st : Z * list Z) (j : Z) : res (Z * list Z) :=
  let '(currentBit, modifyCount) := st in
  let oldBit := Z.land (Z.shiftr oldByte j) 1 in
  let newBit := Z.land (Z.shiftr newByte j) 1 in
  modifyCount ← (if oldBit =? newBit then Ok modifyCount
                 else k ← udiv_int currentBit fp; bump modifyCount (s32 k));
  Ok (currentBit ⊕ 1, modifyCount).

(*| NVmain/DataEncoders/FlipNWrite/FlipNWrite.cpp 189-224 FlipNWrite::Write *)
Definition count_byte (fp : Z) (oldData newData : NVMDataBlock) (st : Z * list Z) (i : Z) : res (Z * list Z) :=
  oldByte ← GetByte i oldData;
  newByte ← GetByte i newData;
  if oldByte =? newByte then Ok (st.1 ⊕ 8, st.2)
  else foldM (count_bit fp oldByte newByte) st (seqZ 0 8).

(*| NVmain/DataEncoders/FlipNWrite/FlipNWrite.cpp 229-263 FlipNWrite::Write *)
Definition flip_partition (modifyCount : list Z) (addr : Z → Z) (st : FlipNWrite * NVMDataBlock) (i : Z) :
    res (FlipNWrite * NVMDataBlock) :=
  let '(e, newData) := st in
  m ← deref OutOfBounds (modifyCount !! Z.to_nat i);
  let e := e <| bitCompareSwapWrites ::= λ b, b ⊕ m |> in
  if m >? Z.quot (fpSize e) 2
  then d ← InvertData (i ⊗ u64 (fpSize e)) ((i + 1) ⊗ u64 (fpSize e)) newData;
       Ok (e <| bitsFlipped ::= λ b, b ⊕ s32 (fpSize e - m) |> <| flippedAddresses ::= λ s, {[addr i]} ∪ s |>, d)
  else Ok (e <| flippedAddresses ::= λ s, s ∖ {[addr i]} |> <| bitsFlipped ::= λ b, b ⊕ m |>, newData).

(** The numbers of partitions in a row and in a word, and in [addr] those of
    the word at hand. *)
(*| NVmain/DataEncoders/FlipNWrite/FlipNWrite.cpp 143-164 FlipNWrite::Write *)
Definition partitions (r : NVMainRequest) (e : FlipNWrite) : res (Z * Z * (Z → Z)) :=
  let '(row, col, _, _, _, _) := GetTranslatedAddress (address r) in
  let wordSize := fn_wordSize (fn_params e) in
  let rowSize := COLS (fn_params e) ⊗ wordSize in
  rowPartitions ← udiv_int (rowSize ⊗ 8) (fpSize e);
  flipPartitions ← udiv_int (wordSize ⊗ 8) (fpSize e);
  Ok (wordSize, flipPartitions, curAddr row rowPartitions col flipPartitions).

(*| NVmain/DataEncoders/FlipNWrite/FlipNWrite.cpp 127-268 FlipNWrite::Write *)
Definition FlipNWrite_Write (r : NVMainRequest) (e : FlipNWrite) : res (Z * NVMainRequest * FlipNWrite) :=
  '(wordSize, flipPartitions, addr) ← partitions r e;
  let modifyCount := replicate (Z.to_nat flipPartitions) 0 in
  old ← stored_data e addr flipPartitions (oldData r);
  '(_, modifyCount) ← foldM (count_byte (fpSize e) old (data r)) (0, modifyCount) (seqZ 0 wordSize);
  '(e, new) ← foldM (flip_partition modifyCount addr) (e, data r) (seqZ 0 flipPartitions);
  Ok (0, r <| data := new |> <| oldData := old |>, e).

(*| NVmain/DataEncoders/FlipNWrite/FlipNWrite.cpp 270-276 FlipNWrite::CalculateStats *)
Definition FlipNWrite_CalculateStats (e : FlipNWrite) : FlipNWrite :=
  e <| flipNWriteReduction :=
         if bitCompareSwapWrites e =? 0 then d_of_Z 100
         else dmul (ddiv (d_of_Z (bitsFlipped e)) (d_of_Z (bitCompareSwapWrites e))) (d_of_Z 100) |>.

(** As a data encoder. The members the constructor of [Params] leaves alone are
    taken to be 0. *)
#[export] Instance flip_n_write_ops : DataEncoderOps FlipNWrite := {|
  de_SetConfig c e := match FlipNWrite_SetConfig (0, 0, 0) c e with Ok (_, e) => e | Err _ => e end;
  de_Read := FlipNWrite_Read;
  de_Write := FlipNWrite_Write
|}.

#[export] Instance flip_n_write_laws : DataEncoderLaws FlipNWrite.
Proof.
  split. intros r e l r' e' H. cbn in H. unfold FlipNWrite_Write, mbind, res_bind in H.
  repeat (split_match_in H; simplify_eq). by destruct r.
Qed.

(** ** Reference: inverted bytes and changed bits *)

(** The sum of [f] below [n]. *)
Fixpoint sum_upto (f : Z → Z) (n : nat) : Z :=
  match n with O => 0 | S n => sum_upto f n + f (Z.of_nat n) end.

(** Bit [7 - j] of the inverted byte is the complement of bit [j]. *)
Definition flip_byte (x : Z) : Z :=
  sum_upto (λ j, if Z.testbit x j then 0 else 2 ^ (7 - j)) 8.

#[global] Arguments flip_byte : simpl never.

Definition flip_where (P : Z → bool) (l : list Z) : list Z :=
  imap (λ i x, if P (Z.of_nat i) then flip_byte x else x) l.

(** Bit [k] of the two words differs. *)
Definition changed (l1 l2 : list Z) (k : Z) : bool :=
  xorb (Z.testbit (l1 !!! Z.to_nat (k / 8)) (k mod 8)) (Z.testbit (l2 !!! Z.to_nat (k / 8)) (k mod 8)).

(** The number of bits of partition [p] that differ. *)
Definition distance (fp : Z) (l1 l2 : list Z) (p : Z) : Z :=
  sum_upto (λ k, Z.b2z (changed l1 l2 k && (k / fp =? p))) (8 * length l1).

(** What the encoder adds to [bitsFlipped] for a partition with [m] changed
    bits. *)
Definition flip_cost (fp m : Z) : Z := if m >? Z.quot fp 2 then fp - m else m.

(** *** Bytes *)

Lemma byte_all (P : Z → bool) : forallb P (seqZ 0 256) = true → ∀ x, is_u8 x → P x = true.
Proof.
  intros H x Hx. rewrite forallb_forall in H. apply H, list_elem_of_In, elem_of_seqZ.
  unfold is_u8 in Hx. lia.
Qed.

Definition plain_bit (st : Z * Z) (j : Z) : Z * Z :=
  let '(shiftByte, newByte) := st in
  (Z.shiftr shiftByte 1, if Z.land shiftByte 1 =? 0 then u8 (Z.lor newByte (Z.shiftl 1 (7 - j))) else newByte).

Lemma plain_bits x : is_u8 x → (foldl plain_bit (x, 0) (seqZ 0 8)).2 = flip_byte x.
Proof.
  intros Hx. apply Z.eqb_eq. revert x Hx.
  apply (byte_all (λ x, (foldl plain_bit (x, 0) (seqZ 0 8)).2 =? flip_byte x)). by vm_compute.
Qed.

Lemma flip_byte_twice x : is_u8 x → flip_byte (flip_byte x) = x.
Proof.
  intros Hx. apply Z.eqb_eq. revert x Hx.
  apply (byte_all (λ x, flip_byte (flip_byte x) =? x)). by vm_compute.
Qed.

Lemma flip_byte_u8 x : is_u8 x → is_u8 (flip_byte x).
Proof.
  intros Hx. assert ((0 <=? flip_byte x) && (flip_byte x <? 256) = true) as H.
  { revert x Hx. apply (byte_all (λ x, (0 <=? flip_byte x) && (flip_byte x <? 256))). by vm_compute. }
  b2p. done.
Qed.

Lemma foldl_ext_in {A B} (f g : A → B → A) l : ∀ a,
  (∀ a b, b ∈ l → f a b = g a b) → foldl f a l = foldl g a l.
Proof.
  induction l as [|b l IH]; intros a H; [done|]. cbn. rewrite H by left.
  apply IH. intros. apply H. by right.
Qed.

(** *** Whole words *)

Lemma flip_where_length P l : length (flip_where P l) = length l.
Proof. apply length_imap. Qed.

Lemma flip_where_lookup P l i :
  flip_where P l !! i = (λ x, if P (Z.of_nat i) then flip_byte x else x) <$> l !! i.
Proof. unfold flip_where. by rewrite list_lookup_imap. Qed.

Lemma flip_where_u8 P l : Forall is_u8 l → Forall is_u8 (flip_where P l).
Proof.
  rewrite !Forall_lookup. intros H i x. rewrite flip_where_lookup, fmap_Some. intros (y & Hy & ->).
  destruct (P _); [apply flip_byte_u8|]; eauto.
Qed.

Lemma flip_where_ext P Q l :
  (∀ i, 0 ≤ i < Z.of_nat (length l) → P i = Q i) → flip_where P l = flip_where Q l.
Proof.
  intros H. apply list_eq. intros i. rewrite !flip_where_lookup.
  destruct (l !! i) as [x|] eqn:E; [|done]. cbn. rewrite H; [done|].
  apply lookup_lt_Some in E. lia.
Qed.

Lemma flip_where_flip P Q l :
  Forall is_u8 l → flip_where P (flip_where Q l) = flip_where (λ i, xorb (P i) (Q i)) l.
Proof.
  rewrite Forall_lookup. intros H. apply list_eq. intros i. rewrite !flip_where_lookup.
  destruct (l !! i) as [x|] eqn:E; [|done]. cbn.
  destruct (P (Z.of_nat i)), (Q (Z.of_nat i)); cbn; try done. by rewrite flip_byte_twice by eauto.
Qed.

Lemma flip_where_none P l : (∀ i, 0 ≤ i < Z.of_nat (length l) → P i = false) → flip_where P l = l.
Proof.
  intros H. rewrite (flip_where_ext P (λ _, false)) by done. apply list_eq. intros i.
  rewrite flip_where_lookup. by destruct (l !! i).
Qed.

(** ** Inverting a range of whole bytes *)

Lemma invert_byte_blk a b l i x :
  l !! Z.to_nat i = Some x → is_u8 x → 0 ≤ a ≤ i → i < b → 8 * Z.of_nat (length l) < 2147483648 →
  invert_byte (8 * a) (8 * b) (blk l) i = Ok (blk (<[Z.to_nat i := flip_byte x]> l)).
Proof.
  intros E Hx Ha Hb Hl. pose proof (lookup_lt_Some _ _ _ E).
  unfold invert_byte. rewrite u64_small by (unfold is_u64; lia).
  rewrite (GetByte_blk _ _ _ E) by lia. cbn.
  rewrite (foldl_ext_in _ plain_bit).
  2: { intros [s n] j Hj. apply elem_of_seqZ in Hj. unfold invert_bit, plain_bit.
       unfold s32. rewrite (Z.mod_small (i * 8 + j)) by lia.
       rewrite (proj2 (Z.ltb_lt (i * 8 + j) _)) by lia. rewrite u64_small by (unfold is_u64; lia).
       rewrite (proj2 (Z.ltb_ge _ _)) by lia.
       replace (i * 8 + j >=? 8 * b) with false; [done|].
       rewrite Z.geb_leb. symmetry. apply Z.leb_gt. lia. }
  pose proof (plain_bits x Hx) as Hp. destruct (foldl plain_bit _ _) as [s n]. cbn in Hp. subst n.
  apply SetByte_blk. lia.
Qed.

Lemma InvertData_blk a b l :
  Forall is_u8 l → 0 ≤ a < b → b ≤ Z.of_nat (length l) → 8 * Z.of_nat (length l) < 2147483648 →
  InvertData (8 * a) (8 * b) (blk l) = Ok (blk (flip_where (λ i, (a <=? i) && (i <? b)) l)).
Proof.
  intros Hu Hab Hbl Hl. unfold InvertData.
  rewrite (Z.mul_comm 8 a), Z.div_mul, u64_small by (unfold is_u64; lia).
  replace ((8 * b - 1) / 8) with (b - 1) by (Z.to_euclidean_division_equations; lia).
  unfold s32. rewrite !Z.mod_small by lia. rewrite (proj2 (Z.ltb_lt a _)), (proj2 (Z.ltb_lt (b - 1) _)) by lia.
  replace (b - 1 - a + 1) with (b - a) by lia.
  loop (λ i d, d = blk (flip_where (λ k, (a <=? k) && (k <? i)) l)) d Hd.
  - lia.
  - rewrite flip_where_none; [done|]. intros i _. apply andb_false_iff.
    destruct (Z.leb_spec a i); [right; apply Z.ltb_ge; lia|by left].
  - intros i d Hi ->. destruct (lookup_lt_is_Some_2 l (Z.to_nat i)) as [x Ex]; [lia|].
    eexists. rewrite (Z.mul_comm a). split.
    + apply (invert_byte_blk _ _ _ _ x); [|by eapply Forall_lookup_1|lia..|by rewrite flip_where_length].
      rewrite flip_where_lookup, Ex. cbn. rewrite Z2Nat.id by lia.
      by rewrite (proj2 (Z.ltb_ge i i)), andb_false_r by lia.
    + f_equal. apply list_eq. intros k. rewrite flip_where_lookup.
      destruct (decide (k = Z.to_nat i)) as [->|Hk].
      * rewrite list_lookup_insert_eq by (rewrite flip_where_length; lia). rewrite Ex. cbn.
        rewrite Z2Nat.id by lia. by rewrite (proj2 (Z.leb_le a i)), (proj2 (Z.ltb_lt i (i + 1))) by lia.
      * rewrite list_lookup_insert_ne, flip_where_lookup by done. destruct (l !! k); [|done]. cbn.
        replace (Z.of_nat k <? i + 1) with (Z.of_nat k <? i); [done|].
        destruct (Z.ltb_spec (Z.of_nat k) i), (Z.ltb_spec (Z.of_nat k) (i + 1)); lia.
  - subst d. by replace (a + (b - a)) with b by lia.
Qed.

(** ** Partitions of whole bytes *)

Section Partitions.
Context (g n : Z) (l : list Z).
Context (Hg : 0 < g) (Hn : 0 ≤ n) (Hlen : Z.of_nat (length l) = n * g)
        (Hmax : 8 * Z.of_nat (length l) < 2147483648).

(** The loop of the encoder that inverts the partitions [F] selects. *)
Definition flip_parts (F : Z → bool) (i : Z) : list Z :=
  flip_where (λ k, (k / g <? i) && F (k / g)) l.

Lemma flip_parts_0 F : flip_parts F 0 = l.
Proof using Hg.
  apply flip_where_none. intros k Hk. apply andb_false_iff. left. apply Z.ltb_ge, Z.div_pos; lia.
Qed.

Lemma flip_parts_n F : flip_parts F n = flip_where (λ k, F (k / g)) l.
Proof using Hg Hn Hlen.
  apply flip_where_ext. intros k Hk. rewrite (proj2 (Z.ltb_lt _ _)); [done|].
  apply Z.div_lt_upper_bound; lia.
Qed.

Lemma flip_parts_skip F i : F i = false → flip_parts F (i + 1) = flip_parts F i.
Proof using.
  intros HF. apply flip_where_ext. intros k Hk.
  destruct (Z.ltb_spec (k / g) (i + 1)), (Z.ltb_spec (k / g) i); try lia; try done.
  assert (k / g = i) as -> by lia. by rewrite HF.
Qed.

Lemma flip_parts_step F i fp :
  Forall is_u8 l → fp = 8 * g → 0 ≤ i < n → F i = true →
  InvertData (i ⊗ u64 fp) ((i + 1) ⊗ u64 fp) (blk (flip_parts F i)) = Ok (blk (flip_parts F (i + 1))).
Proof using Hg Hn Hlen Hmax.
  intros Hu -> Hi HF. assert ((i + 1) * g ≤ n * g) by nia. assert (0 ≤ i * g) by nia.
  assert (g ≤ n * g) by nia.
  rewrite (u64_small (8 * g)) by (unfold is_u64; lia).
  replace (i * (8 * g)) with (8 * (i * g)) by lia. replace ((i + 1) * (8 * g)) with (8 * ((i + 1) * g)) by lia.
  rewrite !u64_small by (unfold is_u64; lia).
  rewrite InvertData_blk; [|by apply flip_where_u8|lia|unfold flip_parts; rewrite flip_where_length; lia..].
  unfold flip_parts. rewrite flip_where_flip by done. do 2 f_equal. apply flip_where_ext. intros k Hk.
  assert (k / g = i ↔ i * g ≤ k < (i + 1) * g) as Hki.
  { split; [intros <-|]; Z.to_euclidean_division_equations; nia. }
  destruct (decide (k / g = i)) as [E|E].
  - rewrite E, HF. apply Hki in E. destruct (Z.leb_spec (i * g) k), (Z.ltb_spec k ((i + 1) * g)); try lia.
    by rewrite (proj2 (Z.ltb_lt i (i + 1))), Z.ltb_irrefl by lia.
  - replace ((i * g <=? k) && (k <? (i + 1) * g)) with false.
    + cbn. f_equal. destruct (Z.ltb_spec (k / g) i), (Z.ltb_spec (k / g) (i + 1)); lia.
    + symmetry. apply andb_false_iff.
      destruct (Z.leb_spec (i * g) k); [right; apply Z.ltb_ge|by left].
      destruct (Z.lt_ge_cases k ((i + 1) * g)); [|lia]. destruct E. apply Hki. lia.
Qed.

Lemma stored_data_blk e addr :
  Forall is_u8 l → fpSize e = 8 * g →
  stored_data e addr n (blk l) =
  Ok (blk (flip_where (λ k, bool_decide (addr (k / g) ∈ flippedAddresses e)) l)).
Proof using Hg Hn Hlen Hmax.
  intros Hu Hfp. set (F := λ i, bool_decide (addr i ∈ flippedAddresses e)).
  unfold stored_data. loop (λ i d, d = blk (flip_parts F i)) d Hd;
    [done|by rewrite flip_parts_0| |].
  { intros i d Hi ->. eexists. split; [|reflexivity]. cbn. rewrite Hfp. case_decide as Hin.
    - apply flip_parts_step; [done|done|lia|]. by apply bool_decide_eq_true.
    - rewrite flip_parts_skip; [done|]. by apply bool_decide_eq_false. }
  by rewrite Hd, Z.add_0_l, flip_parts_n.
Qed.
End Partitions.

(** ** Counting the changed bits *)

Lemma sum_upto_ext f h n : (∀ k, 0 ≤ k < Z.of_nat n → f k = h k) → sum_upto f n = sum_upto h n.
Proof.
  induction n as [|n IH]; intros H; [done|]. cbn. rewrite IH, H by (intros; try apply H; lia). done.
Qed.

Lemma sum_upto_bound f c n : (∀ k, 0 ≤ f k ≤ c) → 0 ≤ sum_upto f n ≤ c * Z.of_nat n.
Proof. intros H. induction n as [|n IH]; [cbn; lia|]. cbn [sum_upto]. pose proof (H (Z.of_nat n)). lia. Qed.

Lemma sum_upto_S f k : 0 ≤ k → sum_upto f (Z.to_nat (k + 1)) = sum_upto f (Z.to_nat k) + f k.
Proof.
  intros Hk. replace (Z.to_nat (k + 1)) with (S (Z.to_nat k)) by lia. cbn. by rewrite Z2Nat.id by done.
Qed.

Section Counting.
Context (g n : Z) (l1 l2 : list Z).
Context (Hg : 0 < g) (Hn : 0 ≤ n) (Hlen : Z.of_nat (length l1) = n * g) (Hlen2 : length l2 = length l1)
        (Hmax : 8 * Z.of_nat (length l1) < 2147483648).

Definition bit_in (p k : Z) : Z := Z.b2z (changed l1 l2 k && (k / (8 * g) =? p)).

(** The counters after the first [k] bits. *)
Definition counted (k : Z) (st : Z * list Z) : Prop :=
  st.1 = k ∧ length st.2 = Z.to_nat n ∧
  ∀ p, 0 ≤ p < n → st.2 !! Z.to_nat p = Some (sum_upto (bit_in p) (Z.to_nat k)).

Lemma counted_same k st :
  0 ≤ k < 8 * Z.of_nat (length l1) → changed l1 l2 k = false → counted k st → counted (k + 1) (st.1 ⊕ 1, st.2).
Proof using Hg Hlen Hlen2 Hmax.
  intros Hk E (H1 & H2 & H3). rewrite H1. split_and!; cbn; [by rewrite u64_small by (unfold is_u64; lia)|done|].
  intros p Hp. rewrite H3, sum_upto_S by lia. unfold bit_in at 3. rewrite E. cbn. f_equal. lia.
Qed.

Lemma count_bit_ok i j ob nb st :
  l1 !! Z.to_nat i = Some ob → l2 !! Z.to_nat i = Some nb → 0 ≤ i → 0 ≤ j < 8 →
  counted (8 * i + j) st →
  ∃ st', count_bit (8 * g) ob nb st j = Ok st' ∧ counted (8 * i + j + 1) st'.
Proof using Hg Hn Hlen Hlen2 Hmax.
  intros E1 E2 Hi Hj Hst. pose proof (lookup_lt_Some _ _ _ E1) as Hil.
  assert (changed l1 l2 (8 * i + j) = xorb (Z.testbit ob j) (Z.testbit nb j)) as Hc.
  { unfold changed. replace ((8 * i + j) / 8) with i by (Z.to_euclidean_division_equations; lia).
    replace ((8 * i + j) mod 8) with j by (Z.to_euclidean_division_equations; lia).
    by rewrite (list_lookup_total_correct _ _ _ E1), (list_lookup_total_correct _ _ _ E2). }
  destruct st as [cb mc]. unfold count_bit. rewrite !bit_of by lia.
  destruct (Z.eqb_spec (Z.b2z (Z.testbit ob j)) (Z.b2z (Z.testbit nb j))) as [Eb|Eb].
  - eexists. split; [reflexivity|]. apply (counted_same _ (cb, mc)); [lia| |done].
    rewrite Hc. by destruct (Z.testbit ob j), (Z.testbit nb j).
  - destruct Hst as (H1 & H2 & H3). cbn in H1, H2, H3. subst cb.
    assert (0 ≤ (8 * i + j) / (8 * g) < n) as Hq.
    { split; [apply Z.div_pos; lia|apply Z.div_lt_upper_bound; lia]. }
    unfold udiv_int. rewrite (proj2 (Z.eqb_neq (8 * g) 0)) by lia. cbn.
    assert (g ≤ n * g) by nia. rewrite (u64_small (8 * g)) by (unfold is_u64; lia).
    unfold s32. assert (n ≤ n * g) by nia. rewrite Z.mod_small by lia.
    rewrite (proj2 (Z.ltb_lt _ 2147483648)) by lia.
    unfold bump. rewrite (proj2 (Z.leb_le 0 _)), H3 by lia. cbn. eexists. split; [reflexivity|].
    pose proof (sum_upto_bound (bit_in ((8 * i + j) / (8 * g))) 1 (Z.to_nat (8 * i + j))) as Hs.
    assert (∀ p k, 0 ≤ bit_in p k ≤ 1) as Hb by (intros; unfold bit_in; destruct (_ && _); cbn; lia).
    specialize (Hs (Hb _)).
    split_and!; cbn; [by rewrite u64_small by (unfold is_u64; lia)|by rewrite length_insert|].
    intros p Hp. rewrite sum_upto_S by lia. unfold bit_in at 3. rewrite Hc.
    replace (xorb (Z.testbit ob j) (Z.testbit nb j)) with true by
      (destruct (Z.testbit ob j), (Z.testbit nb j); done).
    destruct (Z.eqb_spec ((8 * i + j) / (8 * g)) p) as [<-|Hne]; cbn.
    + rewrite list_lookup_insert_eq by lia. unfold s32. rewrite Z.mod_small by lia.
      by rewrite (proj2 (Z.ltb_lt _ _)) by lia.
    + rewrite list_lookup_insert_ne by lia. rewrite H3 by done. f_equal. lia.
Qed.

Lemma count_byte_ok i st :
  0 ≤ i < Z.of_nat (length l1) → counted (8 * i) st →
  ∃ st', count_byte (8 * g) (blk l1) (blk l2) st i = Ok st' ∧ counted (8 * (i + 1)) st'.
Proof using Hg Hn Hlen Hlen2 Hmax.
  intros Hi Hst.
  destruct (lookup_lt_is_Some_2 l1 (Z.to_nat i)) as [ob E1]; [lia|].
  destruct (lookup_lt_is_Some_2 l2 (Z.to_nat i)) as [nb E2]; [lia|].
  unfold count_byte. rewrite (GetByte_blk _ _ _ E1), (GetByte_blk _ _ _ E2) by lia. cbn.
  destruct (Z.eqb_spec ob nb) as [<-|Hne].
  - eexists. split; [reflexivity|]. destruct Hst as (H1 & H2 & H3).
    split_and!; cbn; [rewrite H1, u64_small by (unfold is_u64; lia); lia|done|].
    intros p Hp. rewrite H3 by done. f_equal.
    replace (8 * (i + 1)) with (8 * i + 7 + 1) by lia. rewrite sum_upto_S by lia.
    replace (8 * i + 7) with (8 * i + 6 + 1) by lia. rewrite sum_upto_S by lia.
    replace (8 * i + 6) with (8 * i + 5 + 1) by lia. rewrite sum_upto_S by lia.
    replace (8 * i + 5) with (8 * i + 4 + 1) by lia. rewrite sum_upto_S by lia.
    replace (8 * i + 4) with (8 * i + 3 + 1) by lia. rewrite sum_upto_S by lia.
    replace (8 * i + 3) with (8 * i + 2 + 1) by lia. rewrite sum_upto_S by lia.
    replace (8 * i + 2) with (8 * i + 1 + 1) by lia. rewrite !sum_upto_S by lia.
    assert (∀ k, 8 * i ≤ k < 8 * i + 8 → bit_in p k = 0) as Hz.
    { intros k Hk. unfold bit_in, changed. replace (k / 8) with i by (Z.to_euclidean_division_equations; lia).
      by rewrite (list_lookup_total_correct _ _ _ E1), (list_lookup_total_correct _ _ _ E2), xorb_nilpotent. }
    rewrite !Hz by lia. lia.
  - loop (λ j st, counted (8 * i + j) st) st' Hst'; [lia|by rewrite Z.add_0_r| |].
    { intros j st1 Hj H1. destruct (count_bit_ok i j ob nb st1) as (st2 & E & H2); try done; [lia..|].
      exists st2. split; [done|]. by rewrite Z.add_assoc. }
    eexists. split; [reflexivity|]. by replace (8 * (i + 1)) with (8 * i + (0 + 8)) by lia.
Qed.

Lemma count_bytes_ok :
  ∃ k mc, foldM (count_byte (8 * g) (blk l1) (blk l2)) (0, replicate (Z.to_nat n) 0) (seqZ 0 (n * g)) = Ok (k, mc) ∧
    ∀ p, 0 ≤ p < n → mc !! Z.to_nat p = Some (distance (8 * g) l1 l2 p).
Proof using Hg Hn Hlen Hlen2 Hmax.
  loop (λ i st, counted (8 * i) st) st Hst; [lia| | |].
  - split_and!; cbn; [lia|by rewrite length_replicate|]. intros p Hp.
    by rewrite lookup_replicate_2 by lia.
  - intros i st Hi. apply count_byte_ok. lia.
  - destruct st as [k mc]. exists k, mc. split; [done|]. destruct Hst as (_ & _ & H).
    intros p Hp. rewrite H by done. unfold distance, bit_in. do 3 f_equal. lia.
Qed.
End Counting.

(** ** The last loop *)

Lemma curAddr_inj row rp col fl i j :
  0 ≤ i < 2147483648 → 0 ≤ j < 2147483648 → curAddr row rp col fl i = curAddr row rp col fl j → i = j.
Proof.
  unfold curAddr. intros Hi Hj. generalize (row ⊗ rp ⊕ col ⊗ fl). intros b H.
  unfold u64 in H. Z.to_euclidean_division_equations. lia.
Qed.

Section Flipping.
Context (g n : Z) (l : list Z) (mc : list Z) (m : Z → Z) (addr : Z → Z) (e : FlipNWrite).
Context (Hg : 0 < g) (Hn : 0 ≤ n) (Hlen : Z.of_nat (length l) = n * g)
        (Hmax : 8 * Z.of_nat (length l) < 2147483648) (Hu : Forall is_u8 l)
        (Hfp : fpSize e = 8 * g) (Hmc : ∀ p, 0 ≤ p < n → mc !! Z.to_nat p = Some (m p))
        (Hm : ∀ p, 0 ≤ m p < 2147483648)
        (Hinj : ∀ p q, 0 ≤ p < n → 0 ≤ q < n → addr p = addr q → p = q).

Definition flips (p : Z) : bool := m p >? Z.quot (8 * g) 2.

(** The encoder after [i] partitions. *)
Definition flipped_to (i : Z) (st : FlipNWrite * NVMDataBlock) : Prop :=
  let '(e', d) := st in
  d = blk (flip_parts g l flips i) ∧ fpSize e' = fpSize e ∧ fn_params e' = fn_params e ∧
  (∀ p, 0 ≤ p < i → addr p ∈ flippedAddresses e' ↔ flips p = true) ∧
  (∀ a, (∀ p, 0 ≤ p < i → a ≠ addr p) → a ∈ flippedAddresses e' ↔ a ∈ flippedAddresses e) ∧
  bitCompareSwapWrites e' = bitCompareSwapWrites e ⊕ sum_upto m (Z.to_nat i) ∧
  bitsFlipped e' = bitsFlipped e ⊕ sum_upto (λ p, flip_cost (8 * g) (m p)) (Z.to_nat i).

Lemma flip_partition_ok i st :
  0 ≤ i < n → flipped_to i st → ∃ st', flip_partition mc addr st i = Ok st' ∧ flipped_to (i + 1) st'.
Proof using Hg Hn Hlen Hmax Hu Hfp Hmc Hm Hinj.
  destruct st as [e1 d]. intros Hi (-> & H1 & H2 & H3 & H4 & H5 & H6).
  assert (g ≤ n * g) by nia. specialize (Hm i).
  assert (∀ x, u64 (u64 (bitsFlipped e + sum_upto (λ p, flip_cost (8 * g) (m p)) (Z.to_nat i)) + x) =
    bitsFlipped e ⊕ (sum_upto (λ p, flip_cost (8 * g) (m p)) (Z.to_nat i) + x)) as Hb.
  { intros x. by rewrite u64_add_l, Z.add_assoc. }
  unfold flip_partition. rewrite Hmc by done. cbn [deref mbind res_bind]. fields. rewrite H1, Hfp.
  assert (∀ a, (∀ p, 0 ≤ p < i + 1 → a ≠ addr p) → (∀ p, 0 ≤ p < i → a ≠ addr p) ∧ a ≠ addr i) as Hsplit.
  { intros a Ha. split; [intros p Hp; apply Ha; lia|apply Ha; lia]. }
  assert (∀ p, 0 ≤ p < i + 1 → p ≠ i → 0 ≤ p < i ∧ addr p ≠ addr i) as Hother.
  { intros p Hp Hne. split; [lia|]. intros E. apply Hne, Hinj; [lia..|done]. }
  fold (flips i). destruct (flips i) eqn:HF.
  - rewrite (flip_parts_step g n) by done. cbn [mbind res_bind]. eexists. split; [reflexivity|].
    unfold flipped_to. fields. rewrite !sum_upto_S by lia. split_and!; try done.
    + intros p Hp. destruct (decide (p = i)) as [->|Hne]; [set_solver|].
      destruct (Hother p Hp Hne) as [Hp' Ha]. rewrite <- H3 by done. set_solver.
    + intros a Ha. destruct (Hsplit a Ha) as [Ha1 Ha2]. rewrite <- H4 by done. set_solver.
    + by rewrite H5, u64_add_l, Z.add_assoc.
    + unfold flip_cost at 2. unfold flips in HF. rewrite HF, H6. unfold s32.
      rewrite <- Hb. f_equal. f_equal.
      destruct (Z.ltb_spec ((8 * g - m i) mod 4294967296) 2147483648); Z.to_euclidean_division_equations; lia.
  - eexists. split; [reflexivity|]. unfold flipped_to. fields.
    rewrite flip_parts_skip, !sum_upto_S by (done || lia). split_and!; try done.
    + intros p Hp. destruct (decide (p = i)) as [->|Hne]; [rewrite HF; set_solver|].
      destruct (Hother p Hp Hne) as [Hp' Ha]. rewrite <- H3 by done. set_solver.
    + intros a Ha. destruct (Hsplit a Ha) as [Ha1 Ha2]. rewrite <- H4 by done. set_solver.
    + by rewrite H5, u64_add_l, Z.add_assoc.
    + unfold flip_cost at 2. unfold flips in HF. by rewrite HF, H6, <- Hb.
Qed.

Lemma flip_partitions_ok :
  is_u64 (bitsFlipped e) → is_u64 (bitCompareSwapWrites e) →
  ∃ e' d, foldM (flip_partition mc addr) (e, blk l) (seqZ 0 n) = Ok (e', d) ∧ flipped_to n (e', d).
Proof using Hg Hn Hlen Hmax Hu Hfp Hmc Hm Hinj.
  intros Hb1 Hb2. loop flipped_to st Hst; [done| |by intros; apply flip_partition_ok|].
  - unfold flipped_to. cbn. rewrite flip_parts_0, !Z.add_0_r, !u64_small by done.
    split_and!; try done. intros p Hp; lia.
  - destruct st as [e' d]. by exists e', d.
Qed.
End Flipping.

(** ** The encoder as a whole *)

(** The configuration cuts words of [n * g] bytes in [n] partitions of [g]. *)
(** The granularity is [g] whole bytes, the word [n] partitions. *)
Definition geometry (e : FlipNWrite) (g n : Z) : Prop :=
  0 < g ∧ 0 ≤ n ∧ 8 * (n * g) < 2147483648 ∧ fpSize e = 8 * g ∧ fn_wordSize (fn_params e) = n * g ∧
  is_u64 (bitsFlipped e) ∧ is_u64 (bitCompareSwapWrites e).

Lemma sum_upto_le f h n : (∀ k, 0 ≤ k < Z.of_nat n → f k ≤ h k) → sum_upto f n ≤ sum_upto h n.
Proof.
  induction n as [|n IH]; intros H; [done|]. cbn.
  pose proof (H (Z.of_nat n) ltac:(lia)). specialize (IH ltac:(intros; apply H; lia)). lia.
Qed.

Lemma sum_upto_const c n : sum_upto (λ _, c) n = c * Z.of_nat n.
Proof. induction n as [|n IH]; [cbn; lia|]. cbn [sum_upto]. lia. Qed.

Lemma flip_cost_le g m : 0 < g → 0 ≤ m → flip_cost (8 * g) m ≤ m ∧ flip_cost (8 * g) m ≤ 4 * g.
Proof.
  intros Hg Hm. unfold flip_cost. replace (Z.quot (8 * g) 2) with (4 * g)
    by (rewrite Z.quot_div_nonneg by lia; Z.to_euclidean_division_equations; lia).
  destruct (Z.gtb_spec m (4 * g)); lia.
Qed.

Lemma partitions_ok r e g n :
  geometry e g n → ∃ rp, partitions r e = Ok (n * g, n, curAddr (row (address r)) rp (col (address r)) n).
Proof.
  intros (Hg & Hn & Hmax & Hfp & Hw & _). unfold partitions. cbn [GetTranslatedAddress].
  rewrite Hfp, Hw. unfold udiv_int. rewrite (proj2 (Z.eqb_neq (8 * g) 0)) by lia. cbn [mbind res_bind].
  assert (n * g ⊗ 8 / (8 ⊗ g) = n) as ->; [|by eexists].
  destruct (decide (n = 0)) as [->|]; [done|]. assert (g ≤ n * g) by nia.
  rewrite !u64_small by (unfold is_u64; lia). replace (n * g * 8) with (n * (8 * g)) by lia.
  by rewrite Z.div_mul by lia.
Qed.

(** C13. Writing through the encoder, when its granularity is [g] whole bytes and
    the word, of less than 2^31 bits, is [n] such partitions ([geometry]), which
    are the request's old and new block: the word that is stored, read back with the
    partition numbers remembered after the write, is the word that was written;
    a partition is remembered exactly when more than half of its bits would
    have changed, the partitions of other words keep their marks, and the bits
    the encoder accounts for are at most half of all and at most those that
    changed. *)
Theorem FlipNWrite_Write_decodes r e g n :
  geometry e g n → block_wf (data r) → block_wf (oldData r) →
  size (data r) = n * g → size (oldData r) = n * g →
  ∃ addr r' e', partitions r e = Ok (n * g, n, addr) ∧ FlipNWrite_Write r e = Ok (0, r', e') ∧
    stored_data e addr n (oldData r) = Ok (oldData r') ∧ stored_data e' addr n (data r') = Ok (data r) ∧
    let m := distance (8 * g) (bytes (oldData r')) (bytes (data r)) in
    let cost := sum_upto (λ p, flip_cost (8 * g) (m p)) (Z.to_nat n) in
    (∀ p, 0 ≤ p < n → addr p ∈ flippedAddresses e' ↔ 4 * g < m p) ∧
    (∀ a, (∀ p, 0 ≤ p < n → a ≠ addr p) → a ∈ flippedAddresses e' ↔ a ∈ flippedAddresses e) ∧
    bitCompareSwapWrites e' = bitCompareSwapWrites e ⊕ sum_upto m (Z.to_nat n) ∧
    bitsFlipped e' = bitsFlipped e ⊕ cost ∧ cost ≤ sum_upto m (Z.to_nat n) ∧ 2 * cost ≤ 8 * (n * g).
Proof.
  intros HG Hd Ho Hsd Hso. destruct (block_blk _ Hd) as (ld & Ed & Hud), (block_blk _ Ho) as (lo & Eo & Huo).
  rewrite Ed in Hsd. rewrite Eo in Hso. cbn in Hsd, Hso.
  destruct (partitions_ok r e g n HG) as [rp EP]. destruct HG as (Hg & Hn & Hmax & Hfp & Hw & Hb1 & Hb2).
  set (addr := curAddr _ rp _ n) in *. exists addr.
  set (st := flip_where (λ k, bool_decide (addr (k / g) ∈ flippedAddresses e)) lo).
  assert (length st = length lo) as Hls by apply flip_where_length.
  assert (stored_data e addr n (blk lo) = Ok (blk st)) as ES by (by apply stored_data_blk; try lia).
  destruct (count_bytes_ok g n st ld) as (kk & mc & EC & Hmc); try lia.
  set (m := distance (8 * g) st ld) in *. assert (n ≤ n * g) by nia.
  assert (∀ p, 0 ≤ m p < 2147483648) as Hm.
  { intros p. pose proof (sum_upto_bound (bit_in g st ld p) 1 (8 * length st)) as Hs. unfold bit_in in Hs.
    specialize (Hs ltac:(intros; destruct (_ && _); cbn; lia)). unfold m, distance. lia. }
  destruct (flip_partitions_ok g n ld mc m addr e) as (e' & d & EF & (-> & F1 & F2 & F3 & F4 & F5 & F6));
    try done; [lia| |].
  { intros p q Hp Hq. apply curAddr_inj; lia. }
  exists (r <| data := blk (flip_parts g ld (flips g m) n) |> <| oldData := blk st |>), e'.
  assert (Z.quot (8 * g) 2 = 4 * g) as Hq
    by (rewrite Z.quot_div_nonneg by lia; Z.to_euclidean_division_equations; lia).
  split; [exact EP|]. split.
  { unfold FlipNWrite_Write. rewrite EP. cbn [mbind res_bind]. rewrite Eo, ES, Ed, Hfp. cbn [mbind res_bind].
    rewrite EC. cbn [mbind res_bind]. by rewrite EF. }
  fields. rewrite Ed, Eo. split; [done|]. split.
  { rewrite flip_parts_n by lia.
    rewrite (stored_data_blk g n); rewrite ?flip_where_length; [|lia..|by apply flip_where_u8|congruence].
    do 2 f_equal. rewrite flip_where_flip by done. apply flip_where_none. intros k Hk.
    assert (0 ≤ k / g < n) as Hkg by (split; [apply Z.div_pos; lia|apply Z.div_lt_upper_bound; lia]).
    destruct (flips g m (k / g)) eqn:E.
    - rewrite bool_decide_true; [done|]. by apply F3.
    - rewrite bool_decide_false; [done|]. rewrite F3 by done. by rewrite E. }
  cbv zeta. cbn [bytes blk rawData]. split_and!; try done.
  - intros p Hp. rewrite F3 by done. unfold flips. by rewrite Hq, Z.gtb_lt.
  - apply sum_upto_le. intros. apply flip_cost_le; [lia|apply Hm].
  - pose proof (sum_upto_le (λ p, flip_cost (8 * g) (m p)) (λ _, 4 * g) (Z.to_nat n)) as H'.
    specialize (H' ltac:(intros; apply flip_cost_le; [lia|apply Hm])). rewrite sum_upto_const, Z2Nat.id in H' by done.
    unfold m in H'. lia.
Qed.

(** Inverting a range of whole bytes changes just these bytes, and doing it
    again restores the block. *)
Theorem InvertData_twice a b d :
  block_wf d → 0 ≤ a < b → b ≤ size d → 8 * size d < 2147483648 →
  ∃ d', InvertData (8 * a) (8 * b) d = Ok d' ∧ InvertData (8 * a) (8 * b) d' = Ok d ∧
    block_wf d' ∧ size d' = size d ∧
    ∀ i, bytes d' !! i = (λ x, if (a <=? Z.of_nat i) && (Z.of_nat i <? b) then flip_byte x else x) <$> bytes d !! i.
Proof.
  intros Hd Hab Hb Hl. destruct (block_blk _ Hd) as (l & -> & Hu). cbn in Hb, Hl.
  eexists. rewrite InvertData_blk by done. split; [reflexivity|].
  rewrite InvertData_blk by (rewrite ?flip_where_length; auto using flip_where_u8).
  rewrite flip_where_flip by done. rewrite flip_where_none by (intros; apply xorb_nilpotent).
  split_and!; [done|by apply blk_block, flip_where_u8|cbn; by rewrite flip_where_length|].
  intros i. cbn [bytes blk rawData]. apply flip_where_lookup.
Qed.

(** *** Concrete inputs *)

Definition fn_start : FlipNWrite :=
  (FlipNWrite_new ((Params_new 0 0 0) <| BusWidth := 32 |> <| tBURST := 1 |> <| RATE := 1 |>) dzero 0)
    <| fpSize := 16 |> <| flippedAddresses := {[ 1 ]} |>.
Definition fn_request : NVMainRequest :=
  (NVMainRequest_new MEM_REQUEST_INCOMPLETE UNKNOWN_ACCESS 0) <| data := blk [255; 255; 1; 128] |> <| oldData := blk [0; 1; 255; 255] |>.

(** The first half of the word changes in 15 of 16 bits and is stored inverted,
    the second one was stored inverted and now is not. *)
Example fn_run :
  match FlipNWrite_Write fn_request fn_start with
  | Ok (_, r, e) => (bytes (data r), bytes (oldData r), elements (flippedAddresses e), bitsFlipped e)
  | Err _ => ([], [], [], 0)
  end = ([0; 0; 1; 128], [0; 1; 0; 0], [0], 3).
Proof. by vm_compute. Qed.

Lemma FlipNWrite_Write_decodes_witness :
  geometry fn_start 2 2 ∧ ∃ addr r' e', partitions fn_request fn_start = Ok (4, 2, addr) ∧
    FlipNWrite_Write fn_request fn_start = Ok (0, r', e') ∧ stored_data e' addr 2 (data r') = Ok (data fn_request).
Proof.
  assert (geometry fn_start 2 2) as HG by (unfold geometry, is_u64; split_and!; by vm_compute).
  split; [exact HG|].
  destruct (FlipNWrite_Write_decodes fn_request fn_start 2 2 HG) as (addr & r' & e' & H1 & H2 & _ & H4 & _).
  - apply blk_block. repeat constructor; cbn; lia.
  - apply blk_block. repeat constructor; cbn; lia.
  - reflexivity.
  - reflexivity.
  - exists addr, r', e'. split; [exact H1|]. split; [exact H2|exact H4].
Defined.

Lemma InvertData_twice_witness :
  ∃ d', InvertData 8 24 (blk [1; 2; 3; 4]) = Ok d' ∧ InvertData 8 24 d' = Ok (blk [1; 2; 3; 4]).
Proof.
  destruct (InvertData_twice 1 3 (blk [1; 2; 3; 4])) as (d' & H1 & H2 & _).
  - apply blk_block. repeat constructor; cbn; lia.
  - lia.
  - cbn. lia.
  - cbn. lia.
  - exists d'. split; [exact H1|exact H2].
Defined.
