(* ===== verification/Endurance.v ===== *)
(** * Endurance models

    NVmain/src/EnduranceModel.cpp and the models under NVmain/Endurance: they count the
    writes each cell, byte, word or row can still take. Each is an instance of
    the interface the subarray expects ([EnduranceModelOps]). The random
    distribution of the initial lives is an interface of its own; the uniform
    one is an instance. *)

From S2P Require Import Prelude NVMTypes Config Params SimInterface Heap EventQueue SubArray.

(** ** Distributions of the initial life *)

(** NVmain/src/EnduranceDistribution.h *)
Class EnduranceDistOps (D : Type) := { ed_GetEndurance : D → Z * D }.

(*| NVmain/Endurance/Distributions/Uniform.h 49-52 UniformDistribution *)
Record UniformDistribution := mkUniform { mean : Z }.

(*| NVmain/Endurance/Distributions/Uniform.cpp 40-55 UniformDistribution::UniformDistribution *)
Definition UniformDistribution_new (c : Config) : res (UniformDistribution * Config) :=
  '(v, c) ← GetValue "EnduranceDistMean" c;
  if v =? -1 then Ok (mkUniform 1000000, c)
  else '(v, c) ← GetValue "EnduranceDistMean" c; Ok (mkUniform (u64 v), c).

(*| NVmain/Endurance/Distributions/Uniform.cpp 57-60 UniformDistribution::GetEndurance *)
Definition Uniform_GetEndurance (d : UniformDistribution) : Z * UniformDistribution := (mean d, d).

#[export] Instance uniform_ops : EnduranceDistOps UniformDistribution := {| ed_GetEndurance := Uniform_GetEndurance |}.

(** ** The common base *)

(** The class of the object: the virtual methods dispatch on it. *)
Inductive ModelClass := RowModel | WordModel | ByteModel | BitModel | NullModelClass.

#[export] Instance ModelClass_eq_dec : EqDecision ModelClass.
Proof. solve_decision. Defined.

(** [enduranceDist] is a pointer, null when the factory knows no distribution of
    the configured name. *)
(*| NVmain/src/EnduranceModel.h 73-83 EnduranceModel *)
Record EnduranceModel (D : Type) := mkEnduranceModel {
  em_class : ModelClass;
  em_params : Params;
  enduranceDist : option D;
  life : gmap Z Z;
  granularity : Z
}.
Arguments mkEnduranceModel {D}.
Arguments em_class {D}.
Arguments em_params {D}.
Arguments enduranceDist {D}.
Arguments life {D}.
Arguments granularity {D}.

#[export] Instance eta_EnduranceModel D : Settable (EnduranceModel D) :=
  fields! mkEnduranceModel < em_class; em_params; enduranceDist; life; granularity >.

Section Models.
Context {D : Type} `{EnduranceDistOps D}.
Implicit Types (m : EnduranceModel D).

(*| NVmain/src/EnduranceModel.cpp 42-47 EnduranceModel::EnduranceModel *)
Definition EnduranceModel_new (p : Params) (c : ModelClass) : EnduranceModel D :=
  mkEnduranceModel c p None ∅
    match c with ByteModel => 8 | BitModel => 1 | _ => 0 end.

(*| NVmain/src/EnduranceModel.cpp 60-72 EnduranceModel::GetWorstLife *)
Definition GetWorstLife m : Z :=
  foldl (λ min kv, if kv.2 <? min then kv.2 else min) u64_max (map_to_list (life m)).

(*| NVmain/src/EnduranceModel.cpp 79-94 EnduranceModel::GetAverageLife *)
Definition GetAverageLife m : Z :=
  let total := foldl (λ total kv, total ⊕ kv.2) 0 (map_to_list (life m)) in
  if decide (base.size (life m) = 0%nat) then 0 else total / Z.of_nat (base.size (life m)).

(*| NVmain/src/EnduranceModel.cpp 96-120 EnduranceModel::DecrementLife *)
Definition DecrementLife (addr : Z) m : res (bool * EnduranceModel D) :=
  match life m !! addr with
  | None =>
      d ← deref NullDeref (enduranceDist m);
      let '(e, d) := ed_GetEndurance d in
      Ok (true, m <| life ::= <[addr := e]> |> <| enduranceDist := Some d |>)
  | Some l =>
      if negb (l =? 0) then Ok (true, m <| life ::= <[addr := l - 1]> |>)
      else Ok (false, m)
  end.

(*| NVmain/src/EnduranceModel.cpp 122-133 EnduranceModel::IsDead *)
Definition IsDead (addr : Z) m : bool :=
  match life m !! addr with Some l => l =? 0 | None => false end.

(*| NVmain/src/EnduranceModel.cpp 135-138 EnduranceModel::SetGranularity *)
Definition SetGranularity (bits : Z) m : EnduranceModel D := m <| granularity := bits |>.
(*| NVmain/src/EnduranceModel.cpp 141-144 EnduranceModel::GetGranularity *)
Definition GetGranularity m : Z := granularity m.

(** A write that decrements: the result is -1 from the first failure on. *)
Definition wear (st : Z * EnduranceModel D) (key : Z) : res (Z * EnduranceModel D) :=
  let '(rv, m) := st in
  '(ok, m) ← DecrementLife key m;
  Ok (if (ok : bool) then rv else -1, m).

(** ** Sizes and keys *)

(*| NVmain/Endurance/WordModel/WordModel.cpp 82-84 WordModel::Read *)
Definition em_wordSize (p : Params) : Z := (BusWidth p ⊗ (tBURST p ⊗ RATE p)) / 8.
(*| NVmain/Endurance/WordModel/WordModel.cpp 86-86 WordModel::Read *)
Definition em_rowSize (p : Params) : Z := COLS p ⊗ em_wordSize p.

(*| NVmain/Endurance/WordModel/WordModel.cpp 95-97 WordModel::Read *)
Definition word_key (p : Params) (row col : Z) : res Z :=
  if em_wordSize p =? 0 then Err DivideByZero
  else Ok (row ⊗ (em_rowSize p / em_wordSize p) ⊕ col).

(*| NVmain/Endurance/ByteModel/ByteModel.cpp 102-104 ByteModel::Read *)
Definition byte_key (p : Params) (row col i : Z) : Z :=
  row ⊗ (em_rowSize p / 8) ⊕ col ⊗ em_wordSize p ⊕ u64 i.

(*| NVmain/Endurance/BitModel/BitModel.cpp 99-102 BitModel::Read *)
Definition bit_key (p : Params) (row col i j : Z) : Z :=
  row ⊗ (em_rowSize p ⊗ 8) ⊕ (col ⊗ em_wordSize p ⊗ 8) ⊕ i ⊗ 8 ⊕ j.

(** [(int)wordSize - 1] down to 0. *)
Definition byte_order (p : Params) : list Z := reverse (seqZ 0 (s32 (em_wordSize p))).

(** ** Reading and writing *)

(*| NVmain/Endurance/RowModel/RowModel.cpp 68-84 RowModel::Read *)
Definition RowModel_Read (r : NVMainRequest) m : res (Z * EnduranceModel D) :=
  let '(row, _, _, _, _, _) := GetTranslatedAddress (address r) in
  Ok (if IsDead row m then -1 else 0, m).

(*| NVmain/Endurance/RowModel/RowModel.cpp 86-113 RowModel::Write *)
Definition RowModel_Write (r : NVMainRequest) (old : NVMDataBlock) m : res (Z * EnduranceModel D) :=
  let '(row, _, _, _, _, _) := GetTranslatedAddress (address r) in
  wear (0, m) row.

(*| NVmain/Endurance/WordModel/WordModel.cpp 69-103 WordModel::Read *)
Definition WordModel_Read (r : NVMainRequest) m : res (Z * EnduranceModel D) :=
  let '(row, col, _, _, _, _) := GetTranslatedAddress (address r) in
  k ← word_key (em_params m) row col;
  Ok (if IsDead k m then -1 else 0, m).

(*| NVmain/Endurance/WordModel/WordModel.cpp 105-155 WordModel::Write *)
Definition WordModel_Write (r : NVMainRequest) (old : NVMDataBlock) m : res (Z * EnduranceModel D) :=
  let '(row, col, _, _, _, _) := GetTranslatedAddress (address r) in
  k ← word_key (em_params m) row col;
  wear (0, m) k.

(*| NVmain/Endurance/ByteModel/ByteModel.cpp 69-114 ByteModel::Read *)
Definition ByteModel_Read (r : NVMainRequest) m : res (Z * EnduranceModel D) :=
  let '(row, col, _, _, _, _) := GetTranslatedAddress (address r) in
  let p := em_params m in
  Ok (if existsb (λ i, IsDead (byte_key p row col i) m) (byte_order p) then -1 else 0, m).

(*| NVmain/Endurance/ByteModel/ByteModel.cpp 159-178 ByteModel::Write *)
Definition byte_step (r : NVMainRequest) (old : NVMDataBlock) (st : Z * EnduranceModel D) (i : Z) :
    res (Z * EnduranceModel D) :=
  let '(row, col, _, _, _, _) := GetTranslatedAddress (address r) in
  oldByte ← GetByte (u64 i) old;
  newByte ← GetByte (u64 i) (data r);
  if oldByte =? newByte then Ok st
  else wear st (byte_key (em_params st.2) row col i).

(*| NVmain/Endurance/ByteModel/ByteModel.cpp 115-182 ByteModel::Write *)
Definition ByteModel_Write (r : NVMainRequest) (old : NVMDataBlock) m : res (Z * EnduranceModel D) :=
  foldM (byte_step r old) (0, m) (byte_order (em_params m)).

(*| NVmain/Endurance/BitModel/BitModel.cpp 69-113 BitModel::Read *)
Definition BitModel_Read (r : NVMainRequest) m : res (Z * EnduranceModel D) :=
  let '(row, col, _, _, _, _) := GetTranslatedAddress (address r) in
  let p := em_params m in
  Ok (if existsb (λ i, existsb (λ j, IsDead (bit_key p row col i j) m) (seqZ 0 8)) (seqZ 0 (em_wordSize p))
      then -1 else 0, m).

(*| NVmain/Endurance/BitModel/BitModel.cpp 167-194 BitModel::Write *)
Definition bit_step (r : NVMainRequest) (i oldByte newByte : Z) (st : Z * EnduranceModel D) (j : Z) :
    res (Z * EnduranceModel D) :=
  let '(row, col, _, _, _, _) := GetTranslatedAddress (address r) in
  let oldBit := Z.land (Z.shiftr oldByte j) 1 in
  let newBit := Z.land (Z.shiftr newByte j) 1 in
  if oldBit =? newBit then Ok st
  else wear st (bit_key (em_params st.2) row col i j).

(*| NVmain/Endurance/BitModel/BitModel.cpp 115-198 BitModel::Write *)
Definition BitModel_Write (r : NVMainRequest) (old : NVMDataBlock) m : res (Z * EnduranceModel D) :=
  foldM (λ st i,
    oldByte ← GetByte i old;
    newByte ← GetByte i (data r);
    if oldByte =? newByte then Ok st
    else foldM (bit_step r i oldByte newByte) st (seqZ 0 8)) (0, m) (seqZ 0 (em_wordSize (em_params m))).

(** The virtual methods. *)
Definition em_Read_dispatch (r : NVMainRequest) m : res (Z * EnduranceModel D) :=
  match em_class m with
  | RowModel => RowModel_Read r m
  | WordModel => WordModel_Read r m
  | ByteModel => ByteModel_Read r m
  | BitModel => BitModel_Read r m
  | NullModelClass => Ok (0, m)
  end.

Definition em_Write_dispatch (r : NVMainRequest) (old : NVMDataBlock) m : res (Z * EnduranceModel D) :=
  match em_class m with
  | RowModel => RowModel_Write r old m
  | WordModel => WordModel_Write r old m
  | ByteModel => ByteModel_Write r old m
  | BitModel => BitModel_Write r old m
  | NullModelClass => Ok (0, m)
  end.

(** ** Configuration *)

(** The distribution factory is an argument. *)
Context (CreateEnduranceDistribution : string → Config → res (option D * Config)).

(*| NVmain/src/EnduranceModel.cpp 49-53 EnduranceModel::SetConfig *)
Definition EnduranceModel_SetConfig (c : Config) m : res (Config * EnduranceModel D) :=
  '(s, c) ← GetString "EnduranceDist" c;
  '(d, c) ← CreateEnduranceDistribution s c;
  Ok (c, m <| enduranceDist := d |>).

(*| NVmain/Endurance/RowModel/RowModel.cpp 57-66 RowModel::SetConfig *)
Definition Model_SetConfig (uninit : Z * Z * Z) (c : Config) m : res (Config * EnduranceModel D) :=
  let '(u1, u2, u3) := uninit in
  match em_class m with
  | NullModelClass => EnduranceModel_SetConfig c m
  | cls =>
      '(_, (c, p)) ← SetParams (c, Params_new u1 u2 u3);
      let m := m <| em_params := p |> in
      let m := match cls with
               | RowModel => SetGranularity (COLS p ⊗ 8) m
               | WordModel => SetGranularity (BusWidth p ⊗ 8) m
               | _ => m
               end in
      EnduranceModel_SetConfig c m
  end.

(*| NVmain/Endurance/EnduranceModelFactory.cpp 49-76 EnduranceModelFactory::CreateEnduranceModel *)
Definition CreateEnduranceModel (p : Params) (modelName : string) : option (EnduranceModel D) :=
  EnduranceModel_new p <$>
  (if String.eqb modelName "RowModel" then Some RowModel
   else if String.eqb modelName "WordModel" then Some WordModel
   else if String.eqb modelName "ByteModel" then Some ByteModel
   else if String.eqb modelName "BitModel" then Some BitModel
   else if String.eqb modelName "NullModel" then Some NullModelClass
   else None).
End Models.

(** As the model of a subarray, with the uniform distribution. *)
Definition CreateUniform (distName : string) (c : Config) : res (option UniformDistribution * Config) :=
  if String.eqb distName "Uniform"
  then '(d, c) ← UniformDistribution_new c; Ok (Some d, c)
  else Ok (None, c).

#[export] Instance endurance_model_ops : EnduranceModelOps (EnduranceModel UniformDistribution) := {|
  em_SetConfig c m := match Model_SetConfig CreateUniform (0, 0, 0) c m with Ok (_, m) => m | Err _ => m end;
  em_is_null m := bool_decide (em_class m = NullModelClass);
  em_Write := em_Write_dispatch
|}.

(** ** What a write wears *)

Section Wear.
Context {D : Type} `{EnduranceDistOps D}.
Implicit Types (m : EnduranceModel D).

(** The model has a distribution and no negative lives. *)
Definition em_wf m : Prop := is_Some (enduranceDist m) ∧ map_Forall (λ _ l, 0 ≤ l) (life m).

(** The lives the distribution draws next, and the distribution after them. *)
Fixpoint draws (n : nat) (d : D) : list Z * D :=
  match n with
  | O => ([], d)
  | S n => let '(e, d) := ed_GetEndurance d in let '(es, d) := draws n d in (e :: es, d)
  end.

(** The keys without a life yet, in the order of the writes. *)
Definition fresh m (keys : list Z) : list Z := filter (λ a, life m !! a = None) keys.

Definition same_model m m' : Prop :=
  em_params m' = em_params m ∧ em_class m' = em_class m ∧ granularity m' = granularity m.

(** [m'] is [m] after a write with result [rv] to the cells of these keys, one
    after the other: each loses one life, or gets its first one, which is the
    next the distribution draws; the cells of other keys and the rest of the model
    stay; the write fails exactly when one of the cells was dead. *)
Definition wears (keys : list Z) m (rv : Z) m' : Prop :=
  ∃ d, enduranceDist m = Some d ∧ same_model m m' ∧
  (∀ a, a ∉ keys → life m' !! a = life m !! a) ∧
  (∀ a l, a ∈ keys → life m !! a = Some l → life m' !! a = Some (Z.max 0 (l - 1))) ∧
  Forall2 (λ a e, life m' !! a = Some e) (fresh m keys) (draws (length (fresh m keys)) d).1 ∧
  enduranceDist m' = Some (draws (length (fresh m keys)) d).2 ∧
  rv = (if existsb (λ a, IsDead a m) keys then -1 else 0).

(** One write, from any earlier result. *)
Lemma wear_one m rv key d :
  enduranceDist m = Some d → (∀ l, life m !! key = Some l → 0 ≤ l) →
  ∃ m', wear (rv, m) key = Ok (if IsDead key m then -1 else rv, m') ∧ same_model m m' ∧
    (∀ a, a ≠ key → life m' !! a = life m !! a) ∧
    match life m !! key with
    | Some l => life m' !! key = Some (Z.max 0 (l - 1)) ∧ enduranceDist m' = Some d
    | None => life m' !! key = Some (ed_GetEndurance d).1 ∧ enduranceDist m' = Some (ed_GetEndurance d).2
    end.
Proof.
  intros Hd Hl. unfold wear, DecrementLife, IsDead, same_model. destruct (life m !! key) as [l|] eqn:E.
  - specialize (Hl _ eq_refl). destruct (Z.eqb_spec l 0) as [->|Hne]; cbn.
    + eexists. split; [reflexivity|]. naive_solver.
    + eexists. split; [reflexivity|]. fields. split_and!; try done.
      * intros a Ha. by rewrite lookup_insert_ne.
      * rewrite lookup_insert_eq. f_equal. lia.
  - rewrite Hd. cbn. destruct (ed_GetEndurance d) as [e d'] eqn:Ee. eexists. split; [reflexivity|].
    fields. split_and!; try done.
    + intros a Ha. by rewrite lookup_insert_ne.
    + by rewrite lookup_insert_eq.
Qed.

Lemma existsb_ext_in {A} (f h : A → bool) l : (∀ a, a ∈ l → f a = h a) → existsb f l = existsb h l.
Proof.
  induction l as [|a l IH]; intros E; [done|]. cbn. rewrite E by left. f_equal.
  apply IH. intros b Hb. apply E. by right.
Qed.

Lemma fresh_other m m1 k keys :
  k ∉ keys → (∀ a, a ≠ k → life m1 !! a = life m !! a) → fresh m1 keys = fresh m keys.
Proof.
  intros Hk O. unfold fresh. induction keys as [|a keys IH]; [done|].
  apply not_elem_of_cons in Hk as [Hne Hk]. rewrite !filter_cons, IH, O by done. done.
Qed.

(** Writes to a list of different cells. *)
Lemma wear_list keys : ∀ m rv d,
  NoDup keys → enduranceDist m = Some d → (∀ a l, a ∈ keys → life m !! a = Some l → 0 ≤ l) →
  ∃ m', foldM wear (rv, m) keys = Ok (if existsb (λ a, IsDead a m) keys then -1 else rv, m') ∧ same_model m m' ∧
    (∀ a, a ∉ keys → life m' !! a = life m !! a) ∧
    (∀ a l, a ∈ keys → life m !! a = Some l → life m' !! a = Some (Z.max 0 (l - 1))) ∧
    Forall2 (λ a e, life m' !! a = Some e) (fresh m keys) (draws (length (fresh m keys)) d).1 ∧
    enduranceDist m' = Some (draws (length (fresh m keys)) d).2.
Proof.
  induction keys as [|k keys IH]; intros m rv d Hnd Hd Hl.
  { exists m. split_and!; try done. intros a l Ha. by apply not_elem_of_nil in Ha. }
  apply NoDup_cons in Hnd as [Hk Hnd].
  destruct (wear_one m rv k d Hd) as (m1 & E1 & S1 & O1 & K1); [intros l; apply Hl; by left|].
  set (d1 := if life m !! k is None then (ed_GetEndurance d).2 else d).
  assert (enduranceDist m1 = Some d1) as D1 by (subst d1; destruct (life m !! k); apply K1).
  destruct (IH m1 (if IsDead k m then -1 else rv) d1 Hnd D1) as (m2 & E2 & S2 & O2 & K2 & F2 & D2).
  { intros a l Ha. rewrite O1 by (by intros ->). apply Hl. by right. }
  rewrite (fresh_other m m1 k keys Hk O1) in F2, D2.
  exists m2. cbn [foldM]. rewrite E1. cbn [mbind res_bind]. rewrite E2.
  rewrite (existsb_ext_in (λ a, IsDead a m1) (λ a, IsDead a m))
    by (intros a Ha; unfold IsDead; by rewrite O1 by (by intros ->)).
  split_and!.
  - cbn [existsb]. by destruct (IsDead k m), (existsb (λ a, IsDead a m) keys).
  - unfold same_model in *. intuition congruence.
  - intros a [Hak Ha]%not_elem_of_cons. by rewrite O2, O1.
  - intros a l [->|Ha]%elem_of_cons El.
    + rewrite O2 by done. rewrite El in K1. apply K1.
    + apply K2; [done|]. by rewrite O1 by (by intros ->).
  - unfold fresh. rewrite filter_cons. subst d1. fold (fresh m keys). destruct (life m !! k) as [l|] eqn:El.
    + rewrite decide_False by done. exact F2.
    + rewrite decide_True by done. cbn [length draws]. destruct (ed_GetEndurance d) as [e d']. cbn [snd] in F2. destruct (draws _ d') as [es d''].
      constructor; [|exact F2]. rewrite O2 by done. apply K1.
  - unfold fresh. rewrite filter_cons. subst d1. fold (fresh m keys). destruct (life m !! k) as [l|] eqn:El.
    + rewrite decide_False by done. exact D2.
    + rewrite decide_True by done. cbn [length draws]. destruct (ed_GetEndurance d) as [e d']. cbn [snd] in D2. by destruct (draws _ d') as [es d''].
Qed.

Lemma wear_list_wears keys m :
  NoDup keys → em_wf m → ∃ rv m', foldM wear (0, m) keys = Ok (rv, m') ∧ wears keys m rv m'.
Proof.
  intros Hnd [[d Hd] Hl]. destruct (wear_list keys m 0 d Hnd Hd) as (m' & E & W).
  { intros a l _ Ha. exact (Hl _ _ Ha). }
  eexists _, m'. split; [exact E|]. exists d. naive_solver.
Qed.

(** A loop whose passes are short loops is one loop. *)
Lemma foldM_flat {A B C} (f : A → B → res A) (w : A → C → res A) (P : A → Prop) (ks : B → list C) l :
  (∀ a c a', P a → w a c = Ok a' → P a') →
  (∀ a b, P a → b ∈ l → f a b = foldM w a (ks b)) →
  ∀ a, P a → foldM f a l = foldM w a (l ≫= ks).
Proof.
  intros Hw. assert (∀ cs a a', P a → foldM w a cs = Ok a' → P a') as Hws.
  { induction cs as [|c cs IH]; intros a a' Ha; cbn; [by intros [= <-]|].
    destruct (w a c) as [a1|] eqn:E; [|done]. cbn. eapply IH, Hw; eauto. }
  induction l as [|b l IH]; intros Hf a Ha; [done|].
  change ((b :: l) ≫= ks) with (ks b ++ (l ≫= ks)). rewrite foldM_app. cbn [foldM].
  rewrite Hf by (done || by left). destruct (foldM w a (ks b)) as [a1|] eqn:E; [|done]. cbn.
  apply IH; [intros; apply Hf; [done|by right]|]. by eapply Hws.
Qed.

Lemma wear_params p st key st' : em_params st.2 = p → wear st key = Ok st' → em_params st'.2 = p.
Proof.
  destruct st as [rv m]. cbn. intros <-. unfold wear, DecrementLife, mbind, res_bind.
  intros E. repeat (split_match_in E; simplify_eq); by fields.
Qed.
End Wear.

(** ** The cells of a word *)

Definition byte_of (d : NVMDataBlock) (i : Z) : Z := bytes d !!! Z.to_nat i.

(** The keys a read looks at ... *)
Definition read_key {D} (m : EnduranceModel D) (r : NVMainRequest) (a : Z) : Prop :=
  let p := em_params m in let row := row (address r) in let col := col (address r) in
  match em_class m with
  | RowModel => a = row
  | WordModel => word_key p row col = Ok a
  | ByteModel => ∃ i, 0 ≤ i < em_wordSize p ∧ a = byte_key p row col i
  | BitModel => ∃ i j, 0 ≤ i < em_wordSize p ∧ 0 ≤ j < 8 ∧ a = bit_key p row col i j
  | NullModelClass => False
  end.

(** ... and those a write wears, in the order of its loops: a byte, from the last
    one down, or a bit only when it changes. *)
Definition changed_byte (p : Params) (r : NVMainRequest) (old : NVMDataBlock) (i : Z) : list Z :=
  if byte_of old i =? byte_of (data r) i then [] else [byte_key p (row (address r)) (col (address r)) i].
Definition changed_bits (p : Params) (r : NVMainRequest) (old : NVMDataBlock) (i : Z) : list Z :=
  seqZ 0 8 ≫= λ j, if Bool.eqb (Z.testbit (byte_of old i) j) (Z.testbit (byte_of (data r) i) j) then []
                   else [bit_key p (row (address r)) (col (address r)) i j].
Definition write_keys {D} (m : EnduranceModel D) (r : NVMainRequest) (old : NVMDataBlock) : list Z :=
  let p := em_params m in
  match em_class m with
  | RowModel => [row (address r)]
  | WordModel => if word_key p (row (address r)) (col (address r)) is Ok k then [k] else []
  | ByteModel => reverse (seqZ 0 (em_wordSize p)) ≫= changed_byte p r old
  | BitModel => seqZ 0 (em_wordSize p) ≫= changed_bits p r old
  | NullModelClass => []
  end.

(** Words of a sensible size. *)
Definition em_geometry (p : Params) : Prop := 0 < em_wordSize p < 268435456.

Lemma byte_key_inj p row col i i' :
  0 ≤ i < 268435456 → 0 ≤ i' < 268435456 → byte_key p row col i = byte_key p row col i' → i = i'.
Proof.
  unfold byte_key. intros Hi Hi'. rewrite (u64_small i), (u64_small i') by (unfold is_u64; lia).
  generalize (row ⊗ (em_rowSize p / 8) ⊕ col ⊗ em_wordSize p). intros b E.
  unfold u64 in E. Z.to_euclidean_division_equations. lia.
Qed.

Lemma bit_key_sum p row col i j :
  bit_key p row col i j = u64 (row * (em_rowSize p * 8) + col * (em_wordSize p * 8) + (8 * i + j)).
Proof.
  unfold bit_key. rewrite u64_mul_r, u64_mul_l.
  rewrite u64_add_l, <- Z.add_assoc, u64_add_l, <- Z.add_assoc, u64_add_l, u64_add_m.
  rewrite Z.add_assoc, u64_add_m. f_equal. lia.
Qed.

Lemma bit_key_inj p row col i j i' j' :
  0 ≤ i < 268435456 → 0 ≤ i' < 268435456 → 0 ≤ j < 8 → 0 ≤ j' < 8 →
  bit_key p row col i j = bit_key p row col i' j' → i = i' ∧ j = j'.
Proof.
  rewrite !bit_key_sum. generalize (row * (em_rowSize p * 8) + col * (em_wordSize p * 8)).
  intros b Hi Hi' Hj Hj' E. assert (8 * i + j = 8 * i' + j') by
    (unfold u64 in E; Z.to_euclidean_division_equations; lia). lia.
Qed.

Lemma GetByte_block d i :
  block_wf d → 0 ≤ i < size d → GetByte i d = Ok (byte_of d i).
Proof.
  intros Hd Hi. destruct (block_blk d Hd) as (l & -> & Hu). cbn in Hi.
  destruct (lookup_lt_is_Some_2 l (Z.to_nat i)) as [x E]; [lia|]. unfold byte_of. cbn [bytes blk rawData].
  rewrite (list_lookup_total_correct _ _ _ E). apply GetByte_blk; [done|lia].
Qed.

Section WriteWears.
Context {D : Type} `{EnduranceDistOps D}.
Context (m : EnduranceModel D) (r : NVMainRequest) (old : NVMDataBlock).
Context (Hm : em_wf m) (Hg : em_geometry (em_params m)) (Hd : block_wf (data r)) (Ho : block_wf old)
        (Hsd : size (data r) = em_wordSize (em_params m)) (Hso : size old = em_wordSize (em_params m)).

Lemma ByteModel_Write_wears : em_class m = ByteModel →
  ∃ rv m', ByteModel_Write r old m = Ok (rv, m') ∧ wears (write_keys m r old) m rv m'.
Proof using Hm Hg Hd Ho Hsd Hso.
  intros Hc. unfold write_keys. rewrite Hc. set (p := em_params m) in *.
  unfold em_geometry in Hg. unfold ByteModel_Write, byte_order. fold p.
  assert (s32 (em_wordSize p) = em_wordSize p) as ->.
  { unfold s32. rewrite Z.mod_small by lia. by rewrite (proj2 (Z.ltb_lt _ _)) by lia. }
  rewrite (foldM_flat _ wear (λ st, em_params st.2 = p) (changed_byte p r old)) by
    first [done | by apply wear_params | idtac
      ; intros st i Hst Hi%elem_of_reverse%elem_of_seqZ; unfold byte_step; cbn [GetTranslatedAddress];
        rewrite u64_small, !GetByte_block by (unfold is_u64; done || lia); cbn [mbind res_bind];
        rewrite Hst; unfold changed_byte; destruct (_ =? _); [done|]; cbn [foldM];
        by destruct (wear _ _)].
  apply wear_list_wears; [|done].
  apply NoDup_bind; [| |rewrite reverse_Permutation; apply NoDup_seqZ]; unfold changed_byte.
  - intros i i' a Hi%elem_of_reverse%elem_of_seqZ Hi'%elem_of_reverse%elem_of_seqZ.
    repeat case_match; intros Ha Ha'; try by apply not_elem_of_nil in Ha || apply not_elem_of_nil in Ha'.
    apply list_elem_of_singleton in Ha, Ha'. subst a. eapply byte_key_inj; [| |exact Ha']; lia.
  - intros i _. case_match; [constructor|apply NoDup_singleton].
Qed.

Lemma elem_of_changed_bits p i a :
  a ∈ changed_bits p r old i ↔ ∃ j, 0 ≤ j < 8 ∧ Z.testbit (byte_of old i) j ≠ Z.testbit (byte_of (data r) i) j ∧
    a = bit_key p (row (address r)) (col (address r)) i j.
Proof using.
  unfold changed_bits. rewrite list_elem_of_bind. split.
  - intros (j & Ha & Hj%elem_of_seqZ). exists j. split; [lia|].
    destruct (Bool.eqb _ _) eqn:E; [by apply not_elem_of_nil in Ha|].
    apply Bool.eqb_false_iff in E. by apply list_elem_of_singleton in Ha.
  - intros (j & Hj & Hne & ->). exists j. rewrite (proj2 (Bool.eqb_false_iff _ _)) by done.
    split; [by left|]. apply elem_of_seqZ. lia.
Qed.

Lemma NoDup_changed_bits p : em_geometry p → NoDup (seqZ 0 (em_wordSize p) ≫= changed_bits p r old).
Proof using.
  unfold em_geometry. intros Hg'. apply NoDup_bind; [| |apply NoDup_seqZ].
  - intros i i' a Hi%elem_of_seqZ Hi'%elem_of_seqZ.
    intros (j & Hj & _ & ->)%elem_of_changed_bits (j' & Hj' & _ & E)%elem_of_changed_bits.
    apply bit_key_inj in E as [-> _]; lia.
  - intros i Hi%elem_of_seqZ. apply NoDup_bind; [| |apply NoDup_seqZ].
    + intros j j' a Hj%elem_of_seqZ Hj'%elem_of_seqZ.
      repeat case_match; intros Ha Ha'; try by apply not_elem_of_nil in Ha || apply not_elem_of_nil in Ha'.
      apply list_elem_of_singleton in Ha, Ha'. subst a. apply bit_key_inj in Ha' as [_ ->]; lia.
    + intros j _. case_match; [constructor|apply NoDup_singleton].
Qed.

Lemma bit_loop i st :
  em_params st.2 = em_params m →
  foldM (bit_step r i (byte_of old i) (byte_of (data r) i)) st (seqZ 0 8) = foldM wear st (changed_bits (em_params m) r old i).
Proof using.
  intros Hst. apply (foldM_flat _ wear (λ st, em_params st.2 = em_params m)); [|clear st Hst|done].
  - by apply wear_params.
  - intros st j Hst Hj%elem_of_seqZ. unfold bit_step. cbn [GetTranslatedAddress]. rewrite !bit_of, Hst by lia.
    destruct (Z.testbit (byte_of old i) j), (Z.testbit (byte_of (data r) i) j); cbn [Bool.eqb Z.b2z foldM]; try done.
    all: change (1 =? 0) with false; change (0 =? 1) with false; cbn iota; by destruct (wear _ _).
Qed.

Lemma changed_bits_same p i : byte_of old i = byte_of (data r) i → changed_bits p r old i = [].
Proof using.
  intros E. unfold changed_bits. rewrite E. generalize (seqZ 0 8). intros l. induction l as [|j l IH]; [done|]. cbn.
  by rewrite Bool.eqb_reflx.
Qed.

Lemma BitModel_Write_wears : em_class m = BitModel →
  ∃ rv m', BitModel_Write r old m = Ok (rv, m') ∧ wears (write_keys m r old) m rv m'.
Proof using Hm Hg Hd Ho Hsd Hso.
  intros Hc. unfold BitModel_Write, write_keys. rewrite Hc.
  rewrite (foldM_flat _ wear (λ st, em_params st.2 = em_params m) (changed_bits (em_params m) r old));
    [|by apply wear_params| |done].
  2: { intros st i Hst Hi%elem_of_seqZ. unfold em_geometry in Hg. rewrite !GetByte_block by (done || lia). cbn [mbind res_bind].
       destruct (Z.eqb_spec (byte_of old i) (byte_of (data r) i)) as [E|_]; [|by apply bit_loop].
       by rewrite changed_bits_same. }
  by apply wear_list_wears; [apply NoDup_changed_bits|].
Qed.

Lemma key_wears k : ∃ rv m', wear (0, m) k = Ok (rv, m') ∧ wears [k] m rv m'.
Proof using Hm.
  destruct (wear_list_wears [k] m) as (rv & m' & E & W); [apply NoDup_singleton|done|].
  exists rv, m'. cbn [foldM] in E. split; [by destruct (wear (0, m) k)|done].
Qed.
End WriteWears.

Lemma dispatch_wears {D} `{EnduranceDistOps D} (m : EnduranceModel D) r old :
  em_wf m → em_geometry (em_params m) → block_wf (data r) → block_wf old →
  size (data r) = em_wordSize (em_params m) → size old = em_wordSize (em_params m) →
  ∃ rv m', em_Write_dispatch r old m = Ok (rv, m') ∧ wears (write_keys m r old) m rv m'.
Proof.
  intros Hm Hg Hd Ho Hsd Hso. unfold em_Write_dispatch. destruct (em_class m) eqn:Hc.
  - unfold write_keys. rewrite Hc. by apply key_wears.
  - unfold write_keys, WordModel_Write, word_key. rewrite Hc. cbn [GetTranslatedAddress]. unfold em_geometry in Hg.
    rewrite (proj2 (Z.eqb_neq _ _)) by lia. by apply key_wears.
  - by apply ByteModel_Write_wears.
  - by apply BitModel_Write_wears.
  - exists 0, m. split; [done|]. unfold write_keys. rewrite Hc. destruct Hm as [[d Hdist] _]. exists d.
    split_and!; try done. intros a l Ha. by apply not_elem_of_nil in Ha.
Qed.

(** C14. Writing a word wears exactly the units the model counts for it, in the
    order of its loops: the row, the word, the bytes that change (from the last
    one) or the bits that change. Each unit that has a life loses one; the units
    without one get, one after the other, the lives the distribution draws next,
    and the distribution has advanced by just these draws. The write reports an
    error exactly when one of the units was dead, and the entries of the other
    keys stay: units are the keys of the model's map, which the byte model
    computes so that bytes of different rows can share one (finding in
    ByteModel.cpp). Words have less than 2^28 bytes, the blocks the size of a word. *)
Theorem em_Write_wears {D} `{EnduranceDistOps D} (m : EnduranceModel D) r old :
  em_wf m → em_geometry (em_params m) → block_wf (data r) → block_wf old →
  size (data r) = em_wordSize (em_params m) → size old = em_wordSize (em_params m) →
  ∃ rv m', em_Write_dispatch r old m = Ok (rv, m') ∧ wears (write_keys m r old) m rv m'.
Proof. apply dispatch_wears. Qed.

(** ** Reading, and words that do not share cells *)

Section Reading.
Context {D : Type} `{EnduranceDistOps D}.
Implicit Types (m : EnduranceModel D).

(** A read reports whether one of the word's cells is dead. *)
Definition reads_dead m (r : NVMainRequest) (x : Z) : Prop :=
  (x = 0 ∨ x = -1) ∧ (x = -1 ↔ ∃ a, read_key m r a ∧ IsDead a m = true).

Lemma dead_bool (b : bool) (P : Prop) : (b = true ↔ P) → ((if b then -1 else 0) = -1 ↔ P).
Proof. destruct b; naive_solver. Qed.

Lemma em_Read_dead m r :
  em_geometry (em_params m) → ∃ x, em_Read_dispatch r m = Ok (x, m) ∧ reads_dead m r x.
Proof.
  intros Hg. unfold em_geometry in Hg. unfold em_Read_dispatch, reads_dead, read_key.
  destruct (em_class m) eqn:Hc.
  - eexists. split; [reflexivity|]. split; [destruct (IsDead _ _); auto|].
    apply dead_bool. naive_solver.
  - unfold WordModel_Read, word_key. cbn [GetTranslatedAddress].
    rewrite (proj2 (Z.eqb_neq _ _)) by lia. cbn [mbind res_bind].
    eexists. split; [reflexivity|]. split; [destruct (IsDead _ _); auto|].
    apply dead_bool. split; [eauto|]. intros (a & [= <-] & ?). done.
  - unfold ByteModel_Read, byte_order. cbn [GetTranslatedAddress].
    assert (s32 (em_wordSize (em_params m)) = em_wordSize (em_params m)) as ->.
    { unfold s32. rewrite Z.mod_small by lia. by rewrite (proj2 (Z.ltb_lt _ _)) by lia. }
    eexists. split; [reflexivity|]. split; [case_match; auto|].
    apply dead_bool. rewrite existsb_exists. split.
    + intros (i & Hi%list_elem_of_In%elem_of_reverse%elem_of_seqZ & Hx).
      eexists. split; [exists i; split; [lia|reflexivity]|done].
    + intros (a & (i & Hi & ->) & Hx). exists i. split; [|done].
      apply list_elem_of_In, elem_of_reverse, elem_of_seqZ. lia.
  - unfold BitModel_Read. cbn [GetTranslatedAddress].
    eexists. split; [reflexivity|]. split; [case_match; auto|].
    apply dead_bool. rewrite existsb_exists. setoid_rewrite existsb_exists. split.
    + intros (i & Hi%list_elem_of_In%elem_of_seqZ & j & Hj%list_elem_of_In%elem_of_seqZ & Hx).
      eexists. split; [exists i, j; split_and!; [lia..|reflexivity]|done].
    + intros (a & (i & j & Hi & Hj & ->) & Hx). exists i. split; [apply list_elem_of_In, elem_of_seqZ; lia|].
      exists j. split; [apply list_elem_of_In, elem_of_seqZ; lia|done].
  - exists 0. split; [done|]. naive_solver.
Qed.

(** The address lies in a memory whose cells have different numbers. *)
Definition in_bounds (p : Params) (r : NVMainRequest) : Prop :=
  0 ≤ row (address r) ∧ 0 ≤ col (address r) < COLS p ∧
  (row (address r) + 1) * (COLS p * em_wordSize p) * 8 ≤ 18446744073709551616.

(** Two requests for different units of the model. *)
Definition separate (c : ModelClass) (r1 r2 : NVMainRequest) : Prop :=
  match c with
  | RowModel => row (address r1) ≠ row (address r2)
  | WordModel | BitModel => (row (address r1), col (address r1)) ≠ (row (address r2), col (address r2))
  | ByteModel => False
  | NullModelClass => True
  end.

Lemma write_read_key m r old a : a ∈ write_keys m r old → read_key m r a.
Proof.
  unfold write_keys, read_key. destruct (em_class m).
  - apply list_elem_of_singleton.
  - destruct (word_key _ _ _); [|by intros ?%not_elem_of_nil]. by intros ->%list_elem_of_singleton.
  - intros (i & Ha & Hi%elem_of_reverse%elem_of_seqZ)%list_elem_of_bind. unfold changed_byte in Ha.
    case_match; [by apply not_elem_of_nil in Ha|]. apply list_elem_of_singleton in Ha. exists i. split; [lia|done].
  - intros (i & (j & Hj & _ & ->)%elem_of_changed_bits & Hi%elem_of_seqZ)%list_elem_of_bind.
    exists i, j. split_and!; [lia..|done].
  - apply not_elem_of_nil.
Qed.

(** The number of the word in the memory. *)
Definition word_no (p : Params) (r : NVMainRequest) : Z := row (address r) * COLS p + col (address r).

Lemma word_no_inj p r1 r2 :
  in_bounds p r1 → in_bounds p r2 → word_no p r1 = word_no p r2 →
  (row (address r1), col (address r1)) = (row (address r2), col (address r2)).
Proof.
  unfold in_bounds, word_no. intros (_ & H1 & _) (_ & H2 & _) E.
  assert (row (address r1) = row (address r2)) as Er.
  { destruct (Z.lt_trichotomy (row (address r1)) (row (address r2))) as [|[|]]; [nia|done|nia]. }
  rewrite Er in *. f_equal. lia.
Qed.

Lemma word_key_no p r a :
  em_geometry p → in_bounds p r → word_key p (row (address r)) (col (address r)) = Ok a → a = word_no p r.
Proof.
  unfold em_geometry, in_bounds, word_key, em_rowSize, word_no. intros Hg (H1 & H2 & H3).
  rewrite (proj2 (Z.eqb_neq _ _)) by lia. intros [= <-].
  assert (0 ≤ COLS p * em_wordSize p) by nia.
  assert (COLS p * em_wordSize p ≤ (row (address r) + 1) * (COLS p * em_wordSize p)) by nia.
  rewrite (u64_small (COLS p * _)) by (unfold is_u64; lia). rewrite Z.div_mul by lia.
  assert ((row (address r) + 1) * COLS p ≤ (row (address r) + 1) * COLS p * em_wordSize p) by nia.
  assert (0 ≤ row (address r) * COLS p) by nia.
  rewrite (u64_small (row (address r) * COLS p)), u64_small by (unfold is_u64; lia). done.
Qed.

Lemma bit_key_no p r i j :
  em_geometry p → in_bounds p r → 0 ≤ i < em_wordSize p → 0 ≤ j < 8 →
  bit_key p (row (address r)) (col (address r)) i j = word_no p r * (8 * em_wordSize p) + (8 * i + j).
Proof.
  unfold em_geometry, in_bounds, em_rowSize, word_no. intros Hg (H1 & H2 & H3) Hi Hj. rewrite bit_key_sum.
  unfold em_rowSize. assert (0 ≤ COLS p * em_wordSize p) by nia.
  assert (COLS p * em_wordSize p ≤ (row (address r) + 1) * (COLS p * em_wordSize p)) by nia.
  rewrite (u64_small (COLS p * _)) by (unfold is_u64; lia).
  assert (col (address r) * (em_wordSize p * 8) + em_wordSize p * 8 ≤ COLS p * (em_wordSize p * 8)) by nia.
  assert (0 ≤ row (address r) * (COLS p * em_wordSize p)) by nia.
  assert (0 ≤ col (address r) * (em_wordSize p * 8)) by nia.
  rewrite u64_small by (unfold is_u64; lia). lia.
Qed.

Lemma separate_keys m r1 r2 a :
  em_geometry (em_params m) → in_bounds (em_params m) r1 → in_bounds (em_params m) r2 →
  separate (em_class m) r1 r2 → read_key m r1 a → read_key m r2 a → False.
Proof.
  unfold separate, read_key. intros Hg B1 B2. destruct (em_class m); [naive_solver| |done| |done].
  - intros Hs K1%word_key_no K2%word_key_no; [|done..]. apply Hs, (word_no_inj (em_params m)); congruence.
  - intros Hs (i & j & Hi & Hj & ->) (i' & j' & Hi' & Hj' & E). rewrite !bit_key_no in E by done.
    apply Hs, (word_no_inj (em_params m)); [done..|]. unfold em_geometry in Hg. nia.
Qed.
End Reading.

(** A write does not wear what another address reads: under the row, word
    and bit model, for rows and columns of a memory whose cells can be numbered
    with 64 bits, reading another unit gives the same answer before and after. *)
Theorem em_Write_isolated {D} `{EnduranceDistOps D} (m m' : EnduranceModel D) r1 r2 old rv :
  em_wf m → em_geometry (em_params m) → block_wf (data r1) → block_wf old →
  size (data r1) = em_wordSize (em_params m) → size old = em_wordSize (em_params m) →
  in_bounds (em_params m) r1 → in_bounds (em_params m) r2 → separate (em_class m) r1 r2 →
  em_Write_dispatch r1 old m = Ok (rv, m') →
  ∃ x, em_Read_dispatch r2 m = Ok (x, m) ∧ em_Read_dispatch r2 m' = Ok (x, m').
Proof.
  intros Hm Hg Hd Ho Hsd Hso B1 B2 Hsep E.
  destruct (dispatch_wears m r1 old) as (rv1 & m1 & E1 & (_ & _ & (P & C & _) & O & _)); try done.
  rewrite E in E1. injection E1 as <- <-.
  destruct (em_Read_dead m r2 Hg) as (x & Ex & Hx0 & Hx).
  destruct (em_Read_dead m' r2) as (x' & Ex' & Hx0' & Hx'); [by rewrite P|].
  exists x. split; [done|]. replace x with x'; [done|].
  assert (∀ a, read_key m' r2 a ↔ read_key m r2 a) as HK by (intros; unfold read_key; by rewrite P, C).
  assert (∀ a, read_key m r2 a → IsDead a m' = IsDead a m) as Hdead.
  { intros a Ha. unfold IsDead. rewrite O; [done|]. intros Hw%write_read_key.
    by apply (separate_keys m r1 r2 a). }
  assert (x' = -1 ↔ x = -1); [|naive_solver lia].
  rewrite Hx, Hx'. setoid_rewrite HK. split; intros (a & Ha & Hi); exists a; split; try done.
  - by rewrite <- Hdead.
  - by rewrite Hdead.
Qed.

(** ** Lifetimes *)

Section Lifetime.
Context {D : Type} `{EnduranceDistOps D}.
Implicit Types (m : EnduranceModel D).

(** The results of [n] writes of the same request. *)
Fixpoint repeat_writes (n : nat) (r : NVMainRequest) (old : NVMDataBlock) m : res (list Z * EnduranceModel D) :=
  match n with
  | O => Ok ([], m)
  | S n =>
      '(rv, m) ← em_Write_dispatch r old m;
      '(l, m) ← repeat_writes n r old m;
      Ok (rv :: l, m)
  end.

(** The models with one cell per write. *)
Lemma single_cell m r old :
  em_class m = RowModel ∨ em_class m = WordModel → em_geometry (em_params m) →
  ∃ k, read_key m r k ∧ ∀ m', em_class m' = em_class m → em_params m' = em_params m →
    em_Write_dispatch r old m' = wear (0, m') k.
Proof.
  unfold em_geometry, read_key, em_Write_dispatch. intros [Hc|Hc] Hg; rewrite Hc.
  - eexists. split; [reflexivity|]. intros m' -> _. done.
  - unfold WordModel_Write, word_key. cbn [GetTranslatedAddress].
    rewrite (proj2 (Z.eqb_neq _ _)) by lia. eexists. split; [reflexivity|].
    intros m' -> ->. by rewrite (proj2 (Z.eqb_neq _ _)) by lia.
Qed.

Lemma repeat_wear r old k c p n : ∀ m l,
  (∀ m', em_class m' = c → em_params m' = p → em_Write_dispatch r old m' = wear (0, m') k) →
  em_class m = c → em_params m = p → life m !! k = Some l → 0 ≤ l →
  ∃ m', repeat_writes n r old m =
    Ok (replicate (n `min` Z.to_nat l)%nat 0 ++ replicate (n - Z.to_nat l)%nat (-1), m').
Proof.
  induction n as [|n IH]; intros m l Hw Hc Hp Hl H0; [by exists m|].
  cbn [repeat_writes]. rewrite Hw by done. unfold wear, DecrementLife. rewrite Hl.
  destruct (Z.eqb_spec l 0) as [->|Hne]; cbn [negb mbind res_bind].
  - destruct (IH m 0 Hw Hc Hp Hl) as [m' E]; [done|]. rewrite E. cbn. exists m'.
    rewrite Nat.min_0_r, Nat.sub_0_r. done.
  - destruct (IH (m <| life ::= <[k := l - 1]> |>) (l - 1) Hw) as [m' E]; [by fields..| |lia|].
    { fields. by rewrite lookup_insert_eq. }
    rewrite E. cbn [mbind res_bind]. exists m'. do 2 f_equal.
    replace (Z.to_nat l) with (S (Z.to_nat (l - 1))) by lia. done.
Qed.
End Lifetime.

(** C15. Lifetimes: a fresh row or word whose life the distribution draws as [E]
    takes [E + 1] writes without error, and every write after that reports
    one: the write that finds no entry draws the life without counting itself,
    where the comment in the models' [Write] has it inserted "with a write count
    of 1". *)
Theorem write_lifetime {D} `{EnduranceDistOps D} (m : EnduranceModel D) r old d E d' n :
  em_class m = RowModel ∨ em_class m = WordModel → em_geometry (em_params m) →
  enduranceDist m = Some d → ed_GetEndurance d = (E, d') → 0 ≤ E →
  (∀ k, read_key m r k → life m !! k = None) →
  ∃ m', repeat_writes n r old m =
    Ok (replicate (n `min` Z.to_nat (E + 1))%nat 0 ++ replicate (n - Z.to_nat (E + 1))%nat (-1), m').
Proof.
  intros Hc Hg Hd He H0 Hfresh. destruct (single_cell m r old Hc Hg) as (k & Hk & Hw).
  specialize (Hfresh k Hk). destruct n as [|n]; [by exists m|].
  cbn [repeat_writes]. rewrite Hw by done. unfold wear, DecrementLife. rewrite Hfresh, Hd.
  cbn [deref mbind res_bind]. rewrite He. cbn [mbind res_bind].
  destruct (repeat_wear r old k (em_class m) (em_params m) n
    (m <| life ::= <[k := E]> |> <| enduranceDist := Some d' |>) E Hw) as [m' Em]; [by fields..| |done|].
  { fields. by rewrite lookup_insert_eq. }
  rewrite Em. cbn [mbind res_bind]. exists m'. do 2 f_equal.
  replace (Z.to_nat (E + 1)) with (S (Z.to_nat E)) by lia. done.
Qed.

Lemma byte_key_collide p row c i :
  0 ≤ c → COLS p = 8 * c → 0 ≤ row → 0 < em_wordSize p →
  (row + 1) * (8 * c * em_wordSize p) < 18446744073709551616 →
  byte_key p row c i = byte_key p (row + 1) 0 i.
Proof.
  intros H0 HC Hr Hw Hmax. unfold byte_key, em_rowSize. rewrite HC. set (W := em_wordSize p) in *.
  assert (0 ≤ c * W) by nia. assert (0 ≤ row * (c * W)) by nia.
  rewrite (u64_small (8 * c * W)) by (unfold is_u64; nia).
  replace (8 * c * W / 8) with (c * W) by (replace (8 * c * W) with (c * W * 8) by lia; by rewrite Z.div_mul).
  f_equal. f_equal. rewrite (u64_small (row * _)), (u64_small (c * W)), (u64_small ((row + 1) * _)), (u64_small (0 * W))
    by (unfold is_u64; lia).
  rewrite !u64_small by (unfold is_u64; lia). lia.
Qed.

(** The byte model numbers the bytes of a row as if it had an eighth of
    them: with [COLS = 8 * c], word [c] of a row has the very cells of word 0 of
    the next row, so the two cannot be told apart, wearing one out kills the
    other. *)
Theorem ByteModel_rows_collide {D} `{EnduranceDistOps D} (m : EnduranceModel D) r1 r2 old c :
  em_class m = ByteModel → 0 < em_wordSize (em_params m) →
  0 ≤ c → COLS (em_params m) = 8 * c → 0 ≤ row (address r1) →
  (row (address r1) + 1) * (8 * c * em_wordSize (em_params m)) < 18446744073709551616 →
  col (address r1) = c → row (address r2) = row (address r1) + 1 → col (address r2) = 0 →
  em_Read_dispatch r1 m = em_Read_dispatch r2 m ∧
  (data r1 = data r2 → em_Write_dispatch r1 old m = em_Write_dispatch r2 old m).
Proof.
  intros Hc Hw H0 HC Hr Hmax C1 R2 C2. unfold em_Read_dispatch, em_Write_dispatch. rewrite Hc.
  assert (∀ i, byte_key (em_params m) (row (address r1)) (col (address r1)) i =
               byte_key (em_params m) (row (address r2)) (col (address r2)) i) as E.
  { intros i. rewrite C1, R2, C2. by apply byte_key_collide. }
  split.
  - unfold ByteModel_Read. cbn [GetTranslatedAddress]. by rewrite (existsb_ext_in _ _ _ (λ i _, f_equal (λ k, IsDead k m) (E i))).
  - intros Ed. unfold ByteModel_Write. generalize (byte_order (em_params m)). intros l.
    assert (∀ l st, em_params st.2 = em_params m →
      foldM (byte_step r1 old) st l = foldM (byte_step r2 old) st l) as H'; [|by apply H'].
    clear l. induction l as [|i l IH]; intros st Hst; [done|]. cbn [foldM].
    assert (byte_step r1 old st i = byte_step r2 old st i) as Es.
    { unfold byte_step. cbn [GetTranslatedAddress]. by rewrite Ed, Hst, E. }
    rewrite Es. destruct (byte_step r2 old st i) as [st'|] eqn:E2; [|done]. cbn. apply IH.
    unfold byte_step, mbind, res_bind in E2. cbn [GetTranslatedAddress] in E2.
    repeat (split_match_in E2; simplify_eq); [done|]. by eapply wear_params.
Qed.

(** ** Concrete inputs: words of one byte, 16 columns, lives of 2 *)

Definition test_em (c : ModelClass) : EnduranceModel UniformDistribution :=
  (EnduranceModel_new ((Params_new 0 0 0) <| BusWidth := 8 |> <| tBURST := 1 |> <| RATE := 1 |> <| COLS := 16 |>) c)
    <| enduranceDist := Some (mkUniform 2) |>.
Definition test_write (row col new : Z) : NVMainRequest :=
  (NVMainRequest_new MEM_REQUEST_INCOMPLETE UNKNOWN_ACCESS 0)
    <| address := SetTranslatedAddress row col 0 0 0 0 (NVMAddress_new 0) |> <| data := blk [new] |>.

Lemma test_em_wf c : em_wf (test_em c).
Proof. split; [by eexists|]. exact (map_Forall_empty (λ _ l, 0 ≤ l)). Defined.
Lemma test_blk n : is_u8 n → block_wf (blk [n]).
Proof. intros. apply blk_block. by constructor. Defined.

(** The bit model: only the two changed bits get a life. *)
Lemma em_Write_wears_witness :
  ∃ rv m', em_Write_dispatch (test_write 3 4 6) (blk [0]) (test_em BitModel) = Ok (rv, m') ∧
    wears (write_keys (test_em BitModel) (test_write 3 4 6) (blk [0])) (test_em BitModel) rv m'.
Proof.
  apply (em_Write_wears (test_em BitModel)).
  - apply test_em_wf.
  - by vm_compute.
  - apply test_blk. by vm_compute.
  - apply test_blk. by vm_compute.
  - reflexivity.
  - reflexivity.
Defined.

Example em_Write_run :
  match em_Write_dispatch (test_write 3 4 6) (blk [0]) (test_em BitModel) with
  | Ok (rv, m) => (rv, map_to_list (life m))
  | Err _ => (1, [])
  end = (0, [(417, 2); (418, 2)]).
Proof. by vm_compute. Qed.

Lemma em_Write_isolated_witness :
  ∃ (m' : EnduranceModel UniformDistribution) x, em_Read_dispatch (test_write 3 5 0) (test_em BitModel) = Ok (x, test_em BitModel) ∧
    em_Read_dispatch (test_write 3 5 0) m' = Ok (x, m').
Proof.
  destruct (em_Write_dispatch (test_write 3 4 6) (blk [0]) (test_em BitModel)) as [[rv m']|] eqn:E.
  - exists m'. apply (em_Write_isolated (test_em BitModel) m' (test_write 3 4 6) (test_write 3 5 0) (blk [0]) rv).
    + apply test_em_wf.
    + by vm_compute.
    + apply test_blk. by vm_compute.
    + apply test_blk. by vm_compute.
    + reflexivity.
    + reflexivity.
    + by vm_compute.
    + by vm_compute.
    + by vm_compute.
    + exact E.
  - exfalso. assert (∃ x, em_Write_dispatch (test_write 3 4 6) (blk [0]) (test_em BitModel) = Ok x) as [x Ex]
      by (eexists; vm_compute; reflexivity).
    rewrite Ex in E. discriminate E.
Defined.

Lemma write_lifetime_witness :
  ∃ m', repeat_writes 5 (test_write 7 0 1) (blk [0]) (test_em RowModel) = Ok ([0; 0; 0; -1; -1], m').
Proof.
  apply (write_lifetime (test_em RowModel) (test_write 7 0 1) (blk [0]) (mkUniform 2) 2 (mkUniform 2) 5).
  - by left.
  - by vm_compute.
  - reflexivity.
  - reflexivity.
  - by vm_compute.
  - intros k _. reflexivity.
Defined.

Lemma ByteModel_rows_collide_witness :
  em_Read_dispatch (test_write 0 2 0) (test_em ByteModel) = em_Read_dispatch (test_write 1 0 0) (test_em ByteModel).
Proof.
  refine (proj1 (ByteModel_rows_collide (test_em ByteModel) (test_write 0 2 0) (test_write 1 0 0) (blk [0]) 2
    _ _ _ _ _ _ _ _ _)); by vm_compute.
Defined.
