(* ===== verification/Objects.v ===== *)
(** * The object hierarchy

    NVmain/src/NVMObject.cpp: every part of the simulator is an object with a parent and
    children, reached through hooks. A hook forwards a call to its trampoline,
    after the pre-issue and before the post-issue objects that were attached to
    it. The virtual methods are an interface ([Virtuals]) that the
    classes implement. *)

From S2P Require Import Prelude NVMTypes Translation SimInterface Heap EventQueue Frame.

(** The virtual methods of [NVMObject], dispatched on the object. *)
Class Virtuals (O : Type) := {
  vm_IssueCommand : ObjPtr → ReqPtr → ST (Sim O) bool;
  vm_IsIssuable : ObjPtr → ReqPtr → ST (Sim O) (bool * option FailReasons);
  vm_IssueAtomic : ObjPtr → ReqPtr → ST (Sim O) bool;
  vm_IssueFunctional : ObjPtr → ReqPtr → ST (Sim O) bool;
  vm_NextIssuable : ObjPtr → option ReqPtr → ST (Sim O) Z;
  vm_Idle : ObjPtr → ST (Sim O) bool;
  vm_Drain : ObjPtr → ST (Sim O) bool;
  vm_Notify : ObjPtr → ReqPtr → ST (Sim O) unit;
  vm_RequestComplete : ObjPtr → ReqPtr → ST (Sim O) bool;
  vm_Callback : ObjPtr → Z → ST (Sim O) unit;
  vm_Cycle : ObjPtr → Z → ST (Sim O) unit
}.

(*| NVmain/src/NVMObject.cpp 270-280 NVMObject::NVMObject *)
Definition NVMObject_new (currentHookType0 : HookType) : NVMObject :=
  mkNVMObject None None [] [] [] [] NVMHOOK_NONE currentHookType0.

Section Structure.
Context {O : Type}.

Definition set_obj (this : ObjPtr) (f : NVMObject → NVMObject) : ST (Sim O) unit :=
  o ← load_obj this; store_obj this (f o).

(** The event queue, the statistics and the tag generator are shared by the
    whole subsystem and have no pointers here. *)
(*| NVmain/src/NVMObject.cpp 400-409 NVMObject::SetParent *)
Definition SetParent (this p : ObjPtr) : ST (Sim O) unit :=
  hook ← new_hook p;
  set_obj this (λ o, o <| parent := Some hook |>);;
  _ ← load_obj p;
  mret ().

(*| NVmain/src/NVMObject.cpp 411-418 NVMObject::UnsetParent *)
Definition UnsetParent (this : ObjPtr) : ST (Sim O) unit := set_obj this (λ o, o <| parent := None |>).

(*| NVmain/src/NVMObject.cpp 690-693 NVMObject::GetHooks *)
Definition GetHooks (h : HookType) (o : NVMObject) : res (list ObjPtr) :=
  match h with
  | NVMHOOK_NONE => Ok (hooks_none o)
  | NVMHOOK_PREISSUE => Ok (hooks_pre o)
  | NVMHOOK_POSTISSUE => Ok (hooks_post o)
  | NVMHOOK_COUNT | NVMHOOK_BOTHISSUE => Err OutOfBounds
  end.

(*| NVmain/src/NVMObject.cpp 682-688 NVMObject::AddHookUnique *)
Definition AddHookUnique (l : list ObjPtr) (hook : ObjPtr) : list ObjPtr :=
  if decide (hook ∈ l) then l else l ++ [hook].

(*| NVmain/src/NVMObject.cpp 667-680 NVMObject::AddHook *)
Definition AddHook (this hook : ObjPtr) : ST (Sim O) unit :=
  h ← load_obj hook;
  match hookType h with
  | NVMHOOK_BOTHISSUE =>
      set_obj this (λ o, o <| hooks_pre ::= λ l, AddHookUnique l hook |>
                           <| hooks_post ::= λ l, AddHookUnique l hook |>)
  | NVMHOOK_NONE => set_obj this (λ o, o <| hooks_none ::= λ l, AddHookUnique l hook |>)
  | NVMHOOK_PREISSUE => set_obj this (λ o, o <| hooks_pre ::= λ l, AddHookUnique l hook |>)
  | NVMHOOK_POSTISSUE => set_obj this (λ o, o <| hooks_post ::= λ l, AddHookUnique l hook |>)
  | NVMHOOK_COUNT => fail OutOfBounds
  end.

(** A loop over a list of pointers. *)
Fixpoint iter_objs (f : ObjPtr → ST (Sim O) unit) (l : list ObjPtr) : ST (Sim O) unit :=
  match l with [] => mret () | x :: l => f x;; iter_objs f l end.

(*| NVmain/src/NVMObject.cpp 420-437 NVMObject::AddChild *)
Definition AddChild (this c : ObjPtr) : ST (Sim O) unit :=
  hook ← new_hook c;
  o ← load_obj this;
  iter_objs (AddHook c) (hooks_none o ++ hooks_pre o ++ hooks_post o);;
  set_obj this (λ o, o <| children ::= λ l, l ++ [hook] |>).

(*| NVmain/src/NVMObject.cpp 457-475 NVMObject::GetChildId *)
Definition GetChildId (o : NVMObject) (c : ObjPtr) : Z :=
  match list_find (λ h, trampoline h = c) (children o) with Some (i, _) => Z.of_nat i | None => 0 end.

(*| NVmain/src/NVMObject.cpp 477-480 NVMObject::GetChildCount *)
Definition GetChildCount (o : NVMObject) : Z := Z.of_nat (length (children o)).

(*| NVmain/src/NVMObject.cpp 482-485 NVMObject::GetParent *)
Definition GetParent (o : NVMObject) : option Hook := parent o.

(*| NVmain/src/NVMObject.cpp 506-511 NVMObject::GetChild *)
Definition GetChild_at (o : NVMObject) (child : Z) : res Hook :=
  deref AssertFail (children o !! Z.to_nat child).

(*| NVmain/src/NVMObject.cpp 513-522 NVMObject::GetChild *)
Definition GetChild_only (o : NVMObject) : res (option Hook) :=
  match children o with [] => Ok None | [h] => Ok (Some h) | _ => Err AssertFail end.

(** [out] is what the translator finds in its result variables. *)
(*| NVmain/src/NVMObject.cpp 492-504 NVMObject::GetChild *)
Definition GetChild (out : six) (this : ObjPtr) (q : ReqPtr) : ST (Sim O) (option Hook) :=
  o ← load_obj this;
  match decoder o with
  | None => lift (GetChild_only o)
  | Some d =>
      r ← load_req q;
      '(child, d) ← lift (TranslateRequest r out d);
      set_obj this (λ o, o <| decoder := Some d |>);;
      h ← lift (deref OutOfBounds (children o !! Z.to_nat child));
      mret (Some h)
  end.

(** The statistics of the decoder are not modelled. *)
(*| NVmain/src/NVMObject.cpp 524-531 NVMObject::SetDecoder *)
Definition SetDecoder (this : ObjPtr) (at_ : AddressTranslator) : ST (Sim O) unit :=
  set_obj this (λ o, o <| decoder := Some at_ |>).

(*| NVmain/src/NVMObject.cpp 533-536 NVMObject::GetDecoder *)
Definition GetDecoder (o : NVMObject) : option AddressTranslator := decoder o.

(*| NVmain/src/NVMObject.cpp 652-655 NVMObject::SetHookType *)
Definition SetHookType (this : ObjPtr) (h : HookType) : ST (Sim O) unit := set_obj this (λ o, o <| hookType := h |>).

(*| NVmain/src/NVMObject.cpp 662-665 NVMObject::SetCurrentHookType *)
Definition SetCurrentHookType (this : ObjPtr) (h : HookType) : ST (Sim O) unit :=
  set_obj this (λ o, o <| currentHookType := h |>).
End Structure.

(** ** Calls through a hook *)

Section Hooks.
Context {O : Type} `{Virtuals O}.

(** One call of an attached object on behalf of [t]. *)
Definition call_hook {A} (f : ObjPtr → ReqPtr → ST (Sim O) A) (t : ObjPtr) (when : HookType) (q : ReqPtr)
    (it : ObjPtr) : ST (Sim O) A :=
  SetParent it t;;
  SetCurrentHookType it when;;
  rv ← f it q;
  UnsetParent it;;
  mret rv.

(** The pre-issue loop; [dropRequest] is overwritten by every pass. *)
(*| NVmain/src/NVMObject.cpp 64-71 NVMObject_hook::IssueCommand *)
Fixpoint pre_hooks (f : ObjPtr → ReqPtr → ST (Sim O) bool) (t : ObjPtr) (q : ReqPtr) (dropRequest : bool)
    (l : list ObjPtr) : ST (Sim O) bool :=
  match l with
  | [] => mret dropRequest
  | it :: l => ok ← call_hook f t NVMHOOK_PREISSUE q it; pre_hooks f t q (negb ok) l
  end.

(** A loop that ignores the answers. *)
(*| NVmain/src/NVMObject.cpp 78-84 NVMObject_hook::IssueCommand *)
Fixpoint run_hooks (f : ObjPtr → ReqPtr → ST (Sim O) bool) (t : ObjPtr) (when : HookType) (q : ReqPtr)
    (l : list ObjPtr) : ST (Sim O) unit :=
  match l with
  | [] => mret ()
  | it :: l => _ ← call_hook f t when q it; run_hooks f t when q l
  end.

(** The lists of attached objects are references: the second one is read when
    its loop starts. *)
Definition issue_through (hookf f : ObjPtr → ReqPtr → ST (Sim O) bool) (h : Hook) (q : ReqPtr) : ST (Sim O) bool :=
  o ← load_obj (trampoline h);
  dropRequest ← pre_hooks hookf (trampoline h) q false (hooks_pre o);
  rv ← (if (dropRequest : bool) then mret true else f (trampoline h) q);
  o ← load_obj (trampoline h);
  run_hooks hookf (trampoline h) NVMHOOK_POSTISSUE q (hooks_post o);;
  mret rv.

(*| NVmain/src/NVMObject.cpp 57-87 NVMObject_hook::IssueCommand *)
Definition hook_IssueCommand : Hook → ReqPtr → ST (Sim O) bool := issue_through vm_IssueCommand vm_IssueCommand.
(*| NVmain/src/NVMObject.cpp 89-92 NVMObject_hook::IsIssuable *)
Definition hook_IsIssuable (h : Hook) (q : ReqPtr) : ST (Sim O) (bool * option FailReasons) := vm_IsIssuable (trampoline h) q.
(*| NVmain/src/NVMObject.cpp 94-124 NVMObject_hook::IssueAtomic *)
Definition hook_IssueAtomic : Hook → ReqPtr → ST (Sim O) bool := issue_through vm_IssueAtomic vm_IssueAtomic.
(** The attached objects get an atomic access. *)
(*| NVmain/src/NVMObject.cpp 126-156 NVMObject_hook::IssueFunctional *)
Definition hook_IssueFunctional : Hook → ReqPtr → ST (Sim O) bool := issue_through vm_IssueAtomic vm_IssueFunctional.
(*| NVmain/src/NVMObject.cpp 158-161 NVMObject_hook::NextIssuable *)
Definition hook_NextIssuable (h : Hook) (q : option ReqPtr) : ST (Sim O) Z := vm_NextIssuable (trampoline h) q.
(*| NVmain/src/NVMObject.cpp 163-166 NVMObject_hook::Idle *)
Definition hook_Idle (h : Hook) : ST (Sim O) bool := vm_Idle (trampoline h).
(*| NVmain/src/NVMObject.cpp 168-171 NVMObject_hook::Drain *)
Definition hook_Drain (h : Hook) : ST (Sim O) bool := vm_Drain (trampoline h).
(*| NVmain/src/NVMObject.cpp 173-176 NVMObject_hook::Notify *)
Definition hook_Notify (h : Hook) (q : ReqPtr) : ST (Sim O) unit := vm_Notify (trampoline h) q.
(** Both groups of attached objects come before the object, which may delete
    the request. *)
(*| NVmain/src/NVMObject.cpp 178-209 NVMObject_hook::RequestComplete *)
Definition hook_RequestComplete (h : Hook) (q : ReqPtr) : ST (Sim O) bool :=
  o ← load_obj (trampoline h);
  run_hooks vm_RequestComplete (trampoline h) NVMHOOK_PREISSUE q (hooks_pre o);;
  o ← load_obj (trampoline h);
  run_hooks vm_RequestComplete (trampoline h) NVMHOOK_POSTISSUE q (hooks_post o);;
  vm_RequestComplete (trampoline h) q.
(*| NVmain/src/NVMObject.cpp 211-215 NVMObject_hook::Callback *)
Definition hook_Callback (h : Hook) (d : Z) : ST (Sim O) unit := vm_Callback (trampoline h) d.
(*| NVmain/src/NVMObject.cpp 260-263 NVMObject_hook::Cycle *)
Definition hook_Cycle (h : Hook) (steps : Z) : ST (Sim O) unit := vm_Cycle (trampoline h) steps.

(** ** The default methods *)

(*| NVmain/src/NVMObject.cpp 308-311 NVMObject::IssueCommand *)
Definition NVMObject_IssueCommand (this : ObjPtr) (q : ReqPtr) : ST (Sim O) bool := mret false.
(*| NVmain/src/NVMObject.cpp 313-316 NVMObject::IsIssuable *)
Definition NVMObject_IsIssuable (this : ObjPtr) (q : ReqPtr) : ST (Sim O) (bool * option FailReasons) := mret (true, None).
(*| NVmain/src/NVMObject.cpp 298-301 NVMObject::IssueAtomic *)
Definition NVMObject_IssueAtomic (this : ObjPtr) (q : ReqPtr) : ST (Sim O) bool := mret true.
(*| NVmain/src/NVMObject.cpp 303-306 NVMObject::IssueFunctional *)
Definition NVMObject_IssueFunctional (this : ObjPtr) (q : ReqPtr) : ST (Sim O) bool := mret true.
(*| NVmain/src/NVMObject.cpp 318-322 NVMObject::NextIssuable *)
Definition NVMObject_NextIssuable (out : six) (this : ObjPtr) (q : ReqPtr) : ST (Sim O) Z :=
  h ← GetChild out this q;
  h ← lift (deref NullDeref h);
  hook_NextIssuable h (Some q).
(*| NVmain/src/NVMObject.cpp 324-327 NVMObject::Idle *)
Definition NVMObject_Idle (this : ObjPtr) : ST (Sim O) bool := mret true.

(** Every child is drained, also after one that is not. *)
Fixpoint drain_children (rv : bool) (l : list Hook) : ST (Sim O) bool :=
  match l with
  | [] => mret rv
  | h :: l => child_rv ← hook_Drain h; drain_children (if (child_rv : bool) then rv else false) l
  end.
(*| NVmain/src/NVMObject.cpp 329-344 NVMObject::Drain *)
Definition NVMObject_Drain (this : ObjPtr) : ST (Sim O) bool :=
  o ← load_obj this; drain_children true (children o).

(*| NVmain/src/NVMObject.cpp 346-373 NVMObject::RequestComplete *)
Definition NVMObject_RequestComplete (this : ObjPtr) (q : ReqPtr) : ST (Sim O) bool :=
  r ← load_req q;
  if decide (owner r = Some this) then delete_req q;; mret true
  else
    o ← load_obj this;
    h ← lift (deref NullDeref (parent o));
    hook_RequestComplete h q.
End Hooks.

(** ** Stores of objects *)

Section ObjectStore.
Context {O A : Type}.
Implicit Types (s : Sim O).

Definition obj_at s (p : ObjPtr) : option NVMObject := h_objs (heap s) !! p.

Lemma load_obj_at s p o : obj_at s p = Some o → load_obj p s = Ok (o, s).
Proof. unfold obj_at, load_obj. by intros ->. Qed.

(** [s'] is [s] with [o] at [p]. *)
Definition put_at s (p : ObjPtr) (o : NVMObject) s' : Prop :=
  obj s' = obj s ∧ h_reqs (heap s') = h_reqs (heap s) ∧
  ∀ p', obj_at s' p' = if decide (p' = p) then Some o else obj_at s p'.

Lemma put_at_eq s p o s' : put_at s p o s' → obj_at s' p = Some o.
Proof. intros (_ & _ & ->). by rewrite decide_True. Qed.

Lemma set_obj_ok s p o f : obj_at s p = Some o → ∃ s', set_obj p f s = Ok ((), s') ∧ put_at s p (f o) s'.
Proof.
  intros E. unfold set_obj. rewrite (bind_load_obj p o) by done. unfold store_obj. unfold obj_at in E.
  rewrite E. eexists. split; [reflexivity|]. split_and!; [done..|]. intros p'. unfold obj_at. fields.
  rewrite lookup_insert. repeat case_decide; congruence.
Qed.

Lemma SetParent_ok s p o t :
  obj_at s p = Some o → is_Some (obj_at s t) →
  ∃ s' hk, SetParent p t s = Ok ((), s') ∧ trampoline hk = t ∧ put_at s p (o <| parent := Some hk |>) s'.
Proof.
  intros E [ot Et]. unfold SetParent, new_hook.
  set (s1 := s <| heap ::= λ h, h <| h_next ::= Pos.succ |> |>). set (hk := mkHook (h_next (heap s)) t).
  assert (∀ p, obj_at s1 p = obj_at s p) as E1 by (intros; unfold obj_at, s1; by fields).
  destruct (set_obj_ok s1 p o (λ o, o <| parent := Some hk |>)) as (s' & E' & (P1 & P2 & P3)); [by rewrite E1|].
  exists s', hk. split; [|split; [done|]].
  - rewrite bind_eq. fold s1 hk. rewrite (bind_ok _ _ _ _ _ E').
    assert (is_Some (obj_at s' t)) as [ot' Et'].
    { rewrite P3, E1. case_decide; [by eexists|by exists ot]. }
    by rewrite (bind_ok _ _ _ _ _ (load_obj_at _ _ _ Et')).
  - split_and!; [by rewrite P1; unfold s1; fields|by rewrite P2; unfold s1; fields|].
    intros p'. by rewrite P3, E1.
Qed.
End ObjectStore.

(** ** The order of the calls

    Objects that write down who they are, as what and for whom they are called,
    and answer as [answer] says. *)

Record Entry := mkEntry { e_obj : ObjPtr; e_when : HookType; e_parent : option ObjPtr; e_req : ReqPtr }.

Section Recorder.
Variable answer : ObjPtr → bool.

Definition log_call (p : ObjPtr) (q : ReqPtr) : ST (Sim (list Entry)) bool :=
  o ← load_obj p;
  set_self (λ l, l ++ [mkEntry p (currentHookType o) (trampoline <$> parent o) q]);;
  mret (answer p).

Definition recorder : Virtuals (list Entry) := {|
  vm_IssueCommand := log_call;
  vm_IsIssuable := NVMObject_IsIssuable;
  vm_IssueAtomic := log_call;
  vm_IssueFunctional := log_call;
  vm_NextIssuable _ _ := mret 0;
  vm_Idle _ := mret true;
  vm_Drain _ := mret true;
  vm_Notify _ _ := mret ();
  vm_RequestComplete := log_call;
  vm_Callback _ _ := mret ();
  vm_Cycle _ _ := mret ()
|}.
#[local] Existing Instance recorder.

Lemma log_call_ok p q o s :
  obj_at s p = Some o →
  ∃ s', log_call p q s = Ok (answer p, s') ∧
    obj s' = obj s ++ [mkEntry p (currentHookType o) (trampoline <$> parent o) q] ∧ heap s' = heap s.
Proof.
  intros E. unfold log_call. rewrite (bind_ok _ _ _ _ _ (load_obj_at _ _ _ E)). run.
  eexists. split; [reflexivity|]. by fields.
Qed.

(** [s'] is [s] with more in the log; only the objects [l] may differ. *)
Definition ran (l : list ObjPtr) (log : list Entry) (s s' : Sim (list Entry)) : Prop :=
  obj s' = obj s ++ log ∧ (∀ p, p ∉ l → obj_at s' p = obj_at s p) ∧
  (∀ p, is_Some (obj_at s p) → is_Some (obj_at s' p)).

Lemma ran_nil s : ran [] [] s s.
Proof. split_and!; [by rewrite app_nil_r|done|done]. Qed.

Lemma ran_trans l1 l2 log1 log2 s1 s2 s3 :
  ran l1 log1 s1 s2 → ran l2 log2 s2 s3 → ran (l1 ++ l2) (log1 ++ log2) s1 s3.
Proof.
  intros (A1 & A2 & A3) (B1 & B2 & B3). split_and!.
  - by rewrite B1, A1, app_assoc.
  - intros p Hp. rewrite B2, A2; [done|set_solver..].
  - auto.
Qed.

Lemma call_hook_ran t when q it s :
  it ≠ t → is_Some (obj_at s it) → is_Some (obj_at s t) →
  ∃ s', call_hook log_call t when q it s = Ok (answer it, s') ∧
    ran [it] [mkEntry it when (Some t) q] s s'.
Proof.
  intros Hne [oi Hi] Ht. unfold call_hook, SetCurrentHookType, UnsetParent.
  destruct (SetParent_ok s it oi t Hi Ht) as (s1 & hk & E1 & Hhk & P1).
  rewrite (bind_ok _ _ _ _ _ E1).
  destruct (set_obj_ok s1 it _ (λ o, o <| currentHookType := when |>) (put_at_eq _ _ _ _ P1)) as (s2 & E2 & P2).
  rewrite (bind_ok _ _ _ _ _ E2).
  destruct (log_call_ok it q _ s2 (put_at_eq _ _ _ _ P2)) as (s3 & E3 & L3 & H3).
  rewrite (bind_ok _ _ _ _ _ E3).
  assert (∀ p, obj_at s3 p = obj_at s2 p) as E32 by (intros; unfold obj_at; by rewrite H3).
  destruct (set_obj_ok s3 it _ (λ o, o <| parent := None |>)
    (eq_trans (E32 it) (put_at_eq _ _ _ _ P2))) as (s4 & E4 & P4).
  rewrite (bind_ok _ _ _ _ _ E4). exists s4. split; [done|].
  destruct P1 as (A1 & _ & B1), P2 as (A2 & _ & B2), P4 as (A4 & _ & B4). split_and!.
  - rewrite A4, L3, A2, A1. fields. cbn. by rewrite Hhk.
  - intros p Hp. rewrite B4, E32, B2, B1. repeat case_decide; set_solver.
  - intros p Hp. rewrite B4, E32, B2, B1. repeat case_decide; by eauto.
Qed.

Definition entries (t : ObjPtr) (when : HookType) (q : ReqPtr) (l : list ObjPtr) : list Entry :=
  (λ it, mkEntry it when (Some t) q) <$> l.

(** The attached objects exist and are not the object itself. *)
Definition attached (s : Sim (list Entry)) (t : ObjPtr) (l : list ObjPtr) : Prop :=
  is_Some (obj_at s t) ∧ ∀ it, it ∈ l → it ≠ t ∧ is_Some (obj_at s it).

Lemma attached_ran s s' t l l0 log : attached s t l → ran l0 log s s' → attached s' t l.
Proof. intros [Ht Hl] (_ & _ & Hk). split; [auto|]. intros it Hit. destruct (Hl it Hit). auto. Qed.

Lemma attached_cons s t it l :
  attached s t (it :: l) → it ≠ t ∧ is_Some (obj_at s it) ∧ is_Some (obj_at s t) ∧ attached s t l.
Proof.
  intros [Ht Hl]. destruct (Hl it); [by left|]. split_and!; try done. split; [done|]. intros it' Hit'. apply Hl. by right.
Qed.

Lemma pre_hooks_ran t q l : ∀ drop s,
  attached s t l →
  ∃ s', pre_hooks log_call t q drop l s =
      Ok (match last l with Some it => negb (answer it) | None => drop end, s') ∧
    ran l (entries t NVMHOOK_PREISSUE q l) s s'.
Proof.
  induction l as [|it l IH]; intros drop s Ha; [eexists; split; [reflexivity|apply ran_nil]|].
  apply attached_cons in Ha as (Hne & Hit & Ht & Ha).
  destruct (call_hook_ran t NVMHOOK_PREISSUE q it s Hne Hit Ht) as (s1 & E1 & R1).
  destruct (IH (negb (answer it)) s1) as (s2 & E2 & R2); [by eapply attached_ran|].
  exists s2. cbn [pre_hooks]. rewrite (bind_ok _ _ _ _ _ E1), E2. split.
  - rewrite last_cons. by destruct (last l).
  - apply (ran_trans [it] l _ _ _ _ _ R1 R2).
Qed.

Lemma run_hooks_ran t when q l : ∀ s,
  attached s t l →
  ∃ s', run_hooks log_call t when q l s = Ok ((), s') ∧ ran l (entries t when q l) s s'.
Proof.
  induction l as [|it l IH]; intros s Ha; [eexists; split; [reflexivity|apply ran_nil]|].
  apply attached_cons in Ha as (Hne & Hit & Ht & Ha).
  destruct (call_hook_ran t when q it s Hne Hit Ht) as (s1 & E1 & R1).
  destruct (IH s1) as (s2 & E2 & R2); [by eapply attached_ran|].
  exists s2. cbn [run_hooks]. rewrite (bind_ok _ _ _ _ _ E1), E2. split; [done|].
  apply (ran_trans [it] l _ _ _ _ _ R1 R2).
Qed.

Lemma log_call_ran t q o s :
  obj_at s t = Some o →
  ∃ s', log_call t q s = Ok (answer t, s') ∧
    ran [] [mkEntry t (currentHookType o) (trampoline <$> parent o) q] s s'.
Proof.
  intros E. destruct (log_call_ok t q o s E) as (s' & E' & L & Hh). exists s'. split; [done|].
  split_and!; [done|..]; intros p; unfold obj_at; by rewrite Hh.
Qed.

(** What a command through a hook does: the answer and the calls. *)
Definition dropped (o : NVMObject) : bool :=
  match last (hooks_pre o) with Some it => negb (answer it) | None => false end.
Definition command_calls (t : ObjPtr) (q : ReqPtr) (o : NVMObject) : list Entry :=
  entries t NVMHOOK_PREISSUE q (hooks_pre o) ++
  (if dropped o then [] else [mkEntry t (currentHookType o) (trampoline <$> parent o) q]) ++
  entries t NVMHOOK_POSTISSUE q (hooks_post o).

Lemma issue_order (h : Hook) q o s :
  obj_at s (trampoline h) = Some o → attached s (trampoline h) (hooks_pre o ++ hooks_post o) →
  ∃ s', hook_IssueCommand h q s = Ok (if dropped o then true else answer (trampoline h), s') ∧
    ran (hooks_pre o ++ hooks_post o) (command_calls (trampoline h) q o) s s'.
Proof.
  intros E [Ht Ha]. set (t := trampoline h) in *.
  assert (t ∉ hooks_pre o) as Hpre by (intros Hin; destruct (Ha t); [set_solver|done]).
  destruct (pre_hooks_ran t q (hooks_pre o) false s) as (s1 & E1 & R1); [split; [done|set_solver]|].
  fold (dropped o) in E1.
  assert (∃ s2, (if dropped o then mret true else log_call t q) s1 = Ok (if dropped o then true else answer t, s2) ∧
    ran [] (if dropped o then [] else [mkEntry t (currentHookType o) (trampoline <$> parent o) q]) s1 s2)
    as (s2 & E2 & R2).
  { destruct (dropped o); [eexists; split; [reflexivity|apply ran_nil]|].
    apply log_call_ran. destruct R1 as (_ & R1' & _). by rewrite R1'. }
  assert (obj_at s2 t = Some o) as Et.
  { destruct R2 as (_ & -> & _); [|set_solver]. by destruct R1 as (_ & -> & _). }
  pose proof (ran_trans _ _ _ _ _ _ _ R1 R2) as R12.
  destruct (run_hooks_ran t NVMHOOK_POSTISSUE q (hooks_post o) s2) as (s3 & E3 & R3).
  { eapply attached_ran, R12. split; [done|set_solver]. }
  exists s3. unfold hook_IssueCommand, issue_through. fold t. cbn [vm_IssueCommand recorder].
  rewrite (bind_ok _ _ _ _ _ (load_obj_at _ _ _ E)), (bind_ok _ _ _ _ _ E1), (bind_ok _ _ _ _ _ E2).
  rewrite (bind_ok _ _ _ _ _ (load_obj_at _ _ _ Et)), (bind_ok _ _ _ _ _ E3). split; [done|].
  pose proof (ran_trans _ _ _ _ _ _ _ R12 R3) as R. rewrite app_nil_r, <- app_assoc in R. done.
Qed.

Lemma complete_order (h : Hook) q o s :
  obj_at s (trampoline h) = Some o → attached s (trampoline h) (hooks_pre o ++ hooks_post o) →
  ∃ s', hook_RequestComplete h q s = Ok (answer (trampoline h), s') ∧
    ran (hooks_pre o ++ hooks_post o)
      (entries (trampoline h) NVMHOOK_PREISSUE q (hooks_pre o) ++
       entries (trampoline h) NVMHOOK_POSTISSUE q (hooks_post o) ++
       [mkEntry (trampoline h) (currentHookType o) (trampoline <$> parent o) q]) s s'.
Proof.
  intros E [Ht Ha]. set (t := trampoline h) in *.
  assert ((t ∉ hooks_pre o) ∧ (t ∉ hooks_post o)) as [Hpre Hpost].
  { split; intros Hin; (destruct (Ha t); [set_solver|done]). }
  destruct (run_hooks_ran t NVMHOOK_PREISSUE q (hooks_pre o) s) as (s1 & E1 & R1); [split; [done|set_solver]|].
  assert (obj_at s1 t = Some o) as Et by (by destruct R1 as (_ & -> & _)).
  destruct (run_hooks_ran t NVMHOOK_POSTISSUE q (hooks_post o) s1) as (s2 & E2 & R2).
  { eapply attached_ran, R1. split; [done|set_solver]. }
  assert (obj_at s2 t = Some o) as Et2 by (by destruct R2 as (_ & -> & _)).
  destruct (log_call_ran t q o s2 Et2) as (s3 & E3 & R3).
  exists s3. unfold hook_RequestComplete. fold t. cbn [vm_RequestComplete recorder].
  rewrite (bind_ok _ _ _ _ _ (load_obj_at _ _ _ E)), (bind_ok _ _ _ _ _ E1).
  rewrite (bind_ok _ _ _ _ _ (load_obj_at _ _ _ Et)), (bind_ok _ _ _ _ _ E2). split; [done|].
  pose proof (ran_trans _ _ _ _ _ _ _ R1 (ran_trans _ _ _ _ _ _ _ R2 R3)) as R.
  by rewrite app_nil_r in R.
Qed.
End Recorder.

(** C16. A command through a hook calls the pre-issue objects in the order they
    were attached, each with the object as its parent, then the object itself
    unless the last of them refused the request, then the post-issue objects;
    the answer is the object's, or true for a dropped request. A completion
    calls both groups first and always reaches the object. *)
Theorem hook_call_order (answer : ObjPtr → bool) (h : Hook) q o (s : Sim (list Entry)) :
  obj_at s (trampoline h) = Some o → attached s (trampoline h) (hooks_pre o ++ hooks_post o) →
  (∃ s', hook_IssueCommand (H := recorder answer) h q s =
      Ok (if dropped answer o then true else answer (trampoline h), s') ∧
    ran (hooks_pre o ++ hooks_post o) (command_calls answer (trampoline h) q o) s s') ∧
  (∃ s', hook_RequestComplete (H := recorder answer) h q s = Ok (answer (trampoline h), s') ∧
    ran (hooks_pre o ++ hooks_post o)
      (entries (trampoline h) NVMHOOK_PREISSUE q (hooks_pre o) ++
       entries (trampoline h) NVMHOOK_POSTISSUE q (hooks_post o) ++
       [mkEntry (trampoline h) (currentHookType o) (trampoline <$> parent o) q]) s s').
Proof. split; [by apply issue_order|by apply complete_order]. Qed.

(** ** Completions climb to the owner

    Objects that override nothing; [n] bounds the depth of the calls. *)

Fixpoint defaults {O} (out : six) (n : nat) : Virtuals O :=
  match n with
  | O => {| vm_IssueCommand _ _ := fail OutOfFuel; vm_IsIssuable _ _ := fail OutOfFuel;
            vm_IssueAtomic _ _ := fail OutOfFuel; vm_IssueFunctional _ _ := fail OutOfFuel;
            vm_NextIssuable _ _ := fail OutOfFuel; vm_Idle _ := fail OutOfFuel; vm_Drain _ := fail OutOfFuel;
            vm_Notify _ _ := fail OutOfFuel; vm_RequestComplete _ _ := fail OutOfFuel;
            vm_Callback _ _ := fail OutOfFuel; vm_Cycle _ _ := fail OutOfFuel |}
  | S n =>
      let V := defaults out n in
      {| vm_IssueCommand := NVMObject_IssueCommand; vm_IsIssuable := NVMObject_IsIssuable;
         vm_IssueAtomic := NVMObject_IssueAtomic; vm_IssueFunctional := NVMObject_IssueFunctional;
         vm_NextIssuable this q := match q with Some q => NVMObject_NextIssuable out this q | None => fail NullDeref end;
         vm_Idle := NVMObject_Idle; vm_Drain := NVMObject_Drain; vm_Notify _ _ := mret ();
         vm_RequestComplete := NVMObject_RequestComplete;
         vm_Callback _ _ := mret (); vm_Cycle _ _ := mret () |}
  end.

Section Climb.
Context {O : Type}.
Implicit Types (s : Sim O).

(** [n] parents up from [p] is [w], the first object that is [w], and nothing
    is attached to the objects in between. *)
Inductive climbs s (w : ObjPtr) : ObjPtr → nat → Prop :=
  | climbs_owner : climbs s w w 0
  | climbs_up p o h o' n :
      p ≠ w → obj_at s p = Some o → parent o = Some h →
      obj_at s (trampoline h) = Some o' → hooks_pre o' = [] → hooks_post o' = [] →
      climbs s w (trampoline h) n → climbs s w p (S n).

Lemma complete_climbs out s q r w this n : ∀ fuel,
  h_reqs (heap s) !! q = Some r → owner r = Some w → climbs s w this n → (n < fuel)%nat →
  vm_RequestComplete (Virtuals := defaults out fuel) this q s =
  Ok (true, s <| heap ::= λ h, h <| h_reqs ::= delete q |> |>).
Proof.
  intros fuel Hq Hw Hc. revert fuel. induction Hc as [|p o h o' n Hne Ho Hp Ho' Hpre Hpost Hc IH]; intros fuel Hf.
  all: destruct fuel as [|fuel]; [lia|]; cbn [defaults vm_RequestComplete]; unfold NVMObject_RequestComplete.
  all: rewrite (bind_load_req q r) by done.
  - rewrite decide_True by done. by rewrite (bind_delete_req q r) by done.
  - rewrite decide_False by congruence. rewrite (bind_ok _ _ _ _ _ (load_obj_at _ _ _ Ho)), Hp. run.
    unfold hook_RequestComplete. rewrite (bind_ok _ _ _ _ _ (load_obj_at _ _ _ Ho')), Hpre. cbn [run_hooks]. run.
    rewrite (bind_ok _ _ _ _ _ (load_obj_at _ _ _ Ho')), Hpost. cbn [run_hooks]. run.
    apply IH. lia.
Qed.

(** Without an owner on the way the climb ends at the root's null parent. *)
Inductive climbs_out s (owner : option ObjPtr) : ObjPtr → nat → Prop :=
  | out_root p o : owner ≠ Some p → obj_at s p = Some o → parent o = None → climbs_out s owner p 0
  | out_up p o h o' n :
      owner ≠ Some p → obj_at s p = Some o → parent o = Some h →
      obj_at s (trampoline h) = Some o' → hooks_pre o' = [] → hooks_post o' = [] →
      climbs_out s owner (trampoline h) n → climbs_out s owner p (S n).

Lemma complete_climbs_out out s q r this n : ∀ fuel,
  h_reqs (heap s) !! q = Some r → climbs_out s (owner r) this n → (n < fuel)%nat →
  vm_RequestComplete (Virtuals := defaults out fuel) this q s = Err NullDeref.
Proof.
  intros fuel Hq Hc. revert fuel. induction Hc as [p o Hne Ho Hp|p o h o' n Hne Ho Hp Ho' Hpre Hpost Hc IH]; intros fuel Hf.
  all: destruct fuel as [|fuel]; [lia|]; cbn [defaults vm_RequestComplete]; unfold NVMObject_RequestComplete.
  all: rewrite (bind_load_req q r) by done; rewrite decide_False by congruence.
  all: rewrite (bind_ok _ _ _ _ _ (load_obj_at _ _ _ Ho)), Hp; run; try done.
  unfold hook_RequestComplete. rewrite (bind_ok _ _ _ _ _ (load_obj_at _ _ _ Ho')), Hpre. cbn [run_hooks]. run.
  rewrite (bind_ok _ _ _ _ _ (load_obj_at _ _ _ Ho')), Hpost. cbn [run_hooks]. run.
  apply IH. lia.
Qed.
End Climb.

(** C17. The default [RequestComplete], along a path of objects none of which
    overrides it or has hooks ([climbs]): a completed request climbs from parent
    to parent to its owner, where it is deleted, once, and nothing else changes; a
    request whose owner is not on the way ends in the null parent of the root.
    What the classes that override it do is their own definition
    ([SubArray.RequestComplete], [MemoryController.RequestComplete], ...). *)
Theorem RequestComplete_to_owner {O} out (s : Sim O) q r this n fuel :
  h_reqs (heap s) !! q = Some r → (n < fuel)%nat →
  (∀ w, owner r = Some w → climbs s w this n →
    vm_RequestComplete (Virtuals := defaults out fuel) this q s =
    Ok (true, s <| heap ::= λ h, h <| h_reqs ::= delete q |> |>)) ∧
  (climbs_out s (owner r) this n →
    vm_RequestComplete (Virtuals := defaults out fuel) this q s = Err NullDeref).
Proof.
  intros Hq Hf. split.
  - intros w Hw Hc. by apply (complete_climbs out s q r w this n fuel).
  - intros Hc. by apply (complete_climbs_out out s q r this n fuel).
Qed.

(** ** Attaching *)

Section Attaching.
Context {O : Type}.
Implicit Types (s : Sim O).

(** The three lists, by the kind of call they are for. *)
Definition kind_list (k : HookType) (o : NVMObject) : list ObjPtr :=
  match k with NVMHOOK_PREISSUE => hooks_pre o | NVMHOOK_POSTISSUE => hooks_post o | _ => hooks_none o end.
Definition wants (k t : HookType) : Prop :=
  match k with
  | NVMHOOK_PREISSUE => t = NVMHOOK_PREISSUE ∨ t = NVMHOOK_BOTHISSUE
  | NVMHOOK_POSTISSUE => t = NVMHOOK_POSTISSUE ∨ t = NVMHOOK_BOTHISSUE
  | _ => t = NVMHOOK_NONE
  end.
Definition type_at s (x : ObjPtr) (t : HookType) : Prop := ∃ o, obj_at s x = Some o ∧ hookType o = t.

(** No list has an object twice, and every object is in just the lists of its
    type. *)
Definition hooks_ok s (o : NVMObject) : Prop :=
  (∀ k, NoDup (kind_list k o)) ∧
  (∀ k x, x ∈ kind_list k o → ∃ t, type_at s x t ∧ wants k t) ∧
  (∀ x, type_at s x NVMHOOK_BOTHISSUE → x ∈ hooks_pre o ↔ x ∈ hooks_post o).

(** The object [o'] is [o] with the objects [xs] attached. *)
Definition with_hooks s (xs : list ObjPtr) (o o' : NVMObject) : Prop :=
  parent o' = parent o ∧ children o' = children o ∧ hookType o' = hookType o ∧ decoder o' = decoder o ∧
  (∀ k, NoDup (kind_list k o) → NoDup (kind_list k o')) ∧
  ∀ k x, x ∈ kind_list k o' ↔ x ∈ kind_list k o ∨ (x ∈ xs ∧ ∃ t, type_at s x t ∧ wants k t).

Lemma elem_of_AddHookUnique l x y : y ∈ AddHookUnique l x ↔ y ∈ l ∨ y = x.
Proof. unfold AddHookUnique. case_decide; set_solver. Qed.
Lemma NoDup_AddHookUnique l x : NoDup l → NoDup (AddHookUnique l x).
Proof. unfold AddHookUnique. case_decide; [done|]. intros. apply NoDup_app. split_and!; [done|set_solver|by apply NoDup_singleton]. Qed.

(** [s'] differs from [s] in the object [c] only, whose type is the same. *)
Definition only_obj s c o' s' : Prop :=
  obj s' = obj s ∧ h_reqs (heap s') = h_reqs (heap s) ∧ obj_at s' c = Some o' ∧
  (∀ p, p ≠ c → obj_at s' p = obj_at s p) ∧ ∀ p t, type_at s' p t ↔ type_at s p t.

Lemma AddHook_ok s c oc x t :
  obj_at s c = Some oc → type_at s x t → t ≠ NVMHOOK_COUNT →
  ∃ s' o', AddHook c x s = Ok ((), s') ∧ only_obj s c o' s' ∧ with_hooks s [x] oc o'.
Proof.
  intros Hc Hx Ht. pose proof Hx as (ox & Ex & Et). unfold AddHook.
  rewrite (bind_ok _ _ _ _ _ (load_obj_at _ _ _ Ex)), Et.
  assert (∀ f, hookType (f oc) = hookType oc → with_hooks s [x] oc (f oc) → ∃ s' o',
    set_obj c f s = Ok ((), s') ∧ only_obj s c o' s' ∧ with_hooks s [x] oc o') as Hset.
  { intros f Hf Hw. destruct (set_obj_ok s c oc f Hc) as (s' & E & (P1 & P2 & P3)).
    exists s', (f oc). split; [done|]. split; [|done]. split_and!; [done..| | |].
    - by rewrite P3, decide_True.
    - intros p Hp. by rewrite P3, decide_False.
    - intros p t'. unfold type_at. rewrite P3. case_decide as Hd; [|done]. subst p. rewrite Hc. naive_solver. }
  assert (∀ t', type_at s x t' → t' = t) as Huniq.
  { intros t' (ox' & Ex' & Et'). congruence. }
  destruct t; try done; apply Hset; try (by fields); unfold with_hooks; fields; split_and!; try done.
  all: try by (intros k; destruct k; cbn; fields; auto using NoDup_AddHookUnique).
  all: intros k y; rewrite list_elem_of_singleton.
  all: destruct k; cbn; fields; rewrite ?elem_of_AddHookUnique; naive_solver.
Qed.

Lemma AddHooks_ok s c oc xs :
  obj_at s c = Some oc → (∀ x, x ∈ xs → ∃ t, type_at s x t ∧ t ≠ NVMHOOK_COUNT) →
  ∃ s' o', iter_objs (AddHook c) xs s = Ok ((), s') ∧ only_obj s c o' s' ∧ with_hooks s xs oc o'.
Proof.
  revert s oc. induction xs as [|x xs IH]; intros s oc Hc Hx.
  { exists s, oc. split; [done|]. split; [done|]. unfold with_hooks. split_and!; try done. set_solver. }
  destruct (Hx x) as (t & Ht & Htc); [by left|].
  destruct (AddHook_ok s c oc x t Hc Ht Htc) as (s1 & o1 & E1 & (A1 & A2 & A3 & A4 & A5) & W1).
  destruct (IH s1 o1 A3) as (s2 & o2 & E2 & (B1 & B2 & B3 & B4 & B5) & W2).
  { intros y Hy. destruct (Hx y) as (ty & Hty & ?); [by right|]. exists ty. by rewrite A5. }
  exists s2, o2. cbn [iter_objs]. rewrite (bind_ok _ _ _ _ _ E1). split; [done|]. split.
  - split_and!; [congruence|congruence|done| |].
    + intros p Hp. by rewrite B4, A4.
    + intros p t'. by rewrite B5, A5.
  - destruct W1 as (P1 & P2 & P3 & P4 & P5 & P6), W2 as (Q1 & Q2 & Q3 & Q4 & Q5 & Q6).
    split_and!; [congruence..|auto|]. intros k y. rewrite Q6, P6, list_elem_of_singleton, elem_of_cons.
    setoid_rewrite A5. naive_solver.
Qed.
End Attaching.

(** A child inherits what is attached to its parent: after [AddChild] each
    list of the child holds its own objects and those of the parent, none twice
    and each in the lists of its type, the child is the parent's last one, and
    all other objects are as before. *)
Theorem AddChild_inherits {O} (s : Sim O) this c o oc :
  this ≠ c → obj_at s this = Some o → obj_at s c = Some oc → hooks_ok s o → hooks_ok s oc →
  ∃ s' hk oc', AddChild this c s = Ok ((), s') ∧ trampoline hk = c ∧
    obj_at s' this = Some (o <| children := children o ++ [hk] |>) ∧
    obj_at s' c = Some oc' ∧ hooks_ok s' oc' ∧
    (∀ k x, x ∈ kind_list k oc' ↔ x ∈ kind_list k oc ∨ x ∈ kind_list k o) ∧
    ∀ p, p ≠ this → p ≠ c → obj_at s' p = obj_at s p.
Proof.
  intros Hne Ho Hoc (N1 & T1 & B1) (N2 & T2 & B2). unfold AddChild, new_hook.
  set (hk := mkHook (h_next (heap s)) c). set (s1 := s <| heap ::= λ h, h <| h_next ::= Pos.succ |> |>).
  assert (∀ p, obj_at s1 p = obj_at s p) as E1 by (intros; unfold obj_at, s1; by fields).
  assert (∀ p t, type_at s1 p t ↔ type_at s p t) as ET by (intros; unfold type_at; by rewrite E1).
  set (xs := hooks_none o ++ hooks_pre o ++ hooks_post o).
  assert (∀ x, x ∈ xs ↔ ∃ k, x ∈ kind_list k o) as Hxs.
  { intros x. unfold xs. rewrite !elem_of_app. split.
    - intros [?|[?|?]]; [by exists NVMHOOK_NONE|by exists NVMHOOK_PREISSUE|by exists NVMHOOK_POSTISSUE].
    - intros [k Hk]. destruct k; cbn in Hk; auto. }
  destruct (AddHooks_ok s1 c oc xs) as (s2 & oc' & E2 & (P1 & P2 & P3 & P4 & P5) & (W1 & W2 & W3 & W4 & W5 & W6)).
  { by rewrite E1. }
  { intros x [k Hk]%Hxs. destruct (T1 k x Hk) as (t & Ht & Hw). exists t. rewrite ET. split; [done|].
    intros ->. destruct k; cbn in Hw; naive_solver. }
  assert (obj_at s2 this = Some o) as E3 by (by rewrite P4, E1).
  destruct (set_obj_ok s2 this o (λ o, o <| children ::= λ l, l ++ [hk] |>) E3) as (s3 & E4 & (Q1 & Q2 & Q3)).
  assert (∀ p t, type_at s3 p t ↔ type_at s p t) as ET3.
  { intros p t. rewrite <- ET, <- P5. unfold type_at. rewrite Q3. case_decide; [|done]. subst p. rewrite E3.
    split; intros (? & [= <-] & <-); eexists; (split; [reflexivity|]); by fields. }
  assert (∀ k x, x ∈ kind_list k oc' ↔ x ∈ kind_list k oc ∨ x ∈ kind_list k o) as Hin.
  { intros k x. rewrite W6. setoid_rewrite ET. split; [|intros [?|Hx]; [by left|right; split; [apply Hxs; eauto|eauto]]].
    intros [?|[Hx (t & Ht & Hw)]]; [by left|]. right. apply Hxs in Hx as [k' Hk'].
    destruct (T1 k' x Hk') as (t' & (ox & Ex & <-) & Hw'), Ht as (ox' & Ex' & <-). rewrite Ex in Ex'. injection Ex' as <-.
    assert (hookType ox = NVMHOOK_BOTHISSUE → x ∈ hooks_pre o ↔ x ∈ hooks_post o) as HB.
    { intros Hb. apply B1. by exists ox. }
    destruct k, k'; cbn in *; naive_solver congruence. }
  assert (hooks_ok s3 oc') as Hok.
  { split_and!.
    - intros k. apply W5, N2.
    - intros k x [Hx|Hx]%Hin; [destruct (T2 k x Hx) as (t & Ht & Hw)|destruct (T1 k x Hx) as (t & Ht & Hw)];
        exists t; by rewrite ET3.
    - intros x Hx%ET3. pose proof (Hin NVMHOOK_PREISSUE x) as H1. pose proof (Hin NVMHOOK_POSTISSUE x) as H2.
      cbn in H1, H2. rewrite H1, H2, (B1 x Hx), (B2 x Hx). done. }
  exists s3, hk, oc'. split.
  - rewrite bind_eq. fold s1 hk. rewrite (bind_ok _ _ _ _ _ (load_obj_at s1 this o ltac:(by rewrite E1))).
    fold xs. by rewrite (bind_ok _ _ _ _ _ E2), E4.
  - split; [done|]. rewrite !Q3, decide_True, decide_False by congruence. split_and!; try done.
    intros p Hp1 Hp2. by rewrite Q3, decide_False, P4, E1 by done.
Qed.

(** ** Concrete inputs: object 1 with child 4, objects 2 and 3 attached to 1 *)

Definition test_objs : gmap positive NVMObject :=
  {[ 1 := (NVMObject_new NVMHOOK_NONE) <| hooks_pre := [2; 3] |> <| hooks_post := [3] |>;
     2 := (NVMObject_new NVMHOOK_NONE) <| hookType := NVMHOOK_PREISSUE |>;
     3 := (NVMObject_new NVMHOOK_NONE) <| hookType := NVMHOOK_BOTHISSUE |>;
     4 := (NVMObject_new NVMHOOK_NONE) <| parent := Some (mkHook 20 5) |>;
     5 := NVMObject_new NVMHOOK_NONE ]}%positive.
Definition test_req : NVMainRequest :=
  (NVMainRequest_new MEM_REQUEST_INCOMPLETE UNKNOWN_ACCESS 0) <| owner := Some 5%positive |>.
Definition test_sim {O} (o : O) : Sim O :=
  mkSim (mkHeap test_objs {[ 10%positive := test_req ]} ∅ 30 None) (EventQueue_new dzero) o.

(** Object 2 refuses, object 3 does not: the request reaches object 1. *)
Definition test_answer (p : ObjPtr) : bool := negb (Pos.eqb p 2).

Lemma hook_call_order_witness :
  ∃ s', hook_IssueCommand (H := recorder test_answer) (mkHook 20 1) 10 (test_sim []) = Ok (true, s') ∧
    ran [2; 3; 3]%positive
      [mkEntry 2 NVMHOOK_PREISSUE (Some 1%positive) 10; mkEntry 3 NVMHOOK_PREISSUE (Some 1%positive) 10;
       mkEntry 1 NVMHOOK_NONE None 10; mkEntry 3 NVMHOOK_POSTISSUE (Some 1%positive) 10] (test_sim []) s'.
Proof.
  refine (proj1 (hook_call_order test_answer (mkHook 20 1) 10
    ((NVMObject_new NVMHOOK_NONE) <| hooks_pre := [2; 3]%positive |> <| hooks_post := [3]%positive |>)
    (test_sim []) _ _)).
  - reflexivity.
  - split; [by eexists|]. intros it Hit.
    change (it ∈ [2; 3; 3]%positive) in Hit. rewrite !elem_of_cons in Hit.
    destruct Hit as [->|[->|[->|Hit]]]; [split; [done|by eexists]..|by apply not_elem_of_nil in Hit].
Defined.

Lemma RequestComplete_to_owner_witness :
  vm_RequestComplete (Virtuals := defaults (mkSix 0 0 0 0 0 0) 2) 4%positive 10%positive (test_sim ()) =
  Ok (true, (test_sim ()) <| heap ::= λ h, h <| h_reqs ::= delete 10%positive |> |>).
Proof.
  refine (proj1 (RequestComplete_to_owner (mkSix 0 0 0 0 0 0) (test_sim ()) 10 test_req 4 1 2 _ _) 5%positive _ _).
  - reflexivity.
  - lia.
  - reflexivity.
  - refine (climbs_up _ _ _ ((NVMObject_new NVMHOOK_NONE) <| parent := Some (mkHook 20 5) |>) (mkHook 20 5)
      (NVMObject_new NVMHOOK_NONE) _ _ _ _ _ _ _ _); [done|reflexivity..|apply climbs_owner].
Defined.

Lemma AddChild_inherits_witness :
  ∃ s' hk oc', AddChild 1 4 (test_sim ()) = Ok ((), s') ∧ trampoline hk = 4%positive ∧
    obj_at s' 4 = Some oc' ∧ 3%positive ∈ hooks_pre oc'.
Proof.
  destruct (AddChild_inherits (test_sim ()) 1 4
    ((NVMObject_new NVMHOOK_NONE) <| hooks_pre := [2; 3]%positive |> <| hooks_post := [3]%positive |>)
    ((NVMObject_new NVMHOOK_NONE) <| parent := Some (mkHook 20 5) |>))
    as (s' & hk & oc' & E & Hh & _ & Hc & _ & Hin & _).
  - done.
  - reflexivity.
  - reflexivity.
  - split_and!.
    + intros k. destruct k; cbn; by_decide.
    + intros k. apply Forall_forall.
      destruct k; repeat apply Forall_cons_2; try apply Forall_nil_2.
      all: first [exists NVMHOOK_PREISSUE; split; [eexists; split; reflexivity|by left]
        |exists NVMHOOK_BOTHISSUE; split; [eexists; split; reflexivity|by right]].
    + intros x (ox & Ex & Et). cbn.
      assert (x = 3%positive) as ->; [|by_decide].
      unfold obj_at in Ex. cbn in Ex. unfold test_objs in Ex.
      rewrite !lookup_insert_Some, lookup_singleton_Some in Ex. naive_solver.
  - split_and!; [intros k; destruct k; cbn; by_decide|intros k x Hx; destruct k; by apply not_elem_of_nil in Hx|done].
  - exists s', hk, oc'. split_and!; [done..|]. apply (Hin NVMHOOK_PREISSUE). right. by_decide.
Defined.
