(* ===== verification/Tree.v ===== *)
(** * Parents and children

    The parts of the memory form a tree: a part holds its own state and its
    children, and reaches a child by number or through its decoder. What a
    parent asks of a child is an interface ([ChildOps]) with laws ([ChildLaws]);
    what happens at a parent is, for each of its children, a run of that child. *)

From S2P Require Import Prelude NVMTypes Translation SimInterface Heap EventQueue Frame.

(** What a parent asks of a child, through the child's hook. *)
Class ChildOps (C : Type) := {
  ch_IsIssuable : ReqPtr → ST (Sim C) (bool * option FailReasons);
  ch_IssueCommand : ReqPtr → ST (Sim C) bool;
  ch_NextIssuable : ReqPtr → ST (Sim C) Z;
  ch_Idle : ST (Sim C) bool;
  ch_Cycle : Z → ST (Sim C) unit
}.

(** The laws of the interface: a question changes nothing but the child that is
    asked, no time passes in a command, and requests stay what they are. *)
Class ChildLaws (C : Type) `{ChildOps C} := {
  cl_IsIssuable : ∀ q s a s', ch_IsIssuable q s = Ok (a, s') → heap s' = heap s ∧ queue s' = queue s;
  cl_Idle : ∀ s a s', ch_Idle s = Ok (a, s') → s' = s;
  cl_IssueCommand : ∀ q, timeless (ch_IssueCommand q);
  cl_NextIssuable : ∀ q s a s', ch_NextIssuable q s = Ok (a, s') → heap s' = heap s ∧ queue s' = queue s;
  cl_Cycle : ∀ n, timeless (ch_Cycle n);
  cl_keeps : ∀ q q' s b s', ch_IssueCommand q' s = Ok (b, s') → keeps_req q (heap s) (heap s')
}.

(** A parent with the children it created. *)
Record Node (B C : Type) := mkNode { node : B; kids : list C }.
Arguments mkNode {B C}.
Arguments node {B C}.
Arguments kids {B C}.
#[export] Instance eta_Node B C : Settable (Node B C) := fields! mkNode < node; kids >.

(** A parent whose own state has a decoder. *)
Class Decodes (B : Type) := {
  at_of : B → AddressTranslator;
  set_at : AddressTranslator → B → B
}.

(** A child is an object with its state: its operations know who they are. *)
Record Child (O : Type) := mkChild { c_this : ObjPtr; c_obj : O }.
Arguments mkChild {O}.
Arguments c_this {O}.
Arguments c_obj {O}.

Definition inner {O} (s : Sim (Child O)) : Sim O := mkSim (heap s) (queue s) (c_obj (obj s)).

Definition at_child {O A} (m : ObjPtr → ST (Sim O) A) : ST (Sim (Child O)) A := λ s,
  match m (c_this (obj s)) (inner s) with
  | Ok (a, s') => Ok (a, mkSim (heap s') (queue s') (mkChild (c_this (obj s)) (obj s')))
  | Err e => Err e
  end.

Lemma at_child_inv {O A} (m : ObjPtr → ST (Sim O) A) s a s' :
  at_child m s = Ok (a, s') →
  m (c_this (obj s)) (inner s) = Ok (a, inner s') ∧ c_this (obj s') = c_this (obj s).
Proof. unfold at_child. destruct (m _ _) as [[a' x]|]; [|done]. intros [= <- <-]. by destruct x. Qed.

Lemma timeless_at_child {O A} (m : ObjPtr → ST (Sim O) A) : (∀ this, timeless (m this)) → timeless (at_child m).
Proof. intros Hm s a s' [Hr _]%at_child_inv. by destruct (Hm _ _ _ _ Hr). Qed.

Section Access.
Context {B C : Type}.

Definition me : ST (Sim (Node B C)) B := gets (λ s, node (obj s)).
Definition set_me (f : B → B) : ST (Sim (Node B C)) unit := set_self (λ b, b <| node ::= f |>).

(** A call of child [i]. *)
Definition on_child {A} (i : nat) (m : ST (Sim C) A) : ST (Sim (Node B C)) A := λ s,
  match kids (obj s) !! i with
  | None => Err OutOfBounds
  | Some c =>
      match m (mkSim (heap s) (queue s) c) with
      | Ok (a, s') => Ok (a, mkSim (heap s') (queue s') ((obj s) <| kids ::= <[i := obj s']> |>))
      | Err e => Err e
      end
  end.

(** [GetChild( i )] asserts that the child exists. *)
Definition child_at (i : Z) : ST (Sim (Node B C)) nat :=
  s ← get;
  if decide (Z.to_nat i < length (kids (obj s)))%nat then mret (Z.to_nat i) else fail AssertFail.

Context `{Decodes B}.
Variable out : six.

(** [GetChild( req )]: the decoder chooses. [out] is what the decoder finds in
    its result variables. *)
Definition child_of (q : ReqPtr) : ST (Sim (Node B C)) nat :=
  r ← load_req q; b ← me;
  '(i, t) ← lift (TranslateRequest r out (at_of b));
  set_me (set_at t);;
  mret (Z.to_nat i).

Context `{ChildOps C}.

Definition to_child (q : ReqPtr) : ST (Sim (Node B C)) bool := i ← child_of q; on_child i (ch_IssueCommand q).
Definition ask_child (q : ReqPtr) : ST (Sim (Node B C)) (bool * option FailReasons) :=
  i ← child_of q; on_child i (ch_IsIssuable q).
End Access.

(** ** Relations on the parent's own state *)

Definition on_node {B C} (R : B → B → Prop) (s s' : Sim (Node B C)) : Prop := R (node (obj s)) (node (obj s')).

#[export] Instance on_node_rel {B C} R `{!PreOrder R} : ObjRel (on_node (B := B) (C := C) R).
Proof.
  split; unfold on_node.
  - intros s1 s2 s3 H1 H2. by etransitivity.
  - intros s s' ->. reflexivity.
Qed.

Section Frames.
Context {B C : Type} `{!Decodes B}.
Implicit Types (s : Sim (Node B C)).

Lemma on_child_inv {A} i (m : ST (Sim C) A) s a s' :
  on_child i m s = Ok (a, s') →
  ∃ c sc, kids (obj s) !! i = Some c ∧ m (mkSim (heap s) (queue s) c) = Ok (a, sc) ∧
    heap s' = heap sc ∧ queue s' = queue sc ∧ node (obj s') = node (obj s).
Proof.
  unfold on_child. destruct (kids (obj s) !! i) as [c|] eqn:E; [|done].
  destruct (m _) as [[a' sc]|] eqn:Em; [|done]. intros [= <- <-]. exists c, sc. split_and!; done.
Qed.

Lemma on_child_node {A} i (m : ST (Sim C) A) s a s' :
  on_child i m s = Ok (a, s') → node (obj s') = node (obj s).
Proof. by intros (c & sc & _ & _ & _ & _ & E)%on_child_inv. Qed.

(** A child that is asked whether it is idle. *)
Lemma on_idle_inv `{ChildLaws C} i s a s' : on_child i ch_Idle s = Ok (a, s') → s' = s.
Proof.
  unfold on_child. destruct (kids (obj s) !! i) as [c|] eqn:E; [|done].
  destruct (ch_Idle _) as [[a' sc]|] eqn:Ei; [|done]. apply cl_Idle in Ei as ->. intros [= _ <-]. cbn.
  destruct s as [h q [b l]]. f_equal. unfold upd. cbn in *. f_equal. by apply list_insert_id.
Qed.

Lemma child_at_inv i s a s' : child_at (B := B) (C := C) i s = Ok (a, s') → s' = s.
Proof. unfold child_at. run. case_decide; [by intros [= _ <-]|done]. Qed.

Lemma pres_on_child R `{!PreOrder R} {A} i (m : ST (Sim C) A) : pres (on_node (B := B) R) (on_child i m).
Proof. intros s a s' E%on_child_node. unfold on_node. by rewrite E. Qed.

Lemma pres_child_at R `{!PreOrder R} i : pres (on_node R) (child_at (B := B) (C := C) i).
Proof. apply quiet_pres; [apply _|]. unfold child_at. quiet_tac. Qed.

Lemma pres_me R `{!PreOrder R} : pres (on_node R) (me (B := B) (C := C)).
Proof. apply pres_gets. apply _. Qed.

Lemma pres_set_me (R : B → B → Prop) `{!PreOrder R} f : (∀ b, R b (f b)) → pres (on_node R) (set_me (C := C) f).
Proof. intros HR s a s' [= _ <-]. unfold on_node. fields. apply HR. Qed.

Lemma timeless_on_child {A} i (m : ST (Sim C) A) : timeless m → timeless (on_child (B := B) i m).
Proof.
  intros Hm s a s' (c & sc & _ & E & Eh & Eq & _)%on_child_inv. destruct (Hm _ _ _ E) as [Et Ew]. split; by rewrite ?Eh, ?Eq.
Qed.
Lemma timeless_me : timeless (me (B := B) (C := C)).
Proof. apply timeless_gets. Qed.
Lemma timeless_set_me f : timeless (set_me (B := B) (C := C) f).
Proof. apply timeless_set_self. Qed.
Lemma timeless_child_at i : timeless (child_at (B := B) (C := C) i).
Proof. unfold child_at. timeless_tac. Qed.
Lemma timeless_child_of out q : timeless (child_of (B := B) (C := C) out q).
Proof. unfold child_of, me, set_me. timeless_tac. Qed.
End Frames.

#[export] Hint Resolve pres_on_child pres_child_at pres_me : pres.
#[export] Hint Resolve timeless_on_child timeless_me timeless_set_me timeless_child_at timeless_child_of
  cl_IssueCommand cl_Cycle : timeless.

(** [pres_tac] through the operations of a parent; the updates of its own state
    are left. *)
Ltac node_step :=
  first
    [ solve [eauto with pres nocore typeclass_instances]
    | lazymatch goal with |- pres ?R _ =>
        first
          [ apply (quiet_pres R); solve [eauto with pres nocore]
          | apply pres_on_child; solve [apply _]
          | apply pres_me; solve [apply _]
          | apply (pres_bind R); [|intros ?]
          | apply pres_set_me; [solve [apply _]|intros ?]
          | apply (pres_set_self R); intros ? ] end
    | head_step ].
Ltac node_tac := repeat node_step.

(** ** Questions

    [asks R]: a computation that changes nothing but the children and, by [R],
    the parent's own state. *)

Section Asks.
Context {B C : Type} `{!Decodes B} `{ChildLaws C}.
Variable R : B → B → Prop.
Context `{!PreOrder R}.
Variable out : six.
Implicit Types (s : Sim (Node B C)).

Definition asks {A} (m : ST (Sim (Node B C)) A) : Prop := ∀ s a s', m s = Ok (a, s') →
  heap s' = heap s ∧ queue s' = queue s ∧ R (node (obj s)) (node (obj s')).

Lemma asks_bind {A D} (m : ST _ A) (f : A → ST _ D) : asks m → (∀ a, asks (f a)) → asks (m ≫= f).
Proof using PreOrder0.
  intros Hm Hf s b s' (a & s1 & E1 & E2)%bind_inv. destruct (Hm _ _ _ E1) as (A1 & A2 & A3).
  destruct (Hf _ _ _ _ E2) as (B1 & B2 & B3). split_and!; [congruence..|]. by etransitivity.
Qed.
Lemma asks_pure {A} (m : ST _ A) : (∀ s a s', m s = Ok (a, s') → s' = s) → asks m.
Proof using PreOrder0. by intros Hm s a s' ->%Hm. Qed.
Lemma asks_ret {A} (a : A) : asks (mret a).
Proof using PreOrder0. apply asks_pure. by intros s b s' [= _ <-]. Qed.
Lemma asks_gets {A} (f : _ → A) : asks (gets f).
Proof using PreOrder0. apply asks_pure. by intros s b s' [= _ <-]. Qed.
Lemma asks_me : asks me.
Proof using PreOrder0. apply asks_gets. Qed.
Lemma asks_now : asks now.
Proof using PreOrder0. apply asks_gets. Qed.
Lemma asks_fail {A} e : asks (fail (A := A) e).
Proof using. done. Qed.
Lemma asks_load q : asks (load_req q).
Proof using PreOrder0. apply asks_pure. by intros s b s' [-> _]%load_req_inv. Qed.
Lemma asks_lift {A} (m : res A) : asks (lift m).
Proof using PreOrder0. apply asks_pure. intros s b s'. unfold lift. destruct m; [by intros [= _ <-]|done]. Qed.
Lemma asks_set_me f : (∀ b, R b (f b)) → asks (set_me f).
Proof using. intros Hf s a s' [= _ <-]. split_and!; [done..|]. fields. apply Hf. Qed.
Lemma asks_child_at i : asks (child_at i).
Proof using PreOrder0. apply asks_pure. apply child_at_inv. Qed.
Lemma asks_on_child i q : asks (on_child i (ch_IsIssuable q)).
Proof using PreOrder0 H0.
  intros s a s' (c & sc & _ & E & Eh & Eq & Eb)%on_child_inv. apply cl_IsIssuable in E as [E1 E2]. cbn in *.
  split_and!; [congruence..|]. by rewrite Eb.
Qed.
Lemma asks_on_next i q : asks (on_child i (ch_NextIssuable q)).
Proof using PreOrder0 H0.
  intros s a s' (c & sc & _ & E & Eh & Eq & Eb)%on_child_inv. apply cl_NextIssuable in E as [E1 E2]. cbn in *.
  split_and!; [congruence..|]. by rewrite Eb.
Qed.
Lemma asks_on_idle i : asks (on_child i ch_Idle).
Proof using PreOrder0 H0.
  intros s a s' (c & sc & _ & E & Eh & Eq & Eb)%on_child_inv. apply cl_Idle in E as ->. cbn in *.
  split_and!; [done..|]. by rewrite Eb.
Qed.
Lemma asks_child_of q : (∀ t b, R b (set_at t b)) → asks (child_of out q).
Proof using PreOrder0.
  intros Hat. unfold child_of. apply asks_bind; [apply asks_load|intros r]. apply asks_bind; [apply asks_gets|intros b].
  apply asks_bind; [apply asks_lift|intros [i t]]. apply asks_bind; [|intros; apply asks_ret].
  apply asks_set_me. intros b'. apply Hat.
Qed.
Lemma asks_ask_child q : (∀ t b, R b (set_at t b)) → asks (ask_child out q).
Proof using PreOrder0 H0.
  intros Hat. unfold ask_child. apply asks_bind; [by apply asks_child_of|intros i]. apply asks_on_child.
Qed.
End Asks.

Create HintDb asks discriminated.
#[export] Hint Constants Opaque : asks.
#[export] Hint Resolve asks_ret asks_gets asks_me asks_now asks_fail asks_load asks_lift asks_child_at asks_on_child
  asks_on_next asks_on_idle asks_child_of asks_ask_child : asks.
Ltac asks_tac :=
  repeat first [solve [eauto with asks nocore typeclass_instances] | apply asks_bind; [apply _| |intros ?] | head_step].

Definition any {B : Type} : B → B → Prop := λ _ _, True.
#[export] Instance any_preorder {B} : PreOrder (any (B := B)).
Proof. by split. Qed.

(** A command keeps the requests. *)
Lemma to_child_keeps {B C} `{!Decodes B} `{ChildLaws C} out q q' (s : Sim (Node B C)) b s' :
  to_child out q' s = Ok (b, s') → keeps_req q (heap s) (heap s').
Proof.
  unfold to_child. intros Hr. next Hr.
  apply (asks_child_of any) in E as (E & _ & _); [|done].
  apply on_child_inv in Hr as (c & sc & _ & Hc & -> & _). apply (cl_keeps q) in Hc. cbn in Hc. by rewrite E in Hc.
Qed.

Lemma to_child_node {B C} `{!Decodes B} `{ChildOps C} (R : B → B → Prop) `{!PreOrder R} out q (s : Sim (Node B C)) b s' :
  (∀ t b, R b (set_at t b)) → to_child out q s = Ok (b, s') → R (node (obj s)) (node (obj s')).
Proof.
  intros Hat Hr. unfold to_child in Hr. next Hr. apply on_child_node in Hr as ->.
  by eapply (asks_child_of R) in E as (_ & _ & E).
Qed.

(** ** Requests that are alive, through the calls of children *)

Section Keeping.
Context {B C : Type} `{!Decodes B} `{ChildLaws C}.

Lemma keeping_on_child q i q' : keeping q (on_child (B := B) i (ch_IssueCommand q')).
Proof. intros s b s' (c & sc & _ & Hc & E & _)%on_child_inv. apply (cl_keeps q) in Hc. unfold keeps. by rewrite E. Qed.
Lemma keeping_asks q {A} (m : ST (Sim (Node B C)) A) : asks any m → keeping q m.
Proof. intros Hm s a s' (E & _)%Hm. by apply keeps_heap. Qed.
Lemma keeping_child_of q out q' : keeping q (child_of (B := B) (C := C) out q').
Proof. apply keeping_asks, asks_child_of; [apply _|done]. Qed.
Lemma keeping_ask_child q out q' : keeping q (ask_child (B := B) (C := C) out q').
Proof. apply keeping_asks, asks_ask_child; [apply _|done]. Qed.
Lemma keeping_ask_at q i q' : keeping q (on_child (B := B) i (ch_IsIssuable q')).
Proof. apply keeping_asks, asks_on_child. apply _. Qed.
Lemma keeping_idle q i : keeping q (on_child (B := B) (C := C) i ch_Idle).
Proof. apply keeping_asks, asks_on_idle. apply _. Qed.
Lemma keeping_child_at q i : keeping q (child_at (B := B) (C := C) i).
Proof. intros s a s' ->%child_at_inv. by apply keeps_heap. Qed.
Lemma keeping_me q : keeping q (me (B := B) (C := C)).
Proof. apply keeping_gets. Qed.
Lemma keeping_set_me q f : keeping q (set_me (B := B) (C := C) f).
Proof. apply keeping_set_self. Qed.
Lemma keeping_to_child q out q' : keeping q (to_child (B := B) (C := C) out q').
Proof. unfold to_child. apply keeping_bind; [apply keeping_child_of|intros i; apply keeping_on_child]. Qed.
End Keeping.

#[export] Hint Resolve keeping_on_child keeping_child_of keeping_ask_child keeping_ask_at keeping_idle keeping_child_at
  keeping_me keeping_set_me keeping_to_child : keeping.

Section Ends.
Context {B C : Type} `{!Decodes B} `{ChildOps C}.

Lemma ends_on_child {A} i (m : ST (Sim C) A) : ends m → ends (on_child (B := B) i m).
Proof.
  intros Hm s. unfold on_child. destruct (_ !! i); [|done].
  pose proof (Hm (mkSim (heap s) (queue s) c)) as He. destruct (m _) as [[]|e]; [done|]. by intros [= ->].
Qed.
Lemma ends_child_at i : ends (child_at (B := B) (C := C) i).
Proof. unfold child_at. ends_tac. Qed.
Lemma ends_me : ends (me (B := B) (C := C)). Proof. by intros s. Qed.
Lemma ends_set_me f : ends (set_me (B := B) (C := C) f). Proof. by intros s. Qed.
#[local] Hint Resolve ends_me ends_set_me : ends.
Lemma ends_child_of out q : ends (child_of (B := B) (C := C) out q).
Proof. unfold child_of. ends_tac. Qed.
#[local] Hint Resolve ends_child_of ends_on_child : ends.
Lemma ends_to_child out q : (∀ q, ends (ch_IssueCommand q)) → ends (to_child (B := B) (C := C) out q).
Proof. intros Hc. unfold to_child. ends_tac. Qed.
End Ends.
#[export] Hint Resolve ends_on_child ends_child_at ends_me ends_set_me ends_child_of ends_to_child : ends.

Section Time.
Context {B C : Type} `{!Decodes B} `{ChildLaws C}.
Lemma timeless_asks {A} (m : ST (Sim (Node B C)) A) : asks any m → timeless m.
Proof. intros Hm s a s' (Eh & Eq & _)%Hm. by apply steady_same. Qed.
Lemma timeless_ask_at i q : timeless (on_child (B := B) i (ch_IsIssuable q)).
Proof. apply timeless_asks, asks_on_child. apply _. Qed.
Lemma timeless_idle i : timeless (on_child (B := B) (C := C) i ch_Idle).
Proof. apply timeless_asks, asks_on_idle. apply _. Qed.
Lemma timeless_next i q : timeless (on_child (B := B) i (ch_NextIssuable q)).
Proof. apply timeless_asks, asks_on_next. apply _. Qed.
End Time.
#[export] Hint Resolve timeless_ask_at timeless_idle timeless_next : timeless.

(** ** The runs of the children *)

Section Runs.
Context {B C : Type} `{!Decodes B} `{ChildOps C}.
Variable out : six.
Variable own : Sim C → Sim C → Prop.
Implicit Types (s : Sim (Node B C)) (c : C).

(** What can happen to a child: its parent's calls, what the event queue makes
    it do ([own]), and the rest of the system. *)
Inductive child_step : Sim C → Sim C → Prop :=
  | child_issue sc q b sc' : ch_IssueCommand q sc = Ok (b, sc') → child_step sc sc'
  | child_query sc q a sc' : ch_IsIssuable q sc = Ok (a, sc') → child_step sc sc'
  | child_idle sc a sc' : ch_Idle sc = Ok (a, sc') → child_step sc sc'
  | child_cycle sc n sc' : ch_Cycle n sc = Ok ((), sc') → child_step sc sc'
  | child_own sc sc' : own sc sc' → child_step sc sc'
  | child_env sc sc' : obj sc' = obj sc → child_step sc sc'.

Definition seen s c : Sim C := mkSim (heap s) (queue s) c.

(** The state after child [i] acted. *)
Definition child_acts (i : nat) s (sc : Sim C) : Sim (Node B C) :=
  mkSim (heap sc) (queue sc) ((obj s) <| kids ::= <[i := obj sc]> |>).

(** Each child takes steps of its own. *)
Definition children_run s s' : Prop :=
  length (kids (obj s')) = length (kids (obj s)) ∧
  ∀ i c, kids (obj s) !! i = Some c →
    ∃ c', kids (obj s') !! i = Some c' ∧ rtc child_step (seen s c) (seen s' c').

#[export] Instance children_run_rel : ObjRel children_run.
Proof using.
  split.
  - intros s1 s2 s3 [L1 H1] [L2 H2]. split; [congruence|]. intros i c Hc.
    destruct (H1 i c Hc) as (c1 & Hc1 & R1). destruct (H2 i c1 Hc1) as (c2 & Hc2 & R2).
    exists c2. split; [done|]. by etransitivity.
  - intros s s' E. unfold children_run. rewrite E. split; [done|]. intros i c Hc. exists c. split; [done|].
    apply rtc_once, child_env. done.
Qed.

Lemma run_set_me f : pres children_run (set_me f).
Proof using.
  intros s a s' [= _ <-]. split; [by fields|]. intros i c Hc. exists c. fields. split; [done|].
  apply rtc_once, child_env. done.
Qed.

Lemma run_child_acts i s c sc :
  kids (obj s) !! i = Some c → child_step (seen s c) sc → children_run s (child_acts i s sc).
Proof using.
  intros Hc Hstep. unfold child_acts. split; [cbn [obj]; fields; apply length_insert|].
  intros j d Hd. cbn [obj]. fields. destruct (decide (i = j)) as [<-|Hne].
  - rewrite Hc in Hd. injection Hd as <-. exists (obj sc). split.
    + apply list_lookup_insert_eq. by eapply lookup_lt_Some.
    + apply rtc_once. by destruct sc.
  - exists d. rewrite list_lookup_insert_ne by done. split; [done|]. apply rtc_once, child_env. done.
Qed.

Lemma on_child_run {A} i (m : ST (Sim C) A) s a s' c :
  kids (obj s) !! i = Some c → on_child i m s = Ok (a, s') →
  ∃ sc, m (seen s c) = Ok (a, sc) ∧ s' = child_acts i s sc.
Proof using.
  intros Hc. unfold on_child. rewrite Hc. destruct (m _) as [[a' sc]|] eqn:Em; [|done]. intros [= <- <-]. by exists sc.
Qed.

Lemma run_on_child {A} i (m : ST (Sim C) A) :
  (∀ sc a sc', m sc = Ok (a, sc') → child_step sc sc') → pres children_run (on_child i m).
Proof using.
  intros Hm s a s'. unfold on_child. destruct (kids (obj s) !! i) as [c|] eqn:Ei; [|done].
  destruct (m _) as [[a' sc]|] eqn:Em; [|done]. intros [= _ <-]. apply (run_child_acts i s c sc); [done|].
  by eapply Hm.
Qed.

Lemma run_issue_child i q : pres children_run (on_child i (ch_IssueCommand q)).
Proof using. apply run_on_child. intros. by eapply child_issue. Qed.
Lemma run_ask_at i q : pres children_run (on_child i (ch_IsIssuable q)).
Proof using. apply run_on_child. intros. by eapply child_query. Qed.
Lemma run_idle_child i : pres children_run (on_child i ch_Idle).
Proof using. apply run_on_child. intros. by eapply child_idle. Qed.
Lemma run_cycle_child i n : pres children_run (on_child i (ch_Cycle n)).
Proof using. apply run_on_child. intros sc [] sc'. by apply child_cycle. Qed.
Lemma run_child_at i : pres children_run (child_at i).
Proof using. apply quiet_pres; [apply _|]. unfold child_at. quiet_tac. Qed.
Lemma run_me : pres children_run me.
Proof using. apply pres_gets. apply _. Qed.
#[local] Hint Resolve run_issue_child run_ask_at run_idle_child run_cycle_child run_child_at run_me run_set_me : pres.
Lemma run_child_of q : pres children_run (child_of out q).
Proof using. unfold child_of. pres_tac. Qed.
#[local] Hint Resolve run_child_of : pres.
Lemma run_ask_child q : pres children_run (ask_child out q).
Proof using. unfold ask_child. pres_tac. Qed.
Lemma run_to_child q : pres children_run (to_child out q).
Proof using. unfold to_child. pres_tac. Qed.
End Runs.

#[export] Hint Resolve run_issue_child run_ask_at run_idle_child run_cycle_child run_child_at run_me run_set_me
  run_child_of run_ask_child run_to_child : pres.

(** ** The child a request goes to *)

(** The decoder remembers the low bits it computed and nothing else. *)
Lemma TranslateRequest_low out r t x :
  match TranslateRequest r out t, TranslateRequest r out (t <| lowColBits := x |>) with
  | Ok (i, t1), Ok (j, t2) => i = j ∧ t1 <| lowColBits := 0 |> = t2 <| lowColBits := 0 |> ∧
      t1 <| lowColBits := 0 |> = t <| lowColBits := 0 |>
  | Err _, Err _ => True
  | _, _ => False
  end.
Proof.
  unfold TranslateRequest. destruct (IsTranslated _); [by destruct t|].
  unfold TranslateField, Translate. fields. destruct (method t); [|by destruct t].
  change (low_bits (t <| lowColBits := x |>)) with (low_bits t).
  destruct (low_bits t) as [[o low]|]; [|done]. cbn [mbind res_bind].
  destruct (shr64 _ o); [|done]. cbn [mbind res_bind]. destruct (shr64 _ low); [|done]. cbn [mbind res_bind].
  destruct (foldM _ _ _); [|done]. by destruct t.
Qed.

(** The decoder is a part of the state that [set_at] replaces. *)
Class DecodesLaws (B : Type) `{Decodes B} := { at_set_at : ∀ t b, at_of (set_at t b) = t }.

Section Targets.
Context {B C : Type} `{DecodesLaws B} `{ChildOps C}.
Variable out : six.
Implicit Types (s : Sim (Node B C)).

Definition target (b : B) (r : NVMainRequest) : option nat :=
  match TranslateRequest r out (at_of b) with Ok (i, _) => Some (Z.to_nat i) | Err _ => None end.

Definition same_map (b b' : B) : Prop :=
  (at_of b') <| lowColBits := 0 |> = (at_of b) <| lowColBits := 0 |>.
#[export] Instance same_map_preorder : PreOrder same_map.
Proof using. unfold same_map. split; [done|]. intros ? ? ? ? ?. congruence. Qed.

Lemma target_map b b' r : same_map b b' → target b' r = target b r.
Proof using.
  unfold same_map, target. intros E.
  assert (at_of b' = (at_of b) <| lowColBits := lowColBits (at_of b') |>) as ->.
  { destruct (at_of b), (at_of b'). cbn in *. by simplify_eq. }
  pose proof (TranslateRequest_low out r (at_of b) (lowColBits (at_of b'))) as Ht.
  destruct (TranslateRequest _ _ (at_of b)) as [[]|], (TranslateRequest _ _ (_ <| lowColBits := _ |>)) as [[]|];
    try done. by destruct Ht as (-> & _ & _).
Qed.

Lemma child_of_target q s i s' r :
  h_reqs (heap s) !! q = Some r → child_of out q s = Ok (i, s') →
  target (node (obj s)) r = Some i ∧ heap s' = heap s ∧ queue s' = queue s ∧ kids (obj s') = kids (obj s) ∧
  same_map (node (obj s)) (node (obj s')).
Proof.
  intros Hq Hr. unfold child_of, me, set_me in Hr. load Hr. rewrite Hq in E. injection E as <-.
  autorewrite with run in Hr. next Hr. destruct r0 as [j t]. unfold lift in E.
  destruct (TranslateRequest r out (at_of (node (obj s)))) as [[j' t']|] eqn:Et; [|done].
  injection E as -> -> <-. autorewrite with run in Hr. injection Hr as <- <-. fields.
  unfold target. rewrite Et. split_and!; [done..|]. unfold same_map. rewrite at_set_at.
  pose proof (TranslateRequest_low out r (at_of (node (obj s))) (lowColBits (at_of (node (obj s))))) as Ht.
  rewrite Et in Ht. destruct (TranslateRequest _ _ (_ <| lowColBits := _ |>)) as [[]|]; [|done].
  destruct Ht as (_ & -> & <-). done.
Qed.

Lemma map_child_of q : pres (on_node (C := C) same_map) (child_of out q).
Proof.
  intros s i s' Hr. assert (∃ r, h_reqs (heap s) !! q = Some r) as [r Hq].
  { unfold child_of in Hr. load Hr. eauto. }
  by destruct (child_of_target _ _ _ _ _ Hq Hr) as (_ & _ & _ & _ & Hm).
Qed.

Lemma to_child_target q s s' r :
  h_reqs (heap s) !! q = Some r → to_child out q s = Ok (true, s') →
  ∃ i c sc, target (node (obj s)) r = Some i ∧ kids (obj s) !! i = Some c ∧
    ch_IssueCommand q (seen s c) = Ok (true, sc) ∧ seen s' (obj sc) = sc ∧ kids (obj s') !! i = Some (obj sc).
Proof.
  intros Hq Hr. unfold to_child in Hr. next Hr.
  destruct (child_of_target _ _ _ _ _ Hq E) as (Ht & Eh & Eq & Es & _).
  unfold on_child in Hr. rewrite Es in Hr. destruct (kids (obj s) !! r0) as [c|] eqn:Ec; [|done].
  rewrite Eh, Eq in Hr. destruct (ch_IssueCommand q _) as [[b sc]|] eqn:Ei; [|done]. injection Hr as -> <-.
  exists r0, c, sc. split_and!; [done|done|exact Ei|by destruct sc|].
  cbn [obj]. fields. rewrite Es. apply list_lookup_insert_eq. by eapply lookup_lt_Some.
Qed.

Lemma ask_child_target q s w s' r :
  h_reqs (heap s) !! q = Some r → ask_child out q s = Ok ((true, w), s') →
  ∃ i c sc, target (node (obj s)) r = Some i ∧ kids (obj s) !! i = Some c ∧
    ch_IsIssuable q (seen s c) = Ok ((true, w), sc).
Proof.
  intros Hq Hr. unfold ask_child in Hr. next Hr.
  destruct (child_of_target _ _ _ _ _ Hq E) as (Ht & Eh & Eq & Es & _).
  unfold on_child in Hr. rewrite Es in Hr. destruct (kids (obj s) !! r0) as [c|] eqn:Ec; [|done].
  rewrite Eh, Eq in Hr. destruct (ch_IsIssuable q _) as [[b sc]|] eqn:Ei; [|done]. injection Hr as -> <-.
  by exists r0, c, sc.
Qed.
End Targets.
#[export] Hint Resolve map_child_of : pres.
