(* ===== verification/Timed.v ===== *)
(** * Parts that keep times

    What a part of the memory promises about the times between commands, whatever
    happens in between: it moves only forward ([tm_later]), it refuses some
    commands until some cycle ([tm_refuses]), and a command it carries out makes
    it refuse what the parameters ask it to ([tm_demands]). A parent
    keeps this promise when its children do; here is what parents share. *)

From S2P Require Import Prelude NVMTypes Translation Heap EventQueue Frame Tree.

Class TimedOps (C : Type) := {
  (** [later c c']: [c'] is [c] after some time. *)
  tm_later : C → C → Prop;
  (** [refuses e r c]: the request [r] is not issuable before cycle [e]. *)
  tm_refuses : Z → NVMainRequest → C → Prop;
  (** [demands c r1 n r2]: the cycles [r2] has to wait for, after [r1] in cycle [n]
      left the state [c]. *)
  tm_demands : C → NVMainRequest → Z → NVMainRequest → list Z;
  (** What the event queue makes the part do. *)
  tm_acts : Sim C → Sim C → Prop
}.

Definition moves {C} `{TimedOps C} (s s' : Sim C) : Prop := tm_later (obj s) (obj s').

Class TimedLaws (C : Type) `{ChildOps C, TimedOps C} := {
  tl_preorder :: PreOrder tm_later;
  tl_refuses : ∀ e r c c', tm_later c c' → tm_refuses e r c → tm_refuses e r c';
  tl_IsIssuable : ∀ q, pres moves (ch_IsIssuable q);
  tl_IssueCommand : ∀ q, pres moves (ch_IssueCommand q);
  tl_NextIssuable : ∀ q, pres moves (ch_NextIssuable q);
  tl_Cycle : ∀ n, pres moves (ch_Cycle n);
  tl_acts : ∀ s s', tm_acts s s' → moves s s';
  tl_gate : ∀ q r s w s' e, h_reqs (heap s) !! q = Some r → ch_IsIssuable q s = Ok ((true, w), s') →
    tm_refuses e r (obj s) → e ≤ currentCycle (queue s);
  tl_issue : ∀ q r s s' r2 e, heap_wf (heap s) → h_reqs (heap s) !! q = Some r → ch_IssueCommand q s = Ok (true, s') →
    e ∈ tm_demands (obj s') r (currentCycle (queue s)) r2 → tm_refuses e r2 (obj s')
}.

(** A rank does not look at the answer of an activation. After a bank said yes
    ([rd_ready]) it demands the same without an answer. *)
Class ReadyOps (C : Type) := { rd_ready : ReqPtr → Sim C → Prop }.
Class ReadyLaws (C : Type) `{ChildOps C, TimedOps C, ReadyOps C} := {
  rl_ask : ∀ q r s w s', h_reqs (heap s) !! q = Some r → type r = ACTIVATE →
    ch_IsIssuable q s = Ok ((true, w), s') → rd_ready q s';
  rl_again : ∀ q s a s', rd_ready q s → ch_IsIssuable q s = Ok (a, s') → a.1 = true ∧ rd_ready q s';
  rl_issue : ∀ q r s ok s' r2 e, heap_wf (heap s) → h_reqs (heap s) !! q = Some r → type r = ACTIVATE → rd_ready q s →
    ch_IssueCommand q s = Ok (ok, s') →
    e ∈ tm_demands (obj s') r (currentCycle (queue s)) r2 → tm_refuses e r2 (obj s')
}.

(** ** A parent and its children *)

Section Parent.
Context {B C : Type} `{DecodesLaws B} `{ChildLaws C} `{TimedOps C, !TimedLaws C}.
Variable out : six.
Implicit Types (s : Sim (Node B C)) (n : Node B C).

Definition kids_later n n' : Prop := Forall2 tm_later (kids n) (kids n').
#[export] Instance kids_later_preorder : PreOrder kids_later.
Proof.
  split; [intros n; apply Forall2_same_length_lookup_2; [done|]; intros; by simplify_eq|].
  unfold kids_later. intros n1 n2 n3 E1 E2. by transitivity (kids n2).
Qed.
Definition below_later s s' : Prop := kids_later (obj s) (obj s').
#[export] Instance below_later_rel : ObjRel below_later.
Proof.
  split; unfold below_later; [intros s1 s2 s3 E1 E2; by transitivity (obj s2)|]. intros s s' ->. reflexivity.
Qed.

Lemma child_step_moves sc sc' : child_step tm_acts sc sc' → moves sc sc'.
Proof.
  unfold moves. destruct 1 as [sc q b sc' Hr|sc q a sc' Hr|sc a sc' Hr|sc k sc' Hr|sc sc' Hr|sc sc' Hr].
  - exact (tl_IssueCommand _ _ _ _ Hr).
  - exact (tl_IsIssuable _ _ _ _ Hr).
  - by apply cl_Idle in Hr as ->.
  - exact (tl_Cycle _ _ _ _ Hr).
  - by apply tl_acts.
  - by rewrite Hr.
Qed.
(** Runs of the children. *)
Lemma run_below_later s s' : children_run tm_acts s s' → below_later s s'.
Proof.
  intros [Hl Hk]. apply Forall2_same_length_lookup_2; [done|]. intros i c c' Hc Hc'.
  destruct (Hk i c Hc) as (c1 & Hc1 & Hr). rewrite Hc' in Hc1. injection Hc1 as <-.
  assert (∀ t t', rtc (child_step tm_acts) t t' → moves t t') as Hm; [|exact (Hm _ _ Hr)].
  intros t t'. induction 1 as [t|t1 t2 t3 H1' _ IH]; unfold moves in *; [done|].
  etransitivity; [|exact IH]. by apply child_step_moves.
Qed.
Lemma below_on_child {A} i (m : ST (Sim C) A) : pres moves m → pres below_later (on_child (B := B) i m).
Proof using TimedLaws0.
  intros Hm s a s' Hr. assert (∃ c, kids (obj s) !! i = Some c) as [c Hc].
  { unfold on_child in Hr. destruct (kids (obj s) !! i); [eauto|done]. }
  destruct (on_child_run _ _ _ _ _ _ Hc Hr) as (sc & Er & ->). apply Hm in Er. unfold moves in Er. cbn in Er.
  unfold below_later, kids_later, child_acts. cbn [obj]. fields.
  rewrite <- (list_insert_id (kids (obj s)) i c Hc) at 1. by apply Forall2_insert.
Qed.
Lemma below_child_of q : pres below_later (child_of out q).
Proof.
  intros s i s' Hr. assert (∃ r, h_reqs (heap s) !! q = Some r) as [r Hq] by (unfold child_of in Hr; load Hr; eauto).
  destruct (child_of_target _ _ _ _ _ _ Hq Hr) as (_ & _ & _ & Ek & _). unfold below_later, kids_later. by rewrite Ek.
Qed.
Lemma below_me : pres below_later (me (B := B) (C := C)).
Proof. apply pres_gets. apply _. Qed.
Lemma below_set_me f : pres below_later (set_me (B := B) (C := C) f).
Proof. intros s a s' [= _ <-]. unfold below_later, kids_later. fields. reflexivity. Qed.

(** The child of the request refuses it. *)
Definition below_refuses (e : Z) (r : NVMainRequest) n : Prop :=
  ∃ i c, target out (node n) r = Some i ∧ kids n !! i = Some c ∧ tm_refuses e r c.
Lemma below_refuses_later e r n n' :
  same_map (node n) (node n') → kids_later n n' → below_refuses e r n → below_refuses e r n'.
Proof.
  intros Hm Hk (i & c & Ht & Hc & Hr). destruct (Forall2_lookup_l _ _ _ _ _ Hk Hc) as (c' & Hc' & Hl).
  exists i, c'. split_and!; [by rewrite (target_map out _ _ _ Hm)|done|]. by eapply tl_refuses.
Qed.

(** What the child of both requests demands. *)
Definition below_demands n (r1 : NVMainRequest) (k : Z) (r2 : NVMainRequest) : list Z :=
  match target out (node n) r1, target out (node n) r2 with
  | Some i, Some j =>
      if decide (i = j) then match kids n !! i with Some c => tm_demands c r1 k r2 | None => [] end else []
  | _, _ => []
  end.
Lemma below_demands_inv n r1 k r2 e :
  e ∈ below_demands n r1 k r2 → ∃ i c, target out (node n) r1 = Some i ∧ target out (node n) r2 = Some i ∧
    kids n !! i = Some c ∧ e ∈ tm_demands c r1 k r2.
Proof.
  unfold below_demands. destruct (target _ _ r1) as [i|]; [|by intros ?%elem_of_nil].
  destruct (target _ _ r2) as [j|]; [|by intros ?%elem_of_nil]. case_decide as E; [subst j|by intros ?%elem_of_nil].
  destruct (kids n !! i) as [c|] eqn:Ec; [|by intros ?%elem_of_nil]. eauto 10.
Qed.

(** The command went to the child of the request, and the rest left the children. *)
Lemma below_issue q r s1 sy ok n' r2 e :
  heap_wf (heap s1) → h_reqs (heap s1) !! q = Some r →
  to_child out q s1 = Ok (ok, sy) → kids n' = kids (obj sy) → same_map (node (obj sy)) (node n') →
  (ok = true ∨ ∃ i c, target out (node (obj s1)) r = Some i ∧ kids (obj s1) !! i = Some c ∧
     ∀ t d, ch_IssueCommand q (seen s1 c) = Ok (ok, t) →
     d ∈ tm_demands (obj t) r (currentCycle (queue s1)) r2 → tm_refuses d r2 (obj t)) →
  e ∈ below_demands n' r (currentCycle (queue s1)) r2 → below_refuses e r2 n'.
Proof.
  intros Hh Hq Hr Ek Hm Hok (i & c & Ht & Ht2 & Hc & He)%below_demands_inv. unfold to_child in Hr. next Hr.
  destruct (child_of_target _ _ _ _ _ _ Hq E) as (Ht0 & Eh & Eq & Es & Hm1). rename r0 into j.
  assert (same_map (node (obj s1)) (node n')) as Hm'.
  { etransitivity; [exact Hm1|]. by rewrite <- (on_child_node _ _ _ _ _ Hr). }
  rewrite (target_map out _ _ _ Hm'), Ht0 in Ht. injection Ht as <-.
  assert (∃ c0, kids (obj x) !! j = Some c0) as [c0 Hc0].
  { unfold on_child in Hr. destruct (kids (obj x) !! j); [eauto|done]. }
  destruct (on_child_run _ _ _ _ _ _ Hc0 Hr) as (sc & Ei & Esy).
  assert (kids n' !! j = Some (obj sc)) as Hc'.
  { rewrite Ek, Esy. unfold child_acts. cbn [obj]. fields. apply list_lookup_insert_eq. by eapply lookup_lt_Some. }
  rewrite Hc in Hc'. injection Hc' as ->. exists j, (obj sc). split_and!; [done..|].
  assert (seen x c0 = seen s1 c0) as Ex by (unfold seen; by rewrite Eh, Eq). rewrite Ex in Ei.
  destruct Hok as [->|(i' & c' & Ht' & Hc' & Hd)].
  - exact (tl_issue q r (seen s1 c0) _ _ _ Hh Hq Ei He).
  - rewrite Ht0 in Ht'. injection Ht' as <-. rewrite <- Es, Hc0 in Hc'. injection Hc' as <-. exact (Hd _ _ Ei He).
Qed.

(** ** Children that said yes *)

Context `{ReadyOps C, !ReadyLaws C}.

Lemma ask_child_steps q r s a s' :
  h_reqs (heap s) !! q = Some r → ask_child out q s = Ok (a, s') →
  ∃ i c sc, target out (node (obj s)) r = Some i ∧ kids (obj s) !! i = Some c ∧
    ch_IsIssuable q (seen s c) = Ok (a, sc) ∧ target out (node (obj s')) r = Some i ∧
    kids (obj s') !! i = Some (obj sc) ∧ seen s' (obj sc) = sc ∧ heap s' = heap s.
Proof.
  intros Hq Hr. unfold ask_child in Hr. next Hr.
  destruct (child_of_target _ _ _ _ _ _ Hq E) as (Ht & Eh & Eq & Es & Hm). rename r0 into i.
  assert (∃ c, kids (obj s) !! i = Some c) as [c Hc].
  { rewrite <- Es. unfold on_child in Hr. destruct (kids (obj x) !! i); [eauto|done]. }
  rewrite <- Es in Hc. destruct (on_child_run _ _ _ _ _ _ Hc Hr) as (sc & Ei & ->). exists i, c, sc.
  assert (seen x c = seen s c) as Ex by (unfold seen; by rewrite Eh, Eq). rewrite Ex in Ei.
  pose proof (cl_IsIssuable _ _ _ _ Ei) as [Ec _]. cbn in Ec.
  split_and!; [done|by rewrite <- Es|exact Ei| | |by destruct sc|].
  - unfold child_acts. cbn [obj]. fields. by rewrite (target_map out _ _ _ Hm).
  - unfold child_acts. cbn [obj]. fields. apply list_lookup_insert_eq. by eapply lookup_lt_Some.
  - unfold child_acts. cbn [heap]. congruence.
Qed.

(** The child of the activation [q] said yes. *)
Definition below_ready q s : Prop :=
  ∃ r i c, h_reqs (heap s) !! q = Some r ∧ type r = ACTIVATE ∧ target out (node (obj s)) r = Some i ∧
    kids (obj s) !! i = Some c ∧ rd_ready q (seen s c).

Lemma below_ask q r s w s' :
  h_reqs (heap s) !! q = Some r → type r = ACTIVATE → ask_child out q s = Ok ((true, w), s') → below_ready q s'.
Proof.
  intros Hq Ht Hr. destruct (ask_child_steps _ _ _ _ _ Hq Hr) as (i & c & sc & _ & _ & Hi & Ht' & Hc' & Es & Eh).
  exists r, i, (obj sc). rewrite Eh, Es. split_and!; [done..|]. exact (rl_ask q r (seen s c) w sc Hq Ht Hi).
Qed.
Lemma below_again q s a s' : below_ready q s → ask_child out q s = Ok (a, s') → a.1 = true ∧ below_ready q s'.
Proof.
  intros (r & i & c & Hq & Ht & Hi & Hc & Hd) Hr.
  destruct (ask_child_steps _ _ _ _ _ Hq Hr) as (j & c1 & sc & Hj & Hc1 & Ha & Ht' & Hc' & Es & Eh).
  rewrite Hi in Hj. injection Hj as <-. rewrite Hc in Hc1. injection Hc1 as <-.
  destruct (rl_again _ _ _ _ Hd Ha) as [Hok Hd']. split; [done|]. exists r, i, (obj sc). rewrite Eh, Es. by split_and!.
Qed.
(** Its demands hold whatever it answers to the command. *)
Lemma below_ready_issue q r s r2 : heap_wf (heap s) → h_reqs (heap s) !! q = Some r → below_ready q s → ∀ ok,
  ok = true ∨ ∃ i c, target out (node (obj s)) r = Some i ∧ kids (obj s) !! i = Some c ∧
    ∀ t d, ch_IssueCommand q (seen s c) = Ok (ok, t) →
    d ∈ tm_demands (obj t) r (currentCycle (queue s)) r2 → tm_refuses d r2 (obj t).
Proof.
  intros Hh Hq (r' & i & c & Hq' & Ht & Hi & Hc & Hd) ok. rewrite Hq in Hq'. injection Hq' as <-. right.
  exists i, c. split_and!; [done..|]. intros t d. exact (rl_issue q r (seen s c) ok t r2 d Hh Hq Ht Hd).
Qed.
End Parent.
#[export] Hint Resolve below_child_of below_on_child below_me below_set_me : pres.
