(* ===== verification/DDR3Bank.v ===== *)
(** * The DDR3 bank

    NVmain/Banks/DDR3Bank/DDR3Bank.cpp: a bank forwards the commands to its subarrays
    and keeps the bank level state: which subarrays are open, the power-down
    modes, and the earliest cycles of the next commands. The subarrays are known
    through an interface (Tree.v). *)

From S2P Require Import Prelude NVMTypes Translation Config Params SimInterface Heap EventQueue Frame SubArray Tree.

Module DDR3.

(*| NVmain/Banks/DDR3Bank/DDR3Bank.h 67-75 DDR3BankState *)
Inductive DDR3BankState :=
  | DDR3BANK_UNKNOWN | DDR3BANK_OPEN | DDR3BANK_CLOSED | DDR3BANK_PDPF | DDR3BANK_PDA | DDR3BANK_PDPS.

#[export] Instance DDR3BankState_eq_dec : EqDecision DDR3BankState.
Proof. solve_decision. Defined.

(** The members, less [lastOperation], which is not used. [params] is the
    pointer [p] and [bankAT] the decoder. *)
(*| NVmain/Banks/DDR3Bank/DDR3Bank.h 111-166 DDR3Bank *)
Record DDR3Bank : Type := mkDDR3Bank {
  params : Params;
  bankAT : AddressTranslator;
  activeSubArrayQueue : list Z;
  MATWidth : Z;
  bk_MATHeight : Z;
  subArrayNum : Z;
  state : DDR3BankState;
  nextCommand : BulkCommand;
  dataCycles : Z;
  activeCycles : Z;
  standbyCycles : Z;
  fastExitActiveCycles : Z;
  fastExitPrechargeCycles : Z;
  slowExitPrechargeCycles : Z;
  powerCycles : Z;
  lastActivate : Z;
  nextActivate : Z;
  nextPrecharge : Z;
  nextRead : Z;
  nextWrite : Z;
  nextRefresh : Z;
  nextRefreshDone : Z;
  nextPowerDown : Z;
  nextPowerDownDone : Z;
  nextPowerUp : Z;
  writeCycle : bool;
  writeMode : SA.WriteMode;
  actWaits : Z;
  actWaitTotal : Z;
  actWaitAverage : double;
  bankEnergy : double;
  activeEnergy : double;
  burstEnergy : double;
  refreshEnergy : double;
  bankPower : double;
  activePower : double;
  burstPower : double;
  refreshPower : double;
  utilization : double;
  bandwidth : double;
  dummyStat : Z;
  averageEndurance : Z;
  worstCaseEndurance : Z;
  reads : Z;
  writes : Z;
  activates : Z;
  precharges : Z;
  refreshes : Z;
  idleTimer : Z;
  openRow : Z;
  bankId : Z
}.

#[export] Instance eta_DDR3Bank : Settable DDR3Bank := fields! mkDDR3Bank
  < params; bankAT; activeSubArrayQueue; MATWidth; bk_MATHeight; subArrayNum; state; nextCommand; dataCycles;
    activeCycles; standbyCycles; fastExitActiveCycles; fastExitPrechargeCycles; slowExitPrechargeCycles;
    powerCycles; lastActivate; nextActivate; nextPrecharge; nextRead; nextWrite; nextRefresh; nextRefreshDone;
    nextPowerDown; nextPowerDownDone; nextPowerUp; writeCycle; writeMode; actWaits; actWaitTotal; actWaitAverage;
    bankEnergy; activeEnergy; burstEnergy; refreshEnergy; bankPower; activePower; burstPower; refreshPower;
    utilization; bandwidth; dummyStat; averageEndurance; worstCaseEndurance; reads; writes; activates; precharges;
    refreshes; idleTimer; openRow; bankId >.

(** The parameters and the decoder are set by [SetConfig]: arguments. *)
(*| NVmain/Banks/DDR3Bank/DDR3Bank.cpp 48-112 DDR3Bank::DDR3Bank *)
Definition DDR3Bank_new (p : Params) (at_ : AddressTranslator) : DDR3Bank := {|
  params := p; bankAT := at_; activeSubArrayQueue := []; MATWidth := 512; bk_MATHeight := 512;
  subArrayNum := 0; state := DDR3BANK_CLOSED; nextCommand := CMD_NOP; dataCycles := 0; activeCycles := 0;
  standbyCycles := 0; fastExitActiveCycles := 0; fastExitPrechargeCycles := 0; slowExitPrechargeCycles := 0;
  powerCycles := 0; lastActivate := 0; nextActivate := 0; nextPrecharge := 0; nextRead := 0; nextWrite := 0;
  nextRefresh := 0; nextRefreshDone := 0; nextPowerDown := 0; nextPowerDownDone := 0; nextPowerUp := 0;
  writeCycle := false; writeMode := SA.WRITE_THROUGH; actWaits := 0; actWaitTotal := 0; actWaitAverage := dzero;
  bankEnergy := dzero; activeEnergy := dzero; burstEnergy := dzero; refreshEnergy := dzero; bankPower := dzero;
  activePower := dzero; burstPower := dzero; refreshPower := dzero; utilization := dzero; bandwidth := dzero;
  dummyStat := 0; averageEndurance := 0; worstCaseEndurance := 0; reads := 0; writes := 0; activates := 0;
  precharges := 0; refreshes := 0; idleTimer := 0; openRow := 0; bankId := u64 (-1)
|}.

(** The bank with its subarrays. *)
Abbreviation Bank C := (Node DDR3Bank C).

#[export] Instance DDR3Bank_decodes : Decodes DDR3Bank := {| at_of := bankAT; set_at t b := b <| bankAT := t |> |}.
#[export] Instance DDR3Bank_decodes_laws : DecodesLaws DDR3Bank.
Proof. by split. Qed.

Definition powered_down (st : DDR3BankState) : bool :=
  match st with DDR3BANK_PDPF | DDR3BANK_PDPS | DDR3BANK_PDA => true | _ => false end.
Definition powered_up (st : DDR3BankState) : bool :=
  match st with DDR3BANK_OPEN | DDR3BANK_CLOSED => true | _ => false end.

(** [erase] of the first item equal to [x]. *)
Fixpoint erase_first (x : Z) (l : list Z) : list Z :=
  match l with
  | [] => []
  | y :: l => if y =? x then l else y :: erase_first x l
  end.

Section Operations.
Context {C : Type} `{ChildOps C}.

(** The object itself, and what the decoder finds in its result variables. *)
Variable this : ObjPtr.
Variable out : six.

Abbreviation bk := (Bank C) (only parsing).
Implicit Types (r : NVMainRequest).

#[local] Abbreviation to_child := (to_child out).
#[local] Abbreviation ask_child := (ask_child out).
#[local] Abbreviation child_of := (child_of out).

(** [MAX( p->tBURST, p->tCCD_L )]. *)
Definition burst (p : Params) : Z := MAX (tBURST p) (tCCD_L p).

(*| NVmain/Banks/DDR3Bank/DDR3Bank.cpp 217-261 DDR3Bank::PowerDown *)
Definition PowerDown (q : ReqPtr) : ST (Sim bk) bool :=
  b ← me; n ← now;
  if (nextPowerDown b <=? n) && powered_up (state b) then
    set_me (λ b, b <| nextPowerUp ::= λ x, MAX x (n ⊕ tPD (params b)) |>);;
    r ← load_req q;
    match state b with
    | DDR3BANK_OPEN =>
        lift (cassert (bool_decide (type r = POWERDOWN_PDA)));;
        set_me (λ b, b <| state := DDR3BANK_PDA |>)
    | DDR3BANK_CLOSED =>
        set_me (λ b, b <| state := match type r with POWERDOWN_PDPS => DDR3BANK_PDPS | _ => DDR3BANK_PDPF end |>)
    | _ => mret ()
    end;;
    mret true
  else mret false.

(*| NVmain/Banks/DDR3Bank/DDR3Bank.cpp 267-309 DDR3Bank::PowerUp *)
Definition PowerUp (q : ReqPtr) : ST (Sim bk) bool :=
  b ← me; n ← now;
  let p := params b in
  if (nextPowerUp b <=? n) && powered_down (state b) then
    set_me (λ b, b
      <| nextPowerDown ::= λ x, MAX x (n ⊕ tXP p) |> <| nextActivate ::= λ x, MAX x (n ⊕ tXP p) |>
      <| nextPrecharge ::= λ x, MAX x (n ⊕ tXP p) |> <| nextWrite ::= λ x, MAX x (n ⊕ tXP p) |>
      <| nextRead ::= λ x, MAX x (n ⊕ match state b with DDR3BANK_PDPS => tXPDLL p | _ => tXP p end) |>
      <| state ::= λ st, match st with DDR3BANK_PDA => DDR3BANK_OPEN | _ => DDR3BANK_CLOSED end |>);;
    mret true
  else mret false.

(*| NVmain/Banks/DDR3Bank/DDR3Bank.cpp 314-365 DDR3Bank::Activate *)
Definition Activate (q : ReqPtr) : ST (Sim bk) bool :=
  b ← me; n ← now;
  if nextActivate b >? n then mret false else
  if negb (bool_decide (state b = DDR3BANK_CLOSED)) && bool_decide (activeSubArrayQueue b = []) then mret false else
  r ← load_req q;
  let '(activateRow, _, _, _, _, activateSubArray) := GetTranslatedAddress (address r) in
  set_me (λ b, b <| nextPowerDown ::= λ x, MAX x (n ⊕ tRCD (params b)) |>);;
  success ← to_child q;
  (if (success : bool) then
     set_me (λ b, b <| openRow := activateRow |> <| state := DDR3BANK_OPEN |>
                    <| activeSubArrayQueue ::= cons activateSubArray |> <| activates ::= λ x, x ⊕ 1 |>)
   else mret ());;
  mret success.

(** The bookkeeping of an implicit precharge. *)
Definition close_subarray (x : Z) (b : DDR3Bank) : DDR3Bank :=
  let b := b <| precharges ::= λ n, n ⊕ 1 |> <| activeSubArrayQueue ::= erase_first x |> in
  if decide (activeSubArrayQueue b = []) then b <| state := DDR3BANK_CLOSED |> else b.

(*| NVmain/Banks/DDR3Bank/DDR3Bank.cpp 370-449 DDR3Bank::Read *)
Definition Read (q : ReqPtr) : ST (Sim bk) bool :=
  b ← me; n ← now;
  let p := params b in
  if nextRead b >? n then mret false else
  if negb (bool_decide (state b = DDR3BANK_OPEN)) then mret false else
  r ← load_req q;
  let '(_, _, _, _, _, readSubArray) := GetTranslatedAddress (address r) in
  let last := burst p ⊗ (burstCount r ⊖ 1) in
  set_me (λ b, b
    <| nextPowerDown ::= λ x, MAX x
         (if decide (type r = READ_PRECHARGE) then n ⊕ last ⊕ tAL p ⊕ tRTP p ⊕ tRP p
          else last ⊕ n ⊕ tRDPDEN p) |>
    <| nextRead ::= λ x, MAX x (n ⊕ burst p ⊗ burstCount r) |>
    <| nextWrite ::= λ x, MAX x (n ⊕ last ⊕ tCAS p ⊕ tBURST p ⊕ tRTRS p ⊖ tCWD p) |>);;
  success ← to_child q;
  (if (success : bool) then
     r ← load_req q;
     (if decide (type r = READ_PRECHARGE) then set_me (close_subarray readSubArray) else mret ());;
     set_me (λ b, b <| dataCycles ::= λ x, x ⊕ tBURST p |> <| reads ::= λ x, x ⊕ 1 |>)
   else mret ());;
  mret success.

(** The implicit precharge starts the power-down time from [nextActivate]. *)
(*| NVmain/Banks/DDR3Bank/DDR3Bank.cpp 454-538 DDR3Bank::Write *)
Definition Write (q : ReqPtr) : ST (Sim bk) bool :=
  b ← me; n ← now;
  let p := params b in
  if nextWrite b >? n then mret false else
  if negb (bool_decide (state b = DDR3BANK_OPEN)) then mret false else
  r ← load_req q;
  let '(_, _, _, _, _, writeSubArray) := GetTranslatedAddress (address r) in
  let last := burst p ⊗ (burstCount r ⊖ 1) in
  set_me (λ b, b
    <| nextPowerDown :=
         if decide (type r = WRITE_PRECHARGE)
         then MAX (nextActivate b) (n ⊕ last ⊕ tAL p ⊕ tCWD p ⊕ tBURST p ⊕ tWR p ⊕ tRP p)
         else MAX (nextPowerDown b) (last ⊕ n ⊕ tWRPDEN p) |>
    <| nextRead ::= λ x, MAX x (n ⊕ last ⊕ tCWD p ⊕ tBURST p ⊕ tWTR_L p) |>
    <| nextWrite ::= λ x, MAX x (n ⊕ burst p ⊗ burstCount r) |>);;
  success ← to_child q;
  (if (success : bool) then
     set_me (λ b, b <| dataCycles ::= λ x, x ⊕ tBURST p |> <| writeCycle := true |> <| writes ::= λ x, x ⊕ 1 |>);;
     r ← load_req q;
     (if decide (type r = WRITE_PRECHARGE) then set_me (close_subarray writeSubArray) else mret ())
   else mret ());;
  mret success.

(** The loop that precharges all open subarrays but the last one with copies
    of the request; [fuel] is the length of the queue. *)
(*| NVmain/Banks/DDR3Bank/DDR3Bank.cpp 602-622 DDR3Bank::Precharge *)
Fixpoint precharge_loop (fuel : nat) (q : ReqPtr) : ST (Sim bk) bool :=
  b ← me;
  match activeSubArrayQueue b with
  | openedSubArray :: (_ :: _) as rest =>
      match fuel with
      | O => fail OutOfFuel
      | S fuel =>
          set_me (λ b, b <| activeSubArrayQueue ::= tail |>);;
          r ← load_req q;
          r' ← lift (NVMainRequest_assign (NVMainRequest_new MEM_REQUEST_INCOMPLETE UNKNOWN_ACCESS 0) r);
          dummyPrecharge ← new_req (r' <| owner := Some this |>);
          i ← child_at openedSubArray;
          success ← on_child i (ch_IssueCommand dummyPrecharge);
          if (success : bool) then precharge_loop fuel q else mret false
      end
  | _ => mret true
  end.

(*| NVmain/Banks/DDR3Bank/DDR3Bank.cpp 597-637 DDR3Bank::Precharge *)
Definition precharge_all (q : ReqPtr) : ST (Sim bk) bool :=
  b ← me;
  match activeSubArrayQueue b with
  | [] => mret true
  | _ =>
      success ← precharge_loop (length (activeSubArrayQueue b)) q;
      if negb success then mret false else
      b ← me;
      openedSubArray ← lift (deref OutOfBounds (head (activeSubArrayQueue b)));
      set_me (λ b, b <| activeSubArrayQueue ::= tail |>);;
      i ← child_at openedSubArray;
      success ← on_child i (ch_IssueCommand q);
      if negb success then mret false else
      b ← me;
      lift (cassert (bool_decide (activeSubArrayQueue b = [])));;
      mret true
  end.

(*| NVmain/Banks/DDR3Bank/DDR3Bank.cpp 543-652 DDR3Bank::Precharge *)
Definition Precharge (q : ReqPtr) : ST (Sim bk) bool :=
  b ← me; n ← now;
  if nextPrecharge b >? n then mret false else
  if negb (powered_up (state b)) then mret false else
  r ← load_req q;
  let '(_, _, _, _, _, preSubArray) := GetTranslatedAddress (address r) in
  set_me (λ b, b <| nextPowerDown ::= λ x, MAX x (n ⊕ tRP (params b)) |>);;
  success ← match type r with
    | PRECHARGE =>
        success ← to_child q;
        (if (success : bool) then set_me (λ b, b <| activeSubArrayQueue ::= erase_first preSubArray |>) else mret ());;
        mret success
    | PRECHARGE_ALL => precharge_all q
    | _ => mret false
    end;
  if negb success then mret false else
  set_me (λ b, (if decide (activeSubArrayQueue b = []) then b <| state := DDR3BANK_CLOSED |> else b)
               <| precharges ::= λ x, x ⊕ 1 |>);;
  mret true.

(*| NVmain/Banks/DDR3Bank/DDR3Bank.cpp 657-697 DDR3Bank::Refresh *)
Definition Refresh (q : ReqPtr) : ST (Sim bk) bool :=
  b ← me; n ← now;
  if nextActivate b >? n then mret false else
  set_me (λ b, b <| nextPowerDown ::= λ x, MAX x (n ⊕ tRFC (params b)) |>);;
  success ← to_child q;
  (if (success : bool) then set_me (λ b, b <| refreshes ::= λ x, x ⊕ 1 |>) else mret ());;
  mret success.

(*| NVmain/Banks/DDR3Bank/DDR3Bank.cpp 699-709 DDR3Bank::NextIssuable *)
Definition NextIssuable (q : ReqPtr) : ST (Sim bk) Z :=
  r ← load_req q; b ← me;
  let nextCompare :=
    match type r with
    | ACTIVATE | REFRESH => nextActivate b
    | READ | READ_PRECHARGE => nextRead b
    | WRITE | WRITE_PRECHARGE => nextWrite b
    | PRECHARGE | PRECHARGE_ALL => nextPrecharge b
    | _ => 0
    end in
  i ← child_of q;
  x ← on_child i (ch_NextIssuable q);
  mret (MAX x nextCompare).

(** The subarrays of the list, in order, until one cannot take the request. *)
(*| NVmain/Banks/DDR3Bank/DDR3Bank.cpp 782-793 DDR3Bank::IsIssuable *)
Fixpoint ask_open (q : ReqPtr) (l : list Z) (ans : bool * option FailReasons) : ST (Sim bk) (bool * option FailReasons) :=
  match l with
  | [] => mret ans
  | x :: l =>
      i ← child_at x;
      '(rv, reason) ← on_child i (ch_IsIssuable q);
      if (rv : bool) then ask_open q l (rv, reason) else mret (rv, reason)
  end.

(** All subarrays, without a reason. *)
(*| NVmain/Banks/DDR3Bank/DDR3Bank.cpp 815-822 DDR3Bank::IsIssuable *)
Fixpoint ask_all (q : ReqPtr) (l : list Z) (rv : bool) : ST (Sim bk) bool :=
  match l with
  | [] => mret rv
  | x :: l =>
      i ← child_at x;
      '(ok, _) ← on_child i (ch_IsIssuable q);
      if negb ok then mret false else ask_all q l rv
  end.

(** What a blocked power command answers. *)
Definition power_answer (q : ReqPtr) (blocked : bool) : ST (Sim bk) (bool * option FailReasons) :=
  b ← me;
  rv ← ask_all q (seqZ 0 (subArrayNum b)) (negb blocked);
  mret (rv, if blocked then Some BANK_TIMING else None).

(*| NVmain/Banks/DDR3Bank/DDR3Bank.cpp 714-864 DDR3Bank::IsIssuable *)
Definition IsIssuable (q : ReqPtr) : ST (Sim bk) (bool * option FailReasons) :=
  r ← load_req q; b ← me; n ← now;
  if negb (bool_decide (nextCommand b = CMD_NOP)) then mret (false, None) else
  let timing := mret (false, Some BANK_TIMING) in
  match type r with
  | ACTIVATE =>
      if (nextActivate b >? n) || powered_down (state b) then
        set_me (λ b, b <| actWaits ::= λ x, x ⊕ 1 |> <| actWaitTotal ::= λ x, x ⊕ (nextActivate b ⊖ n) |>);;
        timing
      else ask_child q
  | READ | READ_PRECHARGE =>
      if (nextRead b >? n) || negb (bool_decide (state b = DDR3BANK_OPEN)) then timing else ask_child q
  | WRITE | WRITE_PRECHARGE =>
      if (nextWrite b >? n) || negb (bool_decide (state b = DDR3BANK_OPEN)) then timing else ask_child q
  | PRECHARGE =>
      if (nextPrecharge b >? n) || negb (powered_up (state b)) then timing else ask_child q
  | PRECHARGE_ALL =>
      if (nextPrecharge b >? n) || negb (powered_up (state b)) then timing
      else ask_open q (activeSubArrayQueue b) (true, None)
  | POWERDOWN_PDA => power_answer q ((nextPowerDown b >? n) || negb (powered_up (state b)))
  | POWERDOWN_PDPF | POWERDOWN_PDPS =>
      power_answer q ((nextPowerDown b >? n) || negb (powered_up (state b)) || bool_decide (state b = DDR3BANK_OPEN))
  | POWERUP => power_answer q ((nextPowerUp b >? n) || negb (powered_down (state b)))
  | REFRESH =>
      if (nextActivate b >? n) || negb (powered_up (state b)) then timing else ask_child q
  | _ => ask_child q
  end.

(*| NVmain/Banks/DDR3Bank/DDR3Bank.cpp 869-923 DDR3Bank::IssueCommand *)
Definition IssueCommand (q : ReqPtr) : ST (Sim bk) bool :=
  '(ok, _) ← IsIssuable q;
  if negb ok then mret false else
  r ← load_req q;
  match type r with
  | ACTIVATE => Activate q
  | READ | READ_PRECHARGE => Read q
  | WRITE | WRITE_PRECHARGE => Write q
  | PRECHARGE | PRECHARGE_ALL => Precharge q
  | REFRESH => Refresh q
  | POWERDOWN_PDA | POWERDOWN_PDPF | POWERDOWN_PDPS => PowerDown q
  | POWERUP => PowerUp q
  | _ => to_child q
  end.

(*| NVmain/Banks/DDR3Bank/DDR3Bank.cpp 925-928 DDR3Bank::GetState *)
Definition GetState (b : DDR3Bank) : DDR3BankState := state b.

(*| NVmain/Banks/DDR3Bank/DDR3Bank.cpp 930-957 DDR3Bank::CalculatePower *)
Definition CalculatePower : ST (Sim bk) unit :=
  n ← now;
  set_me (λ b,
    let power e :=
      if n =? 0 then dzero
      else if String.eqb (EnergyModel (params b)) "current"
      then ddiv (ddiv (dmul e (Voltage (params b))) (d_of_Z n)) (d_of_Z 1000)
      else ddiv e (ddiv (d_of_Z n) (d_of_Z 1000000000)) in
    b <| bankPower := power (bankEnergy b) |> <| activePower := power (activeEnergy b) |>
      <| burstPower := power (burstEnergy b) |> <| refreshPower := power (refreshEnergy b) |>).

(*| NVmain/Banks/DDR3Bank/DDR3Bank.cpp 959-964 DDR3Bank::GetPower *)
Definition GetPower : ST (Sim bk) double := CalculatePower;; b ← me; mret (bankPower b).

(*| NVmain/Banks/DDR3Bank/DDR3Bank.cpp 975-978 DDR3Bank::SetId *)
Definition SetId (id : Z) (b : DDR3Bank) : DDR3Bank := b <| bankId := id |>.

(** The children below [subArrayNum], until one is not idle. *)
Fixpoint idle_loop (l : list Z) : ST (Sim bk) bool :=
  match l with
  | [] => mret true
  | x :: l => i ← child_at x; ok ← on_child i ch_Idle; if (ok : bool) then idle_loop l else mret false
  end.
(*| NVmain/Banks/DDR3Bank/DDR3Bank.cpp 1042-1055 DDR3Bank::Idle *)
Definition Idle : ST (Sim bk) bool := b ← me; idle_loop (seqZ 0 (subArrayNum b)).

(*| NVmain/Banks/DDR3Bank/DDR3Bank.cpp 1057-1074 DDR3Bank::Cycle *)
Definition Cycle (steps : Z) : ST (Sim bk) unit :=
  set_me (λ b,
    match state b with
    | DDR3BANK_PDPF => b <| fastExitPrechargeCycles ::= λ x, x ⊕ steps |>
    | DDR3BANK_PDA => b <| fastExitActiveCycles ::= λ x, x ⊕ steps |>
    | DDR3BANK_PDPS => b <| slowExitPrechargeCycles ::= λ x, x ⊕ steps |>
    | DDR3BANK_OPEN => b <| activeCycles ::= λ x, x ⊕ steps |>
    | DDR3BANK_CLOSED => b <| standbyCycles ::= λ x, x ⊕ steps |>
    | DDR3BANK_UNKNOWN => b
    end).

(** [CreateDecoderNoWarn] and the configured subarrays are arguments; [method]
    is the translation method of the parent's decoder. *)
(*| NVmain/Banks/DDR3Bank/DDR3Bank.cpp 118-165 DDR3Bank::SetConfig *)
Definition SetConfig (c : Config) (createChildren : bool) (uninit : Z * Z * Z) (method : option TranslationMethod)
    (CreateDecoderNoWarn : string → AddressTranslator) (new_child : Z → Config → res (Config * C))
    (s : bk) : res (Config * bk) :=
  let '(u1, u2, u3) := uninit in
  '(w, c) ← (if KeyExists "MATWidth" c then '(v, c) ← GetValue "MATWidth" c; Ok (u64 v, c)
             else Ok (MATWidth (node s), c));
  '(_, (c, p)) ← SetParams (c, Params_new u1 u2 u3);
  num ← (if MATHeight p =? 0 then Err DivideByZero else Ok (ROWS p / MATHeight p));
  '(at_, kids, c) ← (if createChildren then
      '(d, c) ← GetString "Decoder" c;
      m ← deref NullDeref method;
      let at_ := SetDefaultField SUBARRAY_FIELD (SetTranslationMethod m (CreateDecoderNoWarn d)) in
      '(kids, c) ← foldM (λ st i, let '(kids, c) := st in '(c, k) ← new_child i c; Ok (kids ++ [k], c))
                     (kids s, c) (seqZ 0 num);
      Ok (at_, kids, c)
    else Ok (bankAT (node s), kids s, c));
  Ok (c, mkNode ((node s) <| params := p |> <| MATWidth := w |> <| bk_MATHeight := MATHeight p |>
    <| subArrayNum := num |> <| bankAT := at_ |>
    <| state ::= λ st, if InitPD p then DDR3BANK_PDPF else st |>) kids).
End Operations.
End DDR3.
