(* ===== verification/SubArrayChild.v ===== *)
(** * The subarray as the child of a bank

    The operations of SubArray.v implement the interface the banks are written
    against, and satisfy its laws. *)

From S2P Require Import Prelude NVMTypes Translation Config Params SimInterface Heap EventQueue Frame SubArray.
From S2P Require Import SubArrayTiming SubArrayProtocol Tree DDR3Bank.
Import SA.

Section Child.
Context {E M : Type} `{DataEncoderOps E, EnduranceModelOps M}.
Variable this : ObjPtr.
Variable norm_GetEndurance : Z → Z → Z → Z.
Abbreviation sa := (SubArray E M) (only parsing).

(** ** A question *)

Lemma IsIssuable_pure q (s : Sim sa) a s' :
  IsIssuable q s = Ok (a, s') → heap s' = heap s ∧ queue s' = queue s.
Proof.
  intros Hr. unfold IsIssuable in Hr. load Hr. autorewrite with run in Hr.
  destruct (negb _); [by injection Hr as _ <-|]. autorewrite with run in Hr.
  destruct (blocked _ _ _ _) as [why|]; [|done]. autorewrite with run in Hr.
  destruct why; [|by injection Hr as _ <-]. destruct (_ && _); autorewrite with run in Hr; by injection Hr as _ <-.
Qed.

(** ** Time *)

#[local] Hint Resolve timeless_CheckWritePausing : timeless.

Lemma timeless_IsIssuable q : timeless (IsIssuable (E := E) (M := M) q).
Proof. unfold IsIssuable. timeless_tac. Qed.
Lemma timeless_upd_req q f : timeless (upd_req (E := E) (M := M) q f).
Proof. unfold upd_req. timeless_tac. Qed.
Lemma timeless_insert_response q w : timeless (insert_response (E := E) (M := M) this q w).
Proof. unfold insert_response. timeless_tac. Qed.
Lemma timeless_copy_request r f : timeless (copy_request (E := E) (M := M) r f).
Proof. unfold copy_request. timeless_tac. Qed.
#[local] Hint Resolve timeless_IsIssuable timeless_upd_req timeless_insert_response timeless_copy_request : timeless.
Lemma timeless_track_read r : timeless (track_read (E := E) (M := M) r).
Proof. unfold track_read. timeless_tac. Qed.
Lemma timeless_cell_energy p a b : timeless (cell_energy (E := E) (M := M) p a b).
Proof. unfold cell_energy. timeless_tac. Qed.
#[local] Hint Resolve timeless_track_read timeless_cell_energy : timeless.
Lemma timeless_WriteCellData r : timeless (WriteCellData (E := E) (M := M) norm_GetEndurance r).
Proof. unfold WriteCellData. timeless_tac. Qed.
Lemma timeless_UpdateEndurance r : timeless (UpdateEndurance (E := E) (M := M) r).
Proof. unfold UpdateEndurance. timeless_tac. Qed.
Lemma timeless_encoder_Write q : timeless (encoder_Write (E := E) (M := M) q).
Proof. unfold encoder_Write. timeless_tac. Qed.
#[local] Hint Resolve timeless_WriteCellData timeless_UpdateEndurance timeless_encoder_Write : timeless.
Lemma timeless_write_through q : timeless (write_through (E := E) (M := M) q).
Proof. unfold write_through. timeless_tac. Qed.
Lemma timeless_write_timer q a b : timeless (write_timer (E := E) (M := M) norm_GetEndurance q a b).
Proof. unfold write_timer. timeless_tac. Qed.
Lemma timeless_write_timing q n t : timeless (write_timing (E := E) (M := M) this q n t).
Proof. unfold write_timing. timeless_tac. Qed.
Lemma timeless_write_events q n t : timeless (write_events (E := E) (M := M) this q n t).
Proof. unfold write_events. timeless_tac. Qed.
#[local] Hint Resolve timeless_write_through timeless_write_timer timeless_write_timing timeless_write_events : timeless.
Lemma timeless_write_back r : timeless (write_back (E := E) (M := M) norm_GetEndurance r).
Proof.
  unfold write_back. timeless_tac.
  match goal with |- context [?f (writeBackRequests ?x) 0 0] =>
    assert (∀ l a b, timeless (f l a b)) as Hloop; [|apply Hloop] end.
  induction l as [|w l IH]; intros; cbn; timeless_tac.
Qed.
#[local] Hint Resolve timeless_write_back : timeless.
Lemma timeless_IssueCommand q : timeless (IssueCommand (E := E) (M := M) this norm_GetEndurance q).
Proof. unfold IssueCommand, Activate, Read, Write, Precharge, Refresh. timeless_tac. Qed.

(** ** The requests of others *)

Context `{!DataEncoderLaws E}.

Lemma keeping_insert_response q q' w : keeping q (insert_response (E := E) (M := M) this q' w).
Proof. unfold insert_response. keeping_tac. Qed.
#[local] Hint Resolve keeping_insert_response keeping_copy_request keeping_encoder_Write keeping_cell_energy
  keeping_WriteCellData keeping_UpdateEndurance keeping_write_through keeping_write_timer : keeping.
#[local] Hint Extern 1 (keeping _ (upd_req _ _)) =>
  apply keeping_upd_req; solve [intros ?; unfold req_set, req_clear; by fields] : keeping.
Lemma keeping_CheckWritePausing q : keeping q (CheckWritePausing (E := E) (M := M) this).
Proof. unfold CheckWritePausing. keeping_tac. Qed.
Lemma keeping_track_read q r : keeping q (track_read (E := E) (M := M) r).
Proof. unfold track_read. keeping_tac. Qed.
Lemma keeping_write_timing q q' n t : keeping q (write_timing (E := E) (M := M) this q' n t).
Proof. unfold write_timing. keeping_tac. Qed.
Lemma keeping_write_events q q' n t : keeping q (write_events (E := E) (M := M) this q' n t).
Proof. unfold write_events. keeping_tac. Qed.
#[local] Hint Resolve keeping_CheckWritePausing keeping_track_read keeping_write_timing keeping_write_events : keeping.
Lemma keeping_write_back q r : keeping q (write_back (E := E) (M := M) norm_GetEndurance r).
Proof.
  unfold write_back. keeping_tac.
  match goal with |- context [?f (writeBackRequests ?x) 0 0] =>
    assert (∀ l a b, keeping q (f l a b)) as Hloop; [|apply Hloop] end.
  induction l as [|w l IH]; intros; cbn; keeping_tac.
Qed.
#[local] Hint Resolve keeping_write_back : keeping.
Lemma keeping_IsIssuable q q' : keeping q (IsIssuable (E := E) (M := M) q').
Proof. intros s a s' [E' _]%IsIssuable_pure. by apply keeps_heap. Qed.
#[local] Hint Resolve keeping_IsIssuable : keeping.
Lemma keeping_IssueCommand q q' : keeping q (IssueCommand (E := E) (M := M) this norm_GetEndurance q').
Proof. unfold IssueCommand, Activate, Read, Write, Precharge, Refresh. keeping_tac. Qed.

End Child.

Section Instances.
Context {E M : Type} `{DataEncoderOps E, EnduranceModelOps M, !DataEncoderLaws E}.
Variable norm_GetEndurance : Z → Z → Z → Z.
Abbreviation sa := (SubArray E M) (only parsing).

Definition SubArray_child : ChildOps (Child sa) := {|
  ch_IsIssuable q := at_child (λ _, IsIssuable q);
  ch_IssueCommand q := at_child (λ this, IssueCommand this norm_GetEndurance q);
  ch_NextIssuable q := at_child (λ _, r ← load_req q; s ← self; mret (NextIssuable s r));
  ch_Idle := at_child (λ _, gets (λ s, Idle (obj s)));
  ch_Cycle _ := mret ()
|}.

Lemma SubArray_laws : ChildLaws (H := SubArray_child) (Child sa).
Proof.
  split; cbn.
  - intros q s a s' [Hr _]%at_child_inv. by apply IsIssuable_pure in Hr.
  - intros [h q []] a s' [= _ <-]. done.
  - intros q. apply timeless_at_child. intros this. apply timeless_IssueCommand.
  - intros q s a s' [Hr _]%at_child_inv. load Hr. by autorewrite with run in Hr; injection Hr as _ <-.
  - intros n. apply timeless_ret.
  - intros q q' s b s' [Hr _]%at_child_inv. exact (keeping_IssueCommand _ _ q q' _ _ _ Hr).
Qed.
End Instances.

(** ** A bank of two subarrays for the examples *)

Module BankBench.
Import DDR3.
Definition C : Type := Child Bench.O.
#[global] Instance ops : ChildOps C := SubArray_child Bench.norm.
#[global] Instance laws : ChildLaws C := SubArray_laws Bench.norm.

Definition at_ : AddressTranslator := AddressTranslator_new <| defaultField := SUBARRAY_FIELD |>.
Definition bank0 : Node DDR3Bank C := mkNode
  ((DDR3.DDR3Bank_new Bench.p0 at_) <| DDR3.subArrayNum := 2 |>)
  [mkChild 2 Bench.subarray0; mkChild 3 Bench.subarray0]%positive.

(** A request for a row of a subarray, already translated. *)
Definition request (t : OpType) (sub rw : Z) : NVMainRequest :=
  (NVMainRequest_new MEM_REQUEST_INCOMPLETE UNKNOWN_ACCESS 0)
    <| type := t |> <| burstCount := 1 |>
    <| address ::= λ a, a <| NVMTypes.row := rw |> <| subarray := sub |> <| translated := true |> |>.

(** The bank is object 5 with the subarrays 2 and 3. *)
Definition tree : gmap positive NVMObject := {[
  2%positive := mkNVMObject (Some (mkHook 6 5)) None [] [] [] [] NVMHOOK_NONE NVMHOOK_NONE;
  3%positive := mkNVMObject (Some (mkHook 7 5)) None [] [] [] [] NVMHOOK_NONE NVMHOOK_NONE;
  5%positive := mkNVMObject None None [mkHook 1 2; mkHook 4 3] [] [] [] NVMHOOK_NONE NVMHOOK_NONE ]}.
Definition reqs : gmap positive NVMainRequest := {[
  10%positive := request ACTIVATE 0 7;
  11%positive := request READ 0 7;
  12%positive := request PRECHARGE_ALL 0 7;
  13%positive := request POWERDOWN_PDPF 0 0;
  14%positive := request POWERUP 0 0;
  15%positive := request ACTIVATE 1 9 ]}.
Definition start : Sim (Node DDR3Bank C) := mkSim (mkHeap tree reqs ∅ 30 None) (EventQueue_new dzero) bank0.

Lemma bank_start_wf : heap_wf (heap start).
Proof.
  intros x Hx. cbn in *. split; [|done]. unfold reqs.
  repeat (rewrite lookup_insert_ne by lia). apply lookup_singleton_ne. lia.
Qed.

Definition out0 : six := mkSix 0 0 0 0 0 0.
Definition run (q : ReqPtr) (s : Sim (Node DDR3Bank C)) : Sim (Node DDR3Bank C) :=
  match DDR3.IssueCommand 5 out0 q s with Ok (_, s) => s | Err _ => s end.
Definition at_time (n : Z) (s : Sim (Node DDR3Bank C)) : Sim (Node DDR3Bank C) :=
  s <| queue ::= λ q, q <| currentCycle := n |> |>.
Lemma at_time_obj n s : obj (at_time n s) = obj s.
Proof. reflexivity. Qed.
End BankBench.
