(* ===== verification/DDR3BankProtocol.v ===== *)
(** * Protocol and timing of the bank

    The states of the bank follow the power-down protocol of the memory, the
    list of open subarrays agrees with the state, and the times the parameters
    demand between two commands pass. The subarrays only have to satisfy the
    laws of the interface ([ChildLaws]); those of the previous files do. *)

From S2P Require Import Prelude NVMTypes Translation Config Params SimInterface Heap EventQueue Frame SubArray.
From S2P Require Import SubArrayTiming SubArrayProtocol Tree DDR3Bank SubArrayChild.
Import DDR3.

(** ** What a question leaves alone *)

(** The bank without the members a question may write. *)
Definition core (b : DDR3Bank) : DDR3Bank :=
  b <| bankAT := AddressTranslator_new |> <| actWaits := 0 |> <| actWaitTotal := 0 |>.
Definition same_core (b b' : DDR3Bank) : Prop := core b' = core b.

#[export] Instance same_core_preorder : PreOrder same_core.
Proof. unfold same_core. split; [done|]. intros ? ? ? ? ?. congruence. Qed.

Lemma core_eq {A} (f : DDR3Bank → A) b b' : (∀ b, f (core b) = f b) → same_core b b' → f b' = f b.
Proof. intros Hf E. by rewrite <- (Hf b'), E, Hf. Qed.

Section Questions.
Context {C : Type} `{ChildLaws C}.
Variable this : ObjPtr.
Variable out : six.
Implicit Types (s : Sim (Bank C)).

#[local] Abbreviation child_of := (child_of out).
#[local] Abbreviation to_child := (to_child out).
#[local] Abbreviation IsIssuable := (IsIssuable out).
#[local] Abbreviation IssueCommand := (IssueCommand this out).
#[local] Abbreviation Activate := (Activate out).
#[local] Abbreviation Read := (Read out).
#[local] Abbreviation Write := (Write out).
#[local] Abbreviation Precharge := (Precharge this out).
#[local] Abbreviation Refresh := (Refresh out).

Lemma core_decoder t b : same_core b (set_at t b).
Proof using. by destruct b. Qed.
#[local] Hint Resolve core_decoder : asks.

#[local] Abbreviation asks := (asks (C := C) same_core).

Lemma asks_ask_all q l : ∀ rv, asks (ask_all q l rv).
Proof. induction l as [|x l IH]; intros rv; cbn [ask_all]; asks_tac. Qed.
Lemma asks_ask_open q l : ∀ ans, asks (ask_open q l ans).
Proof. induction l as [|x l IH]; intros ans; cbn [ask_open]; asks_tac. Qed.
#[local] Hint Resolve asks_ask_all asks_ask_open : asks.

Lemma asks_IsIssuable q : asks (IsIssuable q).
Proof.
  unfold DDR3.IsIssuable, ask_child, power_answer, me, now. asks_tac.
  apply asks_set_me. intros b'. unfold same_core, core. by destruct b'.
Qed.

(** ** The conditions of the bank *)

(** What [IsIssuable] asks of the bank itself. *)
Definition gate (b : DDR3Bank) (n : Z) (t : OpType) : bool :=
  bool_decide (nextCommand b = CMD_NOP) &&
  match t with
  | ACTIVATE => (nextActivate b <=? n) && negb (powered_down (state b))
  | READ | READ_PRECHARGE => (nextRead b <=? n) && bool_decide (state b = DDR3BANK_OPEN)
  | WRITE | WRITE_PRECHARGE => (nextWrite b <=? n) && bool_decide (state b = DDR3BANK_OPEN)
  | PRECHARGE | PRECHARGE_ALL => (nextPrecharge b <=? n) && powered_up (state b)
  | POWERDOWN_PDA => (nextPowerDown b <=? n) && powered_up (state b)
  | POWERDOWN_PDPF | POWERDOWN_PDPS =>
      (nextPowerDown b <=? n) && powered_up (state b) && negb (bool_decide (state b = DDR3BANK_OPEN))
  | POWERUP => (nextPowerUp b <=? n) && powered_down (state b)
  | REFRESH => (nextActivate b <=? n) && powered_up (state b)
  | _ => true
  end.

Lemma ask_all_true q l : ∀ rv s s', ask_all q l rv s = Ok (true, s') → rv = true.
Proof using.
  induction l as [|x l IH]; intros rv s s' Hr; cbn [ask_all] in Hr.
  - by injection Hr.
  - next Hr. next Hr. destruct r0 as [[] w]; cbn [negb] in Hr; [eauto|done].
Qed.

Lemma power_answer_true q blocked s w s' : power_answer q blocked s = Ok ((true, w), s') → blocked = false.
Proof using.
  unfold power_answer. intros Hr. unfold me in Hr. autorewrite with run in Hr. next Hr. injection Hr as -> _ _.
  apply ask_all_true in E. by destruct blocked.
Qed.

Lemma IsIssuable_gate q s w s' :
  IsIssuable q s = Ok ((true, w), s') →
  ∃ r, h_reqs (heap s) !! q = Some r ∧ gate (node (obj s)) (currentCycle (queue s)) (type r) = true.
Proof using.
  intros Hr. unfold DDR3.IsIssuable in Hr. load Hr. exists r. split; [done|].
  unfold me, now in Hr. autorewrite with run in Hr. cbv zeta in Hr. unfold gate.
  destruct (bool_decide (nextCommand _ = _)); [|done]. cbn [negb andb] in Hr |- *.
  assert (∀ a b, (a <=? b) = negb (a >? b)) as Hle.
  { intros a b. by rewrite Z.gtb_ltb, Z.leb_antisym. }
  rewrite ?Hle.
  destruct (type r); try done; try (apply power_answer_true in Hr; revert Hr);
    repeat match goal with |- context [?a >? ?b] => destruct (a >? b) end; try done;
    destruct (state (node (obj s))); cbn in *; done.
Qed.

(** ** A command at the bank

    What [IssueCommand] does is an operation of the bank from a state that
    differs from the first one in what a question changes, and passed the gate. *)

Definition operation (t : OpType) : ReqPtr → ST (Sim (Bank C)) bool :=
  match t with
  | ACTIVATE => Activate
  | READ | READ_PRECHARGE => Read
  | WRITE | WRITE_PRECHARGE => Write
  | PRECHARGE | PRECHARGE_ALL => Precharge
  | REFRESH => Refresh
  | POWERDOWN_PDA | POWERDOWN_PDPF | POWERDOWN_PDPS => PowerDown
  | POWERUP => PowerUp
  | _ => to_child
  end.

Definition asked s s' : Prop :=
  heap s' = heap s ∧ queue s' = queue s ∧ same_core (node (obj s)) (node (obj s')).

Lemma IssueCommand_inv q s b s' :
  IssueCommand q s = Ok (b, s') →
  ∃ s1, asked s s1 ∧
    ((b = false ∧ s' = s1) ∨
     ∃ r, h_reqs (heap s) !! q = Some r ∧ gate (node (obj s)) (currentCycle (queue s)) (type r) = true ∧
       operation (type r) q s1 = Ok (b, s')).
Proof.
  unfold DDR3.IssueCommand. intros Hr. next Hr. destruct r as [ok w]. exists x. split.
  { by eapply asks_IsIssuable. }
  destruct ok; cbn [negb] in Hr; [right | left; by injection Hr as <- <-].
  pose proof (asks_IsIssuable _ _ _ _ E) as (Eh & _). apply IsIssuable_gate in E as (r & Hq & Hg).
  exists r. split_and!; [done..|]. load Hr. rewrite Eh, Hq in E. injection E as <-.
  by destruct (type r).
Qed.

(** ** The rows of the bank *)

(** What the protocol speaks of. *)
Definition rows (b : DDR3Bank) := (params b, state b, activeSubArrayQueue b, openRow b).
Definition same_rows (b b' : DDR3Bank) : Prop := rows b' = rows b.
#[local] Instance same_rows_preorder : PreOrder same_rows.
Proof using. unfold same_rows. split; [done|]. intros ? ? ? ? ?. congruence. Qed.

Lemma core_rows b b' : same_core b b' → same_rows b b'.
Proof using. apply core_eq. by intros []. Qed.

Lemma to_child_asks_bank q s b s' : to_child q s = Ok (b, s') → same_core (node (obj s)) (node (obj s')).
Proof using. apply to_child_node; [apply _|]. apply core_decoder. Qed.

(** The state after a list of open subarrays was closed. *)
Definition closed_state (l : list Z) (st : DDR3BankState) : DDR3BankState :=
  if decide (l = []) then DDR3BANK_CLOSED else st.

Definition sub_of (r : NVMainRequest) : Z := let '(_, _, _, _, _, x) := GetTranslatedAddress (address r) in x.
Definition row_of (r : NVMainRequest) : Z := let '(x, _, _, _, _, _) := GetTranslatedAddress (address r) in x.

Lemma to_child_rows q s b s' : to_child q s = Ok (b, s') → same_rows (node (obj s)) (node (obj s')).
Proof using. intros Hr. by eapply core_rows, to_child_asks_bank. Qed.

Ltac child E := match type of E with Tree.to_child _ _ _ = Ok (_, _) => apply to_child_rows in E end.
Ltac rows_eq := unfold same_rows, rows in *; repeat match goal with
  | H : (_, _) = (_, _) |- _ => revert H end; fields; intros; simplify_eq; try congruence.

Lemma Activate_rows q s b s' r :
  h_reqs (heap s) !! q = Some r → Activate q s = Ok (b, s') →
  rows (node (obj s')) = if b then
    (params (node (obj s)), DDR3BANK_OPEN, sub_of r :: activeSubArrayQueue (node (obj s)), row_of r)
  else rows (node (obj s)).
Proof using.
  intros Hq Hr. unfold DDR3.Activate in Hr. unfold me, now, set_me in Hr. autorewrite with run in Hr.
  destruct (_ >? _); [by injection Hr as <- <-|]. destruct (_ && _); [by injection Hr as <- <-|].
  load Hr. rewrite Hq in E. injection E as <-. unfold sub_of, row_of.
  destruct (GetTranslatedAddress (address r)) as [[[[[row col] bk] rk] ch] sub].
  autorewrite with run in Hr. next Hr. child E.
  destruct r0; autorewrite with run in Hr; injection Hr as <- <-; rows_eq.
Qed.

(** An access that precharges its row closes the subarray. *)
Definition closes (t : OpType) : bool :=
  match t with READ_PRECHARGE | WRITE_PRECHARGE => true | _ => false end.

Definition access_rows (r : NVMainRequest) (b b' : DDR3Bank) : Prop :=
  let l := activeSubArrayQueue b in
  let l' := if closes (type r) then erase_first (sub_of r) l else l in
  rows b' = (params b, if closes (type r) then closed_state l' (state b) else state b, l', openRow b).

Lemma close_subarray_rows x b b' :
  same_rows b b' →
  rows (close_subarray x b') =
    (params b, closed_state (erase_first x (activeSubArrayQueue b)) (state b),
     erase_first x (activeSubArrayQueue b), openRow b).
Proof using.
  unfold close_subarray, closed_state. cbv zeta. intros. rows_eq. fields.
  repeat case_decide; fields; congruence.
Qed.

Lemma Read_rows q s b s' r :
  h_reqs (heap s) !! q = Some r → (q < h_next (heap s))%positive →
  type r = READ ∨ type r = READ_PRECHARGE → Read q s = Ok (b, s') →
  if b then state (node (obj s)) = DDR3BANK_OPEN ∧ access_rows r (node (obj s)) (node (obj s'))
  else same_rows (node (obj s)) (node (obj s')).
Proof.
  intros Hq Hlt Ht Hr. unfold DDR3.Read in Hr. unfold me, now, set_me in Hr. autorewrite with run in Hr.
  cbv zeta in Hr. destruct (_ >? _); [by injection Hr as <- <-|].
  destruct (negb (bool_decide _)) eqn:Eo; [by injection Hr as <- <-|].
  load Hr. rewrite Hq in E. injection E as <-. unfold access_rows, sub_of.
  destruct (GetTranslatedAddress (address r)) as [[[[[row col] bk] rk] ch] sub].
  autorewrite with run in Hr. next Hr. pose proof (to_child_keeps _ q _ _ _ _ E) as K.
  destruct K as [_ K]; [done|]. destruct (K r Hq) as (r' & Hq' & Et & _). child E.
  destruct r0; [|injection Hr as <- <-; rows_eq].
  autorewrite with run in Hr. load Hr. rewrite Hq' in E0. injection E0 as <-.
  rewrite Et in Hr.
  destruct Ht as [Ht|Ht]; rewrite Ht in Hr |- *; cbn [closes].
  - rewrite decide_False in Hr by done. autorewrite with run in Hr. injection Hr as <- <-. split; [by b2p|rows_eq].
  - rewrite decide_True in Hr by done. autorewrite with run in Hr. injection Hr as <- <-. split; [by b2p|].
    erewrite <- close_subarray_rows; [|exact E]. unfold rows. by fields.
Qed.

Lemma Write_rows q s b s' r :
  h_reqs (heap s) !! q = Some r → (q < h_next (heap s))%positive →
  type r = WRITE ∨ type r = WRITE_PRECHARGE → Write q s = Ok (b, s') →
  if b then state (node (obj s)) = DDR3BANK_OPEN ∧ access_rows r (node (obj s)) (node (obj s'))
  else same_rows (node (obj s)) (node (obj s')).
Proof.
  intros Hq Hlt Ht Hr. unfold DDR3.Write in Hr. unfold me, now, set_me in Hr. autorewrite with run in Hr.
  cbv zeta in Hr. destruct (_ >? _); [by injection Hr as <- <-|].
  destruct (negb (bool_decide _)) eqn:Eo; [by injection Hr as <- <-|].
  load Hr. rewrite Hq in E. injection E as <-. unfold access_rows, sub_of.
  destruct (GetTranslatedAddress (address r)) as [[[[[row col] bk] rk] ch] sub].
  autorewrite with run in Hr. next Hr. pose proof (to_child_keeps _ q _ _ _ _ E) as K.
  destruct K as [_ K]; [done|]. destruct (K r Hq) as (r' & Hq' & Et & _). child E.
  destruct r0; [|injection Hr as <- <-; rows_eq].
  autorewrite with run in Hr. load Hr. fields_in E0. rewrite Hq' in E0. injection E0 as <-.
  rewrite Et in Hr.
  destruct Ht as [Ht|Ht]; rewrite Ht in Hr |- *; cbn [closes].
  - rewrite decide_False in Hr by done. autorewrite with run in Hr. injection Hr as <- <-. split; [by b2p|rows_eq].
  - rewrite decide_True in Hr by done. autorewrite with run in Hr. injection Hr as <- <-. split; [by b2p|].
    fields. apply close_subarray_rows. rows_eq.
Qed.

Lemma Refresh_rows q s b s' :
  Refresh q s = Ok (b, s') → same_rows (node (obj s)) (node (obj s')).
Proof using.
  intros Hr. unfold DDR3.Refresh in Hr. unfold me, now, set_me in Hr. autorewrite with run in Hr.
  destruct (_ >? _); [by injection Hr as <- <-|].
  autorewrite with run in Hr. next Hr. child E.
  destruct r; autorewrite with run in Hr; injection Hr as <- <-; rows_eq.
Qed.

Lemma PowerDown_rows q s b s' r :
  h_reqs (heap s) !! q = Some r → PowerDown q s = Ok (b, s') →
  let st := state (node (obj s)) in
  let l := activeSubArrayQueue (node (obj s)) in
  if b then powered_up st = true ∧ (st = DDR3BANK_OPEN → type r = POWERDOWN_PDA) ∧
    rows (node (obj s')) = (params (node (obj s)),
      if decide (st = DDR3BANK_OPEN) then DDR3BANK_PDA
      else if decide (type r = POWERDOWN_PDPS) then DDR3BANK_PDPS else DDR3BANK_PDPF, l, openRow (node (obj s)))
  else same_rows (node (obj s)) (node (obj s')).
Proof using.
  intros Hq Hr. cbv zeta. unfold PowerDown in Hr. unfold me, now, set_me in Hr. autorewrite with run in Hr.
  destruct ((_ <=? _) && _) eqn:Eg; [|by injection Hr as <- <-].
  autorewrite with run in Hr. load Hr. fields_in E. rewrite Hq in E. injection E as <-.
  b2p. destruct (state (node (obj s))) eqn:Es; try done; cbn [powered_up] in *.
  - autorewrite with run in Hr. destruct (bool_decide (type r = POWERDOWN_PDA)) eqn:Et; [|done].
    autorewrite with run in Hr. injection Hr as <- <-. b2p. split_and!; [done..|]. unfold rows. by fields.
  - autorewrite with run in Hr. injection Hr as <- <-. split_and!; [done..|]. unfold rows. fields.
    repeat case_decide; try done; repeat f_equal; by destruct (type r).
Qed.

Lemma PowerUp_rows q s b s' :
  PowerUp q s = Ok (b, s') →
  let st := state (node (obj s)) in
  let l := activeSubArrayQueue (node (obj s)) in
  if b then powered_down st = true ∧
    rows (node (obj s')) = (params (node (obj s)),
      if decide (st = DDR3BANK_PDA) then DDR3BANK_OPEN else DDR3BANK_CLOSED, l, openRow (node (obj s)))
  else same_rows (node (obj s)) (node (obj s')).
Proof using.
  intros Hr. cbv zeta. unfold PowerUp in Hr. unfold me, now, set_me in Hr. autorewrite with run in Hr.
  cbv zeta in Hr. destruct ((_ <=? _) && _) eqn:Eg; [|by injection Hr as <- <-].
  autorewrite with run in Hr. injection Hr as <- <-. b2p. split; [done|]. unfold rows. fields.
  by destruct (state (node (obj s))).
Qed.

(** Precharging the open subarrays takes them off the front of the list. *)
Definition drops (l' : list Z) (b b' : DDR3Bank) : Prop :=
  rows b' = (params b, state b, l', openRow b) ∧ l' `suffix_of` activeSubArrayQueue b.

Lemma drops_refl b b' : same_rows b b' → drops (activeSubArrayQueue b) b b'.
Proof using. intros E. split; [exact E|reflexivity]. Qed.

Lemma drops_trans l1 l2 b0 b1 b2 : drops l1 b0 b1 → drops l2 b1 b2 → drops l2 b0 b2.
Proof using.
  unfold drops, rows. intros [E1 H1] [E2 H2]. assert (activeSubArrayQueue b1 = l1) as El by congruence.
  split; [congruence|]. etransitivity; [exact H2|]. by rewrite El.
Qed.

Lemma precharge_loop_rows q fuel : ∀ s b s',
  precharge_loop this fuel q s = Ok (b, s') →
  ∃ l', drops l' (node (obj s)) (node (obj s')) ∧
    (b = true → (length l' ≤ 1)%nat ∧ (activeSubArrayQueue (node (obj s)) ≠ [] → l' ≠ [])).
Proof using.
  induction fuel as [|fuel IH]; intros s b s' Hr; cbn [precharge_loop] in Hr; unfold me in Hr;
    autorewrite with run in Hr;
    destruct (activeSubArrayQueue (node (obj s))) as [|x [|y l]] eqn:El;
    try (injection Hr as <- <-; eexists; split; [by apply drops_refl|rewrite El; cbn; split; [lia|done]]); [done|].
  unfold set_me in Hr. autorewrite with run in Hr. load Hr. next Hr. autorewrite with run in Hr. next Hr.
  apply child_at_inv in E1 as ->. next Hr. apply on_child_node in E1. revert E0 E1. fields. intros E0 E1.
  assert (drops (y :: l) (node (obj s)) (node (obj x1))) as Hd.
  { rewrite E1. unfold lift in E0. destruct (NVMainRequest_assign _ _); [|done]. injection E0 as _ <-.
    fields. split; [unfold rows; fields; by rewrite El|]. rewrite El. by exists [x]. }
  destruct r2; [|injection Hr as <- <-; by exists (y :: l)].
  apply IH in Hr as (l' & Hd' & Hb). exists l'. split; [by eapply drops_trans|]. intros Eb.
  destruct (Hb Eb) as [H1 H2]. split; [done|]. intros _. apply H2.
  destruct Hd as [Hd _]. unfold rows in Hd. injection Hd as _ _ -> _. done.
Qed.

Lemma precharge_all_rows q s b s' :
  precharge_all this q s = Ok (b, s') →
  ∃ l', drops l' (node (obj s)) (node (obj s')) ∧ (b = true → l' = []).
Proof using.
  unfold precharge_all. intros Hr. unfold me, set_me in Hr. autorewrite with run in Hr.
  destruct (activeSubArrayQueue (node (obj s))) as [|x0 l0] eqn:El.
  { injection Hr as <- <-. eexists. split; [by apply drops_refl|by rewrite El]. }
  next Hr. apply precharge_loop_rows in E as (l1 & Hd & Hb).
  destruct r; cbn [negb] in Hr; [|injection Hr as <- <-; exists l1; by split].
  destruct (Hb eq_refl) as [H1 H2]. rewrite El in H2.
  autorewrite with run in Hr. pose proof Hd as [E1 _]. unfold rows in E1.
  assert (activeSubArrayQueue (node (obj x)) = l1) as E2 by congruence. rewrite E2 in Hr.
  destruct l1 as [|z [|? ?]]; [by destruct H2| |cbn in H1; lia]. cbn [head deref] in Hr.
  autorewrite with run in Hr. next Hr. apply child_at_inv in E as ->. next Hr. apply on_child_node in E.
  revert E. fields. intros E.
  assert (drops [] (node (obj s)) (node (obj x1))) as Hd'.
  { eapply drops_trans; [exact Hd|]. rewrite E. split; [unfold rows; fields; by rewrite E2|].
    rewrite E2. by exists [z]. }
  exists []. split; [|done].
  destruct r0; cbn [negb] in Hr; [|by injection Hr as <- <-].
  autorewrite with run in Hr. next Hr. injection Hr as <- <-. revert E0. unfold lift. by case_match; [intros [= _ <-]|].
Qed.

Lemma Precharge_rows q s b s' r :
  h_reqs (heap s) !! q = Some r → type r = PRECHARGE ∨ type r = PRECHARGE_ALL → Precharge q s = Ok (b, s') →
  let l := activeSubArrayQueue (node (obj s)) in
  let l' := if decide (type r = PRECHARGE) then erase_first (sub_of r) l else [] in
  if b then powered_up (state (node (obj s))) = true ∧
    rows (node (obj s')) =
      (params (node (obj s)), closed_state l' (state (node (obj s))), l', openRow (node (obj s)))
  else if decide (type r = PRECHARGE) then same_rows (node (obj s)) (node (obj s'))
  else ∃ l', drops l' (node (obj s)) (node (obj s')).
Proof using.
  intros Hq Ht Hr. cbv zeta. unfold DDR3.Precharge in Hr. unfold me, now, set_me in Hr. autorewrite with run in Hr.
  assert (b = false → same_rows (node (obj s)) (node (obj s')) → if b then powered_up (state (node (obj s))) = true ∧
    rows (node (obj s')) = (params (node (obj s)), closed_state (if decide (type r = PRECHARGE)
      then erase_first (sub_of r) (activeSubArrayQueue (node (obj s))) else []) (state (node (obj s))),
      if decide (type r = PRECHARGE) then erase_first (sub_of r) (activeSubArrayQueue (node (obj s))) else [],
      openRow (node (obj s)))
    else if decide (type r = PRECHARGE) then same_rows (node (obj s)) (node (obj s'))
    else ∃ l', drops l' (node (obj s)) (node (obj s'))) as Hrefused.
  { intros -> E. case_decide; [done|]. eexists. by apply drops_refl. }
  destruct (_ >? _); [injection Hr as <- <-; by apply Hrefused|].
  destruct (negb (powered_up _)) eqn:Eo; [injection Hr as <- <-; by apply Hrefused|]. clear Hrefused. b2p.
  load Hr. rewrite Hq in E. injection E as <-. unfold sub_of.
  destruct (GetTranslatedAddress (address r)) as [[[[[row col] bk] rk] ch] sub].
  autorewrite with run in Hr.
  destruct Ht as [Ht|Ht]; rewrite Ht in Hr |- *; [rewrite !decide_True by done|rewrite !decide_False by done].
  - autorewrite with run in Hr. next Hr. child E.
    destruct r0; autorewrite with run in Hr; cbn [negb] in Hr; [|injection Hr as <- <-; rows_eq].
    autorewrite with run in Hr. injection Hr as <- <-. split; [done|]. unfold closed_state. rows_eq. fields.
    repeat case_decide; fields; congruence.
  - next Hr. apply precharge_all_rows in E as (l' & Hd & Hb).
    assert (drops l' (node (obj s)) (node (obj x))) as Hd'.
    { eapply drops_trans; [|exact Hd]. revert Hd. fields. intros Hd. split; [unfold rows; by fields|by exists []]. }
    destruct r0; autorewrite with run in Hr; cbn [negb] in Hr; [|injection Hr as <- <-; eauto].
    rewrite (Hb eq_refl) in Hd'. injection Hr as <- <-. split; [done|].
    destruct Hd' as [Hd' _]. unfold rows, closed_state in *. fields. simplify_eq.
    rewrite (decide_True) by done. fields. case_decide; [|by destruct H1]. fields. congruence.
Qed.

(** ** The abstract machine

    The protocol of the bank without its times and counters: the state, the open
    subarrays (most recently opened first) and the last row opened. *)

Record BankView := mkView { v_state : DDR3BankState; v_open : list Z; v_row : Z }.
Definition view (b : DDR3Bank) : BankView := mkView (state b) (activeSubArrayQueue b) (openRow b).

Definition bank_spec (r : NVMainRequest) (v : BankView) : option BankView :=
  let '(mkView st l row) := v in
  let shut l' := mkView (closed_state l' st) l' row in
  match type r with
  | ACTIVATE =>
      guard (powered_down st = false ∧ (st = DDR3BANK_CLOSED ∨ l ≠ []));;
      Some (mkView DDR3BANK_OPEN (sub_of r :: l) (row_of r))
  | READ | WRITE => guard (st = DDR3BANK_OPEN);; Some v
  | READ_PRECHARGE | WRITE_PRECHARGE => guard (st = DDR3BANK_OPEN);; Some (shut (erase_first (sub_of r) l))
  | PRECHARGE => guard (powered_up st = true);; Some (shut (erase_first (sub_of r) l))
  | PRECHARGE_ALL => guard (powered_up st = true);; Some (shut [])
  | REFRESH => guard (powered_up st = true);; Some v
  | POWERDOWN_PDA =>
      guard (powered_up st = true);;
      Some (mkView (if decide (st = DDR3BANK_OPEN) then DDR3BANK_PDA else DDR3BANK_PDPF) l row)
  | POWERDOWN_PDPF => guard (st = DDR3BANK_CLOSED);; Some (mkView DDR3BANK_PDPF l row)
  | POWERDOWN_PDPS => guard (st = DDR3BANK_CLOSED);; Some (mkView DDR3BANK_PDPS l row)
  | POWERUP =>
      guard (powered_down st = true);;
      Some (mkView (if decide (st = DDR3BANK_PDA) then DDR3BANK_OPEN else DDR3BANK_CLOSED) l row)
  | _ => Some v
  end.

Lemma rows_view b' p st l row : rows b' = (p, st, l, row) → view b' = mkView st l row.
Proof using. unfold rows, view. by intros [= _ -> -> ->]. Qed.
Lemma same_rows_view b b' : same_rows b b' → view b' = view b.
Proof using. by intros E%rows_view. Qed.

(** The bank follows the abstract machine; a command that is refused changes
    nothing, but a PRECHARGE_ALL may stop half way. *)
Definition follows (r : NVMainRequest) (ok : bool) (v v' : BankView) : Prop :=
  if ok then bank_spec r v = Some v'
  else v' = v ∨ type r = PRECHARGE_ALL ∧ ∃ l', l' `suffix_of` v_open v ∧ v' = mkView (v_state v) l' (v_row v).


Lemma Activate_closed q s s' :
  Activate q s = Ok (true, s') →
  state (node (obj s)) = DDR3BANK_CLOSED ∨ activeSubArrayQueue (node (obj s)) ≠ [].
Proof using.
  intros Hr. unfold DDR3.Activate in Hr. unfold me, now in Hr. autorewrite with run in Hr.
  destruct (_ >? _); [done|]. destruct (_ && _) eqn:Ea; [done|].
  apply andb_false_iff in Ea as [Ea|Ea]; b2p; auto.
Qed.

(** Use the guard of the abstract machine. *)
Ltac guarded := rewrite option_guard_True; [cbn [mbind option_bind] | by auto].

Lemma operation_follows q s b s' r :
  h_reqs (heap s) !! q = Some r → (q < h_next (heap s))%positive →
  gate (node (obj s)) (currentCycle (queue s)) (type r) = true → operation (type r) q s = Ok (b, s') →
  follows r b (view (node (obj s))) (view (node (obj s'))).
Proof.
  intros Hq Hlt Hg Hr. unfold follows, gate in *. unfold bank_spec at 1. unfold view at 1.
  assert (∀ b b', same_rows b b' → view b' = view b) as Hv by apply same_rows_view.
  destruct (type r) eqn:Et; cbn [operation] in Hr; b2p;
    try (apply to_child_rows, Hv in Hr; rewrite Hr; destruct b; [done|by left]).
  - pose proof (Activate_rows _ _ _ _ _ Hq Hr) as E. destruct b; [|by left; apply Hv].
    apply Activate_closed in Hr. guarded. by rewrite (rows_view _ _ _ _ _ E).
  - eapply (Read_rows _ _ _ _ _ Hq Hlt) in Hr; [|auto]. destruct b; [|by left; apply Hv].
    destruct Hr as [Ho E]. unfold access_rows in E. rewrite Et in E. guarded. by rewrite (rows_view _ _ _ _ _ E).
  - eapply (Read_rows _ _ _ _ _ Hq Hlt) in Hr; [|auto]. destruct b; [|by left; apply Hv].
    destruct Hr as [Ho E]. unfold access_rows in E. rewrite Et in E. guarded. by rewrite (rows_view _ _ _ _ _ E).
  - eapply (Write_rows _ _ _ _ _ Hq Hlt) in Hr; [|auto]. destruct b; [|by left; apply Hv].
    destruct Hr as [Ho E]. unfold access_rows in E. rewrite Et in E. guarded. by rewrite (rows_view _ _ _ _ _ E).
  - eapply (Write_rows _ _ _ _ _ Hq Hlt) in Hr; [|auto]. destruct b; [|by left; apply Hv].
    destruct Hr as [Ho E]. unfold access_rows in E. rewrite Et in E. guarded. by rewrite (rows_view _ _ _ _ _ E).
  - eapply (Precharge_rows _ _ _ _ _ Hq) in Hr; [|auto]. cbv zeta in Hr. rewrite Et, !decide_True in Hr by done.
    destruct b; [|by left; apply Hv]. destruct Hr as [Ho E]. guarded. by rewrite (rows_view _ _ _ _ _ E).
  - eapply (Precharge_rows _ _ _ _ _ Hq) in Hr; [|auto]. cbv zeta in Hr. rewrite Et, !decide_False in Hr by done.
    destruct b.
    + destruct Hr as [Ho E]. guarded. by rewrite (rows_view _ _ _ _ _ E).
    + right. destruct Hr as (l' & E & Hs). split; [done|]. exists l'. split; [done|]. by rewrite (rows_view _ _ _ _ _ E).
  - apply (PowerDown_rows _ _ _ _ _ Hq) in Hr. cbv zeta in Hr. rewrite Et in Hr. destruct b; [|by left; apply Hv].
    destruct Hr as (Hu & Ho & E). guarded. rewrite (rows_view _ _ _ _ _ E). by repeat case_decide.
  - apply (PowerDown_rows _ _ _ _ _ Hq) in Hr. cbv zeta in Hr. rewrite Et in Hr. destruct b; [|by left; apply Hv].
    destruct Hr as (Hu & Ho & E). rewrite option_guard_True; [|by destruct (state (node (obj s)))].
    rewrite (rows_view _ _ _ _ _ E). repeat case_decide; done || naive_solver.
  - apply (PowerDown_rows _ _ _ _ _ Hq) in Hr. cbv zeta in Hr. rewrite Et in Hr. destruct b; [|by left; apply Hv].
    destruct Hr as (Hu & Ho & E). rewrite option_guard_True; [|by destruct (state (node (obj s)))].
    rewrite (rows_view _ _ _ _ _ E). repeat case_decide; done || naive_solver.
  - apply PowerUp_rows in Hr. cbv zeta in Hr. destruct b; [|by left; apply Hv].
    destruct Hr as (Hu & E). guarded. by rewrite (rows_view _ _ _ _ _ E).
  - apply Refresh_rows, Hv in Hr. rewrite Hr. destruct b; [|by left]. by guarded.
Qed.

Lemma IssueCommand_follows q s b s' r :
  h_reqs (heap s) !! q = Some r → (q < h_next (heap s))%positive → IssueCommand q s = Ok (b, s') →
  follows r b (view (node (obj s))) (view (node (obj s'))).
Proof.
  intros Hq Hlt Hr. destruct (IssueCommand_inv _ _ _ _ Hr) as (s1 & (Eh & Eq & Eb) & [[-> ->]|(r' & Hq' & Hg & Hop)]).
  - left. by apply same_rows_view, core_rows.
  - rewrite Hq in Hq'. injection Hq' as <-.
    assert (∀ n t, gate (node (obj s1)) n t = gate (node (obj s)) n t) as Eg.
    { intros n t. by apply (core_eq (λ b, gate b n t) _ _). }
    rewrite <- (same_rows_view _ _ (core_rows _ _ Eb)).
    eapply operation_follows; [by rewrite Eh|by rewrite Eh| |exact Hop]. by rewrite Eg, Eq.
Qed.

(** ** Invariant of the abstract machine *)

(** A row is open exactly when a subarray is in the list. *)
Definition open_iff (v : BankView) : Prop :=
  v_state v ≠ DDR3BANK_UNKNOWN ∧
  ((v_state v = DDR3BANK_OPEN ∨ v_state v = DDR3BANK_PDA) ↔ v_open v ≠ []).

Lemma spec_open_iff r v v' : bank_spec r v = Some v' → open_iff v → open_iff v'.
Proof using.
  unfold bank_spec, open_iff, closed_state. destruct v as [st l row]; cbn [v_state v_open v_row]. intros Hs [Hu Hi].
  destruct (type r); simplify_option_eq; cbn [v_state v_open]; try done;
    repeat case_decide; try match goal with x : DDR3BankState |- _ => destruct x end; naive_solver.
Qed.

(** ** The loop of PRECHARGE_ALL ends

    Every pass takes a subarray off the list, so the length of the list is fuel
    enough. *)

(** The subarrays' commands and answers end. *)
Definition children_end : Prop := ∀ q, ends (ch_IssueCommand (C := C) q) ∧ ends (ch_IsIssuable (C := C) q).
Hypothesis child_ends : children_end.
Lemma command_ends q : ends (ch_IssueCommand (C := C) q).
Proof using child_ends. apply child_ends. Qed.
Lemma answer_ends q : ends (ch_IsIssuable (C := C) q).
Proof using child_ends. apply child_ends. Qed.
#[local] Hint Resolve command_ends answer_ends : ends.

Lemma precharge_loop_ends q fuel : ∀ s,
  (length (activeSubArrayQueue (node (obj s))) ≤ fuel)%nat → precharge_loop this fuel q s ≠ Err OutOfFuel.
Proof using child_ends.
  induction fuel as [|fuel IH]; intros s Hl; cbn [precharge_loop]; unfold me; autorewrite with run;
    destruct (activeSubArrayQueue (node (obj s))) as [|x [|y l]] eqn:El; try done; cbn in Hl; [lia|].
  unfold set_me. autorewrite with run. apply ends_bind_at; [apply ends_load_req|]. intros r s1 [-> _]%load_req_inv.
  apply ends_bind_at; [apply ends_lift, fueled_assign|]. intros r' s1 Hs1.
  assert (s1 = _) as -> by (unfold lift in Hs1; destruct (NVMainRequest_assign _ _); simplify_eq; reflexivity).
  autorewrite with run. apply ends_bind_at; [apply ends_child_at|]. intros i s2 ->%child_at_inv.
  apply ends_bind_at; [apply ends_on_child, command_ends|]. intros ok s3 E%on_child_node. destruct ok; [|done].
  apply IH. rewrite E. fields. rewrite El. cbn. lia.
Qed.

Lemma precharge_all_ends q : ends (precharge_all this q).
Proof using child_ends.
  intros s. unfold precharge_all, me. autorewrite with run. destruct (activeSubArrayQueue _) as [|x l] eqn:El; [done|].
  rewrite <- El. apply ends_bind_at; [by apply precharge_loop_ends|]. intros ok s1 _. destruct ok; [|done]. cbn [negb].
  revert s1. match goal with |- ∀ s1, ?m s1 ≠ _ => change (ends m) end. ends_tac.
Qed.
#[local] Hint Resolve precharge_all_ends : ends.

Lemma ask_open_ends q l : ∀ ans, ends (ask_open q l ans).
Proof using child_ends. induction l as [|x l IH]; intros ans; cbn [ask_open]; ends_tac. Qed.
Lemma ask_all_ends q l : ∀ rv, ends (ask_all q l rv).
Proof using child_ends. induction l as [|x l IH]; intros rv; cbn [ask_all]; ends_tac. Qed.
#[local] Hint Resolve ask_open_ends ask_all_ends : ends.
Lemma IsIssuable_ends q : ends (DDR3.IsIssuable out q).
Proof using child_ends. unfold DDR3.IsIssuable, ask_child, power_answer. cbv zeta. ends_tac. Qed.
#[local] Hint Resolve IsIssuable_ends : ends.
Lemma IssueCommand_ends q : ends (DDR3.IssueCommand this out q).
Proof using child_ends.
  unfold DDR3.IssueCommand, DDR3.Activate, DDR3.Read, DDR3.Write, DDR3.Precharge, DDR3.Refresh, PowerDown, PowerUp.
  ends_tac.
Qed.
End Questions.

(** C18. The bank refines the abstract machine of its protocol: a command that is
    carried out is a step of [bank_spec] on the state, the list of open subarrays
    and the row; a refused command leaves them, except that a PRECHARGE_ALL may
    have closed the first subarrays of the list. *)
Theorem bank_refines_spec {C} `{ChildLaws C} this out q (s s' : Sim (Bank C)) b r :
  heap_wf (heap s) → h_reqs (heap s) !! q = Some r → IssueCommand this out q s = Ok (b, s') →
  follows r b (view (node (obj s))) (view (node (obj s'))).
Proof.
  intros Hh Hq Hr. eapply IssueCommand_follows; [exact Hq| |exact Hr].
  by eapply heap_wf_lt.
Qed.

(** C20. A bank has an open row (active, or in active power-down) exactly when one
    of its subarrays is in the list of open subarrays: every command keeps
    this, if a PRECHARGE_ALL is not refused by a subarray on the way. *)
Theorem bank_open_iff {C} `{ChildLaws C} this out q (s s' : Sim (Bank C)) b r :
  heap_wf (heap s) → h_reqs (heap s) !! q = Some r → IssueCommand this out q s = Ok (b, s') →
  (type r = PRECHARGE_ALL → b = true) → open_iff (view (node (obj s))) → open_iff (view (node (obj s'))).
Proof.
  intros Hh Hq Hr Hall Hi.
  pose proof (heap_wf_lt _ _ _ Hh Hq) as Hlt.
  pose proof (IssueCommand_follows _ _ _ _ _ _ _ Hq Hlt Hr) as Hf. unfold follows in Hf. destruct b.
  - by eapply spec_open_iff.
  - destruct Hf as [->|[Ht _]]; [done|]. by specialize (Hall Ht).
Qed.

(** Asking a bank whether a command is issuable changes nothing but the
    waiting statistics and the scratch value of the decoder: the heap, the event
    queue and all the times and states of the bank stay. *)
Theorem bank_IsIssuable_asks {C} `{ChildLaws C} out q (s s' : Sim (Bank C)) a :
  IsIssuable out q s = Ok (a, s') → asked s s'.
Proof. apply asks_IsIssuable. Qed.

(** C21. A command at a bank always ends: the length of the list of open
    subarrays is fuel enough for the loop of PRECHARGE_ALL, whatever the
    subarrays answer. *)
Theorem bank_command_terminates {C} `{ChildOps C} this out q (s : Sim (Bank C)) :
  children_end (C := C) → DDR3.IssueCommand this out q s ≠ Err OutOfFuel.
Proof. intros He. by apply IssueCommand_ends. Qed.

Lemma bank_refines_spec_witness :
  follows (BankBench.request ACTIVATE 0 7) true (view (node (obj BankBench.start)))
    (view (node (obj (BankBench.run 10 BankBench.start)))) ∧
  view (node (obj (BankBench.run 10 BankBench.start))) = mkView DDR3BANK_OPEN [0] 7.
Proof.
  split; [|vm_compute; reflexivity].
  refine (bank_refines_spec 5 BankBench.out0 10 BankBench.start (BankBench.run 10 BankBench.start) true
    (BankBench.request ACTIVATE 0 7) BankBench.bank_start_wf _ _); vm_compute; reflexivity.
Defined.

Lemma bank_open_iff_witness : open_iff (view (node (obj (BankBench.run 10 BankBench.start)))).
Proof.
  refine (bank_open_iff 5 BankBench.out0 10 BankBench.start (BankBench.run 10 BankBench.start) true
    (BankBench.request ACTIVATE 0 7) BankBench.bank_start_wf _ _ _ _).
  - vm_compute. reflexivity.
  - vm_compute. reflexivity.
  - intros _. reflexivity.
  - vm_compute. split; [discriminate|]. split; [intros [|]; discriminate|]. intros Hn. by destruct Hn.
Defined.

Lemma bank_IsIssuable_asks_witness : ∃ s', asked BankBench.start s'.
Proof.
  eexists. refine (bank_IsIssuable_asks BankBench.out0 11 BankBench.start _ (false, Some BANK_TIMING) _).
  vm_compute. reflexivity.
Defined.

(** With children that accept everything, and two open subarrays. *)
Lemma bank_command_terminates_witness :
  let ops := {| ch_IsIssuable _ := mret (true, None); ch_IssueCommand _ := mret true;
                ch_NextIssuable _ := mret 0; ch_Idle := mret true; ch_Cycle _ := mret () |} : ChildOps () in
  DDR3.IssueCommand (H := ops) 5 BankBench.out0 12 (mkSim (heap BankBench.start) (queue BankBench.start)
    (mkNode ((node BankBench.bank0) <| activeSubArrayQueue := [0; 1] |>) [(); ()])) ≠ Err OutOfFuel.
Proof. cbv zeta. apply bank_command_terminates. intros q. by split. Defined.
