(* ===== verification/DDR3BankTiming.v ===== *)
(** * Timing of the bank and of the subarrays below it

    The bank delays power commands and column accesses as the parameters say,
    and what happens at a bank is, for each of its subarrays, a run of that
    subarray: the guarantees of the subarray hold below the bank. *)

From S2P Require Import Prelude NVMTypes Translation Config Params SimInterface Heap EventQueue Frame SubArray.
From S2P Require Import SubArrayTiming SubArrayProtocol Tree DDR3Bank SubArrayChild DDR3BankProtocol.
Import DDR3.

Section Timing.
Context {C : Type} `{ChildLaws C}.
Variable this : ObjPtr.
Variable out : six.
Variable own : Sim C → Sim C → Prop.
Implicit Types (s : Sim (Bank C)).

#[local] Abbreviation child_of := (child_of out).
#[local] Abbreviation to_child := (to_child out).
#[local] Abbreviation IsIssuable := (IsIssuable out).
#[local] Abbreviation IssueCommand := (IssueCommand this out).
#[local] Abbreviation Activate := (Activate out).
#[local] Abbreviation Read := (Read out).
#[local] Abbreviation Write := (Write out).
#[local] Abbreviation Precharge := (Precharge this out).
#[local] Abbreviation Refresh := (Refresh out).

(** ** Monotonicity

    No operation moves a time backwards, except that a write with precharge may
    move [nextPowerDown] back, but never before [nextActivate]. *)

Definition ahead (b b' : DDR3Bank) : Prop :=
  params b' = params b ∧
  nextActivate b ≤ nextActivate b' ∧ nextPrecharge b ≤ nextPrecharge b' ∧ nextRead b ≤ nextRead b' ∧
  nextWrite b ≤ nextWrite b' ∧ nextPowerUp b ≤ nextPowerUp b' ∧
  (∀ k, k ≤ nextActivate b → k ≤ nextPowerDown b → k ≤ nextPowerDown b').

#[export] Instance ahead_preorder : PreOrder ahead.
Proof.
  unfold ahead. split; [intros b; intuition lia|].
  intros b1 b2 b3 (E1 & ? & ? & ? & ? & ? & P1) (E2 & ? & ? & ? & ? & ? & P2). split_and!; [congruence|lia..|].
  intros k Hk1 Hk2. apply P2; [lia|]. by apply P1.
Qed.

Ltac ahead_update := unfold ahead; intros; fields; repeat case_match; split_and!; intros; fields;
  rewrite ?MAX_max; first [reflexivity | lia].

Lemma core_ahead b b' : same_core b b' → ahead b b'.
Proof.
  intros E. unfold ahead.
  pose proof (core_eq params _ _ ltac:(done) E) as ->. pose proof (core_eq nextActivate _ _ ltac:(done) E) as ->.
  pose proof (core_eq nextPrecharge _ _ ltac:(done) E) as ->. pose proof (core_eq nextRead _ _ ltac:(done) E) as ->.
  pose proof (core_eq nextWrite _ _ ltac:(done) E) as ->. pose proof (core_eq nextPowerUp _ _ ltac:(done) E) as ->.
  pose proof (core_eq nextPowerDown _ _ ltac:(done) E) as ->. intuition lia.
Qed.

Lemma ahead_close x b : ahead b (close_subarray x b).
Proof. unfold close_subarray. cbv zeta. ahead_update. Qed.

Lemma ahead_to_child q : pres (on_node ahead) (to_child q).
Proof. intros s b s' Hr. by eapply core_ahead, to_child_asks_bank. Qed.
Lemma ahead_IsIssuable q : pres (on_node ahead) (IsIssuable q).
Proof. intros s a s' Hr. apply asks_IsIssuable in Hr as (_ & _ & E). by apply core_ahead. Qed.
#[local] Hint Resolve ahead_to_child ahead_IsIssuable ahead_close : pres.

Ltac ahead_tac := node_tac; try (by apply ahead_close); ahead_update.

Lemma ahead_Activate q : pres (on_node ahead) (Activate q).
Proof. unfold DDR3.Activate. ahead_tac. Qed.
Lemma ahead_Read q : pres (on_node ahead) (Read q).
Proof. unfold DDR3.Read. ahead_tac. Qed.
Lemma ahead_Write q : pres (on_node ahead) (Write q).
Proof. unfold DDR3.Write. ahead_tac. Qed.
Lemma ahead_precharge_loop q fuel : pres (on_node ahead) (precharge_loop this fuel q).
Proof. induction fuel as [|fuel IH]; cbn [precharge_loop]; ahead_tac. Qed.
#[local] Hint Resolve ahead_precharge_loop : pres.
Lemma ahead_precharge_all q : pres (on_node ahead) (precharge_all this q).
Proof. unfold precharge_all. ahead_tac. Qed.
#[local] Hint Resolve ahead_precharge_all : pres.
Lemma ahead_Precharge q : pres (on_node ahead) (Precharge q).
Proof. unfold DDR3.Precharge. ahead_tac. Qed.
Lemma ahead_Refresh q : pres (on_node ahead) (Refresh q).
Proof. unfold DDR3.Refresh. ahead_tac. Qed.
Lemma ahead_PowerDown q : pres (on_node ahead) (PowerDown (C := C) q).
Proof. unfold PowerDown. ahead_tac. Qed.
Lemma ahead_PowerUp q : pres (on_node ahead) (PowerUp (C := C) q).
Proof. unfold PowerUp. ahead_tac. Qed.
#[local] Hint Resolve ahead_Activate ahead_Read ahead_Write ahead_Precharge ahead_Refresh ahead_PowerDown
  ahead_PowerUp : pres.
Lemma ahead_IssueCommand q : pres (on_node ahead) (IssueCommand q).
Proof. unfold DDR3.IssueCommand. ahead_tac. Qed.

(** ** The times of the bank *)

(** The time that must not be in the future for [c]. *)
Definition bank_next (b : DDR3Bank) (c : OpType) : option Z :=
  if is_act c then Some (nextActivate b) else if is_read c then Some (nextRead b)
  else if is_write c then Some (nextWrite b) else if is_pre c then Some (nextPrecharge b)
  else if is_pd c then Some (nextPowerDown b)
  else match c with POWERUP => Some (nextPowerUp b) | _ => None end.

(** [c] may not be issued before [e], and nothing changes that. *)
Definition not_before (e : Z) (c : OpType) (b : DDR3Bank) : Prop :=
  (∃ x, bank_next b c = Some x ∧ e ≤ x) ∧ (is_pd c = true → e ≤ nextActivate b).

Lemma not_before_ahead e c b b' : ahead b b' → not_before e c b → not_before e c b'.
Proof using.
  unfold ahead, not_before, bank_next. intros (_ & ? & ? & ? & ? & ? & P) [(x & Hx & Hle) Hpd].
  destruct c; cbn in *; simplify_eq; (split; [eexists; split; [done|]|intros ?; try done]);
    try (specialize (Hpd eq_refl)); try apply P; lia.
Qed.

Lemma not_before_gate e c b n : not_before e c b → gate b n c = true → e ≤ n.
Proof using.
  unfold not_before, bank_next, gate. intros [(x & Hx & Hle) _] Hg.
  destruct c; cbn in *; simplify_eq; b2p; lia.
Qed.

(** The first cycle at which the bank allows [c2] after [c1] was carried out at
    cycle [n] with burst count [b] in state [st]. *)
Definition bank_earliest (p : Params) (st : DDR3BankState) (b n : Z) (c1 c2 : OpType) : option Z :=
  let last := DDR3.burst p ⊗ (b ⊖ 1) in
  match c1 with
  | READ | READ_PRECHARGE =>
      if is_read c2 then Some (n ⊕ DDR3.burst p ⊗ b)
      else if is_write c2 then Some (n ⊕ last ⊕ tCAS p ⊕ tBURST p ⊕ tRTRS p ⊖ tCWD p) else None
  | WRITE | WRITE_PRECHARGE =>
      if is_read c2 then Some (n ⊕ last ⊕ tCWD p ⊕ tBURST p ⊕ tWTR_L p)
      else if is_write c2 then Some (n ⊕ DDR3.burst p ⊗ b) else None
  | POWERDOWN_PDA | POWERDOWN_PDPF | POWERDOWN_PDPS =>
      match c2 with POWERUP => Some (n ⊕ tPD p) | _ => None end
  | POWERUP =>
      if is_read c2 then Some (n ⊕ match st with DDR3BANK_PDPS => tXPDLL p | _ => tXP p end)
      else if is_act c2 || is_pre c2 || is_write c2 || is_pd c2 then Some (n ⊕ tXP p) else None
  | _ => None
  end.

(** A part of a computation that only moves times forward. *)
Ltac rest_ahead H Ha :=
  match type of H with ?m ?y = Ok (_, ?z) =>
    assert (ahead (node (obj y)) (node (obj z))) as Ha;
      [let P := fresh in assert (pres (on_node ahead) m) as P by ahead_tac; exact (P _ _ _ H)|] end.

(** A bound that holds after an update of the bank holds at the end. *)
Ltac bound_after H :=
  let Ha := fresh in rest_ahead H Ha; eapply not_before_ahead; [exact Ha|]; clear Ha H;
  unfold not_before, bank_next; fields;
  split; [eexists; split; [reflexivity|rewrite ?MAX_max; lia]|first [discriminate | intros _; rewrite ?MAX_max; lia]].

Lemma Read_bound q s s' r c2 e :
  h_reqs (heap s) !! q = Some r → Read q s = Ok (true, s') →
  bank_earliest (params (node (obj s))) (state (node (obj s))) (burstCount r) (currentCycle (queue s)) READ c2
    = Some e → not_before e c2 (node (obj s')).
Proof.
  intros Hq Hr He. unfold DDR3.Read in Hr. unfold me, now, set_me in Hr. autorewrite with run in Hr. cbv zeta in Hr.
  destruct (_ >? _); [done|]. destruct (negb _); [done|]. load Hr. rewrite Hq in E. injection E as <-.
  destruct (GetTranslatedAddress (address r)) as [[[[[row col] bk] rk] ch] sub].
  autorewrite with run in Hr. cbn in He. destruct c2; cbn in He; simplify_eq; bound_after Hr.
Qed.

Lemma Write_bound q s s' r c2 e :
  h_reqs (heap s) !! q = Some r → Write q s = Ok (true, s') →
  bank_earliest (params (node (obj s))) (state (node (obj s))) (burstCount r) (currentCycle (queue s)) WRITE c2
    = Some e → not_before e c2 (node (obj s')).
Proof.
  intros Hq Hr He. unfold DDR3.Write in Hr. unfold me, now, set_me in Hr. autorewrite with run in Hr. cbv zeta in Hr.
  destruct (_ >? _); [done|]. destruct (negb _); [done|]. load Hr. rewrite Hq in E. injection E as <-.
  destruct (GetTranslatedAddress (address r)) as [[[[[row col] bk] rk] ch] sub].
  autorewrite with run in Hr. cbn in He. destruct c2; cbn in He; simplify_eq; bound_after Hr.
Qed.

Lemma PowerDown_bound q s s' c2 e :
  PowerDown q s = Ok (true, s') →
  bank_earliest (params (node (obj s))) (state (node (obj s))) 0 (currentCycle (queue s)) POWERDOWN_PDA c2
    = Some e → not_before e c2 (node (obj s')).
Proof.
  intros Hr He. unfold PowerDown in Hr. unfold me, now, set_me in Hr. autorewrite with run in Hr.
  destruct (_ && _); [|done]. autorewrite with run in Hr.
  cbn in He. destruct c2; cbn in He; simplify_eq; bound_after Hr.
Qed.

Lemma PowerUp_bound q s s' c2 e :
  PowerUp q s = Ok (true, s') →
  bank_earliest (params (node (obj s))) (state (node (obj s))) 0 (currentCycle (queue s)) POWERUP c2
    = Some e → not_before e c2 (node (obj s')).
Proof using.
  intros Hr He. unfold PowerUp in Hr. unfold me, now, set_me in Hr. autorewrite with run in Hr. cbv zeta in Hr.
  destruct (_ && _); [|done]. autorewrite with run in Hr. injection Hr as <-.
  cbn in He. unfold not_before, bank_next. destruct c2; cbn in He; simplify_eq; fields;
    (split; [eexists; split; [reflexivity|rewrite ?MAX_max; lia]|first [discriminate | intros _; rewrite ?MAX_max; lia]]).
Qed.

Lemma IssueCommand_bound q s s' r c2 e :
  h_reqs (heap s) !! q = Some r → IssueCommand q s = Ok (true, s') →
  bank_earliest (params (node (obj s))) (state (node (obj s))) (burstCount r) (currentCycle (queue s)) (type r) c2
    = Some e → not_before e c2 (node (obj s')).
Proof.
  intros Hq Hr He. destruct (IssueCommand_inv _ _ _ _ _ _ Hr) as (s1 & (Eh & Eq & Eb) & [[? _]|(r' & Hq' & _ & Hop)]);
    [done|].
  rewrite Hq in Hq'. injection Hq' as <-. rewrite <- Eh in Hq. rewrite <- Eq in He.
  rewrite <- (core_eq params _ _ ltac:(done) Eb), <- (core_eq state _ _ ltac:(done) Eb) in He.
  destruct (type r) eqn:Et; try discriminate He; cbn [operation] in Hop;
    eauto using Read_bound, Write_bound, PowerUp_bound, PowerDown_bound.
Qed.

(** ** Runs of the bank

    The bank is asked, given commands and told that cycles passed, in any order.
    In between the subarrays do what the event queue makes them do ([own]), and
    the rest of the system does whatever leaves the bank and its subarrays
    alone. *)
Inductive bank_step : Sim (Bank C) → Sim (Bank C) → Prop :=
  | bank_issue s q b s' : IssueCommand q s = Ok (b, s') → bank_step s s'
  | bank_query s q a s' : IsIssuable q s = Ok (a, s') → bank_step s s'
  | bank_cycle s n s' : Cycle n s = Ok ((), s') → bank_step s s'
  | bank_child s i c sc : kids (obj s) !! i = Some c → own (seen s c) sc →
      bank_step s (child_acts i s sc)
  | bank_env s s' : obj s' = obj s → bank_step s s'.

Lemma steps_pres R `{!PreOrder R} s s' :
  (∀ q, pres (on_node R) (IssueCommand q)) → (∀ b b', same_core b b' → R b b') →
  (∀ n, pres (on_node R) (Cycle (C := C) n)) → rtc bank_step s s' → on_node R s s'.
Proof.
  intros Hi Hc Hn. induction 1 as [s|s1 s2 s3 H1 H2 IH]; [unfold on_node; reflexivity|].
  etransitivity; [|exact IH]. destruct H1.
  - by eapply Hi.
  - apply Hc. by eapply asks_IsIssuable.
  - by eapply Hn.
  - unfold on_node, child_acts. cbn [obj]. fields. reflexivity.
  - unfold on_node. by rewrite H1.
Qed.

Lemma ahead_Cycle n : pres (on_node ahead) (Cycle (C := C) n).
Proof using. unfold DDR3.Cycle. ahead_tac. Qed.

Lemma steps_ahead s s' : rtc bank_step s s' → ahead (node (obj s)) (node (obj s')).
Proof.
  apply (steps_pres ahead); [apply ahead_IssueCommand|apply core_ahead|apply ahead_Cycle].
Qed.

Lemma bank_timing_table q1 r1 s0 s1 s2 q2 r2 w s3 e :
  h_reqs (heap s0) !! q1 = Some r1 → IssueCommand q1 s0 = Ok (true, s1) → rtc bank_step s1 s2 →
  h_reqs (heap s2) !! q2 = Some r2 → IsIssuable q2 s2 = Ok ((true, w), s3) →
  bank_earliest (params (node (obj s0))) (state (node (obj s0))) (burstCount r1) (currentCycle (queue s0))
    (type r1) (type r2) = Some e → e ≤ currentCycle (queue s2).
Proof.
  intros Hq1 H1 Hs Hq2 H2 He. eapply not_before_gate.
  - eapply not_before_ahead; [by eapply steps_ahead|]. exact (IssueCommand_bound _ _ _ _ _ _ Hq1 H1 He).
  - apply IsIssuable_gate in H2 as (r & Hr & Hg). rewrite Hq2 in Hr. by injection Hr as <-.
Qed.

(** ** The cycle counters *)

Definition counted (b : DDR3Bank) : Z :=
  activeCycles b + standbyCycles b + fastExitActiveCycles b + fastExitPrechargeCycles b + slowExitPrechargeCycles b.

(** Commands leave the counters alone, and the state is always known. *)
Definition same_counts (b b' : DDR3Bank) : Prop :=
  counted b' = counted b ∧ (state b ≠ DDR3BANK_UNKNOWN → state b' ≠ DDR3BANK_UNKNOWN).
#[export] Instance same_counts_preorder : PreOrder same_counts.
Proof. unfold same_counts. split; [done|]. intros ? ? ? [? ?] [? ?]. split; [congruence|auto]. Qed.

Lemma core_counts b b' : same_core b b' → same_counts b b'.
Proof using.
  intros E. split; [by apply (core_eq counted)|]. by rewrite (core_eq state _ _ ltac:(done) E).
Qed.
Lemma counts_to_child q : pres (on_node same_counts) (to_child q).
Proof. intros s b s' Hr. by eapply core_counts, to_child_asks_bank. Qed.
Lemma counts_IsIssuable q : pres (on_node same_counts) (IsIssuable q).
Proof. intros s a s' Hr. apply asks_IsIssuable in Hr as (_ & _ & E). by apply core_counts. Qed.
Lemma counts_close x b : same_counts b (close_subarray x b).
Proof.
  unfold same_counts, close_subarray, counted. cbv zeta. fields. case_decide; fields; (split; [reflexivity|done]).
Qed.
#[local] Hint Resolve counts_to_child counts_IsIssuable counts_close : pres.

Ltac counts_tac := node_tac; try (by apply counts_close); unfold same_counts, counted; intros; fields;
  repeat case_match; fields; (split; [reflexivity|try done]).

Lemma counts_precharge_loop q fuel : pres (on_node same_counts) (precharge_loop this fuel q).
Proof. induction fuel as [|fuel IH]; cbn [precharge_loop]; counts_tac. Qed.
#[local] Hint Resolve counts_precharge_loop : pres.
Lemma counts_IssueCommand q : pres (on_node same_counts) (IssueCommand q).
Proof.
  unfold DDR3.IssueCommand, DDR3.Activate, DDR3.Read, DDR3.Write, DDR3.Precharge, precharge_all, DDR3.Refresh,
    PowerDown, PowerUp. counts_tac.
Qed.

(** A run with the numbers of cycles the bank was told about. *)
Inductive bank_run : list Z → Sim (Bank C) → Sim (Bank C) → Prop :=
  | run_end s : bank_run [] s s
  | run_cycle n l s s1 s2 : Cycle n s = Ok ((), s1) → bank_run l s1 s2 → bank_run (n :: l) s s2
  | run_issue q b l s s1 s2 : IssueCommand q s = Ok (b, s1) → bank_run l s1 s2 → bank_run l s s2
  | run_query q a l s s1 s2 : IsIssuable q s = Ok (a, s1) → bank_run l s1 s2 → bank_run l s s2
  | run_child i c sc l s s2 : kids (obj s) !! i = Some c → own (seen s c) sc →
      bank_run l (child_acts i s sc) s2 → bank_run l s s2
  | run_env l s s1 s2 : obj s1 = obj s → bank_run l s1 s2 → bank_run l s s2.

Lemma Cycle_counts n s s' :
  state (node (obj s)) ≠ DDR3BANK_UNKNOWN → Cycle n s = Ok ((), s') →
  u64 (counted (node (obj s'))) = u64 (counted (node (obj s)) + n) ∧
  state (node (obj s')) = state (node (obj s)).
Proof using.
  intros Hs [= <-]. unfold counted. fields.
  destruct (state (node (obj s))) eqn:Es; [done|..]; fields; (split; [|done]);
    match goal with |- context [u64 (?x + n)] =>
      set (y := u64 (x + n)); match goal with |- u64 ?t = u64 ?t' =>
        transitivity (u64 (y + (t - y))); [f_equal; lia|unfold y; rewrite u64_add_l; f_equal; lia] end end.
Qed.

Lemma run_counts l s s' :
  bank_run l s s' → state (node (obj s)) ≠ DDR3BANK_UNKNOWN →
  u64 (counted (node (obj s'))) = u64 (counted (node (obj s)) + foldr Z.add 0 l).
Proof.
  induction 1 as [s|n l s s1 s2 H1 _ IH|q b l s s1 s2 H1 _ IH|q a l s s1 s2 H1 _ IH|i c sc l s s2 _ _ _ IH|l s s1 s2 H1 _ IH]; intros Hs.
  - cbn. f_equal. lia.
  - destruct (Cycle_counts _ _ _ Hs H1) as [E1 E2]. rewrite IH by congruence. cbn.
    rewrite <- u64_add_l, E1, u64_add_l. f_equal. lia.
  - destruct (counts_IssueCommand _ _ _ _ H1) as [E1 E2]. rewrite IH by auto. by rewrite E1.
  - destruct (counts_IsIssuable _ _ _ _ H1) as [E1 E2]. rewrite IH by auto. by rewrite E1.
  - unfold child_acts in IH. cbn [obj] in IH. fields_in IH. auto.
  - rewrite IH by congruence. by rewrite H1.
Qed.
End Timing.

(** C19. Timing at the bank: after a column access or a power command was carried
    out, and whatever happens at the bank in between, the next access waits for
    the data bus and the next power-up for the minimum stay in power-down; after
    a power-up every command waits for the exit time, reads for the long one
    when the bank had its DLL off. *)
Theorem bank_timing {C} `{ChildLaws C} this out own q1 q2 r1 r2 (s0 s1 s2 s3 : Sim (Bank C)) w e :
  h_reqs (heap s0) !! q1 = Some r1 → IssueCommand this out q1 s0 = Ok (true, s1) →
  rtc (bank_step this out own) s1 s2 →
  h_reqs (heap s2) !! q2 = Some r2 → IsIssuable out q2 s2 = Ok ((true, w), s3) →
  bank_earliest (params (node (obj s0))) (state (node (obj s0))) (burstCount r1) (currentCycle (queue s0))
    (type r1) (type r2) = Some e → e ≤ currentCycle (queue s2).
Proof. apply bank_timing_table. Qed.

(** Cycle accounting: over any run, the five counters of the power states
    together grow (modulo 2^64) by exactly the cycles the bank was told about: no cycle is lost
    or counted twice, whatever commands change the state in between. *)
Theorem bank_cycles_accounted {C} `{ChildLaws C} this out own l (s s' : Sim (Bank C)) :
  bank_run this out own l s s' → state (node (obj s)) ≠ DDR3BANK_UNKNOWN →
  u64 (counted (node (obj s'))) = u64 (counted (node (obj s)) + foldr Z.add 0 l).
Proof. apply run_counts. Qed.

(** A bank in power-down from cycle 0 is not woken up before [tPD]. *)
Lemma bank_timing_witness : tPD Bench.p0 ≤ 20.
Proof.
  refine (bank_timing 5 BankBench.out0 (λ _ _, False) 13 14 (BankBench.request POWERDOWN_PDPF 0 0)
    (BankBench.request POWERUP 0 0) BankBench.start (BankBench.run 13 BankBench.start)
    (BankBench.at_time 20 (BankBench.run 13 BankBench.start))
    (BankBench.at_time 20 (BankBench.run 13 BankBench.start)) None (tPD Bench.p0) _ _ _ _ _ _).
  - vm_compute. reflexivity.
  - vm_compute. reflexivity.
  - apply rtc_once, bank_env. reflexivity.
  - vm_compute. reflexivity.
  - vm_compute. reflexivity.
  - vm_compute. reflexivity.
Defined.

Definition cycled (n : Z) (s : Sim (Bank BankBench.C)) : Sim (Bank BankBench.C) :=
  match Cycle n s with Ok (_, s) => s | Err _ => s end.

Lemma bank_cycles_accounted_witness :
  u64 (counted (node (obj (cycled 8 (BankBench.run 13 (cycled 5 BankBench.start)))))) = 13.
Proof.
  refine (bank_cycles_accounted 5 BankBench.out0 (λ _ _, False) [5; 8] BankBench.start _ _ _).
  - refine (run_cycle _ _ _ 5 [8] _ (cycled 5 BankBench.start) _ _ _); [vm_compute; reflexivity|].
    refine (run_issue _ _ _ 13 true [8] _ (BankBench.run 13 (cycled 5 BankBench.start)) _ _ _);
      [vm_compute; reflexivity|].
    refine (run_cycle _ _ _ 8 [] _ _ _ _ (run_end _ _ _ _)). vm_compute. reflexivity.
  - vm_compute. discriminate.
Defined.
