(* ===== verification/DDR3BankChildren.v ===== *)
(** * A bank and its subarrays

    What happens at a bank is, for each of its subarrays, a run of that subarray,
    and a command the bank carries out was carried out by the subarray its
    decoder chose: the timing guarantee of the subarray holds through the bank. *)

From S2P Require Import Prelude NVMTypes Translation Config Params SimInterface Heap EventQueue Frame SubArray.
From S2P Require Import SubArrayTiming SubArrayProtocol Tree DDR3Bank SubArrayChild DDR3BankProtocol DDR3BankTiming.
Import DDR3.

(** ** The subarrays of a bank *)

Section Composition.
Context {C : Type} `{ChildLaws C}.
Variable this : ObjPtr.
Variable out : six.
Variable own : Sim C → Sim C → Prop.
Implicit Types (s : Sim (Bank C)) (c : C).

#[local] Abbreviation children_run := (children_run own).
#[local] Abbreviation target := (target out).

Lemma run_ask_all q l : ∀ rv, pres children_run (ask_all q l rv).
Proof. induction l as [|x l IH]; intros rv; cbn [ask_all]; pres_tac. Qed.
Lemma run_ask_open q l : ∀ ans, pres children_run (ask_open q l ans).
Proof. induction l as [|x l IH]; intros ans; cbn [ask_open]; pres_tac. Qed.
#[local] Hint Resolve run_ask_all run_ask_open : pres.
Lemma run_IsIssuable q : pres children_run (IsIssuable out q).
Proof. unfold IsIssuable, ask_child, power_answer. pres_tac. Qed.
#[local] Hint Resolve run_IsIssuable : pres.
Lemma run_precharge_loop q fuel : pres children_run (precharge_loop this fuel q).
Proof. induction fuel as [|fuel IH]; cbn [precharge_loop]; pres_tac. Qed.
#[local] Hint Resolve run_precharge_loop : pres.
Lemma run_IssueCommand q : pres children_run (IssueCommand this out q).
Proof.
  unfold IssueCommand, Activate, Read, Write, Precharge, precharge_all, Refresh, PowerDown, PowerUp, to_child. pres_tac.
Qed.

Lemma steps_children s s' : rtc (bank_step this out own) s s' → children_run s s'.
Proof.
  induction 1 as [s|s1 s2 s3 H1 H2 IH]; [by apply objrel_obj|]. etransitivity; [|exact IH]. destruct H1.
  - by eapply run_IssueCommand.
  - by eapply run_IsIssuable.
  - revert H1. apply run_set_me.
  - eapply run_child_acts; [done|]. by apply child_own.
  - by apply objrel_obj.
Qed.

#[local] Abbreviation IsIssuable := (IsIssuable out).
#[local] Abbreviation IssueCommand := (IssueCommand this out).

Ltac map_tac := node_tac; unfold same_map, close_subarray; intros; cbv zeta; repeat case_match; by fields.

Lemma map_ask_all q l : ∀ rv, pres (on_node (C := C) same_map) (ask_all q l rv).
Proof using. induction l as [|x l IH]; intros rv; cbn [ask_all]; map_tac. Qed.
Lemma map_ask_open q l : ∀ ans, pres (on_node (C := C) same_map) (ask_open q l ans).
Proof using. induction l as [|x l IH]; intros ans; cbn [ask_open]; map_tac. Qed.
#[local] Hint Resolve map_ask_all map_ask_open : pres.
Lemma map_IsIssuable q : pres (on_node (C := C) same_map) (IsIssuable q).
Proof using. unfold DDR3.IsIssuable, ask_child, power_answer. map_tac. Qed.
#[local] Hint Resolve map_IsIssuable : pres.
Lemma map_precharge_loop q fuel : pres (on_node (C := C) same_map) (precharge_loop this fuel q).
Proof using. induction fuel as [|fuel IH]; cbn [precharge_loop]; map_tac. Qed.
#[local] Hint Resolve map_precharge_loop : pres.
Lemma map_IssueCommand q : pres (on_node (C := C) same_map) (IssueCommand q).
Proof using.
  unfold DDR3.IssueCommand, Activate, Read, Write, Precharge, precharge_all, Refresh, PowerDown, PowerUp, to_child.
  map_tac.
Qed.

(** ** A command the bank carried out

    The commands that go to the one subarray the decoder chooses. *)

Definition single (t : OpType) : bool :=
  match t with
  | ACTIVATE | READ | READ_PRECHARGE | WRITE | WRITE_PRECHARGE | PRECHARGE | REFRESH => true
  | _ => false
  end.

(** What the subarrays see is the same. *)
Definition same_below s s' : Prop :=
  heap s' = heap s ∧ queue s' = queue s ∧ kids (obj s') = kids (obj s) ∧ same_map (node (obj s)) (node (obj s')).

(** The command was forwarded, and the subarray carried it out. *)
Definition forwarded q s s' : Prop := ∃ sx sy, same_below s sx ∧ to_child out q sx = Ok (true, sy) ∧ same_below sy s'.

Ltac below := unfold same_below, same_map, close_subarray; cbv zeta; fields; repeat case_match; by fields.
Ltac forward Hr E := eexists _, _; split; [|split; [exact E|]]; [below|];
  autorewrite with run in Hr; repeat (load Hr; autorewrite with run in Hr);
  cbn [negb] in Hr; repeat case_match; autorewrite with run in Hr; injection Hr as <-; below.

Lemma operation_forwarded q s s' r :
  h_reqs (heap s) !! q = Some r → single (type r) = true →
  operation this out (type r) q s = Ok (true, s') → forwarded q s s'.
Proof using.
  intros Hq Hs Hr. destruct (type r) eqn:Et; try discriminate Hs; cbn [operation] in Hr; clear Hs; unfold forwarded;
    unfold Activate, Read, Write, Precharge, Refresh, me, now, set_me in Hr; autorewrite with run in Hr; cbv zeta in Hr.
  - destruct (_ >? _); [done|]. destruct (_ && _); [done|]. load Hr.
    destruct (GetTranslatedAddress _) as [[[[[row col] bk] rk] ch] sub]. autorewrite with run in Hr.
    next Hr. destruct r1; [|done]. forward Hr E0.
  - destruct (_ >? _); [done|]. destruct (negb _); [done|]. load Hr.
    destruct (GetTranslatedAddress _) as [[[[[row col] bk] rk] ch] sub]. autorewrite with run in Hr.
    next Hr. destruct r1; [|done]. forward Hr E0.
  - destruct (_ >? _); [done|]. destruct (negb _); [done|]. load Hr.
    destruct (GetTranslatedAddress _) as [[[[[row col] bk] rk] ch] sub]. autorewrite with run in Hr.
    next Hr. destruct r1; [|done]. forward Hr E0.
  - destruct (_ >? _); [done|]. destruct (negb _); [done|]. load Hr.
    destruct (GetTranslatedAddress _) as [[[[[row col] bk] rk] ch] sub]. autorewrite with run in Hr.
    next Hr. destruct r1; [|done]. forward Hr E0.
  - destruct (_ >? _); [done|]. destruct (negb _); [done|]. load Hr.
    destruct (GetTranslatedAddress _) as [[[[[row col] bk] rk] ch] sub]. autorewrite with run in Hr.
    next Hr. destruct r1; [|done]. forward Hr E0.
  - destruct (_ >? _); [done|]. destruct (negb _); [done|]. load Hr. rewrite Hq in E. injection E as <-.
    destruct (GetTranslatedAddress _) as [[[[[row col] bk] rk] ch] sub]. autorewrite with run in Hr.
    rewrite Et in Hr. autorewrite with run in Hr. next Hr. destruct r0; [|done]. forward Hr E.
  - destruct (_ >? _); [done|]. autorewrite with run in Hr. next Hr. destruct r0; [|done]. forward Hr E.
Qed.

(** The subarray agreed. *)
Lemma IsIssuable_child q s w s' r :
  h_reqs (heap s) !! q = Some r → single (type r) = true → IsIssuable q s = Ok ((true, w), s') →
  ∃ i c sc, target (node (obj s)) r = Some i ∧ kids (obj s) !! i = Some c ∧
    ch_IsIssuable q (seen s c) = Ok ((true, w), sc).
Proof using.
  intros Hq Hs Hr. unfold DDR3.IsIssuable in Hr. load Hr. rewrite Hq in E. injection E as <-.
  unfold me, now in Hr. autorewrite with run in Hr. cbv zeta in Hr. destruct (negb _); [done|].
  eapply ask_child_target; [exact Hq|].
  destruct (type r) eqn:Et; try discriminate Hs; (destruct (_ || _); [unfold set_me in Hr; autorewrite with run in Hr; done|exact Hr]).
Qed.

(** The subarray carried the command out, after steps of its own. *)
Lemma IssueCommand_child q s s' r :
  h_reqs (heap s) !! q = Some r → single (type r) = true → IssueCommand q s = Ok (true, s') →
  ∃ i c0 c1 sc, target (node (obj s)) r = Some i ∧ kids (obj s) !! i = Some c0 ∧
    rtc (child_step own) (seen s c0) (seen s c1) ∧ ch_IssueCommand q (seen s c1) = Ok (true, sc) ∧
    seen s' (obj sc) = sc ∧ kids (obj s') !! i = Some (obj sc).
Proof.
  intros Hq Hs Hr. unfold DDR3.IssueCommand in Hr. next Hr. destruct r0 as [ok w].
  destruct ok; cbn [negb] in Hr; [|done].
  pose proof (run_IsIssuable _ _ _ _ E) as Hrun. pose proof (map_IsIssuable _ _ _ _ E) as Hmap.
  destruct (asks_IsIssuable _ _ _ _ _ E) as (Eh & Eq & _).
  load Hr. rewrite Eh, Hq in E0. injection E0 as <-.
  assert (operation this out (type r) q x = Ok (true, s')) as Hop by (destruct (type r); done).
  rewrite <- Eh in Hq. apply (operation_forwarded _ _ _ _ Hq Hs) in Hop as
    (sx & sy & (X1 & X2 & X3 & X4) & Hc & (Y1 & Y2 & Y3 & _)).
  destruct (to_child_target out q sx sy r) as (i & c & sc & Ht & Hsub & Hi & Hsc & Hsub'); [by rewrite X1|done|].
  assert (target (node (obj s)) r = Some i) as Ht'.
  { rewrite <- Ht. symmetry. apply target_map. by transitivity (node (obj x)). }
  destruct Hrun as [Hlen Hrun]. rewrite X3 in Hsub.
  destruct (lookup_lt_is_Some_2 (kids (obj s)) i) as [c0 Hc0]; [rewrite <- Hlen; by eapply lookup_lt_Some|].
  destruct (Hrun i c0 Hc0) as (c1 & Hc1 & Hsteps). rewrite Hsub in Hc1. injection Hc1 as <-.
  exists i, c0, c, sc. assert (seen s c = seen x c) as Ex by (unfold seen; congruence).
  assert (seen sx c = seen s c) as Esx by (unfold seen; congruence).
  split_and!; [done|done|by rewrite Ex|by rewrite <- Esx| |by rewrite Y3].
  rewrite <- Hsc. unfold seen in *. congruence.
Qed.
End Composition.

(** ** Subarrays *)

Section SubArrays.
Context {E M : Type} `{DataEncoderOps E, EnduranceModelOps M, !DataEncoderLaws E}.
Variable norm : Z → Z → Z → Z.
Variable parent : ReqPtr → ST (Sim (SA.SubArray E M)) bool.
Variable this : ObjPtr.
Variable out : six.

#[local] Instance ops : ChildOps (Child (SA.SubArray E M)) := SubArray_child norm.
#[local] Instance laws : ChildLaws (Child (SA.SubArray E M)) := SubArray_laws norm.

(** The completions the event queue delivers to a subarray. *)
Definition completes (s s' : Sim (Child (SA.SubArray E M))) : Prop :=
  ∃ q b, at_child (λ this, SA.RequestComplete this parent q) s = Ok (b, s').

Lemma child_step_sa s s' :
  child_step completes s s' →
  sa_step (c_this (obj s)) parent norm (inner s) (inner s') ∧ c_this (obj s') = c_this (obj s).
Proof.
  intros [sc q b sc' Hr|sc q a sc' Hr|sc a sc' Hr|sc n sc' Hr|sc sc' (q & b & Hr)|sc sc' Eo].
  - apply (at_child_inv (λ this, SA.IssueCommand this norm q)) in Hr as [Hr Ht].
    split; [by eapply step_issue|done].
  - apply (at_child_inv (λ _, SA.IsIssuable q)) in Hr as [Hr Ht]. split; [by eapply step_query|done].
  - injection Hr as _ <-. split; [by apply step_env|done].
  - injection Hr as <-. split; [by apply step_env|done].
  - apply at_child_inv in Hr as [Hr Ht]. split; [by eapply step_complete|done].
  - split; [|by rewrite Eo]. apply step_env. unfold inner. cbn. by rewrite Eo.
Qed.

Lemma child_steps_sa s s' :
  rtc (child_step completes) s s' →
  rtc (sa_step (c_this (obj s)) parent norm) (inner s) (inner s') ∧ c_this (obj s') = c_this (obj s).
Proof.
  induction 1 as [s|s1 s2 s3 H1 _ [IH1 IH2]]; [done|]. apply child_step_sa in H1 as [H1 E1].
  rewrite E1 in IH1, IH2. split; [by eapply rtc_l|done].
Qed.

Lemma subarray_timing q1 q2 r1 r2 (s0 s1 s2 s3 : Sim (Bank (Child (SA.SubArray E M)))) w i c c' e :
  (∀ q, quiet (parent q)) → heap_wf (heap s0) →
  kids (obj s0) !! i = Some c → kids (obj s1) !! i = Some c' →
  WritePausing (SA.params (c_obj c)) = false → SA.writeMode (c_obj c) = SA.WRITE_THROUGH →
  h_reqs (heap s0) !! q1 = Some r1 → single (type r1) = true → target out (node (obj s0)) r1 = Some i →
  IssueCommand this out q1 s0 = Ok (true, s1) → rtc (bank_step this out completes) s1 s2 →
  h_reqs (heap s2) !! q2 = Some r2 → single (type r2) = true → target out (node (obj s2)) r2 = Some i →
  IsIssuable out q2 s2 = Ok ((true, w), s3) →
  earliest (SA.params (c_obj c)) (SA.sa_decdelay (c_obj c)) (burstCount r1) (currentCycle (queue s0))
    (SA.writeEnd (c_obj c')) (type r1) (type r2) = Some e → is_u64 e → e ≤ currentCycle (queue s2).
Proof.
  intros Hp Hh Hc Hc' Hwp Hwm Hq1 Hs1 Ht1 H1 Hsteps Hq2 Hs2 Ht2 H2 He Hu.
  destruct (IssueCommand_child this out completes _ _ _ _ Hq1 Hs1 H1)
    as (i' & c0 & c1 & sc & Ht & Hsub & Hrun & Hi & Hsc & Hsub'). rewrite Ht1 in Ht. injection Ht as <-.
  rewrite Hc in Hsub. injection Hsub as <-. rewrite Hc' in Hsub'. injection Hsub' as ->.
  apply child_steps_sa in Hrun as [Hrun E0]. apply (sa_steps_mono _ parent norm) in Hrun as [(P1 & P2 & P3) _]; [|done].
  cbn in P1, P2, P3, E0.
  apply (at_child_inv (λ this, SA.IssueCommand this norm q1)) in Hi as [Hi E1].
  destruct (steps_children this out completes _ _ Hsteps) as [_ Hch].
  destruct (Hch i (obj sc) Hc') as (c2 & Hc2 & Hrun2). rewrite Hsc in Hrun2. apply child_steps_sa in Hrun2 as [Hrun2 _].
  rewrite E1 in Hrun2.
  destruct (IsIssuable_child out _ _ _ _ _ Hq2 Hs2 H2) as (i' & c3 & sc3 & Ht & Hc3 & Hi3).
  rewrite Ht2 in Ht. injection Ht as <-. rewrite Hc2 in Hc3. injection Hc3 as <-.
  apply (at_child_inv (λ _, SA.IsIssuable q2)) in Hi3 as [Hi3 _].
  cbn [obj seen] in P1, P2, P3.
  refine (timing_table (c_this (obj (seen s0 c1))) parent norm q1 r1 (inner (seen s0 c1)) _ (inner (seen s2 c2))
    q2 r2 w _ e Hp _ _ Hh Hq1 Hi Hrun2 Hq2 Hi3 _ Hu).
  - cbn. by rewrite P1.
  - cbn. by rewrite P3.
  - cbn. by rewrite P1, P2.
Qed.
End SubArrays.

(** The timing guarantee of the subarrays holds through the bank: when the
    bank carries out a command that its decoder sends to subarray [i], and after
    anything that can happen to the bank and its subarrays, a second command for
    the same subarray is issuable at the bank only when the minimum time of the
    timing table has passed. *)
Theorem bank_subarray_timing {E M} `{DataEncoderOps E, EnduranceModelOps M, !DataEncoderLaws E}
    norm parent this out q1 q2 r1 r2 (s0 s1 s2 s3 : Sim (Bank (Child (SA.SubArray E M)))) w i c c' e :
  (∀ q, quiet (parent q)) → heap_wf (heap s0) →
  kids (obj s0) !! i = Some c → kids (obj s1) !! i = Some c' →
  WritePausing (SA.params (c_obj c)) = false → SA.writeMode (c_obj c) = SA.WRITE_THROUGH →
  h_reqs (heap s0) !! q1 = Some r1 → single (type r1) = true → target out (node (obj s0)) r1 = Some i →
  IssueCommand (H := SubArray_child norm) this out q1 s0 = Ok (true, s1) →
  rtc (bank_step (H := SubArray_child norm) this out (completes parent)) s1 s2 →
  h_reqs (heap s2) !! q2 = Some r2 → single (type r2) = true → target out (node (obj s2)) r2 = Some i →
  IsIssuable (H := SubArray_child norm) out q2 s2 = Ok ((true, w), s3) →
  earliest (SA.params (c_obj c)) (SA.sa_decdelay (c_obj c)) (burstCount r1) (currentCycle (queue s0))
    (SA.writeEnd (c_obj c')) (type r1) (type r2) = Some e → is_u64 e → e ≤ currentCycle (queue s2).
Proof. apply subarray_timing. Qed.

(** A row opened through the bank at cycle 0 is read at cycle 20, not before 9. *)
Lemma bank_subarray_timing_witness : 9 ≤ 20.
Proof.
  refine (bank_subarray_timing Bench.norm Bench.parent 5 BankBench.out0 10 11 (BankBench.request ACTIVATE 0 7)
    (BankBench.request READ 0 7) BankBench.start (BankBench.run 10 BankBench.start)
    (BankBench.at_time 20 (BankBench.run 10 BankBench.start)) (BankBench.at_time 20 (BankBench.run 10 BankBench.start))
    None 0 (mkChild 2 Bench.subarray0)
    (default (mkChild 2 Bench.subarray0) (kids (obj (BankBench.run 10 BankBench.start)) !! 0%nat)) 9
    _ BankBench.bank_start_wf _ _ _ _ _ _ _ _ _ _ _ _ _ _ _).
  - intros q. apply quiet_ret.
  - reflexivity.
  - vm_compute. reflexivity.
  - reflexivity.
  - reflexivity.
  - vm_compute. reflexivity.
  - reflexivity.
  - vm_compute. reflexivity.
  - vm_compute. reflexivity.
  - apply rtc_once, bank_env. apply BankBench.at_time_obj.
  - vm_compute. reflexivity.
  - reflexivity.
  - vm_compute. reflexivity.
  - vm_compute. reflexivity.
  - vm_compute. reflexivity.
  - unfold is_u64. lia.
Defined.
