(* ===== verification/BankChild.v ===== *)
(** * The bank as the child of a rank

    The operations of DDR3Bank.v implement the interface the ranks are written
    against, and satisfy its laws when the subarrays do. *)

From S2P Require Import Prelude NVMTypes Translation Config Params SimInterface Heap EventQueue Frame SubArray.
From S2P Require Import SubArrayTiming SubArrayProtocol Tree DDR3Bank SubArrayChild DDR3BankProtocol DDR3BankTiming.
From S2P Require Import DDR3BankChildren.
Import DDR3.

Section Child.
Context {C : Type} `{ChildLaws C}.
Variable out : six.

Definition Bank_child : ChildOps (Child (Bank C)) := {|
  ch_IsIssuable q := at_child (λ _, IsIssuable out q);
  ch_IssueCommand q := at_child (λ this, IssueCommand this out q);
  ch_NextIssuable q := at_child (λ _, NextIssuable out q);
  ch_Idle := at_child (λ _, Idle);
  ch_Cycle n := at_child (λ _, Cycle n)
|}.

Variable this : ObjPtr.

Lemma bank_timeless_IsIssuable q : timeless (IsIssuable (C := C) out q).
Proof. intros s a s' Hr. apply asks_IsIssuable in Hr as (Eh & Eq & _). by apply steady_same. Qed.
#[local] Hint Resolve bank_timeless_IsIssuable : timeless.
Lemma timeless_precharge_loop q fuel : timeless (precharge_loop (C := C) this fuel q).
Proof. induction fuel as [|fuel IH]; cbn [precharge_loop]; timeless_tac. Qed.
#[local] Hint Resolve timeless_precharge_loop : timeless.
Lemma bank_timeless_IssueCommand q : timeless (IssueCommand (C := C) this out q).
Proof.
  unfold IssueCommand, Activate, Read, Write, Precharge, precharge_all, Refresh, PowerDown, PowerUp, to_child.
  timeless_tac.
Qed.
Lemma asks_NextIssuable q : asks any (NextIssuable (C := C) out q).
Proof. unfold NextIssuable. asks_tac. all: by apply asks_set_me. Qed.

Lemma bank_keeping_IsIssuable q q' : keeping q (IsIssuable (C := C) out q').
Proof. intros s a s' Hr. apply asks_IsIssuable in Hr as (Eh & _ & _). by apply keeps_heap. Qed.
#[local] Hint Resolve bank_keeping_IsIssuable : keeping.
Lemma keeping_precharge_loop q q' fuel : keeping q (precharge_loop (C := C) this fuel q').
Proof. induction fuel as [|fuel IH]; cbn [precharge_loop]; keeping_tac. Qed.
#[local] Hint Resolve keeping_precharge_loop : keeping.
Lemma bank_keeping_IssueCommand q q' : keeping q (IssueCommand (C := C) this out q').
Proof.
  unfold IssueCommand, Activate, Read, Write, Precharge, precharge_all, Refresh, PowerDown, PowerUp. keeping_tac.
Qed.

Lemma idle_loop_inv l : ∀ s a s', idle_loop (C := C) l s = Ok (a, s') → s' = s.
Proof.
  induction l as [|x l IH]; intros s a s' Hr; cbn [idle_loop] in Hr; [by injection Hr|].
  next Hr. apply child_at_inv in E as ->. next Hr. apply on_idle_inv in E as ->.
  destruct r0; [by eapply IH|by injection Hr].
Qed.
Lemma Idle_inv s a s' : Idle (C := C) s = Ok (a, s') → s' = s.
Proof. unfold Idle, me. intros Hr. autorewrite with run in Hr. by eapply idle_loop_inv. Qed.
End Child.

Lemma Bank_laws {C} `{ChildLaws C} out : ChildLaws (H := Bank_child out) (Child (Bank C)).
Proof.
  split; cbn.
  - intros q s a s' [Hr _]%at_child_inv. apply asks_IsIssuable in Hr as (E1 & E2 & _). by split.
  - intros s a s' [Hr Ht]%at_child_inv. apply Idle_inv in Hr. destruct s as [h q []], s' as [h' q' []].
    cbn in Ht. unfold inner in Hr. cbn in Hr. by simplify_eq.
  - intros q. apply timeless_at_child. intros this. apply bank_timeless_IssueCommand.
  - intros q s a s' [Hr _]%at_child_inv. apply asks_NextIssuable in Hr as (E1 & E2 & _). by split.
  - intros n. apply timeless_at_child. intros this. apply timeless_set_me.
  - intros q q' s b s' [Hr _]%at_child_inv. exact (bank_keeping_IssueCommand _ _ q q' _ _ _ Hr).
Qed.
