(* ===== verification/StandardRank.v ===== *)
(** * The rank

    NVmain/Ranks/StandardRank/StandardRank.cpp: a rank limits what its banks may do
    together. It spaces activations ([tRRDR], and at most [RAW] of them in a
    window of [tRAW] cycles, kept in a ring of the last activations) and column
    accesses, within a bank group and across groups, powers all banks up and
    down in lockstep and refreshes groups of banks. *)

From S2P Require Import Prelude NVMTypes Translation Config Params SimInterface Heap EventQueue Frame Tree.

Module Rank.

(*| NVmain/Ranks/StandardRank/StandardRank.h 60-69 StandardRank_State *)
Inductive StandardRank_State :=
  | STANDARDRANK_UNKNOWN | STANDARDRANK_OPEN | STANDARDRANK_CLOSED | STANDARDRANK_REFRESHING
  | STANDARDRANK_PDPF | STANDARDRANK_PDA | STANDARDRANK_PDPS.

#[export] Instance StandardRank_State_eq_dec : EqDecision StandardRank_State.
Proof. solve_decision. Defined.

(** The members, less [stateTimeout] and [psInterval], which are not used.
    [params] is the pointer [p]; the arrays of the bank groups have 16 elements. *)
(*| NVmain/Ranks/StandardRank/StandardRank.h 95-141 StandardRank *)
Record StandardRank : Type := mkStandardRank {
  params : Params;
  rankAT : AddressTranslator;
  state : StandardRank_State;
  bankCount : Z;
  bankgroupNum : Z;
  deviceWidth : Z;
  deviceCount : Z;
  rk_busWidth : Z;
  lastActivate : list Z;
  RAWindex : Z;
  rawNum : Z;
  banksPerRefresh : Z;
  sbg_nextRead : list Z;
  sbg_nextWrite : list Z;
  sbg_nextActivate : list Z;
  dbg_nextRead : Z;
  dbg_nextWrite : Z;
  dbg_nextActivate : Z;
  nextPrecharge : Z;
  activeCycles : Z;
  standbyCycles : Z;
  fastExitActiveCycles : Z;
  fastExitPrechargeCycles : Z;
  slowExitCycles : Z;
  lastReset : Z;
  rrdWaits : Z;
  rrdWaitTotal : Z;
  fawWaits : Z;
  fawWaitTotal : Z;
  actWaits : Z;
  actWaitTotal : Z;
  backgroundEnergy : double
}.

#[export] Instance eta_StandardRank : Settable StandardRank := fields! mkStandardRank
  < params; rankAT; state; bankCount; bankgroupNum; deviceWidth; deviceCount; rk_busWidth; lastActivate; RAWindex;
    rawNum; banksPerRefresh; sbg_nextRead; sbg_nextWrite; sbg_nextActivate; dbg_nextRead; dbg_nextWrite;
    dbg_nextActivate; nextPrecharge; activeCycles; standbyCycles; fastExitActiveCycles; fastExitPrechargeCycles;
    slowExitCycles; lastReset; rrdWaits; rrdWaitTotal; fawWaits; fawWaitTotal; actWaits; actWaitTotal;
    backgroundEnergy >.

#[export] Instance StandardRank_decodes : Decodes StandardRank := {| at_of := rankAT; set_at t b := b <| rankAT := t |> |}.
#[export] Instance StandardRank_decodes_laws : DecodesLaws StandardRank.
Proof. by split. Qed.

(** The constructor. What it leaves uninitialised is an argument: the bank group
    times [sbg], the times and counts [u] that [SetConfig] sets. *)
(*| NVmain/Ranks/StandardRank/StandardRank.cpp 48-93 StandardRank::StandardRank *)
Definition StandardRank_new (p : Params) (at_ : AddressTranslator) (sbg : list Z) (u : Z) : StandardRank := {|
  params := p; rankAT := at_; state := STANDARDRANK_CLOSED; bankCount := u; bankgroupNum := u; deviceWidth := u;
  deviceCount := u; rk_busWidth := u; lastActivate := []; RAWindex := 0; rawNum := u; banksPerRefresh := u;
  sbg_nextRead := sbg; sbg_nextWrite := sbg; sbg_nextActivate := sbg; dbg_nextRead := u; dbg_nextWrite := u;
  dbg_nextActivate := u; nextPrecharge := u; activeCycles := 0; standbyCycles := 0; fastExitActiveCycles := 0;
  fastExitPrechargeCycles := 0; slowExitCycles := 0; lastReset := 0; rrdWaits := 0; rrdWaitTotal := 0;
  fawWaits := 0; fawWaitTotal := 0; actWaits := 0; actWaitTotal := 0; backgroundEnergy := dzero
|}.

(** ** Arrays *)

(** [bank % bankgroupNum], an index of the arrays. *)
Definition group_of (b : StandardRank) (bank : Z) : res nat :=
  if bankgroupNum b =? 0 then Err DivideByZero else Ok (Z.to_nat (bank mod bankgroupNum b)).

(** [(RAWindex + 1) % rawNum]. *)
Definition next_raw (b : StandardRank) : res Z :=
  if rawNum b =? 0 then Err DivideByZero else Ok ((RAWindex b ⊕ 1) mod rawNum b).

Definition elem_at (l : list Z) (i : nat) : res Z := deref OutOfBounds (l !! i).

(** [a[i] = MAX( a[i], v )]. *)
Definition bump (i : nat) (v : Z) (l : list Z) : res (list Z) := x ← elem_at l i; Ok (<[i := MAX x v]> l).

(** [lastActivate[(RAWindex + 1) % rawNum]], the oldest activation of the ring. *)
Definition oldest (b : StandardRank) : res Z := i ← next_raw b; elem_at (lastActivate b) (Z.to_nat i).

(** The ring takes the activation at [n]. *)
Definition push_raw (n : Z) (b : StandardRank) : res StandardRank :=
  i ← next_raw b;
  _ ← elem_at (lastActivate b) (Z.to_nat i);
  Ok (b <| RAWindex := i |> <| lastActivate ::= <[Z.to_nat i := n]> |>).

(** [MAX( sbg[bank % bankgroupNum], dbg )]. *)
Definition group_next (sbg : StandardRank → list Z) (dbg : StandardRank → Z) (bank : Z) (b : StandardRank) : res Z :=
  g ← group_of b bank; x ← elem_at (sbg b) g; Ok (MAX x (dbg b)).

(** [MAX( p->tBURST, p->tCCD_L )] and [MAX( p->tBURST, p->tCCD_S )]. *)
Definition burst_L (p : Params) : Z := MAX (tBURST p) (tCCD_L p).
Definition burst_S (p : Params) : Z := MAX (tBURST p) (tCCD_S p).

Section Operations.
Context {C : Type} `{ChildOps C}.

(** The object itself, what the decoder finds in its result variables, and the
    upward call of [RequestComplete]. *)
Variable this : ObjPtr.
Variable out : six.
Variable parent_RequestComplete : ReqPtr → ST (Sim (Node StandardRank C)) bool.

Abbreviation rk := (Node StandardRank C) (only parsing).
Implicit Types (r : NVMainRequest).

#[local] Abbreviation to_child := (to_child out).
#[local] Abbreviation ask_child := (ask_child out).
#[local] Abbreviation child_of := (child_of out).

(** An update that may fail. *)
Definition set_me_res (f : StandardRank → res StandardRank) : ST (Sim rk) unit :=
  b ← me; b' ← lift (f b); set_me (λ _, b').

Definition bank_of r : Z := let '(_, _, x, _, _, _) := GetTranslatedAddress (address r) in x.

Definition insert_response (q : ReqPtr) (when : Z) : ST (Sim rk) unit :=
  InsertEvent_obj EventResponse this (Some q) when 0 0.

(** The children below [bankCount], until one is not idle. *)
Fixpoint idle_loop (l : list Z) : ST (Sim rk) bool :=
  match l with
  | [] => mret true
  | x :: l => i ← child_at x; ok ← on_child i ch_Idle; if (ok : bool) then idle_loop l else mret false
  end.
(*| NVmain/Ranks/StandardRank/StandardRank.cpp 247-260 StandardRank::Idle *)
Definition Idle : ST (Sim rk) bool := b ← me; idle_loop (seqZ 0 (bankCount b)).

(** The check of the times of [Activate]; the ring is read only when the first
    comparison holds. *)
Definition may_activate (bank n : Z) (b : StandardRank) : res bool :=
  x ← group_next sbg_nextActivate dbg_nextActivate bank b;
  if x <=? n then old ← oldest b; Ok (old ⊕ tRAW (params b) <=? n) else Ok false.

(** [Activate] reports success whatever happened. *)
(*| NVmain/Ranks/StandardRank/StandardRank.cpp 262-304 StandardRank::Activate *)
Definition Activate (q : ReqPtr) : ST (Sim rk) bool :=
  r ← load_req q; b ← me; n ← now;
  let activateBank := bank_of r in
  if activateBank >=? bankCount b then mret false else
  ok ← lift (may_activate activateBank n b);
  (if (ok : bool) then
     _ ← to_child q;
     set_me (λ b, if decide (state b = STANDARDRANK_CLOSED) then b <| state := STANDARDRANK_OPEN |> else b);;
     set_me_res (push_raw n);;
     set_me_res (λ b,
       g ← group_of b activateBank;
       l ← bump g (n ⊕ tRRDR_L (params b)) (sbg_nextActivate b);
       Ok (b <| sbg_nextActivate := l |> <| dbg_nextActivate ::= λ x, MAX x (n ⊕ tRRDR_S (params b)) |>))
   else mret ());;
  mret true.

(** The event that closes the rank after an access with precharge. *)
Definition close_event (when : Z) : ST (Sim rk) unit :=
  dupPRE ← new_req ((NVMainRequest_new MEM_REQUEST_INCOMPLETE UNKNOWN_ACCESS 0)
                      <| type := PRECHARGE |> <| owner := Some this |>);
  insert_response dupPRE when.

(** The next column accesses, within the bank group of [bank] and for all. *)
Definition access_times (bank sbg_read sbg_write dbg_read dbg_write : Z) : ST (Sim rk) unit :=
  set_me_res (λ b,
    g ← group_of b bank;
    l1 ← bump g sbg_read (sbg_nextRead b);
    l2 ← bump g sbg_write (sbg_nextWrite b);
    Ok (b <| sbg_nextRead := l1 |> <| sbg_nextWrite := l2 |>
          <| dbg_nextRead ::= λ x, MAX x dbg_read |> <| dbg_nextWrite ::= λ x, MAX x dbg_write |>)).

(*| NVmain/Ranks/StandardRank/StandardRank.cpp 306-367 StandardRank::Read *)
Definition Read (q : ReqPtr) : ST (Sim rk) bool :=
  r ← load_req q; b ← me; n ← now;
  let readBank := bank_of r in
  let p := params b in
  if readBank >=? bankCount b then mret false else
  next ← lift (group_next sbg_nextRead dbg_nextRead readBank b);
  if next >? n then mret false else
  success ← to_child q;
  r ← load_req q;
  let last := burst_S p ⊗ (burstCount r ⊖ 1) in
  access_times readBank (n ⊕ burst_L p) (n ⊕ tCAS p ⊕ tBURST p ⊕ tRTRS p ⊖ tCWD p)
    (n ⊕ burst_S p ⊗ burstCount r) (n ⊕ last ⊕ tCAS p ⊕ tBURST p ⊕ tRTRS p ⊖ tCWD p);;
  (if decide (type r = READ_PRECHARGE)
   then close_event (burst_L p ⊗ (burstCount r ⊖ 1) ⊕ n ⊕ tAL p ⊕ tRTP p) else mret ());;
  mret success.

(*| NVmain/Ranks/StandardRank/StandardRank.cpp 370-432 StandardRank::Write *)
Definition Write (q : ReqPtr) : ST (Sim rk) bool :=
  r ← load_req q; b ← me; n ← now;
  let writeBank := bank_of r in
  let p := params b in
  if writeBank >=? bankCount b then mret false else
  next ← lift (group_next sbg_nextWrite dbg_nextWrite writeBank b);
  if next >? n then mret false else
  success ← to_child q;
  r ← load_req q;
  let last := burst_S p ⊗ (burstCount r ⊖ 1) in
  access_times writeBank (n ⊕ tCWD p ⊕ tBURST p ⊕ tWTR_L p) (n ⊕ burst_L p)
    (n ⊕ last ⊕ tCWD p ⊕ tBURST p ⊕ tWTR_S p) (n ⊕ burst_S p ⊗ burstCount r);;
  (if decide (type r = WRITE_PRECHARGE)
   then close_event (n ⊕ burst_L p ⊗ (burstCount r ⊖ 1) ⊕ tAL p ⊕ tCWD p ⊕ tBURST p ⊕ tWR p) else mret ());;
  mret success.

(*| NVmain/Ranks/StandardRank/StandardRank.cpp 434-467 StandardRank::Precharge *)
Definition Precharge (q : ReqPtr) : ST (Sim rk) bool :=
  r ← load_req q; b ← me; n ← now;
  if bank_of r >=? bankCount b then mret false else
  success ← to_child q;
  idle ← Idle;
  (if (idle : bool) then set_me (λ b, b <| state := STANDARDRANK_CLOSED |>) else mret ());;
  set_me (λ b, b <| nextPrecharge ::= λ x, MAX x (n ⊕ tPPD (params b)) |>);;
  mret success.

(** The children from number [i] on, until one refuses. *)
Fixpoint all_issuable (q : ReqPtr) (l : list Z) : ST (Sim rk) bool :=
  match l with
  | [] => mret true
  | x :: l =>
      i ← child_at x; '(ok, _) ← on_child i (ch_IsIssuable q);
      if negb ok then mret false else all_issuable q l
  end.

Definition children : ST (Sim rk) (list Z) := s ← get; mret (seqZ 0 (Z.of_nat (length (kids (obj s))))).

(*| NVmain/Ranks/StandardRank/StandardRank.cpp 469-486 StandardRank::CanPowerDown *)
Definition CanPowerDown (q : ReqPtr) : ST (Sim rk) bool :=
  b ← me;
  if decide (state b = STANDARDRANK_REFRESHING) then mret false else
  l ← children; all_issuable q l.

(** The command goes to all children; each must carry it out. *)
Fixpoint issue_all (q : ReqPtr) (l : list Z) : ST (Sim rk) unit :=
  match l with
  | [] => mret ()
  | x :: l =>
      i ← child_at x; rv ← on_child i (ch_IssueCommand q);
      lift (cassert rv);; issue_all q l
  end.

(*| NVmain/Ranks/StandardRank/StandardRank.cpp 488-528 StandardRank::PowerDown *)
Definition PowerDown (q : ReqPtr) : ST (Sim rk) bool :=
  l ← children; issue_all q l;;
  r ← load_req q; n ← now;
  set_me (λ b, b <| state ::= λ st, match type r with
    | POWERDOWN_PDA => STANDARDRANK_PDA | POWERDOWN_PDPF => STANDARDRANK_PDPF
    | POWERDOWN_PDPS => STANDARDRANK_PDPS | _ => st end |>);;
  b ← me;
  insert_response q (n ⊕ tPD (params b));;
  mret true.

(** All children are asked; how many would accept. *)
Fixpoint count_issuable (q : ReqPtr) (l : list Z) (issuableCount : Z) : ST (Sim rk) Z :=
  match l with
  | [] => mret issuableCount
  | x :: l =>
      i ← child_at x; '(ok, _) ← on_child i (ch_IsIssuable q);
      count_issuable q l (if (ok : bool) then issuableCount ⊕ 1 else issuableCount)
  end.

(*| NVmain/Ranks/StandardRank/StandardRank.cpp 530-551 StandardRank::CanPowerUp *)
Definition CanPowerUp (q : ReqPtr) : ST (Sim rk) bool :=
  l ← children; k ← count_issuable q l 0;
  lift (cassert ((k =? 0) || (k =? Z.of_nat (length l))));;
  mret (k =? Z.of_nat (length l)).

(*| NVmain/Ranks/StandardRank/StandardRank.cpp 553-599 StandardRank::PowerUp *)
Definition PowerUp (q : ReqPtr) : ST (Sim rk) bool :=
  l ← children; issue_all q l;;
  b ← me; n ← now;
  let puTimer := match state b with
    | STANDARDRANK_PDA | STANDARDRANK_PDPF => tXP (params b) | STANDARDRANK_PDPS => tXPDLL (params b) | _ => 1 end in
  set_me (λ b, b <| state ::= λ st, match st with
    | STANDARDRANK_PDA => STANDARDRANK_OPEN
    | STANDARDRANK_PDPF | STANDARDRANK_PDPS => STANDARDRANK_CLOSED
    | _ => st end |>);;
  insert_response q (n ⊕ puTimer);;
  mret true.

(** The banks of the group are refreshed with copies of the request; what they
    answer is ignored. *)
Fixpoint refresh_banks (q : ReqPtr) (l : list Z) : ST (Sim rk) unit :=
  match l with
  | [] => mret ()
  | x :: l =>
      r ← load_req q;
      r' ← lift (NVMainRequest_assign (NVMainRequest_new MEM_REQUEST_INCOMPLETE UNKNOWN_ACCESS 0) r);
      refReq ← new_req r';
      i ← child_at x; _ ← on_child i (ch_IssueCommand refReq);
      refresh_banks q l
  end.

(** [sbg_nextActivate[i % bankgroupNum] = MAX( ..., v )] for the banks [l]. *)
Definition bump_groups (v : Z) (l : list Z) (b : StandardRank) : res StandardRank :=
  foldM (λ b i, g ← group_of b i; a ← bump g v (sbg_nextActivate b); Ok (b <| sbg_nextActivate := a |>)) b l.

(** A refresh counts as an activation. *)
(*| NVmain/Ranks/StandardRank/StandardRank.cpp 605-647 StandardRank::Refresh *)
Definition Refresh (q : ReqPtr) : ST (Sim rk) bool :=
  r ← load_req q; b ← me; n ← now;
  let head := bank_of r in
  lift (cassert (head ⊕ banksPerRefresh b <=? bankCount b));;
  refresh_banks q ((λ i, head ⊕ i) <$> seqZ 0 (banksPerRefresh b));;
  set_me (λ b, b <| state := STANDARDRANK_REFRESHING |>);;
  r ← load_req q; store_req q (r <| owner := Some this |>);;
  b ← me;
  insert_response q (n ⊕ tRFC (params b));;
  set_me_res (λ b, bump_groups (n ⊕ tRRDR_L (params b)) (seqZ head (banksPerRefresh b)) b);;
  set_me (λ b, b <| dbg_nextActivate ::= λ x, MAX x (n ⊕ tRRDR_L (params b)) |>);;
  set_me_res (push_raw n);;
  mret true.

(*| NVmain/Ranks/StandardRank/StandardRank.cpp 649-663 StandardRank::NextIssuable *)
Definition NextIssuable (q : ReqPtr) : ST (Sim rk) Z :=
  r ← load_req q; b ← me;
  let bank := bank_of r in
  nextCompare ← lift (match type r with
    | ACTIVATE | REFRESH =>
        x ← group_next sbg_nextActivate dbg_nextActivate bank b; old ← oldest b; Ok (MAX x (old ⊕ tRAW (params b)))
    | READ | READ_PRECHARGE => group_next sbg_nextRead dbg_nextRead bank b
    | WRITE | WRITE_PRECHARGE => group_next sbg_nextWrite dbg_nextWrite bank b
    | PRECHARGE | PRECHARGE_ALL => Ok (nextPrecharge b)
    | _ => Err AssertFail
    end);
  i ← child_of q;
  x ← on_child i (ch_NextIssuable q);
  mret (MAX x nextCompare).

(** Not issuable: the times are in the future, or the ring is full. *)
Definition activate_early (bank n : Z) (b : StandardRank) : res bool :=
  x ← group_next sbg_nextActivate dbg_nextActivate bank b;
  if x >? n then Ok true else old ← oldest b; Ok (old ⊕ tRAW (params b) >? n).

(** The statistics of a refused activation. *)
(*| NVmain/Ranks/StandardRank/StandardRank.cpp 690-713 StandardRank::IsIssuable *)
Definition wait_stats (bank n : Z) (b : StandardRank) : res StandardRank :=
  x ← group_next sbg_nextActivate dbg_nextActivate bank b;
  g ← group_of b bank; a ← elem_at (sbg_nextActivate b) g;
  let b := if x >? n then b <| actWaits ::= λ k, k ⊕ 1 |> <| actWaitTotal ::= λ t, t ⊕ (a ⊖ n) |> else b in
  last ← elem_at (lastActivate b) (Z.to_nat (RAWindex b));
  let rrd := last ⊕ tRRDR_L (params b) in
  let b := if rrd >? n then b <| rrdWaits ::= λ k, k ⊕ 1 |> <| rrdWaitTotal ::= λ t, t ⊕ (rrd ⊖ n) |> else b in
  old ← oldest b;
  let faw := old ⊕ tRAW (params b) in
  Ok (if faw >? n then b <| fawWaits ::= λ k, k ⊕ 1 |> <| fawWaitTotal ::= λ t, t ⊕ (faw ⊖ n) |> else b).

(** The latest [sbg_nextActivate] of the groups of banks 0, 1, ... *)
Definition max_groups (l : list Z) (b : StandardRank) : res Z :=
  foldM (λ m i, g ← group_of b i; x ← elem_at (sbg_nextActivate b) g; Ok (MAX x m)) 0 l.

(** The banks of the group, until one refuses. *)
Fixpoint ask_group (q : ReqPtr) (l : list Z) (ans : bool * option FailReasons) : ST (Sim rk) (bool * option FailReasons) :=
  match l with
  | [] => mret ans
  | x :: l =>
      i ← child_at x; '(rv, reason) ← on_child i (ch_IsIssuable q);
      if (rv : bool) then ask_group q l (rv, reason) else mret (rv, reason)
  end.

(** A column access or a precharge. *)
Definition ask_after (q : ReqPtr) (next n : Z) : ST (Sim rk) (bool * option FailReasons) :=
  if next >? n then mret (false, Some RANK_TIMING) else ask_child q.

(*| NVmain/Ranks/StandardRank/StandardRank.cpp 665-809 StandardRank::IsIssuable *)
Definition IsIssuable (q : ReqPtr) : ST (Sim rk) (bool * option FailReasons) :=
  r ← load_req q; b ← me; n ← now;
  let opBank := bank_of r in
  let power (rv : bool) := mret (rv, if rv then None else Some RANK_TIMING) in
  match type r with
  | ACTIVATE =>
      early ← lift (activate_early opBank n b);
      '(rv, reason) ← (if (early : bool) then mret (false, Some RANK_TIMING) else ask_child q);
      (if (rv : bool) then mret () else set_me_res (wait_stats opBank n));;
      mret (rv, reason)
  | READ | READ_PRECHARGE =>
      next ← lift (group_next sbg_nextRead dbg_nextRead opBank b); ask_after q next n
  | WRITE | WRITE_PRECHARGE =>
      next ← lift (group_next sbg_nextWrite dbg_nextWrite opBank b); ask_after q next n
  | PRECHARGE | PRECHARGE_ALL => ask_after q (nextPrecharge b) n
  | POWERDOWN_PDA | POWERDOWN_PDPF | POWERDOWN_PDPS => rv ← CanPowerDown q; power rv
  | POWERUP => rv ← CanPowerUp q; power rv
  | REFRESH =>
      maxCycle ← lift (max_groups (seqZ 0 (banksPerRefresh b)) b);
      wait ← (if maxCycle >? n then mret true else old ← lift (oldest b); mret (old ⊕ tRAW (params b) >? n));
      if (wait : bool) then mret (false, Some RANK_TIMING) else
      lift (cassert (opBank ⊕ banksPerRefresh b <=? bankCount b));;
      ask_group q ((λ i, opBank ⊕ i) <$> seqZ 0 (banksPerRefresh b)) (true, None)
  | _ => ask_child q
  end.

(** A command the switch does not know succeeds without effect. *)
(*| NVmain/Ranks/StandardRank/StandardRank.cpp 811-870 StandardRank::IssueCommand *)
Definition IssueCommand (q : ReqPtr) : ST (Sim rk) bool :=
  '(ok, _) ← IsIssuable q;
  if negb ok then mret false else
  r ← load_req q;
  match type r with
  | ACTIVATE => Activate q
  | READ | READ_PRECHARGE => Read q
  | WRITE | WRITE_PRECHARGE => Write q
  | PRECHARGE | PRECHARGE_ALL => Precharge q
  | POWERDOWN_PDA | POWERDOWN_PDPF | POWERDOWN_PDPS => PowerDown q
  | POWERUP => PowerUp q
  | REFRESH => Refresh q
  | _ => mret true
  end.

(** All bank groups wait. *)
Definition bump_all (nr nw : Z) (b : StandardRank) : res StandardRank :=
  b ← foldM (λ b i, r ← bump (Z.to_nat i) nr (sbg_nextRead b); w ← bump (Z.to_nat i) nw (sbg_nextWrite b);
                    Ok (b <| sbg_nextRead := r |> <| sbg_nextWrite := w |>)) b (seqZ 0 (bankgroupNum b));
  Ok (b <| dbg_nextRead ::= λ x, MAX x nr |> <| dbg_nextWrite ::= λ x, MAX x nw |>).

(** Another rank uses the data bus. *)
(*| NVmain/Ranks/StandardRank/StandardRank.cpp 876-920 StandardRank::Notify *)
Definition Notify (q : ReqPtr) : ST (Sim rk) unit :=
  r ← load_req q; b ← me; n ← now;
  let p := params b in
  match type r with
  | READ | READ_PRECHARGE =>
      set_me_res (bump_all (n ⊕ tBURST p ⊕ tRTRS p) (n ⊕ tCAS p ⊕ tBURST p ⊕ tRTRS p ⊖ tCWD p))
  | WRITE | WRITE_PRECHARGE =>
      set_me_res (bump_all (n ⊕ tBURST p ⊕ tCWD p ⊕ tRTRS p ⊖ tCAS p) (n ⊕ tBURST p ⊕ tOST p))
  | _ => mret ()
  end.

(*| NVmain/Ranks/StandardRank/StandardRank.cpp 922-950 StandardRank::RequestComplete *)
Definition RequestComplete (q : ReqPtr) : ST (Sim rk) bool :=
  r ← load_req q;
  if bool_decide (owner r = Some this) then
    match type r with
    | PRECHARGE | REFRESH =>
        idle ← Idle; if (idle : bool) then set_me (λ b, b <| state := STANDARDRANK_CLOSED |>) else mret ()
    | _ => mret ()
    end;;
    delete_req q;; mret true
  else parent_RequestComplete q.

Fixpoint cycle_all (n : Z) (l : list Z) : ST (Sim rk) unit :=
  match l with
  | [] => mret ()
  | x :: l => i ← child_at x; on_child i (ch_Cycle n);; cycle_all n l
  end.

(** The background energy of [steps] cycles. *)
Definition background (steps : Z) (b : StandardRank) : double :=
  let p := params b in
  let '(current, energy) := match state b with
    | STANDARDRANK_PDA => (EIDD3P p, Epda p)
    | STANDARDRANK_PDPF => (EIDD2P1 p, Epdpf p)
    | STANDARDRANK_PDPS => (EIDD2P0 p, Epdps p)
    | STANDARDRANK_REFRESHING | STANDARDRANK_OPEN => (EIDD3N p, Eactstdby p)
    | STANDARDRANK_CLOSED | STANDARDRANK_UNKNOWN => (EIDD2N p, Eprestdby p)
    end in
  if String.eqb (EnergyModel p) "current" then dmul (dmul current (d_of_Z steps)) (d_of_Z (deviceCount b))
  else dmul energy (d_of_Z steps).

(*| NVmain/Ranks/StandardRank/StandardRank.cpp 952-1013 StandardRank::Cycle *)
Definition Cycle (steps : Z) : ST (Sim rk) unit :=
  l ← children; cycle_all steps l;;
  set_me (λ b,
    let e := background steps b in
    (match state b with
     | STANDARDRANK_PDA => b <| fastExitActiveCycles ::= λ x, x ⊕ steps |>
     | STANDARDRANK_PDPF => b <| fastExitPrechargeCycles ::= λ x, x ⊕ steps |>
     | STANDARDRANK_PDPS => b <| slowExitCycles ::= λ x, x ⊕ steps |>
     | STANDARDRANK_REFRESHING | STANDARDRANK_OPEN => b <| activeCycles ::= λ x, x ⊕ steps |>
     | STANDARDRANK_CLOSED => b <| standbyCycles ::= λ x, x ⊕ steps |>
     | STANDARDRANK_UNKNOWN => b
     end) <| backgroundEnergy ::= λ x, dadd x e |>).

(*| NVmain/Ranks/StandardRank/StandardRank.cpp 1097-1100 StandardRank::ResetStats *)
Definition ResetStats : ST (Sim rk) unit := n ← now; set_me (λ b, b <| lastReset := n |>).

(** The first [n] elements of an array of 16 are set; more are out of bounds. *)
Definition fill (n v : Z) (l : list Z) : res (list Z) :=
  if n <=? Z.of_nat (length l) then Ok (replicate (Z.to_nat n) v ++ drop (Z.to_nat n) l) else Err OutOfBounds.

(** The factory and the configured banks are arguments; [method] is the
    translation method of the parent's decoder. *)
(*| NVmain/Ranks/StandardRank/StandardRank.cpp 100-198 StandardRank::SetConfig *)
Definition SetConfig (c : Config) (createChildren : bool) (uninit : Z * Z * Z) (method : option TranslationMethod)
    (CreateDecoderNoWarn : string → AddressTranslator) (new_child : string → Z → Config → res (Config * C))
    (s : rk) : res (Config * rk) :=
  let '(u1, u2, u3) := uninit in
  '(_, (c, p)) ← SetParams (c, Params_new u1 u2 u3);
  '(raw, c) ← GetValue "RAW" c;
  let rn := if raw =? -1 then 4 else RAW p in
  cassert (negb (rn =? 0));;
  devices ← (if DeviceWidth p =? 0 then Err DivideByZero
             else Ok (BusWidth p / DeviceWidth p ⊕ (if BusWidth p mod DeviceWidth p =? 0 then 0 else 1)));
  '(at_, banks, c) ← (if createChildren then
      '(d, c) ← GetString "Decoder" c;
      m ← deref NullDeref method;
      let at_ := SetDefaultField BANK_FIELD (SetTranslationMethod m (CreateDecoderNoWarn d)) in
      '(banks, c) ← foldM (λ st i, let '(banks, c) := st in '(t, c) ← GetString "BankType" c;
                                   '(c, k) ← new_child t i c; Ok (banks ++ [k], c))
                      (kids s, c) (seqZ 0 (BANKS p));
      Ok (at_, banks, c)
    else Ok (rankAT (node s), kids s, c));
  sr ← fill (BANKGROUPS p) (tCMD p) (sbg_nextRead (node s));
  sw ← fill (BANKGROUPS p) (tCMD p) (sbg_nextWrite (node s));
  sa ← fill (BANKGROUPS p) (tCMD p) (sbg_nextActivate (node s));
  Ok (c, mkNode ((node s) <| params := p |> <| deviceWidth := DeviceWidth p |> <| rk_busWidth := BusWidth p |>
    <| banksPerRefresh := BanksPerRefresh p |> <| bankgroupNum := BANKGROUPS p |> <| rawNum := rn |>
    <| deviceCount := devices |> <| bankCount := BANKS p |> <| rankAT := at_ |>
    <| lastActivate := replicate (Z.to_nat rn) 0 |> <| sbg_nextRead := sr |> <| sbg_nextWrite := sw |>
    <| sbg_nextActivate := sa |> <| dbg_nextRead := tCMD p |> <| dbg_nextWrite := tCMD p |>
    <| dbg_nextActivate := tCMD p |> <| nextPrecharge := tCMD p |> <| fawWaits := 0 |> <| rrdWaits := 0 |>
    <| actWaits := 0 |> <| fawWaitTotal := 0 |> <| rrdWaitTotal := 0 |> <| actWaitTotal := 0 |>) banks).
End Operations.
End Rank.
