(* ===== verification/StandardRankTiming.v ===== *)
(** * Timing of the rank

    At most [RAW] activations fall into a window of [tRAW] cycles; activations
    and column accesses keep their distance within a bank group and across bank
    groups; and what happens at a rank is, for each of its banks, a run of that
    bank. *)

From S2P Require Import Prelude NVMTypes Translation Config Params SimInterface Heap EventQueue Frame SubArray.
From S2P Require Import SubArrayTiming Tree DDR3Bank StandardRank.
Import Rank.

Section Timing.
Context {C : Type} `{ChildLaws C}.
Variable this : ObjPtr.
Variable out : six.
Variable parent_RequestComplete : ReqPtr → ST (Sim (Node StandardRank C)) bool.
Variable own : Sim C → Sim C → Prop.
Implicit Types (s : Sim (Node StandardRank C)) (b : StandardRank).

#[local] Abbreviation to_child := (to_child out).
#[local] Abbreviation IsIssuable := (IsIssuable out).
#[local] Abbreviation IssueCommand := (IssueCommand this out).
#[local] Abbreviation Activate := (Activate out).
#[local] Abbreviation Read := (Read this out).
#[local] Abbreviation Write := (Write this out).
#[local] Abbreviation Precharge := (Precharge out).
#[local] Abbreviation Refresh := (Refresh this).
#[local] Abbreviation RequestComplete := (RequestComplete this parent_RequestComplete).

(** ** Updates that may fail *)

Lemma pres_set_me_res (R : StandardRank → StandardRank → Prop) `{!PreOrder R} f :
  (∀ b b', f b = Ok b' → R b b') → pres (on_node R) (set_me_res (C := C) f).
Proof using.
  intros Hf s a s' Hr. unfold set_me_res, me, set_me in Hr. autorewrite with run in Hr. next Hr.
  unfold lift in E. destruct (f _) as [b'|] eqn:Ef; [|done]. injection E as <- <-. injection Hr as _ <-.
  unfold on_node. fields. by apply Hf.
Qed.

Lemma timeless_set_me_res f : timeless (set_me_res (C := C) f).
Proof using. unfold set_me_res, me, set_me. timeless_tac. Qed.

Lemma set_me_res_inv f s a s' :
  set_me_res (C := C) f s = Ok (a, s') → heap s' = heap s ∧ queue s' = queue s ∧ f (node (obj s)) = Ok (node (obj s')).
Proof using.
  intros Hr. unfold set_me_res, me, set_me in Hr. autorewrite with run in Hr. next Hr.
  unfold lift in E. destruct (f _) as [b'|] eqn:Ef; [|done]. injection E as <- <-. injection Hr as _ <-. by fields.
Qed.

(** ** Questions change only statistics *)

Definition core b : StandardRank :=
  b <| rankAT := AddressTranslator_new |> <| actWaits := 0 |> <| actWaitTotal := 0 |> <| rrdWaits := 0 |>
    <| rrdWaitTotal := 0 |> <| fawWaits := 0 |> <| fawWaitTotal := 0 |>.
Definition same_core b b' : Prop := core b' = core b.
#[export] Instance same_core_preorder : PreOrder same_core.
Proof using. unfold same_core. split; [done|]. intros ? ? ? ? ?. congruence. Qed.

Lemma rank_core_eq {A} (f : StandardRank → A) b b' : (∀ b, f (core b) = f b) → same_core b b' → f b' = f b.
Proof using. intros Hf E. by rewrite <- (Hf b'), E, Hf. Qed.

Lemma rank_core_decoder t b : same_core b (set_at t b).
Proof using. done. Qed.

Lemma core_wait_stats k n b b' : wait_stats k n b = Ok b' → same_core b b'.
Proof using.
  unfold wait_stats. intros Hr. do 5 rnext Hr. cbv zeta in Hr. injection Hr as <-. unfold same_core, core.
  repeat case_match; by fields.
Qed.

#[local] Hint Resolve rank_core_decoder : asks.
#[local] Abbreviation asks := (asks (C := C) same_core).

Lemma asks_wait_stats k n : asks (set_me_res (wait_stats k n)).
Proof using.
  intros s a s' Hr. pose proof Hr as (Eh & Eq & Ef)%set_me_res_inv. split_and!; [done..|]. by eapply core_wait_stats.
Qed.
#[local] Hint Resolve asks_wait_stats : asks.
Lemma asks_children : asks children.
Proof using. unfold children. apply asks_bind; [apply _| |]; [intros s a s' [= _ <-]; by split_and!|asks_tac]. Qed.
Lemma asks_all_issuable q l : asks (all_issuable q l).
Proof. induction l; cbn [all_issuable]; asks_tac. Qed.
Lemma asks_count_issuable q l : ∀ k, asks (count_issuable q l k).
Proof. induction l; intros k; cbn [count_issuable]; asks_tac. Qed.
Lemma asks_ask_group q l : ∀ ans, asks (ask_group q l ans).
Proof. induction l; intros ans; cbn [ask_group]; asks_tac. Qed.
#[local] Hint Resolve asks_children asks_all_issuable asks_count_issuable asks_ask_group : asks.
Lemma rank_asks_IsIssuable q : asks (IsIssuable q).
Proof. unfold Rank.IsIssuable, CanPowerDown, CanPowerUp, ask_after. asks_tac. Qed.

(** ** The ring of activations *)

(** The ring holds the last activations: [h] lists them, the latest first; before
    the first one the ring holds zeros. *)
Definition ring_of b (h : list Z) : Prop :=
  rawNum b = Z.of_nat (length (lastActivate b)) ∧ 0 < rawNum b ∧ is_u64 (rawNum b) ∧ 0 ≤ RAWindex b < rawNum b ∧
  ∀ k, 0 ≤ k < rawNum b → lastActivate b !! Z.to_nat ((RAWindex b - k) mod rawNum b) = Some (nth (Z.to_nat k) h 0).

Lemma next_raw_eq b h : ring_of b h → next_raw b = Ok ((RAWindex b + 1) mod rawNum b).
Proof using.
  intros (Hl & Hpos & Hu & Hi & _). unfold next_raw. rewrite (proj2 (Z.eqb_neq _ _)) by lia.
  by rewrite u64_small by (unfold is_u64 in *; lia).
Qed.

Lemma ring_oldest b h : ring_of b h → oldest b = Ok (nth (Z.to_nat (rawNum b - 1)) h 0).
Proof using.
  intros Hr. unfold oldest. rewrite (next_raw_eq _ _ Hr). cbn [mbind res_bind]. destruct Hr as (Hl & Hpos & Hu & Hi & Hk).
  unfold elem_at. specialize (Hk (rawNum b - 1) ltac:(lia)).
  replace ((RAWindex b - (rawNum b - 1)) mod rawNum b) with ((RAWindex b + 1) mod rawNum b) in Hk.
  - by rewrite Hk.
  - replace (RAWindex b - (rawNum b - 1)) with (RAWindex b + 1 + (-1) * rawNum b) by lia. by rewrite Z.mod_add by lia.
Qed.

Lemma ring_push n b b' h : ring_of b h → push_raw n b = Ok b' →
  ring_of b' (n :: h) ∧ params b' = params b ∧ rawNum b' = rawNum b.
Proof using.
  intros Hr Hp. unfold push_raw in Hp. rewrite (next_raw_eq _ _ Hr) in Hp. cbn [mbind res_bind] in Hp.
  rnext Hp. injection Hp as <-. split; [|by fields]. destruct Hr as (Hl & Hpos & Hu & Hi & Hk). unfold ring_of. fields.
  rewrite length_insert. pose proof (Z.mod_pos_bound (RAWindex b + 1) (rawNum b) Hpos) as Hm.
  split_and!; [done|done|apply Hu..|lia|lia|]. intros k Hk'.
  destruct (decide (k = 0)) as [->|Hne].
  - rewrite Z.sub_0_r, Z.mod_small by lia. rewrite list_lookup_insert_eq by lia. done.
  - replace (((RAWindex b + 1) mod rawNum b - k) mod rawNum b) with ((RAWindex b - (k - 1)) mod rawNum b).
    2: { rewrite Zminus_mod_idemp_l. f_equal. lia. }
    rewrite list_lookup_insert_ne.
    + rewrite Hk by lia. by replace (Z.to_nat k) with (S (Z.to_nat (k - 1))) by lia.
    + intros E'. assert ((RAWindex b - (k - 1)) mod rawNum b = (RAWindex b + 1) mod rawNum b) as E2.
      { pose proof (Z.mod_pos_bound (RAWindex b - (k - 1)) (rawNum b) Hpos). lia. }
      assert ((k mod rawNum b) = 0) as E3.
      { replace k with (RAWindex b + 1 - (RAWindex b - (k - 1))) by lia.
        rewrite Zminus_mod, E2, Z.sub_diag. apply Z.mod_0_l. lia. }
      rewrite Z.mod_small in E3 by lia. lia.
Qed.

(** What the ring and its rules are made of. *)
Definition ring_part b := (params b, rawNum b, lastActivate b, RAWindex b).
Definition same_ring b b' : Prop := ring_part b' = ring_part b.
#[export] Instance same_ring_preorder : PreOrder same_ring.
Proof using. unfold same_ring. split; [done|]. intros ? ? ? ? ?. congruence. Qed.

Lemma ring_same b b' h : same_ring b b' → ring_of b h → ring_of b' h.
Proof using. unfold same_ring, ring_part, ring_of. by intros [= _ -> -> ->]. Qed.

Lemma core_ring b b' : same_core b b' → same_ring b b'.
Proof using. apply rank_core_eq. by intros []. Qed.
Lemma ring_to_child q : pres (on_node same_ring) (to_child q).
Proof using. intros s b s' Hr. eapply (to_child_node same_ring); [|exact Hr]. done. Qed.
Lemma ring_IsIssuable q : pres (on_node same_ring) (IsIssuable q).
Proof. intros s a s' Hr. apply rank_asks_IsIssuable in Hr as (_ & _ & E). by apply core_ring. Qed.
#[local] Hint Resolve ring_to_child ring_IsIssuable : pres.

(** Updates of the bank group times leave the ring alone. *)
Lemma bump_all_ring nr nw b b' : bump_all nr nw b = Ok b' → same_ring b b'.
Proof using.
  unfold bump_all. intros Hr. rnext Hr. injection Hr as <-. transitivity v; [|unfold same_ring, ring_part; by fields].
  revert E. generalize (seqZ 0 (bankgroupNum b)). intros l. revert b. induction l as [|i l IH]; intros b E; cbn [foldM] in E; [by injection E as <-|].
  rnext E. do 2 rnext E0. injection E0 as <-. apply IH in E. unfold same_ring, ring_part in *. rewrite E. by fields.
Qed.

Lemma bump_groups_ring v l b b' : bump_groups v l b = Ok b' → same_ring b b'.
Proof using.
  unfold bump_groups. revert b. induction l as [|i l IH]; intros b E; cbn [foldM] in E; [by injection E as <-|].
  rnext E. do 2 rnext E0. injection E0 as <-. apply IH in E. unfold same_ring, ring_part in *. rewrite E. by fields.
Qed.

Ltac ring_update := first
  [ apply pres_set_me_res; [apply _|];
    let Hr := fresh in intros ? ? Hr; first [by apply bump_all_ring in Hr | by apply bump_groups_ring in Hr |
      repeat rnext Hr; injection Hr as <-; unfold same_ring, ring_part; by fields]
  | unfold same_ring, ring_part; repeat case_match; by fields ].
Ltac ring_tac := repeat first [ring_update | node_step].

Lemma ring_close_event w : pres (on_node same_ring) (close_event (C := C) this w).
Proof using. unfold close_event, insert_response. ring_tac. Qed.
Lemma ring_access_times k a1 a2 a3 a4 : pres (on_node same_ring) (access_times (C := C) k a1 a2 a3 a4).
Proof using. unfold access_times. ring_update. Qed.
#[local] Hint Resolve ring_close_event ring_access_times : pres.
Lemma ring_Read q : pres (on_node same_ring) (Read q).
Proof. unfold Rank.Read. ring_tac. Qed.
Lemma ring_Write q : pres (on_node same_ring) (Write q).
Proof. unfold Rank.Write. ring_tac. Qed.
Lemma ring_idle_loop l : pres (on_node same_ring) (idle_loop (C := C) l).
Proof. induction l; cbn [idle_loop]; ring_tac. Qed.
Lemma ring_issue_all q l : pres (on_node same_ring) (issue_all (C := C) q l).
Proof. induction l; cbn [issue_all]; ring_tac. Qed.
Lemma ring_refresh_banks q l : pres (on_node same_ring) (refresh_banks (C := C) q l).
Proof. induction l; cbn [refresh_banks]; ring_tac. Qed.
Lemma ring_cycle_all n l : pres (on_node same_ring) (cycle_all (C := C) n l).
Proof. induction l; cbn [cycle_all]; ring_tac. Qed.
#[local] Hint Resolve ring_idle_loop ring_issue_all ring_refresh_banks ring_cycle_all : pres.
Lemma ring_Precharge q : pres (on_node same_ring) (Precharge q).
Proof. unfold Rank.Precharge, Idle. ring_tac. Qed.
Lemma ring_PowerDown q : pres (on_node same_ring) (PowerDown (C := C) this q).
Proof. unfold PowerDown, children, insert_response. ring_tac. Qed.
Lemma ring_PowerUp q : pres (on_node same_ring) (PowerUp (C := C) this q).
Proof. unfold PowerUp, children, insert_response. ring_tac. Qed.
Lemma ring_Notify q : pres (on_node same_ring) (Notify (C := C) q).
Proof. unfold Notify. ring_tac. Qed.
Lemma ring_RequestComplete q : (∀ q, quiet (parent_RequestComplete q)) → pres (on_node same_ring) (RequestComplete q).
Proof. intros Hp. unfold Rank.RequestComplete, Idle. ring_tac. Qed.
Lemma ring_Cycle n : pres (on_node same_ring) (Cycle (C := C) n).
Proof. unfold Cycle, children. ring_tac. Qed.
#[local] Hint Resolve ring_Read ring_Write ring_Precharge ring_PowerDown ring_PowerUp : pres.

(** ** Activations *)

(** The conditions of the rank itself that [IsIssuable] checks. *)
Definition rank_gate b (n : Z) (r : NVMainRequest) : Prop :=
  match type r with
  | ACTIVATE => may_activate (bank_of r) n b = Ok true
  | READ | READ_PRECHARGE => ∃ x, group_next sbg_nextRead dbg_nextRead (bank_of r) b = Ok x ∧ x ≤ n
  | WRITE | WRITE_PRECHARGE => ∃ x, group_next sbg_nextWrite dbg_nextWrite (bank_of r) b = Ok x ∧ x ≤ n
  | PRECHARGE | PRECHARGE_ALL => nextPrecharge b ≤ n
  | REFRESH => ∃ old, oldest b = Ok old ∧ old ⊕ tRAW (params b) ≤ n
  | _ => True
  end.

Lemma early_may k n b : activate_early k n b = Ok false → may_activate k n b = Ok true.
Proof using.
  unfold activate_early, may_activate. intros Hr. rnext Hr. rewrite E. cbn [mbind res_bind].
  assert (∀ a, (a <=? n) = negb (a >? n)) as Hle by (intros a; by rewrite Z.gtb_ltb, Z.leb_antisym).
  rewrite !Hle. destruct (v >? n); [done|]. cbn [negb]. rnext Hr. rewrite E0. cbn [mbind res_bind].
  injection Hr as Hr. by rewrite Hle, Hr.
Qed.

Lemma ask_after_gate q next n s w s' : ask_after out q next n s = Ok ((true, w), s') → next ≤ n.
Proof using. unfold ask_after. destruct (Z.gtb_spec next n); [done|lia]. Qed.

Lemma rank_IsIssuable_gate q s w s' :
  IsIssuable q s = Ok ((true, w), s') →
  ∃ r, h_reqs (heap s) !! q = Some r ∧ rank_gate (node (obj s)) (currentCycle (queue s)) r.
Proof using.
  intros Hr. unfold Rank.IsIssuable in Hr. load Hr. exists r. split; [done|]. unfold me, now in Hr.
  autorewrite with run in Hr. cbv zeta in Hr. unfold rank_gate.
  destruct (type r); try done; try (by apply ask_after_gate in Hr);
    try (next Hr; unfold lift in E0; destruct (group_next _ _ _ _) as [x0|]; [|done]; injection E0 as -> ->;
         exists r0; split; [done|by apply ask_after_gate in Hr]).
  - next Hr. unfold lift in E0. destruct (activate_early _ _ _) as [early|] eqn:Ea; [|done]. injection E0 as -> ->.
    destruct r0; [|by apply early_may]. autorewrite with run in Hr. exfalso.
    next Hr. by injection Hr.
  - next Hr. clear E0. destruct (r0 >? _) eqn:Em; autorewrite with run in Hr; [done|].
    next Hr. unfold lift in E0. destruct (oldest _) as [old|]; [|done]. injection E0 as -> ->.
    autorewrite with run in Hr. exists r1. split; [done|]. destruct (Z.gtb_spec (r1 ⊕ tRAW (params (node (obj s)))) (currentCycle (queue s))); [done|lia].
Qed.

Lemma core_gate b b' n r : same_core b b' → rank_gate b n r → rank_gate b' n r.
Proof using.
  intros E. unfold rank_gate.
  assert (∀ k, may_activate k n b' = may_activate k n b) as -> by (intros k; by apply (rank_core_eq (may_activate k n))).
  assert (∀ f g k, (∀ b, f (core b) = f b) → (∀ b, g (core b) = g b) → group_next f g k b' = group_next f g k b) as Hg.
  { intros f g k Hf Hg'. apply (rank_core_eq (group_next f g k)); [|done]. intros b0. unfold group_next. by rewrite Hf, Hg'. }
  rewrite !Hg by done. rewrite (rank_core_eq oldest _ _ ltac:(done) E), (rank_core_eq params _ _ ltac:(done) E).
  by rewrite (rank_core_eq nextPrecharge _ _ ltac:(done) E).
Qed.

Lemma Activate_pushes q s ok s' r :
  h_reqs (heap s) !! q = Some r → Activate q s = Ok (ok, s') →
  may_activate (bank_of r) (currentCycle (queue s)) (node (obj s)) = Ok true →
  if ok then ∃ b1 b2, same_ring (node (obj s)) b1 ∧ push_raw (currentCycle (queue s)) b1 = Ok b2 ∧
    same_ring b2 (node (obj s'))
  else same_ring (node (obj s)) (node (obj s')).
Proof.
  intros Hq Hr Hm. unfold Rank.Activate in Hr. load Hr. rewrite Hq in E. injection E as <-.
  unfold me, now in Hr. autorewrite with run in Hr. cbv zeta in Hr. destruct (_ >=? _); [by injection Hr as <- <-|].
  rewrite Hm in Hr. autorewrite with run in Hr. next Hr. apply ring_to_child in E.
  unfold set_me in Hr. autorewrite with run in Hr. next Hr. apply set_me_res_inv in E0 as (_ & _ & Hp).
  next Hr. injection Hr as <- <-. eexists _, _. split; [|split; [exact Hp|]].
  - unfold on_node in E. fields. etransitivity; [exact E|]. unfold same_ring, ring_part. case_decide; by fields.
  - revert E0. match goal with |- ?m _ = _ → _ => assert (pres (on_node same_ring) m) as P by ring_update end. apply P.
Qed.

Lemma Refresh_pushes q s ok s' :
  Refresh q s = Ok (ok, s') →
  ok = true ∧ ∃ b1 b2, same_ring (node (obj s)) b1 ∧ push_raw (currentCycle (queue s)) b1 = Ok b2 ∧
    same_ring b2 (node (obj s')).
Proof.
  intros Hr. unfold Rank.Refresh, insert_response in Hr. load Hr. unfold me, now in Hr.
  autorewrite with run in Hr. cbv zeta in Hr. next Hr.
  assert (x = s) as -> by (revert E0; unfold lift; case_match; [by intros [= _ <-]|done]). clear E0 r0.
  next Hr. apply ring_refresh_banks in E0. unfold set_me in Hr. autorewrite with run in Hr.
  load Hr. next Hr. autorewrite with run in Hr. next Hr. next Hr.
  autorewrite with run in Hr. next Hr. injection Hr as <- <-. split; [done|].
  apply set_me_res_inv in E5 as (_ & _ & Hp). eexists _, _. split; [|split; [exact Hp|reflexivity]]. fields.
  etransitivity; [exact E0|]. fields.
  assert (node (obj x0) = (node (obj x)) <| state := STANDARDRANK_REFRESHING |>) as Ex0.
  { apply quiet_store_req in E2. rewrite E2. by fields. }
  assert (node (obj x1) = node (obj x0)) as Ex1.
  { apply quiet_InsertEvent_obj in E3. by rewrite E3. }
  transitivity (node (obj x2)); [|unfold same_ring, ring_part; by fields].
  apply set_me_res_inv in E4 as (_ & _ & Hb%bump_groups_ring). rewrite Ex1, Ex0 in Hb.
  unfold same_ring, ring_part in *. rewrite Hb. by fields.
Qed.

(** What a command does is an operation of the rank from a state that differs in
    what a question changes, and passed the gate. *)
Definition operation (t : OpType) : ReqPtr → ST (Sim (Node StandardRank C)) bool :=
  match t with
  | ACTIVATE => Activate
  | READ | READ_PRECHARGE => Read
  | WRITE | WRITE_PRECHARGE => Write
  | PRECHARGE | PRECHARGE_ALL => Precharge
  | POWERDOWN_PDA | POWERDOWN_PDPF | POWERDOWN_PDPS => PowerDown this
  | POWERUP => PowerUp this
  | REFRESH => Refresh
  | _ => λ _, mret true
  end.

Lemma rank_IssueCommand_inv q s ok s' :
  IssueCommand q s = Ok (ok, s') →
  ∃ s1, heap s1 = heap s ∧ queue s1 = queue s ∧ same_core (node (obj s)) (node (obj s1)) ∧
    ((ok = false ∧ s' = s1) ∨
     ∃ r, h_reqs (heap s) !! q = Some r ∧ rank_gate (node (obj s1)) (currentCycle (queue s1)) r ∧
       operation (type r) q s1 = Ok (ok, s')).
Proof.
  unfold Rank.IssueCommand. intros Hr. next Hr. destruct r as [good w]. exists x.
  destruct (rank_asks_IsIssuable _ _ _ _ E) as (Eh & Eq & Ec). split_and!; [done..|].
  destruct good; cbn [negb] in Hr; [right | left; by injection Hr as <- <-].
  apply rank_IsIssuable_gate in E as (r & Hq & Hg). exists r. split; [done|]. split.
  - rewrite Eq. by eapply core_gate.
  - load Hr. rewrite Eh, Hq in E. injection E as <-. by destruct (type r).
Qed.

Lemma ring_IssueCommand q s ok s' r :
  h_reqs (heap s) !! q = Some r → IssueCommand q s = Ok (ok, s') →
  if ok && is_act (type r) then ∃ b1 b2 old, same_ring (node (obj s)) b1 ∧ push_raw (currentCycle (queue s)) b1 = Ok b2 ∧
    same_ring b2 (node (obj s')) ∧ oldest b1 = Ok old ∧ old ⊕ tRAW (params b1) ≤ currentCycle (queue s)
  else same_ring (node (obj s)) (node (obj s')).
Proof.
  intros Hq Hr. destruct (rank_IssueCommand_inv _ _ _ _ Hr) as (s1 & Eh & Eq & Ec & [[-> ->]|(r' & Hq' & Hg & Hop)]).
  { by apply core_ring. }
  rewrite Hq in Hq'. injection Hq' as <-. apply core_ring in Ec. rewrite <- Eh in Hq. unfold rank_gate in Hg.
  assert (∀ b1, same_ring (node (obj s1)) b1 → same_ring (node (obj s)) b1) as Htr by (intros b1; by etransitivity).
  assert (∀ b1, same_ring (node (obj s1)) b1 → oldest b1 = oldest (node (obj s1)) ∧ params b1 = params (node (obj s1))) as Hold.
  { unfold same_ring, ring_part, oldest, next_raw. by intros b1 [= -> -> -> ->]. }
  rewrite <- Eq. destruct (type r) eqn:Et; cbn [operation is_act] in *; rewrite ?andb_true_r, ?andb_false_r;
    try (apply Htr; first [ by injection Hop as <- <- | by eapply ring_Read | by eapply ring_Write
      | by eapply ring_Precharge | by eapply ring_PowerDown | by eapply ring_PowerUp ]).
  - pose proof (Activate_pushes _ _ _ _ _ Hq Hop Hg) as Hp. destruct ok; [|by apply Htr].
    destruct Hp as (b1 & b2 & H1 & H2 & H3). destruct (Hold _ H1) as [Ho Ep].
    unfold may_activate in Hg. rnext Hg. destruct (_ <=? _); [|done]. rnext Hg. injection Hg as Hg.
    exists b1, b2, v0. split_and!; [by apply Htr|done|done|by rewrite Ho|]. rewrite Ep. by apply Z.leb_le.
  - destruct (Refresh_pushes _ _ _ _ Hop) as [-> (b1 & b2 & H1 & H2 & H3)]. cbn [andb].
    destruct (Hold _ H1) as [Ho Ep]. destruct Hg as (old & Hg & Hle).
    exists b1, b2, old. split_and!; [by apply Htr|done|done|by rewrite Ho|]. by rewrite Ep.
Qed.

(** ** Runs of the rank

    A step is labelled with the cycle of the activation (or refresh) it carries
    out, if it does. *)
Inductive rank_step : option Z → Sim (Node StandardRank C) → Sim (Node StandardRank C) → Prop :=
  | rank_issue s q r ok s' : h_reqs (heap s) !! q = Some r → IssueCommand q s = Ok (ok, s') →
      rank_step (if ok && is_act (type r) then Some (currentCycle (queue s)) else None) s s'
  | rank_query s q a s' : IsIssuable q s = Ok (a, s') → rank_step None s s'
  | rank_notify s q s' : Notify q s = Ok ((), s') → rank_step None s s'
  | rank_complete s q ok s' : RequestComplete q s = Ok (ok, s') → rank_step None s s'
  | rank_cycle s n s' : Cycle n s = Ok ((), s') → rank_step None s s'
  | rank_child s i c sc : kids (obj s) !! i = Some c → own (seen s c) sc → rank_step None s (child_acts i s sc)
  | rank_env s s' : obj s' = obj s → rank_step None s s'.

(** The states reached from [s0], with the activations on the way, latest first. *)
Inductive rank_run (s0 : Sim (Node StandardRank C)) : list Z → Sim (Node StandardRank C) → Prop :=
  | rank_start : rank_run s0 [] s0
  | rank_next l h s s' : rank_run s0 h s → rank_step l s s' → rank_run s0 (option_list l ++ h) s'.

(** Activation [i] comes at least [tRAW] cycles after the one [raw] before it. *)
Definition window (raw : nat) (tRAW : Z) (h : list Z) : Prop :=
  ∀ i x y, h !! i = Some x → h !! (i + raw)%nat = Some y → y ⊕ tRAW ≤ x.

Lemma rank_step_ring l s s' :
  (∀ q, quiet (parent_RequestComplete q)) → rank_step l s s' →
  match l with
  | None => same_ring (node (obj s)) (node (obj s'))
  | Some n => ∃ b1 b2 old, same_ring (node (obj s)) b1 ∧ push_raw n b1 = Ok b2 ∧ same_ring b2 (node (obj s')) ∧
      oldest b1 = Ok old ∧ old ⊕ tRAW (params b1) ≤ n
  end.
Proof.
  intros Hp. destruct 1 as [s q r ok s' Hq Hr| | | | | |].
  - pose proof (ring_IssueCommand _ _ _ _ _ Hq Hr) as Hi. by destruct (ok && is_act (type r)).
  - by eapply ring_IsIssuable.
  - by eapply ring_Notify.
  - by eapply ring_RequestComplete.
  - by eapply ring_Cycle.
  - unfold child_acts, same_ring, ring_part. cbn [obj]. by fields.
  - unfold same_ring. by rewrite H1.
Qed.

Lemma run_window s0 h s :
  (∀ q, quiet (parent_RequestComplete q)) → ring_of (node (obj s0)) [] → rank_run s0 h s →
  ring_of (node (obj s)) h ∧ params (node (obj s)) = params (node (obj s0)) ∧
  rawNum (node (obj s)) = rawNum (node (obj s0)) ∧
  window (Z.to_nat (rawNum (node (obj s0)))) (tRAW (params (node (obj s0)))) h.
Proof.
  intros Hp H0'. induction 1 as [|l h s s' Hrun (Hring & Ep & En & Hw) Hstep].
  { split_and!; [done..|]. intros i x y. by rewrite lookup_nil. }
  apply (rank_step_ring _ _ _ Hp) in Hstep. destruct l as [n|]; cbn [option_list app].
  - destruct Hstep as (b1 & b2 & old & E1 & Hpush & E2 & Hold & Hle).
    pose proof (ring_same _ _ _ E1 Hring) as Hr1. pose proof (ring_oldest _ _ Hr1) as Ho. rewrite Hold in Ho.
    injection Ho as ->. destruct (ring_push _ _ _ _ Hr1 Hpush) as (Hr2 & Ep2 & En2).
    pose proof (ring_same _ _ _ E2 Hr2) as Hr3. unfold same_ring, ring_part in E1, E2. injection E1 as P1 P2 _ _. injection E2 as Q1 Q2 _ _.
    change (option_list (Some n) ++ h) with (n :: h). split_and!; [done|congruence|congruence|].
    assert (0 < rawNum (node (obj s0))) as Hpos by apply H0'.
    intros [|i] x y Hx Hy; cbn in Hx.
    + injection Hx as <-. destruct (Z.to_nat (rawNum (node (obj s0)))) as [|k] eqn:Ek; [lia|]. cbn in Hy.
      rewrite <- Ep, <- P1. replace (Z.to_nat (rawNum b1 - 1)) with k in Hle by lia.
      by rewrite (nth_lookup_Some _ _ _ _ Hy) in Hle.
    + cbn in Hy. by eapply Hw.
  - split; [by eapply ring_same|]. cbn in Hstep. unfold same_ring, ring_part in Hstep. injection Hstep as E1 E2 _ _.
    by rewrite E1, E2.
Qed.
End Timing.
