(* ===== verification/StandardRankAccess.v ===== *)
(** * Accesses of the rank

    The rank keeps activations and column accesses apart, within a bank group by
    the long times and across bank groups by the short ones, and keeps its own
    accesses apart from those of other ranks it is notified of. *)

From S2P Require Import Prelude NVMTypes Translation Config Params SimInterface Heap EventQueue Frame SubArray.
From S2P Require Import SubArrayTiming Tree DDR3Bank StandardRank StandardRankTiming.
Import Rank.

Section Access.
Context {C : Type} `{ChildLaws C}.
Variable this : ObjPtr.
Variable out : six.
Variable parent_RequestComplete : ReqPtr → ST (Sim (Node StandardRank C)) bool.
Variable own : Sim C → Sim C → Prop.
Implicit Types (s : Sim (Node StandardRank C)) (b : StandardRank).

#[local] Abbreviation to_child := (to_child out).
#[local] Abbreviation IsIssuable := (IsIssuable out).
#[local] Abbreviation IssueCommand := (IssueCommand this out).
#[local] Abbreviation Activate := (Activate out).
#[local] Abbreviation Read := (Read this out).
#[local] Abbreviation Write := (Write this out).
#[local] Abbreviation Precharge := (Precharge out).
#[local] Abbreviation Refresh := (Refresh this).
#[local] Abbreviation RequestComplete := (RequestComplete this parent_RequestComplete).
#[local] Abbreviation rank_step := (rank_step this out parent_RequestComplete own).

(** ** The times only move forward *)

Definition ahead b b' : Prop :=
  params b' = params b ∧ bankgroupNum b' = bankgroupNum b ∧
  Forall2 Z.le (sbg_nextRead b) (sbg_nextRead b') ∧ Forall2 Z.le (sbg_nextWrite b) (sbg_nextWrite b') ∧
  Forall2 Z.le (sbg_nextActivate b) (sbg_nextActivate b') ∧
  dbg_nextRead b ≤ dbg_nextRead b' ∧ dbg_nextWrite b ≤ dbg_nextWrite b' ∧
  dbg_nextActivate b ≤ dbg_nextActivate b' ∧ nextPrecharge b ≤ nextPrecharge b'.

#[export] Instance ahead_preorder : PreOrder ahead.
Proof using.
  unfold ahead. split; [intros b; split_and!; (reflexivity || lia)|].
  intros b1 b2 b3 (? & ? & ? & ? & ? & ? & ? & ? & ?) (? & ? & ? & ? & ? & ? & ? & ? & ?).
  split_and!; [congruence|congruence|by etransitivity..|lia|lia|lia|lia].
Qed.

Lemma bump_le g v l l' : bump g v l = Ok l' → Forall2 Z.le l l' ∧ ∃ x, l' !! g = Some x ∧ v ≤ x.
Proof using.
  unfold bump, elem_at. intros Hr. rnext Hr. injection Hr as <-. destruct (l !! g) as [x|] eqn:E'; [|done]. injection E as <-.
  assert (g < length l)%nat as Hlt by by eapply lookup_lt_Some.
  split; [|exists (MAX x v); split; [by apply list_lookup_insert_eq|apply MAX_r]].
  apply Forall2_same_length_lookup_2; [by rewrite length_insert|]. intros i y z Hy Hz.
  destruct (decide (g = i)) as [<-|Hne].
  - rewrite list_lookup_insert_eq in Hz by done. simplify_eq. apply MAX_l.
  - rewrite list_lookup_insert_ne in Hz by done. simplify_eq. done.
Qed.

(** [field_refl]: the fields that are not updated. *)
Ltac ahead_update := unfold ahead; fields; split_and!; rewrite ?MAX_max; first [reflexivity | assumption | lia].

Lemma rank_core_ahead b b' : same_core b b' → ahead b b'.
Proof using.
  intros E. unfold ahead.
  rewrite (rank_core_eq params _ _ ltac:(done) E), (rank_core_eq bankgroupNum _ _ ltac:(done) E),
    (rank_core_eq sbg_nextRead _ _ ltac:(done) E), (rank_core_eq sbg_nextWrite _ _ ltac:(done) E),
    (rank_core_eq sbg_nextActivate _ _ ltac:(done) E), (rank_core_eq dbg_nextRead _ _ ltac:(done) E),
    (rank_core_eq dbg_nextWrite _ _ ltac:(done) E), (rank_core_eq dbg_nextActivate _ _ ltac:(done) E),
    (rank_core_eq nextPrecharge _ _ ltac:(done) E).
  split_and!; first [reflexivity | lia].
Qed.

Lemma push_raw_ahead n b b' : push_raw n b = Ok b' → ahead b b'.
Proof using. unfold push_raw. intros Hr. do 2 rnext Hr. injection Hr as <-. ahead_update. Qed.

Lemma bump_groups_ahead v l b b' : bump_groups v l b = Ok b' → ahead b b'.
Proof using.
  unfold bump_groups. revert b. induction l as [|i l IH]; intros b E; cbn [foldM] in E; [by injection E as <-|].
  rnext E. apply IH in E. etransitivity; [|exact E]. do 2 rnext E0. injection E0 as <-.
  match goal with Hb : bump _ _ _ = Ok _ |- _ => apply bump_le in Hb as [Hb _] end. ahead_update.
Qed.

Lemma bump_all_ahead nr nw b b' : bump_all nr nw b = Ok b' → ahead b b'.
Proof using.
  unfold bump_all. intros Hr. rnext Hr. injection Hr as <-. transitivity v; [|ahead_update].
  revert E. generalize (seqZ 0 (bankgroupNum b)). intros l. revert b. induction l as [|i l IH]; intros b E;
    cbn [foldM] in E; [by injection E as <-|].
  rnext E. apply IH in E. etransitivity; [|exact E]. do 2 rnext E0. injection E0 as <-.
  repeat match goal with Hb : bump _ _ _ = Ok _ |- _ => apply bump_le in Hb as [? _] end. ahead_update.
Qed.

Lemma access_times_ahead k a1 a2 a3 a4 : pres (on_node ahead) (access_times (C := C) k a1 a2 a3 a4).
Proof using.
  apply pres_set_me_res; [apply _|]. intros b b' Hr. do 3 rnext Hr. injection Hr as <-.
  repeat match goal with Hb : bump _ _ _ = Ok _ |- _ => apply bump_le in Hb as [? _] end. ahead_update.
Qed.

Lemma rank_ahead_to_child q : pres (on_node ahead) (to_child q).
Proof using. intros s b s' Hr. eapply (to_child_node ahead); [|exact Hr]. intros t b0. by apply rank_core_ahead. Qed.
Lemma rank_ahead_IsIssuable q : pres (on_node ahead) (IsIssuable q).
Proof. intros s a s' Hr. apply rank_asks_IsIssuable in Hr as (_ & _ & E). by apply rank_core_ahead. Qed.
#[local] Hint Resolve access_times_ahead rank_ahead_to_child rank_ahead_IsIssuable : pres.

Ltac ahead_res := apply pres_set_me_res; [apply _|];
  let Hr := fresh in intros ? ? Hr;
  first [ by apply push_raw_ahead in Hr | by apply bump_groups_ahead in Hr | by apply bump_all_ahead in Hr
        | repeat rnext Hr; injection Hr as <-;
          repeat match goal with Hb : bump _ _ _ = Ok _ |- _ => apply bump_le in Hb as [? _] end; ahead_update ].
Ltac ahead_tac := repeat first [ahead_res | repeat case_match; ahead_update | node_step].

Lemma rank_ahead_Activate q : pres (on_node ahead) (Activate q).
Proof. unfold Rank.Activate. ahead_tac. Qed.
Lemma ahead_close_event w : pres (on_node ahead) (close_event (C := C) this w).
Proof using. unfold close_event, insert_response. ahead_tac. Qed.
#[local] Hint Resolve ahead_close_event : pres.
Lemma rank_ahead_Read q : pres (on_node ahead) (Read q).
Proof. unfold Rank.Read. ahead_tac. Qed.
Lemma rank_ahead_Write q : pres (on_node ahead) (Write q).
Proof. unfold Rank.Write. ahead_tac. Qed.
Lemma ahead_idle_loop l : pres (on_node ahead) (idle_loop (C := C) l).
Proof. induction l; cbn [idle_loop]; ahead_tac. Qed.
Lemma ahead_issue_all q l : pres (on_node ahead) (issue_all (C := C) q l).
Proof. induction l; cbn [issue_all]; ahead_tac. Qed.
Lemma ahead_refresh_banks q l : pres (on_node ahead) (refresh_banks (C := C) q l).
Proof. induction l; cbn [refresh_banks]; ahead_tac. Qed.
Lemma ahead_cycle_all n l : pres (on_node ahead) (cycle_all (C := C) n l).
Proof. induction l; cbn [cycle_all]; ahead_tac. Qed.
#[local] Hint Resolve ahead_idle_loop ahead_issue_all ahead_refresh_banks ahead_cycle_all : pres.
Lemma rank_ahead_Precharge q : pres (on_node ahead) (Precharge q).
Proof. unfold Rank.Precharge, Idle. ahead_tac. Qed.
Lemma rank_ahead_Refresh q : pres (on_node ahead) (Refresh q).
Proof. unfold Rank.Refresh, insert_response. ahead_tac. Qed.
Lemma rank_ahead_PowerDown q : pres (on_node ahead) (PowerDown (C := C) this q).
Proof. unfold PowerDown, children, insert_response. ahead_tac. Qed.
Lemma rank_ahead_PowerUp q : pres (on_node ahead) (PowerUp (C := C) this q).
Proof. unfold PowerUp, children, insert_response. ahead_tac. Qed.
Lemma ahead_Notify q : pres (on_node ahead) (Notify (C := C) q).
Proof. unfold Notify. ahead_tac. Qed.
Lemma ahead_RequestComplete q : (∀ q, quiet (parent_RequestComplete q)) → pres (on_node ahead) (RequestComplete q).
Proof. intros Hp. unfold Rank.RequestComplete, Idle. ahead_tac. Qed.
Lemma rank_ahead_Cycle n : pres (on_node ahead) (Cycle (C := C) n).
Proof. unfold Cycle, children. ahead_tac. Qed.
#[local] Hint Resolve rank_ahead_Activate rank_ahead_Read rank_ahead_Write rank_ahead_Precharge rank_ahead_Refresh rank_ahead_PowerDown rank_ahead_PowerUp
  : pres.
Lemma rank_ahead_IssueCommand q : pres (on_node ahead) (IssueCommand q).
Proof. unfold Rank.IssueCommand. ahead_tac. Qed.

Lemma rank_step_ahead l s s' :
  (∀ q, quiet (parent_RequestComplete q)) → rank_step l s s' → ahead (node (obj s)) (node (obj s')).
Proof.
  intros Hp. destruct 1 as [s q r ok s' Hq Hr| | | | | |].
  - by eapply rank_ahead_IssueCommand.
  - by eapply rank_ahead_IsIssuable.
  - by eapply ahead_Notify.
  - by eapply ahead_RequestComplete.
  - by eapply rank_ahead_Cycle.
  - unfold child_acts. cbn [obj]. fields. reflexivity.
  - by rewrite H1.
Qed.

(** ** The earliest next command *)

(** [c] for bank [k] may not be issued before [e]. *)
Definition not_before (e : Z) (c : OpType) (k : Z) b : Prop :=
  match c with
  | ACTIVATE => ∀ x, group_next sbg_nextActivate dbg_nextActivate k b = Ok x → e ≤ x
  | READ | READ_PRECHARGE => ∀ x, group_next sbg_nextRead dbg_nextRead k b = Ok x → e ≤ x
  | WRITE | WRITE_PRECHARGE => ∀ x, group_next sbg_nextWrite dbg_nextWrite k b = Ok x → e ≤ x
  | PRECHARGE | PRECHARGE_ALL => e ≤ nextPrecharge b
  | _ => False
  end.

Lemma group_next_inv f d k b x :
  group_next f d k b = Ok x →
  ∃ y, bankgroupNum b ≠ 0 ∧ f b !! Z.to_nat (k mod bankgroupNum b) = Some y ∧ x = MAX y (d b).
Proof using.
  unfold group_next, group_of, elem_at. intros Hr. destruct (Z.eqb_spec (bankgroupNum b) 0); [done|].
  cbn [mbind res_bind] in Hr. rnext Hr. injection Hr as <-. exists v. split; [done|]. split; [|done].
  by destruct (f b !! _); simplify_eq/=.
Qed.

Lemma group_next_ahead f d k b b' x' :
  bankgroupNum b' = bankgroupNum b → Forall2 Z.le (f b) (f b') → d b ≤ d b' →
  group_next f d k b' = Ok x' → ∃ x, group_next f d k b = Ok x ∧ x ≤ x'.
Proof using.
  intros Eg Hf Hd (y' & Hne & Hy' & ->)%group_next_inv. rewrite Eg in Hne, Hy'.
  destruct (Forall2_lookup_r _ _ _ _ _ Hf Hy') as (y & Hy & Hle). exists (MAX y (d b)).
  unfold group_next, group_of, elem_at. rewrite (proj2 (Z.eqb_neq _ _)) by done. cbn [mbind res_bind]. rewrite Hy.
  split; [done|]. rewrite !MAX_max. lia.
Qed.

Lemma rank_not_before_ahead e c k b b' : ahead b b' → not_before e c k b → not_before e c k b'.
Proof using.
  intros (_ & Eg & Hr & Hw & Ha & Dr & Dw & Da & Hp) Hn. unfold not_before in *.
  destruct c; try done; try lia; intros x' Hx';
    (eapply group_next_ahead in Hx' as (x & Hx & Hle); [|done..]; specialize (Hn x Hx); lia).
Qed.

Lemma rank_not_before_gate e c k b n r :
  type r = c → bank_of r = k → not_before e c k b → rank_gate b n r → e ≤ n.
Proof using.
  intros <- <-. unfold not_before, rank_gate. destruct (type r); try done; try lia;
    try (intros Hn (x & Hx & Hle); specialize (Hn x Hx); lia).
  intros Hn Hg. unfold may_activate in Hg. rnext Hg. specialize (Hn v E). destruct (Z.leb_spec v n); [lia|done].
Qed.

(** The cycles before which the rank refuses [c2], after [c1] with burst count
    [b] at cycle [n]; [same]: both go to the same bank group; [here]: [c1] was
    issued to this rank, not notified by another one. *)
Definition rank_min (here same : bool) (p : Params) (b n : Z) (c1 c2 : OpType) : list Z :=
  let within (l : list Z) := if same then l else [] in
  let last := burst_S p ⊗ (b ⊖ 1) in
  if here then
    match c1 with
    | ACTIVATE => if decide (c2 = ACTIVATE) then (n ⊕ tRRDR_S p) :: within [n ⊕ tRRDR_L p] else []
    | REFRESH => if decide (c2 = ACTIVATE) then [n ⊕ tRRDR_L p] else []
    | READ | READ_PRECHARGE =>
        if is_read c2 then (n ⊕ burst_S p ⊗ b) :: within [n ⊕ burst_L p]
        else if is_write c2 then (n ⊕ last ⊕ tCAS p ⊕ tBURST p ⊕ tRTRS p ⊖ tCWD p)
                                 :: within [n ⊕ tCAS p ⊕ tBURST p ⊕ tRTRS p ⊖ tCWD p] else []
    | WRITE | WRITE_PRECHARGE =>
        if is_read c2 then (n ⊕ last ⊕ tCWD p ⊕ tBURST p ⊕ tWTR_S p) :: within [n ⊕ tCWD p ⊕ tBURST p ⊕ tWTR_L p]
        else if is_write c2 then (n ⊕ burst_S p ⊗ b) :: within [n ⊕ burst_L p] else []
    | PRECHARGE | PRECHARGE_ALL => if is_pre c2 then [n ⊕ tPPD p] else []
    | _ => []
    end
  else
    match c1 with
    | READ | READ_PRECHARGE =>
        if is_read c2 then [n ⊕ tBURST p ⊕ tRTRS p]
        else if is_write c2 then [n ⊕ tCAS p ⊕ tBURST p ⊕ tRTRS p ⊖ tCWD p] else []
    | WRITE | WRITE_PRECHARGE =>
        if is_read c2 then [n ⊕ tBURST p ⊕ tCWD p ⊕ tRTRS p ⊖ tCAS p]
        else if is_write c2 then [n ⊕ tBURST p ⊕ tOST p] else []
    | _ => []
    end.

Lemma dbg_bound f d e k b : e ≤ d b → ∀ x, group_next f d k b = Ok x → e ≤ x.
Proof using. intros He x (y & _ & _ & ->)%group_next_inv. rewrite MAX_max. lia. Qed.

Lemma sbg_bound f d e g k b x0 :
  g = Z.to_nat (k mod bankgroupNum b) → f b !! g = Some x0 → e ≤ x0 → ∀ x, group_next f d k b = Ok x → e ≤ x.
Proof using. intros -> Hx0 He x (y & _ & Hy & ->)%group_next_inv. simplify_eq. rewrite MAX_max. lia. Qed.

(** What [access_times] sets. *)
Lemma access_times_bounds k a1 a2 a3 a4 s u s' k2 :
  access_times (C := C) k a1 a2 a3 a4 s = Ok (u, s') →
  let b := node (obj s') in
  (∀ x, group_next sbg_nextRead dbg_nextRead k2 b = Ok x →
     a3 ≤ x ∧ (k mod bankgroupNum b = k2 mod bankgroupNum b → a1 ≤ x)) ∧
  (∀ x, group_next sbg_nextWrite dbg_nextWrite k2 b = Ok x →
     a4 ≤ x ∧ (k mod bankgroupNum b = k2 mod bankgroupNum b → a2 ≤ x)).
Proof using.
  intros (_ & _ & Hr)%set_me_res_inv. cbv zeta. do 3 rnext Hr.
  unfold group_of in E. destruct (_ =? 0); [done|]. injection E as <-.
  apply bump_le in E0 as [_ (x0 & Hx0 & L0)], E1 as [_ (x1 & Hx1 & L1)].
  injection Hr as Hr. rewrite <- Hr. split; intros x Hx; split.
  - refine (dbg_bound _ _ _ _ _ _ x Hx). fields. apply MAX_r.
  - intros Eg. refine (sbg_bound _ _ _ (Z.to_nat (k mod bankgroupNum (node (obj s)))) _ _ x0 _ _ L0 x Hx); fields; [fields_in Eg; by rewrite Eg|done].
  - refine (dbg_bound _ _ _ _ _ _ x Hx). fields. apply MAX_r.
  - intros Eg. refine (sbg_bound _ _ _ (Z.to_nat (k mod bankgroupNum (node (obj s)))) _ _ x1 _ _ L1 x Hx); fields; [fields_in Eg; by rewrite Eg|done].
Qed.

(** Bounds of a list of cycles. *)
Definition bounded (l : list Z) (c : OpType) (k : Z) b : Prop := Forall (λ e, not_before e c k b) l.

Lemma bounded_ahead l c k b b' : ahead b b' → bounded l c k b → bounded l c k b'.
Proof using. intros Ha Hl. eapply Forall_impl; [exact Hl|]. intros e. by apply rank_not_before_ahead. Qed.

Definition same_group b (k k2 : Z) : bool := k mod bankgroupNum b =? k2 mod bankgroupNum b.

Lemma access_bounded p n bc c1 c2 k k2 a1 a2 a3 a4 s u s' :
  access_times (C := C) k a1 a2 a3 a4 s = Ok (u, s') →
  (is_read c2 = true → ∀ e, e ∈ rank_min true (same_group (node (obj s')) k k2) p bc n c1 c2 →
     e = a3 ∨ e = a1 ∧ same_group (node (obj s')) k k2 = true) →
  (is_write c2 = true → ∀ e, e ∈ rank_min true (same_group (node (obj s')) k k2) p bc n c1 c2 →
     e = a4 ∨ e = a2 ∧ same_group (node (obj s')) k k2 = true) →
  is_read c2 || is_write c2 = true →
  bounded (rank_min true (same_group (node (obj s')) k k2) p bc n c1 c2) c2 k2 (node (obj s')).
Proof using.
  intros Hr Hrd Hwr Hc. destruct (access_times_bounds _ _ _ _ _ _ _ _ k2 Hr) as [B1 B2].
  apply Forall_forall. intros e He. unfold same_group in *. unfold not_before.
  destruct c2; try discriminate Hc; intros x Hx; cbn in Hrd, Hwr;
    first [ specialize (Hrd eq_refl e He); destruct (B1 x Hx) as [D S] | specialize (Hwr eq_refl e He); destruct (B2 x Hx) as [D S] ];
    first [ destruct Hrd as [->|[-> Eg]] | destruct Hwr as [->|[-> Eg]] ]; try done; apply S; by apply Z.eqb_eq.
Qed.

Lemma same_group_ahead b b' k k2 : ahead b b' → same_group b' k k2 = same_group b k k2.
Proof using. intros (_ & Eg & _). unfold same_group. by rewrite Eg. Qed.

(** The rest of an operation only moves times forward. *)
Ltac rest_ahead H Ha :=
  match type of H with ?m ?y = Ok (_, ?z) =>
    assert (ahead (node (obj y)) (node (obj z))) as Ha;
      [let P := fresh in assert (pres (on_node ahead) m) as P by ahead_tac; exact (P _ _ _ H)|] end.

Ltac in_list H := cbn in H; repeat case_match; rewrite ?elem_of_cons, ?elem_of_nil in H; naive_solver.

Lemma Read_bounded q s s' r k2 c2 :
  h_reqs (heap s) !! q = Some r → (q < h_next (heap s))%positive → is_read (type r) = true →
  is_read c2 || is_write c2 = true → Read q s = Ok (true, s') →
  bounded (rank_min true (same_group (node (obj s')) (bank_of r) k2) (params (node (obj s))) (burstCount r)
    (currentCycle (queue s)) (type r) c2) c2 k2 (node (obj s')).
Proof.
  intros Hq Hlt Ht Hc Hr. unfold Rank.Read in Hr. load Hr. rewrite Hq in E. injection E as <-.
  unfold me, now in Hr. autorewrite with run in Hr. cbv zeta in Hr. destruct (_ >=? _); [done|].
  next Hr. apply lift_inv in E as [E ->].
  destruct (_ >? _); [done|]. next Hr. destruct (to_child_keeps out q _ _ _ _ E0 Hlt) as [_ K].
  destruct (K r Hq) as (r' & Hq' & Et & Eb & _). load Hr. rewrite Hq' in E1. injection E1 as <-.
  next Hr. rewrite Et, Eb in *. rest_ahead Hr Ha. rewrite (same_group_ahead _ _ _ _ Ha).
  eapply bounded_ahead; [exact Ha|]. eapply access_bounded; [exact E1| | |exact Hc].
  - intros Hc2 e He. destruct (type r); try discriminate Ht; destruct c2; try discriminate Hc2; in_list He.
  - intros Hc2 e He. destruct (type r); try discriminate Ht; destruct c2; try discriminate Hc2; in_list He.
Qed.

Lemma Write_bounded q s s' r k2 c2 :
  h_reqs (heap s) !! q = Some r → (q < h_next (heap s))%positive → is_write (type r) = true →
  is_read c2 || is_write c2 = true → Write q s = Ok (true, s') →
  bounded (rank_min true (same_group (node (obj s')) (bank_of r) k2) (params (node (obj s))) (burstCount r)
    (currentCycle (queue s)) (type r) c2) c2 k2 (node (obj s')).
Proof.
  intros Hq Hlt Ht Hc Hr. unfold Rank.Write in Hr. load Hr. rewrite Hq in E. injection E as <-.
  unfold me, now in Hr. autorewrite with run in Hr. cbv zeta in Hr. destruct (_ >=? _); [done|].
  next Hr. apply lift_inv in E as [E ->].
  destruct (_ >? _); [done|]. next Hr. destruct (to_child_keeps out q _ _ _ _ E0 Hlt) as [_ K].
  destruct (K r Hq) as (r' & Hq' & Et & Eb & _). load Hr. rewrite Hq' in E1. injection E1 as <-.
  next Hr. rewrite Et, Eb in *. rest_ahead Hr Ha. rewrite (same_group_ahead _ _ _ _ Ha).
  eapply bounded_ahead; [exact Ha|]. eapply access_bounded; [exact E1| | |exact Hc].
  - intros Hc2 e He. destruct (type r); try discriminate Ht; destruct c2; try discriminate Hc2; in_list He.
  - intros Hc2 e He. destruct (type r); try discriminate Ht; destruct c2; try discriminate Hc2; in_list He.
Qed.

Lemma Activate_bounded q s s' r k2 bc :
  h_reqs (heap s) !! q = Some r → may_activate (bank_of r) (currentCycle (queue s)) (node (obj s)) = Ok true →
  Activate q s = Ok (true, s') →
  bounded (rank_min true (same_group (node (obj s')) (bank_of r) k2) (params (node (obj s))) bc
    (currentCycle (queue s)) ACTIVATE ACTIVATE) ACTIVATE k2 (node (obj s')).
Proof.
  intros Hq Hm Hr. unfold Rank.Activate in Hr. load Hr. rewrite Hq in E. injection E as <-.
  unfold me, now in Hr. autorewrite with run in Hr. cbv zeta in Hr. destruct (_ >=? _); [done|].
  rewrite Hm in Hr. autorewrite with run in Hr. next Hr. apply rank_ahead_to_child in E as (Ep & _).
  unfold set_me in Hr. autorewrite with run in Hr. next Hr.
  apply set_me_res_inv in E as (_ & _ & Hp). apply push_raw_ahead in Hp as (Ep' & _).
  assert (params (node (obj x0)) = params (node (obj s))) as Epp.
  { rewrite Ep'. fields. case_decide; fields; exact Ep. }
  next Hr. injection Hr as <-. apply set_me_res_inv in E as (_ & _ & Hr). do 2 rnext Hr.
  unfold group_of in E. destruct (_ =? 0); [done|]. injection E as <-. apply bump_le in E0 as [_ (y & Hy & Ly)].
  injection Hr as Hr. rewrite <- Hr, <- Epp. unfold rank_min. rewrite decide_True by done.
  assert (∀ e, e = currentCycle (queue s) ⊕ tRRDR_S (params (node (obj x0))) ∨
    (e = currentCycle (queue s) ⊕ tRRDR_L (params (node (obj x0))) ∧
     same_group (node (obj x0)) (bank_of r) k2 = true) → not_before e ACTIVATE k2 (node (obj x1))) as Hb.
  { intros e [->|[-> Eg]] z Hz; rewrite <- Hr in Hz.
    - refine (dbg_bound _ _ _ _ _ _ z Hz). fields. apply MAX_r.
    - refine (sbg_bound _ _ _ (Z.to_nat (bank_of r mod bankgroupNum (node (obj x0)))) _ _ y _ _ Ly z Hz); fields; [|done].
      unfold same_group in Eg. apply Z.eqb_eq in Eg. by rewrite Eg. }
  rewrite Hr. apply Forall_cons. split; [apply Hb; by left|].
  rewrite <- Hr. assert (∀ k, same_group (node (obj x1)) (bank_of r) k = same_group (node (obj x0)) (bank_of r) k) as Hsg.
  { intros k. rewrite <- Hr. unfold same_group. by fields. }
  rewrite Hr, Hsg. destruct (same_group (node (obj x0)) (bank_of r) k2) eqn:Eg; [|constructor].
  apply Forall_cons. split; [|constructor]. apply Hb. by right.
Qed.

Lemma Precharge_bounded q s s' k2 c2 :
  is_pre c2 = true → Precharge q s = Ok (true, s') →
  not_before (currentCycle (queue s) ⊕ tPPD (params (node (obj s)))) c2 k2 (node (obj s')).
Proof.
  intros Hc Hr. unfold Rank.Precharge in Hr. load Hr. unfold me, now in Hr. autorewrite with run in Hr.
  destruct (_ >=? _); [done|]. next Hr. apply rank_ahead_to_child in E0 as A0. next Hr.
  match type of E1 with ?m _ = _ => assert (pres (on_node ahead) m) as P1 by (unfold Idle; ahead_tac); apply P1 in E1 end.
  next Hr. match type of E2 with ?m _ = _ => assert (pres (on_node ahead) m) as P2 by ahead_tac; apply P2 in E2 end.
  unfold set_me in Hr. autorewrite with run in Hr. injection Hr as -> <-.
  assert (params (node (obj x1)) = params (node (obj s))) as Ep.
  { destruct A0 as (A0 & _), E1 as (E1 & _), E2 as (E2 & _). congruence. }
  unfold not_before. fields. rewrite Ep. destruct c2; try done; apply MAX_r.
Qed.

Lemma Refresh_bounded q s s' k2 :
  Refresh q s = Ok (true, s') →
  not_before (currentCycle (queue s) ⊕ tRRDR_L (params (node (obj s)))) ACTIVATE k2 (node (obj s')).
Proof.
  intros Hr. unfold Rank.Refresh in Hr. load Hr. unfold me, now in Hr. autorewrite with run in Hr. cbv zeta in Hr.
  next Hr. apply lift_inv in E0 as [E0 ->].
  next Hr. apply ahead_refresh_banks in E1 as (P1 & _). unfold set_me in Hr. autorewrite with run in Hr.
  load Hr. next Hr. match type of E2 with ?m _ = _ => assert (pres (on_node ahead) m) as P2 by ahead_tac; apply P2 in E2 end.
  autorewrite with run in Hr. next Hr. apply quiet_InsertEvent_obj in E3.
  next Hr. match type of E4 with ?m _ = _ => assert (pres (on_node ahead) m) as P4 by ahead_tac; apply P4 in E4 end.
  autorewrite with run in Hr. next Hr. injection Hr as <-. apply set_me_res_inv in E5 as (_ & _ & Hp).
  apply push_raw_ahead in Hp. eapply rank_not_before_ahead; [exact Hp|]. intros z Hz.
  refine (dbg_bound _ _ _ _ _ _ z Hz). fields.
  assert (params (node (obj x2)) = params (node (obj s))) as ->.
  { destruct E4 as (-> & _). rewrite E3. destruct E2 as (-> & _). fields. exact P1. }
  apply MAX_r.
Qed.

Lemma Notify_bounded q s s' r k2 c2 same bc :
  h_reqs (heap s) !! q = Some r → Notify q s = Ok ((), s') →
  bounded (rank_min false same (params (node (obj s))) bc (currentCycle (queue s)) (type r) c2) c2 k2 (node (obj s')).
Proof using.
  intros Hq Hr. unfold Notify in Hr. load Hr. rewrite Hq in E. injection E as <-. unfold me, now in Hr.
  autorewrite with run in Hr. cbv zeta in Hr. unfold rank_min. apply Forall_forall.
  assert (∀ nr nw, set_me_res (C := C) (bump_all nr nw) s = Ok ((), s') →
    nr ≤ dbg_nextRead (node (obj s')) ∧ nw ≤ dbg_nextWrite (node (obj s'))) as Hb.
  { intros nr nw (_ & _ & Hb)%set_me_res_inv. unfold bump_all in Hb. rnext Hb. injection Hb as Hb. rewrite <- Hb. fields.
    split; apply MAX_r. }
  destruct (type r); try (intros e He; by apply elem_of_nil in He); apply Hb in Hr as [B1 B2];
    intros e He; destruct c2; cbn in He; rewrite ?elem_of_cons, ?elem_of_nil in He; try done; destruct He as [->|[]];
    unfold not_before; by apply dbg_bound.
Qed.

Lemma IssueCommand_bounded q s s' r k2 c2 :
  h_reqs (heap s) !! q = Some r → (q < h_next (heap s))%positive → IssueCommand q s = Ok (true, s') →
  bounded (rank_min true (same_group (node (obj s')) (bank_of r) k2) (params (node (obj s))) (burstCount r)
    (currentCycle (queue s)) (type r) c2) c2 k2 (node (obj s')).
Proof.
  intros Hq Hlt Hr. destruct (rank_IssueCommand_inv _ _ _ _ _ _ Hr) as (s1 & Eh & Eq & Ec & [[? _]|(r' & Hq' & Hg & Hop)]); [done|].
  rewrite Hq in Hq'. injection Hq' as <-. rewrite <- Eh in Hq, Hlt. rewrite <- Eq.
  rewrite <- (rank_core_eq params _ _ ltac:(done) Ec). clear Eh Eq Ec Hr. apply Forall_forall. intros e He.
  pose proof He as He'. destruct (type r) eqn:Et; cbn [operation] in Hop; unfold rank_gate in Hg; rewrite Et in Hg;
    try (by apply elem_of_nil in He).
  - destruct (decide (c2 = ACTIVATE)) as [->|Hne]; [|unfold rank_min in He; rewrite decide_False in He by done; by apply elem_of_nil in He].
    pose proof (Activate_bounded _ _ _ _ k2 (burstCount r) Hq Hg Hop) as Hb.
    unfold bounded in Hb. rewrite Forall_forall in Hb. by apply Hb.
  - destruct (is_read c2 || is_write c2) eqn:Ecc; [|destruct c2; try discriminate Ecc; by apply elem_of_nil in He].
    pose proof (Read_bounded _ _ _ _ k2 c2 Hq Hlt ltac:(by rewrite Et) Ecc Hop) as Hb. rewrite Et in Hb.
    unfold bounded in Hb. rewrite Forall_forall in Hb. by apply Hb.
  - destruct (is_read c2 || is_write c2) eqn:Ecc; [|destruct c2; try discriminate Ecc; by apply elem_of_nil in He].
    pose proof (Read_bounded _ _ _ _ k2 c2 Hq Hlt ltac:(by rewrite Et) Ecc Hop) as Hb. rewrite Et in Hb.
    unfold bounded in Hb. rewrite Forall_forall in Hb. by apply Hb.
  - destruct (is_read c2 || is_write c2) eqn:Ecc; [|destruct c2; try discriminate Ecc; by apply elem_of_nil in He].
    pose proof (Write_bounded _ _ _ _ k2 c2 Hq Hlt ltac:(by rewrite Et) Ecc Hop) as Hb. rewrite Et in Hb.
    unfold bounded in Hb. rewrite Forall_forall in Hb. by apply Hb.
  - destruct (is_read c2 || is_write c2) eqn:Ecc; [|destruct c2; try discriminate Ecc; by apply elem_of_nil in He].
    pose proof (Write_bounded _ _ _ _ k2 c2 Hq Hlt ltac:(by rewrite Et) Ecc Hop) as Hb. rewrite Et in Hb.
    unfold bounded in Hb. rewrite Forall_forall in Hb. by apply Hb.
  - destruct (is_pre c2) eqn:Ecc; [|destruct c2; try discriminate Ecc; by apply elem_of_nil in He].
    unfold rank_min in He. rewrite Ecc in He. apply list_elem_of_singleton in He as ->. by eapply Precharge_bounded.
  - destruct (is_pre c2) eqn:Ecc; [|destruct c2; try discriminate Ecc; by apply elem_of_nil in He].
    unfold rank_min in He. rewrite Ecc in He. apply list_elem_of_singleton in He as ->. by eapply Precharge_bounded.
  - unfold rank_min in He. destruct (decide (c2 = ACTIVATE)) as [->|Hne]; [|by apply elem_of_nil in He].
    apply list_elem_of_singleton in He as ->. by eapply Refresh_bounded.
Qed.

(** The command [q1] was issued to this rank, or another rank's was notified. *)
Definition happened (here : bool) (q1 : ReqPtr) s s' : Prop :=
  if here then IssueCommand q1 s = Ok (true, s') else Notify q1 s = Ok ((), s').

(** Any steps of the rank. *)
Definition rank_steps : Sim (Node StandardRank C) → Sim (Node StandardRank C) → Prop := rtc (λ s s', ∃ l, rank_step l s s').

Lemma rank_steps_ahead s s' :
  (∀ q, quiet (parent_RequestComplete q)) → rank_steps s s' → ahead (node (obj s)) (node (obj s')).
Proof.
  intros Hp. induction 1 as [s|s1 s2 s3 [l H1] _ IH]; [reflexivity|]. etransitivity; [|exact IH].
  by eapply rank_step_ahead.
Qed.

(** A time the rank keeps now, it keeps later. *)
Lemma rank_kept_later s1 s2 q2 r2 w s3 e :
  (∀ q, quiet (parent_RequestComplete q)) → rank_steps s1 s2 → h_reqs (heap s2) !! q2 = Some r2 →
  IsIssuable q2 s2 = Ok ((true, w), s3) → not_before e (type r2) (bank_of r2) (node (obj s1)) →
  e ≤ currentCycle (queue s2).
Proof.
  intros Hp Hs Hq2 H2 He.
  destruct (rank_IsIssuable_gate _ _ _ _ _ H2) as (r & Hr & Hg). rewrite Hq2 in Hr. injection Hr as <-.
  apply (rank_steps_ahead _ _ Hp) in Hs. refine (rank_not_before_gate _ _ _ _ _ _ eq_refl eq_refl _ Hg).
  by eapply rank_not_before_ahead.
Qed.

Lemma rank_timing_table here q1 r1 s0 s1 s2 q2 r2 w s3 e :
  (∀ q, quiet (parent_RequestComplete q)) →
  h_reqs (heap s0) !! q1 = Some r1 → (q1 < h_next (heap s0))%positive → happened here q1 s0 s1 →
  rank_steps s1 s2 → h_reqs (heap s2) !! q2 = Some r2 → IsIssuable q2 s2 = Ok ((true, w), s3) →
  e ∈ rank_min here (same_group (node (obj s1)) (bank_of r1) (bank_of r2)) (params (node (obj s0)))
    (burstCount r1) (currentCycle (queue s0)) (type r1) (type r2) → e ≤ currentCycle (queue s2).
Proof.
  intros Hp Hq1 Hlt H1 Hs Hq2 H2 He.
  eapply rank_kept_later; [done..|]. unfold happened in H1. destruct here.
  - pose proof (IssueCommand_bounded _ _ _ _ (bank_of r2) (type r2) Hq1 Hlt H1) as Hb.
    unfold bounded in Hb. rewrite Forall_forall in Hb. by apply Hb.
  - pose proof (Notify_bounded _ _ _ _ (bank_of r2) (type r2)
      (same_group (node (obj s1)) (bank_of r1) (bank_of r2)) (burstCount r1) Hq1 H1) as Hb.
    unfold bounded in Hb. rewrite Forall_forall in Hb. by apply Hb.
Qed.
End Access.
