(* ===== verification/RankOfBanks.v ===== *)
(** * A rank of banks

    What happens at a rank is, for each of its banks, a run of that bank, so the
    guarantees of the bank hold below the rank. With the properties of the rank
    and a small rank of two banks with two subarrays each for the examples. *)

From S2P Require Import Prelude NVMTypes Translation Config Params SimInterface Heap EventQueue Frame SubArray.
From S2P Require Import SubArrayTiming SubArrayProtocol Tree DDR3Bank SubArrayChild DDR3BankProtocol DDR3BankTiming.
From S2P Require Import DDR3BankChildren BankChild StandardRank StandardRankTiming StandardRankAccess.
Import Rank.

(** ** The children of a rank *)

Section Runs.
Context {C : Type} `{ChildLaws C}.
Variable this : ObjPtr.
Variable out : six.
Variable parent_RequestComplete : ReqPtr → ST (Sim (Node StandardRank C)) bool.
Variable own : Sim C → Sim C → Prop.
Implicit Types (s : Sim (Node StandardRank C)).

#[local] Abbreviation children_run := (children_run own).

Lemma run_set_me_res f : pres children_run (set_me_res (C := C) f).
Proof.
  unfold set_me_res. apply pres_bind; [apply _|apply run_me|intros b].
  apply pres_bind; [apply _|apply (pres_lift children_run)|intros b']. apply run_set_me.
Qed.
#[local] Hint Resolve run_set_me_res : pres.

Ltac run_tac := pres_tac.

Lemma run_all_issuable q l : pres children_run (all_issuable (C := C) q l).
Proof. induction l; cbn [all_issuable]; run_tac. Qed.
Lemma run_count_issuable q l : ∀ k, pres children_run (count_issuable (C := C) q l k).
Proof. induction l; intros k; cbn [count_issuable]; run_tac. Qed.
Lemma run_ask_group q l : ∀ ans, pres children_run (ask_group (C := C) q l ans).
Proof. induction l; intros ans; cbn [ask_group]; run_tac. Qed.
Lemma run_idle_loop l : pres children_run (idle_loop (C := C) l).
Proof. induction l; cbn [idle_loop]; run_tac. Qed.
Lemma run_issue_all q l : pres children_run (issue_all (C := C) q l).
Proof. induction l; cbn [issue_all]; run_tac. Qed.
Lemma run_refresh_banks q l : pres children_run (refresh_banks (C := C) q l).
Proof. induction l; cbn [refresh_banks]; run_tac. Qed.
Lemma run_cycle_all n l : pres children_run (cycle_all (C := C) n l).
Proof. induction l; cbn [cycle_all]; run_tac. Qed.
#[local] Hint Resolve run_all_issuable run_count_issuable run_ask_group run_idle_loop run_issue_all run_refresh_banks
  run_cycle_all : pres.
Lemma rank_run_IsIssuable q : pres children_run (IsIssuable (C := C) out q).
Proof. unfold IsIssuable, CanPowerDown, CanPowerUp, children, ask_after. run_tac. Qed.
#[local] Hint Resolve rank_run_IsIssuable : pres.
Lemma run_access_times k a1 a2 a3 a4 : pres children_run (access_times (C := C) k a1 a2 a3 a4).
Proof. apply run_set_me_res. Qed.
#[local] Hint Resolve run_access_times : pres.
Lemma rank_run_IssueCommand q : pres children_run (IssueCommand (C := C) this out q).
Proof.
  unfold IssueCommand, Activate, Read, Write, Precharge, Refresh, PowerDown, PowerUp, Idle, children, close_event,
    insert_response. run_tac.
Qed.

Lemma rank_step_children l s s' :
  (∀ q, quiet (parent_RequestComplete q)) → rank_step this out parent_RequestComplete own l s s' → children_run s s'.
Proof.
  intros Hp. destruct 1 as [s q r ok s' Hq Hr|s q a s' Hr|s q s' Hr|s q ok s' Hr|s n s' Hr|s i c sc Hc Ho|s s' Ho].
  - by eapply rank_run_IssueCommand.
  - by eapply rank_run_IsIssuable.
  - revert Hr. match goal with |- ?m _ = _ → _ => assert (pres children_run m) as P by (unfold Notify; run_tac) end. apply P.
  - revert Hr. match goal with |- ?m _ = _ → _ =>
      assert (pres children_run m) as P by (unfold RequestComplete, Idle; run_tac) end. apply P.
  - revert Hr. match goal with |- ?m _ = _ → _ => assert (pres children_run m) as P by (unfold Cycle, children; run_tac) end. apply P.
  - eapply run_child_acts; [done|]. by apply child_own.
  - by apply objrel_obj.
Qed.

Lemma rank_steps_children s s' :
  (∀ q, quiet (parent_RequestComplete q)) → rank_steps this out parent_RequestComplete own s s' → children_run s s'.
Proof.
  intros Hp. induction 1 as [s|s1 s2 s3 [l H1] _ IH]; [by apply objrel_obj|]. etransitivity; [|exact IH].
  by eapply rank_step_children.
Qed.
End Runs.

Section Banks.
Context {C : Type} `{ChildLaws C}.
Variable this : ObjPtr.
Variable out out_bank : six.
Variable own : Sim C → Sim C → Prop.

#[local] Instance ops : ChildOps (Child (DDR3.Bank C)) := Bank_child out_bank.
#[local] Instance laws : ChildLaws (Child (DDR3.Bank C)) := Bank_laws out_bank.

(** What the event queue makes a bank do: its subarrays act. *)
Definition bank_acts (s s' : Sim (Child (DDR3.Bank C))) : Prop :=
  c_this (obj s') = c_this (obj s) ∧ bank_step (c_this (obj s)) out_bank own (inner s) (inner s').

Lemma child_step_bank s s' :
  child_step bank_acts s s' →
  bank_step (c_this (obj s)) out_bank own (inner s) (inner s') ∧ c_this (obj s') = c_this (obj s).
Proof.
  intros [sc q b sc' Hr|sc q a sc' Hr|sc a sc' Hr|sc n sc' Hr|sc sc' [Ht Hb]|sc sc' Eo].
  - apply (at_child_inv (λ this, DDR3.IssueCommand this out_bank q)) in Hr as [Hr Ht].
    split; [by eapply bank_issue|done].
  - apply (at_child_inv (λ _, DDR3.IsIssuable out_bank q)) in Hr as [Hr Ht]. split; [by eapply bank_query|done].
  - apply cl_Idle in Hr as ->. split; [by apply bank_env|done].
  - apply (at_child_inv (λ _, DDR3.Cycle n)) in Hr as [Hr Ht]. split; [by eapply bank_cycle|done].
  - by split.
  - split; [|by rewrite Eo]. apply bank_env. unfold inner. cbn. by rewrite Eo.
Qed.

Lemma child_steps_bank s s' :
  rtc (child_step bank_acts) s s' →
  rtc (bank_step (c_this (obj s)) out_bank own) (inner s) (inner s') ∧ c_this (obj s') = c_this (obj s).
Proof.
  induction 1 as [s|s1 s2 s3 H1 _ [IH1 IH2]]; [done|]. apply child_step_bank in H1 as [H1 E1].
  rewrite E1 in IH1, IH2. split; [by eapply rtc_l|done].
Qed.
End Banks.

(** C22. Activation window: in any run of a rank from its configured state, the
    [RAW] + 1 activations (or refreshes) around any point span at least [tRAW]
    cycles: activation [i] comes [tRAW] cycles or more after the one [RAW]
    before it, whatever else happens. *)
Theorem activation_window {C} `{ChildLaws C} this out parent own (s0 s : Sim (Node StandardRank C)) h :
  (∀ q, quiet (parent q)) → ring_of (node (obj s0)) [] → rank_run this out parent own s0 h s →
  window (Z.to_nat (rawNum (node (obj s0)))) (tRAW (params (node (obj s0)))) h.
Proof. intros Hp Hr Hs. by destruct (run_window this out parent own s0 h s Hp Hr Hs) as (_ & _ & _ & Hw). Qed.


(** A rank only makes its banks do what banks do: any run of the rank is, for
    each of its banks, a run of that bank, of commands, questions, cycles and
    the acts of its subarrays. *)
Theorem rank_runs_banks {C} `{ChildLaws C} this out out_bank parent own
    (s s' : Sim (Node StandardRank (Child (DDR3.Bank C)))) i c :
  (∀ q, quiet (parent q)) →
  rank_steps (H := Bank_child out_bank) this out parent (bank_acts out_bank own) s s' →
  kids (obj s) !! i = Some c →
  ∃ c', kids (obj s') !! i = Some c' ∧ c_this c' = c_this c ∧
    rtc (bank_step (c_this c) out_bank own) (inner (seen s c)) (inner (seen s' c')).
Proof.
  intros Hp Hs Hc.
  destruct (rank_steps_children (H := Bank_child out_bank) this out parent _ _ _ Hp Hs) as [_ Hch].
  destruct (Hch i c Hc) as (c' & Hc' & Hrun). apply child_steps_bank in Hrun as [Hrun E]. by exists c'.
Qed.

(** ** A rank of two banks *)

Module RankBench.
Definition B : Type := Child (DDR3.Bank BankBench.C).
#[global] Instance ops : ChildOps B := Bank_child BankBench.out0.
#[global] Instance laws : ChildLaws B := Bank_laws BankBench.out0.

(** Two bank groups, a window of two activations in 20 cycles. *)
Definition p0 : Params := (Params_new 2 0 0) <| RAW := 2 |> <| BANKS := 2 |>.
Definition rank0 : Node StandardRank B := mkNode
  ((StandardRank_new p0 (AddressTranslator_new <| defaultField := BANK_FIELD |>) (replicate 16 0) 0)
    <| bankCount := 2 |> <| bankgroupNum := 2 |> <| rawNum := 2 |> <| banksPerRefresh := 2 |>
    <| lastActivate := [0; 0] |>)
  [mkChild 5 BankBench.bank0; mkChild 6 BankBench.bank0]%positive.

Definition request (t : OpType) (bk sub rw : Z) : NVMainRequest :=
  (BankBench.request t sub rw) <| address ::= λ a, a <| NVMTypes.bank := bk |> |>.
(** The rank is object 8. *)
Definition tree : gmap positive NVMObject :=
  <[8%positive := mkNVMObject (Some (mkHook 9 9)) None [] [] [] [] NVMHOOK_NONE NVMHOOK_NONE]>
  (<[9%positive := mkNVMObject None None [mkHook 3 8] [] [] [] NVMHOOK_NONE NVMHOOK_NONE]> BankBench.tree).
Definition reqs : gmap positive NVMainRequest := {[
  10%positive := request ACTIVATE 0 0 7;
  11%positive := request ACTIVATE 1 0 7;
  12%positive := request READ 0 0 7;
  13%positive := request READ 1 0 7;
  14%positive := request ACTIVATE 0 1 7 ]}.
Definition start : Sim (Node StandardRank B) := mkSim (mkHeap tree reqs ∅ 30 None) (EventQueue_new dzero) rank0.
Lemma rank_start_wf : heap_wf (heap start).
Proof.
  intros x Hx. cbn in *. split; [|done]. unfold reqs.
  repeat (rewrite lookup_insert_ne by lia). apply lookup_singleton_ne. lia.
Qed.

Definition parent : ReqPtr → ST (Sim (Node StandardRank B)) bool := λ _, mret true.
Definition run (q : ReqPtr) (s : Sim (Node StandardRank B)) : Sim (Node StandardRank B) :=
  match IssueCommand 8 BankBench.out0 q s with Ok (_, s) => s | Err _ => s end.
Definition at_time (n : Z) (s : Sim (Node StandardRank B)) : Sim (Node StandardRank B) :=
  s <| queue ::= λ q, q <| currentCycle := n |> |>.
Lemma rank_at_time_obj n s : obj (at_time n s) = obj s.
Proof. reflexivity. Qed.
End RankBench.

Lemma rank_act {C} `{ChildOps C} this out parent own q r (s s' : Sim (Node StandardRank C)) n :
  h_reqs (heap s) !! q = Some r → IssueCommand this out q s = Ok (true, s') → is_act (type r) = true →
  currentCycle (queue s) = n → rank_step this out parent own (Some n) s s'.
Proof. intros Hq Hr Ht <-. pose proof (rank_issue this out parent own s q r true s' Hq Hr) as Hs. by rewrite Ht in Hs. Qed.

(** Three activations with a window of two: the third comes 20 cycles after the
    first. *)
Lemma activation_window_witness : 20 ⊕ 20 ≤ 40.
Proof.
  set (s1 := RankBench.run 10 (RankBench.at_time 20 RankBench.start)).
  set (s2 := RankBench.run 11 (RankBench.at_time 30 s1)).
  refine (activation_window 8 BankBench.out0 RankBench.parent (λ _ _, False) RankBench.start
    (RankBench.run 14 (RankBench.at_time 40 s2)) [40; 30; 20] _ _ _ 0%nat 40 20 eq_refl eq_refl).
  - intros q. apply quiet_ret.
  - unfold ring_of, is_u64. split_and!; [by vm_compute..|].
    intros k [Hk0 Hk]. assert (k < 2) as Hk2 by exact Hk. assert (k = 0 ∨ k = 1) as [->| ->] by lia; reflexivity.
  - assert (∀ n s h, rank_run 8 BankBench.out0 RankBench.parent (λ _ _, False) RankBench.start h s →
      rank_run 8 BankBench.out0 RankBench.parent (λ _ _, False) RankBench.start h (RankBench.at_time n s)) as Henv.
    { intros n s h Hr. refine (rank_next _ _ _ _ _ None h s _ Hr _). apply rank_env. apply RankBench.rank_at_time_obj. }
    refine (rank_next _ _ _ _ _ (Some 40) [30; 20] _ _ (Henv 40 s2 _ _) _).
    2: { refine (rank_act _ _ _ _ 14 (RankBench.request ACTIVATE 0 1 7) _ _ _ _ _ _ _); vm_compute; reflexivity. }
    refine (rank_next _ _ _ _ _ (Some 30) [20] _ _ (Henv 30 s1 _ _) _).
    2: { refine (rank_act _ _ _ _ 11 (RankBench.request ACTIVATE 1 0 7) _ _ _ _ _ _ _); vm_compute; reflexivity. }
    refine (rank_next _ _ _ _ _ (Some 20) [] _ _ (Henv 20 _ _ (rank_start _ _ _ _ _)) _).
    refine (rank_act _ _ _ _ 10 (RankBench.request ACTIVATE 0 0 7) _ _ _ _ _ _ _); vm_compute; reflexivity.
Defined.


Lemma rank_runs_banks_witness :
  ∃ c', kids (obj (RankBench.run 10 (RankBench.at_time 20 RankBench.start))) !! 0%nat = Some c' ∧ c_this c' = 5%positive ∧
    rtc (bank_step 5 BankBench.out0 (λ _ _, False)) (inner (seen (RankBench.at_time 20 RankBench.start) (mkChild 5 BankBench.bank0)))
      (inner (seen (RankBench.run 10 (RankBench.at_time 20 RankBench.start)) c')).
Proof.
  refine (rank_runs_banks 8 BankBench.out0 BankBench.out0 RankBench.parent (λ _ _, False)
    (RankBench.at_time 20 RankBench.start) (RankBench.run 10 (RankBench.at_time 20 RankBench.start)) 0
    (mkChild 5 BankBench.bank0) _ _ _).
  - intros q. apply quiet_ret.
  - apply rtc_once. exists (Some 20).
    refine (rank_act _ _ _ _ 10 (RankBench.request ACTIVATE 0 0 7) _ _ _ _ _ _ _); vm_compute; reflexivity.
  - vm_compute. reflexivity.
Defined.
