(* ===== verification/TimedSubArray.v ===== *)
(** * The subarray keeps times

    The promise of [Timed] for the subarray, from its timing table. *)

From S2P Require Import Prelude NVMTypes Translation Config Params SimInterface Heap EventQueue Frame SubArray.
From S2P Require Import SubArrayTiming SubArrayProtocol Tree SubArrayChild DDR3BankChildren Timed.

(** Its times are kept when writes are not paused and go through. *)

Section SubArray.
Context {E M : Type} `{DataEncoderOps E, EnduranceModelOps M, !DataEncoderLaws E}.
Variable norm : Z → Z → Z → Z.
Variable parent : ReqPtr → ST (Sim (SA.SubArray E M)) bool.
#[local] Abbreviation K := (Child (SA.SubArray E M)).
#[local] Instance sa_ops : ChildOps K := SubArray_child norm.
#[local] Instance sa_laws : ChildLaws K := SubArray_laws norm.
Implicit Types (c : K).

Definition strict c : bool :=
  negb (WritePausing (SA.params (c_obj c))) && match SA.writeMode (c_obj c) with SA.WRITE_THROUGH => true | _ => false end.

Lemma strict_inv c : strict c = true → WritePausing (SA.params (c_obj c)) = false ∧ SA.writeMode (c_obj c) = SA.WRITE_THROUGH.
Proof. unfold strict. intros [->%negb_true_iff Hm]%andb_prop. by destruct (SA.writeMode _). Qed.

Definition SubArray_timed : TimedOps K := {|
  tm_later c c' := same_conf (c_obj c) (c_obj c') ∧
    (WritePausing (SA.params (c_obj c)) = false → SubArrayTiming.ahead (c_obj c) (c_obj c'));
  tm_refuses e r c := WritePausing (SA.params (c_obj c)) = false ∧
    ∃ x, cmd_next (c_obj c) (type r) = Some x ∧ e ≤ x;
  tm_demands c r1 n r2 :=
    if strict c then
      match earliest (SA.params (c_obj c)) (SA.sa_decdelay (c_obj c)) (burstCount r1) n (SA.writeEnd (c_obj c))
              (type r1) (type r2) with
      | Some e => [u64 e]
      | None => []
      end
    else [];
  tm_acts := completes parent
|}.
Definition SubArray_ready : ReadyOps K := {| rd_ready q s := ∃ w, ch_IsIssuable q s = Ok ((true, w), s) |}.
#[local] Instance sa_timed : TimedOps K := SubArray_timed.
#[local] Instance sa_ready : ReadyOps K := SubArray_ready.

Lemma at_child_moves {A} (m : ObjPtr → ST (Sim (SA.SubArray E M)) A) :
  (∀ this, pres mono (m this)) → pres (moves (C := K)) (at_child m).
Proof. intros Hm s a s' [Hr _]%at_child_inv. exact (Hm _ _ _ _ Hr). Qed.

(** Asked with success, the subarray is unchanged. *)
Lemma sa_asked q (s : Sim K) w s' : ch_IsIssuable q s = Ok ((true, w), s') → s' = s.
Proof.
  intros Hr. apply (at_child_inv (λ _, SA.IsIssuable q)) in Hr as [Hr Ht]. apply IsIssuable_true in Hr as [Hr _].
  destruct s as [h k []], s' as [h' k' []]. unfold inner in Hr. cbn in *. by simplify_eq.
Qed.

Lemma sa_issue q r (s s' : Sim K) r2 e :
  heap_wf (heap s) → h_reqs (heap s) !! q = Some r → ch_IssueCommand q s = Ok (true, s') →
  e ∈ tm_demands (obj s') r (currentCycle (queue s)) r2 → tm_refuses e r2 (obj s').
Proof.
  intros Hh Hq Hr He. cbn in He. destruct (strict (obj s')) eqn:Es; [|by apply elem_of_nil in He].
  apply strict_inv in Es as [Hw Hm].
  destruct (earliest _ _ _ _ _ _ _) as [d|] eqn:Ed; [|by apply elem_of_nil in He].
  apply list_elem_of_singleton in He as ->.
  apply (at_child_inv (λ this, SA.IssueCommand this norm q)) in Hr as [Hr _].
  destruct (mono_IssueCommand _ parent _ _ _ _ _ Hr) as [(E1 & E2 & E3) _]. cbn in E1, E2, E3.
  rewrite E1 in Hw. rewrite E3 in Hm. rewrite E1, E2 in Ed. split; [by rewrite E1|].
  exact (IssueCommand_earliest _ _ q r (inner s) (inner s') _ d Hw Hm Hh Hq Hr Ed).
Qed.

(** An activation the subarray allows goes through, without write pausing. *)
Lemma activate_off this q (s : Sim (SA.SubArray E M)) b s' r :
  WritePausing (SA.params (obj s)) = false → h_reqs (heap s) !! q = Some r → type r = ACTIVATE →
  SA.blocked (obj s) (h_reqs (heap s)) (currentCycle (queue s)) r = Ok None →
  SA.Activate this q s = Ok (b, s') → b = true.
Proof.
  intros Hw Hq Ht Hb Hr. unfold SA.Activate in Hr. load Hr.
  rewrite (bind_ok _ _ _ _ _ (CheckWritePausing_off this s Hw)) in Hr. autorewrite with run in Hr. cbv zeta in Hr.
  unfold SA.blocked, SA.or_else in Hb. rewrite Ht in Hb.
  destruct (_ >? _); [done|]. destruct (UsePrecharge _ && _); [done|].
  revert Hr. match goal with |- ?m _ = _ → _ => assert (succeeds m) as Hm by (repeat first [apply succeeds_ret | apply succeeds_bind; intros ? | head_step]) end. apply Hm.
Qed.

Lemma SubArray_timed_laws : (∀ q, quiet (parent q)) → TimedLaws K.
Proof.
  intros Hp. split.
  - split; cbn; unfold same_conf, SubArrayTiming.ahead; [intros c; intuition lia|]. intros c1 c2 c3 [(E1 & E2 & E3) A1] [(F1 & F2 & F3) A2].
    split; [intuition congruence|]. intros Hw. specialize (A1 Hw). specialize (A2 ltac:(congruence)). lia.
  - intros e r c c' [(Ec & _) Ha] (Hw & x & Hx & Hle). destruct (cmd_next_mono _ _ _ _ (Ha Hw) Hx) as (x' & Hx' & Hle').
    split; [by rewrite Ec|]. exists x'. split; [done|lia].
  - intros q. apply at_child_moves. intros this. apply mono_IsIssuable.
  - intros q. apply at_child_moves. intros this. apply (mono_IssueCommand this parent).
  - intros q. apply at_child_moves. intros this. apply quiet_pres; [apply _|]. quiet_tac. apply quiet_gets.
  - intros n s a s' [= _ <-]. exact (objrel_obj (R := mono) (inner s) (inner s) eq_refl).
  - intros s s' (q & b & Hr). revert Hr. apply at_child_moves. intros this. by apply mono_RequestComplete.
  - intros q r s w s' e Hq Hr (_ & x & Hx & Hle). apply (at_child_inv (λ _, SA.IsIssuable q)) in Hr as [Hr _].
    apply IsIssuable_true in Hr as (_ & r' & Hq' & Hn). cbn in Hq', Hn. rewrite Hq in Hq'. injection Hq' as <-.
    specialize (Hn x Hx). lia.
  - intros q r s s' r2 e. apply sa_issue.
Qed.

Lemma SubArray_ready_laws : ReadyLaws K.
Proof.
  split.
  - intros q r s w s' _ _ Hr. pose proof (sa_asked _ _ _ _ Hr) as ->. by exists w.
  - intros q s a s' [w Hw] Hr. rewrite Hw in Hr. injection Hr as <- <-. by split; [|exists w].
  - intros q r s ok s' r2 e Hh Hq Ht [w Hw] Hr He. destruct ok; [by eapply sa_issue|]. exfalso.
    cbn in He. destruct (strict (obj s')) eqn:Es; [|by apply elem_of_nil in He].
    apply strict_inv in Es as [Es _].
    apply (at_child_inv (λ this, SA.IssueCommand this norm q)) in Hr as [Hr _].
    destruct (mono_IssueCommand _ parent _ _ _ _ _ Hr) as [(E1 & _ & _) _]. cbn in E1. rewrite E1 in Es.
    apply (at_child_inv (λ _, SA.IsIssuable q)) in Hw as [Hw _].
    unfold SA.IssueCommand in Hr. rewrite (bind_ok _ _ _ _ _ Hw) in Hr. cbn [negb] in Hr. load Hr.
    cbn in E0. rewrite Hq in E0. injection E0 as <-. rewrite Ht in Hr.
    destruct (IsIssuable_blocked _ _ _ _ Hw) as (_ & r' & Hq' & Hb). cbn in Hq'. rewrite Hq in Hq'. injection Hq' as <-.
    discriminate (activate_off _ _ (inner s) _ _ _ Es Hq Ht Hb Hr).
Qed.
End SubArray.
