(* ===== verification/TimedBank.v ===== *)
(** * The bank keeps times

    The promise of [Timed] for the bank, when its subarrays keep it: from the
    times of the bank, and from the subarray a command goes to. *)

From S2P Require Import Prelude NVMTypes Translation Config Params SimInterface Heap EventQueue Frame SubArray.
From S2P Require Import SubArrayTiming SubArrayProtocol Tree Timed DDR3Bank SubArrayChild DDR3BankProtocol DDR3BankTiming.
From S2P Require Import DDR3BankChildren BankChild RankOfBanks.
Import DDR3.

Section Bank.
Context {C : Type} `{ChildLaws C} `{TimedOps C, !TimedLaws C} `{ReadyOps C, !ReadyLaws C}.
Variable out : six.
#[local] Abbreviation K := (Child (Bank C)).
#[local] Instance bk_ops : ChildOps K := Bank_child out.
#[local] Instance bk_laws : ChildLaws K := Bank_laws out.
Implicit Types (c : K) (s : Sim (Bank C)).

(** What the bank itself asks for; after a power-up the time of a read depends
    on the state before. *)
Definition bank_after (p : Params) (b n : Z) (c1 c2 : OpType) : option Z :=
  match c1 with
  | POWERUP => if is_read c2 then None else bank_earliest p DDR3BANK_CLOSED b n c1 c2
  | _ => bank_earliest p DDR3BANK_CLOSED b n c1 c2
  end.
(** The command went to one subarray: an activation leaves it open. *)
Definition went_below c (r : NVMainRequest) : bool :=
  single (type r) && negb (bool_decide (type r = ACTIVATE) && bool_decide (activeSubArrayQueue (node (c_obj c)) = [])).

Definition Bank_timed : TimedOps K := {|
  tm_later c c' := ahead (node (c_obj c)) (node (c_obj c')) ∧ same_map (node (c_obj c)) (node (c_obj c')) ∧
    kids_later (c_obj c) (c_obj c');
  tm_refuses e r c := not_before e (type r) (node (c_obj c)) ∨ single (type r) = true ∧ below_refuses out e r (c_obj c);
  tm_demands c r1 n r2 :=
    option_list (bank_after (params (node (c_obj c))) (burstCount r1) n (type r1) (type r2)) ++
    (if went_below c r1 && single (type r2) then below_demands out (c_obj c) r1 n r2 else []);
  tm_acts := bank_acts out tm_acts
|}.
(** The bank allows the activation, and so does its subarray. *)
Definition bank_ready (q : ReqPtr) s : Prop :=
  gate (node (obj s)) (currentCycle (queue s)) ACTIVATE = true ∧ below_ready out q s.
Definition Bank_ready : ReadyOps K := {| rd_ready q (t : Sim K) := bank_ready q (inner t) |}.
#[local] Instance bk_timed : TimedOps K := Bank_timed.
#[local] Instance bk_ready : ReadyOps K := Bank_ready.

Lemma bank_moves {A} (m : ObjPtr → ST (Sim (Bank C)) A) :
  (∀ this, pres (on_node ahead) (m this)) → (∀ this, pres (on_node same_map) (m this)) →
  (∀ this, pres below_later (m this)) → pres (moves (C := K)) (at_child m).
Proof.
  intros Ha Hm Hk s a s' [Hr _]%at_child_inv. split_and!; [exact (Ha _ _ _ _ Hr)|exact (Hm _ _ _ _ Hr)|exact (Hk _ _ _ _ Hr)].
Qed.
Lemma below_runs {A} (m : ST (Sim (Bank C)) A) : pres (children_run tm_acts) m → pres below_later m.
Proof. intros Hm s a s' Hr%Hm. by apply run_below_later. Qed.

Lemma bank_step_map this own s s' : bank_step this out own s s' → on_node same_map s s'.
Proof.
  destruct 1 as [s q b s' Hr|s q a s' Hr|s n s' Hr|s i c sc Hc Ho|s s' Ho].
  - by eapply map_IssueCommand.
  - by eapply map_IsIssuable.
  - injection Hr as <-. unfold on_node, same_map. fields. by case_match; fields.
  - unfold on_node, child_acts. cbn [obj]. by fields.
  - unfold on_node. by rewrite Ho.
Qed.

Lemma bank_step_later this s s' : bank_step this out tm_acts s s' →
  on_node ahead s s' ∧ on_node same_map s s' ∧ below_later s s'.
Proof.
  intros Hs. split_and!; [by eapply steps_ahead, rtc_once|by eapply bank_step_map|].
  eapply run_below_later, steps_children. by apply rtc_once.
Qed.

Lemma bank_NextIssuable q : pres (on_node ahead) (NextIssuable (C := C) out q) ∧
  pres (on_node same_map) (NextIssuable (C := C) out q) ∧ pres below_later (NextIssuable (C := C) out q).
Proof.
  unfold NextIssuable. split_and!.
  - intros s z s' Hr. apply core_ahead. revert Hr. match goal with |- ?m _ = _ → _ => assert (asks same_core m) as P end.
    { asks_tac. all: by apply asks_set_me. }
    by intros (_ & _ & E)%P.
  - node_tac.
  - pres_tac. apply below_on_child, tl_NextIssuable.
Qed.

Lemma bank_after_earliest p b n (c1 c2 : OpType) d st : bank_after p b n c1 c2 = Some d → bank_earliest p st b n c1 c2 = Some d.
Proof. by destruct c1, c2. Qed.

(** A forwarded command makes the subarray refuse. *)
Lemma forwarded_refuses q r (s s' : Sim (Bank C)) r2 e :
  heap_wf (heap s) → h_reqs (heap s) !! q = Some r → forwarded out q s s' →
  e ∈ below_demands out (obj s') r (currentCycle (queue s)) r2 → below_refuses out e r2 (obj s').
Proof.
  intros Hh Hq (sx & sy & (X1 & X2 & _) & Hc & (_ & _ & Y3 & Y4)) He. rewrite <- X1 in Hh, Hq. rewrite <- X2 in He.
  eapply (below_issue out q r sx sy true); eauto.
Qed.

Lemma Bank_timed_laws : TimedLaws K.
Proof.
  split.
  - split.
    + intros c. split_and!; reflexivity.
    + intros c1 c2 c3 (A1 & A2 & A3) (B1 & B2 & B3). split_and!; by etransitivity.
  - intros e r c c' (Ha & Hm & Hk) [Hn|[Hs Hb]]; [left|right]; [by eapply not_before_ahead|].
    split; [done|]. by eapply below_refuses_later.
  - intros q. apply bank_moves; intros _; [apply ahead_IsIssuable|apply map_IsIssuable|apply below_runs, run_IsIssuable].
  - intros q. apply bank_moves; intros this; [apply ahead_IssueCommand|apply map_IssueCommand|apply below_runs, run_IssueCommand].
  - intros q. destruct (bank_NextIssuable q) as (A1 & A2 & A3). by apply bank_moves.
  - intros n. apply bank_moves; intros _; [apply ahead_Cycle| |apply below_runs, run_set_me].
    intros s [] s' Hr. by eapply (bank_step_map 1%positive tm_acts), bank_cycle.
  - intros s s' [_ Hs]. exact (bank_step_later _ _ _ Hs).
  - intros q r s w s' e Hq Hr [Hn|[Hs (i & c & Ht & Hc & Hb)]]; apply (at_child_inv (λ _, IsIssuable out q)) in Hr as [Hr _].
    + apply IsIssuable_gate in Hr as (r' & Hq' & Hg). cbn in Hq', Hg. rewrite Hq in Hq'. injection Hq' as <-.
      by eapply not_before_gate.
    + destruct (IsIssuable_child out _ (inner s) _ _ _ Hq Hs Hr) as (j & c' & sc & Ht' & Hc' & Ha).
      cbn in Ht', Hc'. rewrite Ht in Ht'. injection Ht' as <-. rewrite Hc in Hc'. injection Hc' as <-.
      exact (tl_gate q r (seen (inner s) c) w sc e Hq Ha Hb).
  - intros q r s s' r2 e Hh Hq Hr He. apply (at_child_inv (λ this, IssueCommand this out q)) in Hr as [Hr _].
    cbn [tm_demands bk_timed Bank_timed] in He. apply elem_of_app in He as [He|He].
    + destruct (bank_after _ _ _ _ _) as [d|] eqn:Ed; [|by apply elem_of_nil in He].
      apply list_elem_of_singleton in He as ->. left.
      pose proof (ahead_IssueCommand _ _ _ _ _ _ Hr) as (Ep & _). cbn in Ep. rewrite Ep in Ed.
      apply (bank_after_earliest _ _ _ _ _ _ (state (node (obj (inner s))))) in Ed.
      exact (IssueCommand_bound _ _ _ (inner s) _ _ _ _ Hq Hr Ed).
    + case_match eqn:Eg; [|by apply elem_of_nil in He]. apply andb_prop in Eg as [[Hs1 _]%andb_prop Hs2].
      right. split; [done|].
      destruct (IssueCommand_inv _ _ _ _ _ _ Hr) as (s1 & (Eh & Eq & _) & [[? _]|(r' & Hq' & _ & Hop)]); [done|].
      cbn in Eh, Eq, Hq'. rewrite Hq in Hq'. injection Hq' as <-.
      eapply (forwarded_refuses q r s1 (inner s')); rewrite ?Eh, ?Eq; [done..| |exact He].
      eapply operation_forwarded; [|exact Hs1|exact Hop]. by rewrite Eh.
Qed.

(** ** Activations without an answer *)

Lemma gate_core b b' n t : same_core b b' → gate b' n t = gate b n t.
Proof. intros E. by apply (core_eq (λ b, gate b n t)). Qed.

Lemma act_IsIssuable q r (s : Sim (Bank C)) a s' :
  h_reqs (heap s) !! q = Some r → type r = ACTIVATE → gate (node (obj s)) (currentCycle (queue s)) ACTIVATE = true →
  IsIssuable out q s = Ok (a, s') → ask_child out q s = Ok (a, s').
Proof.
  intros Hq Ht Hg Hr. unfold IsIssuable in Hr. load Hr. rewrite Hq in E. injection E as <-. rewrite Ht in Hr.
  unfold me, now in Hr. autorewrite with run in Hr. cbv zeta in Hr. unfold gate in Hg.
  apply andb_prop in Hg as [Hc [Hn Hp]%andb_prop]. rewrite Hc in Hr. cbn [negb] in Hr.
  apply negb_true_iff in Hp. rewrite Hp, orb_false_r in Hr.
  destruct (Z.gtb_spec (nextActivate (node (obj s))) (currentCycle (queue s))); [b2p; lia|done].
Qed.

Lemma ready_same q (s s' : Sim (Bank C)) : same_below s s' → below_ready out q s → below_ready out q s'.
Proof.
  intros (Eh & Eq & Ek & Em) (r & i & c & Hq & Ht & Hi & Hc & Hd). exists r, i, c.
  assert (seen s' c = seen s c) as Es by (unfold seen; congruence).
  rewrite Eh, Ek, Es, (target_map out _ _ _ Em). by split_and!.
Qed.

Lemma act_refuses q r (s : Sim (Bank C)) ok s' r2 e :
  heap_wf (heap s) → h_reqs (heap s) !! q = Some r → type r = ACTIVATE → bank_ready q s →
  Activate out q s = Ok (ok, s') → activeSubArrayQueue (node (obj s')) ≠ [] →
  e ∈ below_demands out (obj s') r (currentCycle (queue s)) r2 → below_refuses out e r2 (obj s').
Proof.
  intros Hh Hq Ht [Hg Hb] Hr Ha He. unfold Activate, me, now, set_me in Hr. autorewrite with run in Hr. cbv zeta in Hr.
  apply andb_prop in Hg as [_ [Hn Hp]%andb_prop].
  destruct (Z.gtb_spec (nextActivate (node (obj s))) (currentCycle (queue s))); [b2p; lia|].
  destruct (_ && bool_decide (activeSubArrayQueue _ = [])) eqn:Ee.
  { injection Hr as <- <-. b2p. done. }
  load Hr. rewrite Hq in E. injection E as <-.
  destruct (GetTranslatedAddress _) as [[[[[row col] bk] rk] ch] sub]. autorewrite with run in Hr.
  next Hr. match type of E with to_child _ _ ?x0 = _ => set (sx := x0) in * end.
  assert (same_below s sx) as Hsx by (unfold sx, same_below, same_map; by fields).
  assert (r0 = ok ∧ heap x = heap s' ∧ kids (obj s') = kids (obj x) ∧ same_map (node (obj x)) (node (obj s'))) as (-> & _ & Ek & Em).
  { destruct r0; autorewrite with run in Hr; injection Hr as <- <-; unfold same_map; by fields. }
  pose proof Hsx as (X1 & X2 & _). rewrite <- X2 in He. rewrite <- X1 in Hh, Hq.
  eapply (below_issue out q r sx x ok); eauto. by eapply below_ready_issue, ready_same.
Qed.

Lemma Bank_ready_laws : ReadyLaws K.
Proof.
  split.
  - intros q r s w s' Hq Ht Hr. change (h_reqs (heap (inner s)) !! q = Some r) in Hq. apply (at_child_inv (λ _, IsIssuable out q)) in Hr as [Hr _].
    pose proof (IsIssuable_gate _ _ _ _ _ Hr) as (r' & Hq' & Hg). rewrite Hq in Hq'. injection Hq' as <-. rewrite Ht in Hg.
    destruct (asks_IsIssuable _ _ _ _ _ Hr) as (Eh & Eq & Ec). split.
    + rewrite Eq. by rewrite (gate_core _ _ _ _ Ec).
    + refine (below_ask out q r (inner s) w (inner s') Hq Ht _). exact (act_IsIssuable _ _ _ _ _ Hq Ht Hg Hr).
  - intros q s a s' [Hg Hb] Hr. apply (at_child_inv (λ _, IsIssuable out q)) in Hr as [Hr _].
    destruct (asks_IsIssuable _ _ _ _ _ Hr) as (Eh & Eq & Ec). pose proof Hb as (r & i & c & Hq & Ht & _).
    destruct (below_again out _ _ _ _ Hb (act_IsIssuable _ _ _ _ _ Hq Ht Hg Hr)) as [Hok Hb'].
    split; [done|]. split; [|done]. rewrite Eq. by rewrite (gate_core _ _ _ _ Ec).
  - intros q r s ok s' r2 e Hh Hq Ht [Hg Hb] Hr He. apply (at_child_inv (λ this, IssueCommand this out q)) in Hr as [Hr _].
    cbn [tm_demands bk_timed Bank_timed] in He. rewrite Ht in He.
    apply elem_of_app in He as [He|He]; [by apply elem_of_nil in He|].
    case_match eqn:Eg; [|by apply elem_of_nil in He]. apply andb_prop in Eg as [[_ Ha]%andb_prop Hs2].
    right. split; [done|]. apply negb_true_iff, andb_false_iff in Ha. b2p. destruct Ha as [Ha|Ha]; b2p; [done|].
    change (h_reqs (heap (inner s)) !! q = Some r) in Hq. unfold IssueCommand in Hr. next Hr. pose proof (act_IsIssuable _ _ (inner s) _ _ Hq Ht Hg E) as Ea.
    destruct (below_again out _ _ _ _ Hb Ea) as [Hok Hb'].
    destruct (asks_IsIssuable _ _ _ _ _ E) as (Eh & Eq & Ec). destruct r0 as [b w]. cbn in Hok. subst b. cbn [negb] in Hr.
    load Hr. rewrite Eh in E0. rewrite Hq in E0. injection E0 as <-. rewrite Ht in Hr.
    eapply (act_refuses q r x ok (inner s')); rewrite ?Eh; try done.
    + split; [|done]. rewrite Eq. by rewrite (gate_core _ _ _ _ Ec).
    + rewrite Eq. exact He.
Qed.
End Bank.
