(* ===== verification/MemoryController.v ===== *)
(** * The memory controller

    NVmain/src/MemoryController.cpp: the part all controllers share. Transactions
    wait in transaction queues; the commands that serve them go through command
    queues (one per rank, per bank or per subarray) to the memory below. The
    controller keeps its own view of the row buffers, counts the refreshes that
    are due, and wakes itself up through the event queue.

    A controller is any state with a [MemoryController] inside ([Controller]);
    what it asks of the memory is [ChildOps] and [MemoryOps]. *)

From S2P Require Import Prelude NVMTypes Translation Config Params SimInterface Heap EventQueue Frame Tree.

(** [a / b] and [a % b] of unsigned numbers. *)
Definition udiv (a b : Z) : res Z := if b =? 0 then Err DivideByZero else Ok (a / b).
Definition umod (a b : Z) : res Z := if b =? 0 then Err DivideByZero else Ok (a mod b).

(** [m && k] and [m || k]: the second part runs only when it is needed. *)
Definition andM {S} (m k : ST S bool) : ST S bool := b ← m; if (b : bool) then k else mret false.
Definition orM {S} (m k : ST S bool) : ST S bool := b ← m; if (b : bool) then mret true else k.
Notation "m .&& k" := (andM m k) (at level 78, right associativity).
Notation "m .|| k" := (orM m k) (at level 79, right associativity).
Definition notM {S} (m : ST S bool) : ST S bool := b ← m; mret (negb b).

(** What the controller asks of the memory besides commands: the subarray a
    request goes to and its write state, and whether its rank is idle. *)
Class MemoryOps (C : Type) := {
  find_SubArray : ReqPtr → ST (Sim C) (option ObjPtr);
  array_IsWriting : ObjPtr → ST (Sim C) bool;
  array_BetweenWriteIterations : ObjPtr → ST (Sim C) bool;
  rank_Idle : ReqPtr → ST (Sim C) bool
}.

Module MC.

(*| NVmain/src/MemoryController.h 55-55 QueueModel *)
Inductive QueueModel := PerRankQueues | PerBankQueues | PerSubArrayQueues.

#[export] Instance QueueModel_eq_dec : EqDecision QueueModel.
Proof. solve_decision. Defined.

(** The priorities of the controller's events. *)
Definition transactionQueuePriority : Z := 30.
Definition commandQueuePriority : Z := 40.
Definition refreshPriority : Z := 20.
Definition cleanupPriority : Z := -10.

(** The callbacks of the controller, as the event queue names them. *)
Definition cb_CommandQueue : nat := 0.
Definition cb_Cleanup : nat := 1.
Definition cb_Refresh : nat := 2.

(** The members. Arrays over ranks, banks and subarrays are maps from the
    indices they are allocated for; [activeSubArray] holds truth values. *)
(*| NVmain/src/MemoryController.h 139-259 MemoryController *)
Record MemoryController : Type := mkMemoryController {
  params : Params;
  mcAT : AddressTranslator;
  lastCommandWake : Z;
  wakeupCount : Z;
  lastIssueCycle : Z;
  transactionQueues : list (list ReqPtr);
  commandQueues : list (list ReqPtr);
  commandQueueCount : Z;
  transactionQueueCount : Z;
  queueModel : QueueModel;
  activateQueued : gmap (Z * Z) bool;
  refreshQueued : gmap (Z * Z) bool;
  effectiveRow : gmap (Z * Z * Z) Z;
  effectiveMuxedRow : gmap (Z * Z * Z) Z;
  activeSubArray : gmap (Z * Z * Z) bool;
  starvationCounter : gmap (Z * Z * Z) Z;
  starvationThreshold : Z;
  subArrayNum : Z;
  rankPowerDown : gmap Z bool;
  curQueue : Z;
  delayedRefreshCounter : gmap (Z * Z) Z;
  bankNeedRefresh : gmap (Z * Z) bool;
  m_tREFI : Z;
  m_refreshBankNum : Z;
  handledRefresh : Z;
  nextRefreshRank : Z;
  nextRefreshBank : Z;
  id : Z;
  simulation_cycles : Z
}.

#[global] Instance eta_MemoryController : Settable MemoryController := fields! mkMemoryController
  < params; mcAT; lastCommandWake; wakeupCount; lastIssueCycle; transactionQueues; commandQueues; commandQueueCount;
    transactionQueueCount; queueModel; activateQueued; refreshQueued; effectiveRow; effectiveMuxedRow; activeSubArray;
    starvationCounter; starvationThreshold; subArrayNum; rankPowerDown; curQueue; delayedRefreshCounter;
    bankNeedRefresh; m_tREFI; m_refreshBankNum; handledRefresh; nextRefreshRank; nextRefreshBank; id;
    simulation_cycles >.

(** The constructor. What it leaves uninitialised: the queue model, [m_tREFI],
    [m_refreshBankNum], [id] and [simulation_cycles], here [qm] and [u]. *)
(*| NVmain/src/MemoryController.cpp 58-84 MemoryController::MemoryController *)
Definition MemoryController_new (p : Params) (at_ : AddressTranslator) (qm : QueueModel) (u : Z) : MemoryController := {|
  params := p; mcAT := at_; lastCommandWake := 0; wakeupCount := 0; lastIssueCycle := 0; transactionQueues := [];
  commandQueues := []; commandQueueCount := 0; transactionQueueCount := 0; queueModel := qm; activateQueued := ∅;
  refreshQueued := ∅; effectiveRow := ∅; effectiveMuxedRow := ∅; activeSubArray := ∅; starvationCounter := ∅;
  starvationThreshold := 4; subArrayNum := 1; rankPowerDown := ∅; curQueue := 0; delayedRefreshCounter := ∅;
  bankNeedRefresh := ∅; m_tREFI := u; m_refreshBankNum := u; handledRefresh := u64_max; nextRefreshRank := 0;
  nextRefreshBank := 0; id := u; simulation_cycles := u |}.

(** An element of an array, and an assignment to it. *)
Definition at_ix {K V} `{Countable K} (m : gmap K V) (k : K) : res V := deref OutOfBounds (m !! k).
Definition set_ix {K V} `{Countable K} (k : K) (v : V) (m : gmap K V) : res (gmap K V) :=
  _ ← at_ix m k; Ok (<[k := v]> m).

(** A queue of an array of queues. *)
Definition queue_at (l : list (list ReqPtr)) (i : Z) : res (list ReqPtr) :=
  if i <? 0 then Err OutOfBounds else deref OutOfBounds (l !! Z.to_nat i).

(** Numbers of the queues in priority order; [addr] is translated. *)
(*| NVmain/src/MemoryController.cpp 1754-1786 MemoryController::GetCommandQueueId *)
Definition GetCommandQueueId (b : MemoryController) (addr : NVMAddress) : res Z :=
  let p := params b in
  let queueId := match queueModel b with
    | PerRankQueues => GetRank addr
    | PerBankQueues =>
        if ScheduleScheme p =? 1 then GetBank addr ⊗ RANKS p ⊕ GetRank addr
        else if ScheduleScheme p =? 2 then GetRank addr ⊗ BANKS p ⊕ GetBank addr
        else u64_max
    | PerSubArrayQueues =>
        GetRank addr ⊗ BANKS p ⊗ subArrayNum b ⊕ GetBank addr ⊗ subArrayNum b ⊕ GetSubArray addr
    end in
  _ ← cassert (queueId <? commandQueueCount b);
  Ok queueId.

(** [NVMAddress( 0, 0, bank, rank, 0, 0 )]. *)
Definition bank_address (bank rank : Z) : NVMAddress := SetTranslatedAddress 0 0 bank rank 0 0 (NVMAddress_new 0).

(** Past the last queue the index starts again, one later than it could. *)
(*| NVmain/src/MemoryController.cpp 1862-1873 MemoryController::MoveCurrentQueue *)
Definition MoveCurrentQueue (b : MemoryController) : MemoryController :=
  if ScheduleScheme (params b) =? 0 then b else
  let b := b <| curQueue ::= λ x, x ⊕ 1 |> in
  if curQueue b >? commandQueueCount b then b <| curQueue := 0 |> else b.

(*| NVmain/src/MemoryController.cpp 128-138 MemoryController::InitQueues *)
Definition InitQueues (numQueues : Z) (b : MemoryController) : MemoryController :=
  b <| transactionQueues := replicate (Z.to_nat numQueues) [] |> <| transactionQueueCount := numQueues |>.

(*| NVmain/src/MemoryController.cpp 173-178 MemoryController::Prequeue *)
Definition Prequeue (queueNum : Z) (q : ReqPtr) (b : MemoryController) : res MemoryController :=
  _ ← cassert (queueNum <? transactionQueueCount b);
  l ← queue_at (transactionQueues b) queueNum;
  Ok (b <| transactionQueues ::= <[Z.to_nat queueNum := q :: l]> |>).

(** [commandQueues[queueId].push_back( q )]. *)
Definition push_command (queueId : Z) (q : ReqPtr) (b : MemoryController) : res MemoryController :=
  l ← queue_at (commandQueues b) queueId;
  Ok (b <| commandQueues ::= <[Z.to_nat queueId := l ++ [q]]> |>).

(** ** Refresh counters *)

(*| NVmain/src/MemoryController.cpp 574-584 MemoryController::NeedRefresh *)
Definition NeedRefresh (b : MemoryController) (bank rank : Z) : res bool :=
  let p := params b in
  if UseRefresh p then
    g ← udiv bank (BanksPerRefresh p); x ← at_ix (delayedRefreshCounter b) (rank, g);
    Ok (x >=? DelayedRefreshThreshold p)
  else Ok false.

(** The banks of the group of [bank]. *)
Definition group_banks (b : MemoryController) (bank : Z) : res (list Z) :=
  let k := BanksPerRefresh (params b) in
  g ← udiv bank k; Ok ((λ i, g ⊗ k ⊕ i) <$> seqZ 0 k).

Definition set_group (v : bool) (rank : Z) (l : list Z) (m : gmap (Z * Z) bool) : res (gmap (Z * Z) bool) :=
  foldM (λ m x, set_ix (rank, x) v m) m l.

(*| NVmain/src/MemoryController.cpp 589-596 MemoryController::SetRefresh *)
Definition SetRefresh (bank rank : Z) (b : MemoryController) : res MemoryController :=
  l ← group_banks b bank; m ← set_group true rank l (bankNeedRefresh b); Ok (b <| bankNeedRefresh := m |>).
(*| NVmain/src/MemoryController.cpp 601-608 MemoryController::ResetRefresh *)
Definition ResetRefresh (bank rank : Z) (b : MemoryController) : res MemoryController :=
  l ← group_banks b bank; m ← set_group false rank l (bankNeedRefresh b); Ok (b <| bankNeedRefresh := m |>).
(*| NVmain/src/MemoryController.cpp 613-623 MemoryController::ResetRefreshQueued *)
Definition ResetRefreshQueued (bank rank : Z) (b : MemoryController) : res MemoryController :=
  l ← group_banks b bank;
  m ← foldM (λ m x, v ← at_ix m (rank, x); _ ← cassert v; set_ix (rank, x) false m) (refreshQueued b) l;
  Ok (b <| refreshQueued := m |>).

Definition bump_counter (f : Z → Z) (bank rank : Z) (b : MemoryController) : res MemoryController :=
  g ← udiv bank (BanksPerRefresh (params b));
  x ← at_ix (delayedRefreshCounter b) (rank, g);
  Ok (b <| delayedRefreshCounter ::= <[(rank, g) := f x]> |>).
(*| NVmain/src/MemoryController.cpp 628-634 MemoryController::IncrementRefreshCounter *)
Definition IncrementRefreshCounter : Z → Z → MemoryController → res MemoryController := bump_counter (λ x, x ⊕ 1).
(*| NVmain/src/MemoryController.cpp 639-645 MemoryController::DecrementRefreshCounter *)
Definition DecrementRefreshCounter : Z → Z → MemoryController → res MemoryController := bump_counter (λ x, x ⊖ 1).

(** ** Operations

    [B] is the state of a scheduling policy with a controller inside. *)

Class Controller (B : Type) := {
  ctl : B → MemoryController;
  upd_ctl : (MemoryController → MemoryController) → B → B
}.
Class ControllerLaws (B : Type) `{Controller B} := {
  ctl_upd : ∀ f b, ctl (upd_ctl f b) = f (ctl b);
  upd_id : ∀ f b, f (ctl b) = ctl b → upd_ctl f b = b;
  upd_upd : ∀ f g b, upd_ctl f (upd_ctl g b) = upd_ctl (λ c, f (g c)) b
}.

#[global] Instance Controller_decodes B `{Controller B} : Decodes B :=
  {| at_of b := mcAT (ctl b); set_at t := upd_ctl (λ c, c <| mcAT := t |>) |}.

Section Operations.
Context {B C : Type} `{Controller B} `{ChildOps C} `{MemoryOps C}.
Variable this : ObjPtr.
Variable parent_RequestComplete : ReqPtr → ST (Sim (Node B C)) bool.

Abbreviation st := (Sim (Node B C)) (only parsing).
Implicit Types (r : NVMainRequest).

Definition mc : ST st MemoryController := b ← me; mret (ctl b).
Definition set_mc (f : MemoryController → MemoryController) : ST st unit := set_me (upd_ctl f).
(** An update that may fail. *)
Definition set_mc_res (f : MemoryController → res MemoryController) : ST st unit :=
  b ← mc; b' ← lift (f b); set_mc (λ _, b').
(** A read that may fail. *)
Definition ask_mc {A} (f : MemoryController → res A) : ST st A := b ← mc; lift (f b).

(** [GetChild( )]: the only child, the memory. *)
Definition the_child : ST st nat :=
  s ← get;
  match kids (obj s) with
  | [] => fail NullDeref
  | [_] => mret 0%nat
  | _ => fail AssertFail
  end.
Definition on_memory {A} (m : ST (Sim C) A) : ST st A := i ← the_child; on_child i m.
Definition memory_IsIssuable (q : ReqPtr) : ST st bool := '(ok, _) ← on_memory (ch_IsIssuable q); mret ok.

Definition update_req (q : ReqPtr) (f : NVMainRequest → NVMainRequest) : ST st unit :=
  r ← load_req q; store_req q (f r).
Definition queue_id_of (q : ReqPtr) : ST st Z := r ← load_req q; ask_mc (λ b, GetCommandQueueId b (address r)).
Definition command_queue (queueId : Z) : ST st (list ReqPtr) := ask_mc (λ b, queue_at (commandQueues b) queueId).
Definition queue_empty (queueId : Z) : ST st bool := l ← command_queue queueId; mret (bool_decide (l = [])).
Definition transaction_queue (tq : Z) : ST st (list ReqPtr) := ask_mc (λ b, queue_at (transactionQueues b) tq).

(*| NVmain/src/MemoryController.cpp 53-54 WasIssued *)
Definition WasIssued (q : ReqPtr) : ST st bool := r ← load_req q; mret (req_has FLAG_ISSUED r).

(*| NVmain/src/MemoryController.cpp 1849-1857 MemoryController::EffectivelyEmpty *)
Definition EffectivelyEmpty (queueId : Z) : ST st bool :=
  b ← mc; lift (cassert (queueId <? commandQueueCount b));;
  l ← command_queue queueId;
  match l with
  | [] => mret true
  | [q] => WasIssued q
  | _ => mret false
  end.

(** Whether a request of the list goes to the command queue. *)
Fixpoint any_for (queueId : Z) (l : list ReqPtr) : ST st bool :=
  match l with
  | [] => mret false
  | q :: l => i ← queue_id_of q; if i =? queueId then mret true else any_for queueId l
  end.
(** All the queues are searched, the answer is kept. *)
Fixpoint any_queue_for (queueId : Z) (ls : list (list ReqPtr)) (rv : bool) : ST st bool :=
  match ls with
  | [] => mret rv
  | l :: ls => found ← any_for queueId l; any_queue_for queueId ls (rv || found)
  end.
(*| NVmain/src/MemoryController.cpp 209-229 MemoryController::TransactionAvailable *)
Definition TransactionAvailable (queueId : Z) : ST st bool :=
  b ← mc; any_queue_for queueId (transactionQueues b) false.

(** ** Waking up *)

Definition wake_transactions (when : Z) : ST st unit :=
  InsertEvent_cycle EventCycle this when 0 transactionQueuePriority.

(** The first command queue that runs empty while a transaction waits for it. *)
Fixpoint recheck (nextWakeup : Z) (l : list Z) : ST st unit :=
  match l with
  | [] => mret ()
  | queueIdx :: l =>
      ready ← (EffectivelyEmpty queueIdx .&& TransactionAvailable queueIdx);
      if (ready : bool) then wake_transactions nextWakeup else recheck nextWakeup l
  end.
(*| NVmain/src/MemoryController.cpp 140-171 MemoryController::Cycle *)
Definition Cycle (steps : Z) : ST st unit :=
  n ← now;
  let nextWakeup := n ⊕ 1 in
  found ← FindEvent_obj EventCycle this None nextWakeup;
  match found with
  | Some _ => mret ()
  | None => b ← mc; recheck nextWakeup (seqZ 0 (commandQueueCount b))
  end.

(** Schedule [method] at [when] unless it is already there. *)
Definition schedule_once (method : nat) (when priority : Z) : ST st unit :=
  found ← FindCallback this method when 0 priority;
  match found with
  | Some _ => mret ()
  | None => InsertCallback this method when 0 priority
  end.

(** What [Enqueue] finds in the locals [out] it translates into. *)
(*| NVmain/src/MemoryController.cpp 180-207 MemoryController::Enqueue *)
Definition Enqueue (out : six) (queueNum : Z) (q : ReqPtr) : ST st unit :=
  r ← load_req q; b ← mc;
  '(v, t) ← lift (Translate (GetPhysicalAddress (address r)) out (mcAT b));
  set_mc (λ b, b <| mcAT := t |>);;
  let channel := GetChannel (address r) in
  store_req q (r <| address ::=
    SetTranslatedAddress (s_row v) (s_col v) (s_bank v) (s_rank v) channel (s_subarray v) |>);;
  set_mc_res (λ b,
    _ ← cassert (queueNum <? transactionQueueCount b);
    l ← queue_at (transactionQueues b) queueNum;
    Ok (b <| transactionQueues ::= <[Z.to_nat queueNum := l ++ [q]]> |>));;
  queueId ← queue_id_of q;
  empty ← EffectivelyEmpty queueId;
  if (empty : bool) then
    nextWakeup ← now;
    found ← FindEvent_obj EventCycle this None nextWakeup;
    match found with
    | Some _ => mret ()
    | None => wake_transactions nextWakeup
    end
  else mret ().

(** ** Requests of the controller's own *)

Definition fresh_request : NVMainRequest := NVMainRequest_new MEM_REQUEST_INCOMPLETE UNKNOWN_ACCESS 0.

(** A command to the address of [q]. *)
Definition command_like (t : OpType) (q : ReqPtr) : ST st ReqPtr :=
  r ← load_req q; n ← now;
  new_req (fresh_request <| type := t |> <| issueCycle := n |>
             <| address ::= λ a, NVMAddress_assign a (address r) |> <| owner := Some this |>).
(** A command to an address of the fields. *)
Definition command_at (t : OpType) (row col bank rank subarray : Z) : ST st ReqPtr :=
  b ← mc;
  '(addr, at_) ← lift (ReverseTranslate (mkSix row col bank rank (id b) subarray) (mcAT b));
  set_mc (λ b, b <| mcAT := at_ |>);;
  n ← now;
  new_req (fresh_request <| type := t |>
             <| address ::= λ a, SetTranslatedAddress row col bank rank (id b) subarray (SetPhysicalAddress addr a) |>
             <| issueCycle := n |> <| owner := Some this |>).

(*| NVmain/src/MemoryController.cpp 902-914 MemoryController::MakeCachedRequest *)
Definition MakeCachedRequest (q : ReqPtr) : ST st ReqPtr :=
  r ← load_req q;
  lift (cassert (bool_decide (type r = READ) || bool_decide (type r = WRITE)));;
  r' ← lift (NVMainRequest_assign fresh_request r);
  new_req (r' <| type := if decide (type r = READ) then CACHED_READ else CACHED_WRITE |> <| owner := Some this |>).
(*| NVmain/src/MemoryController.cpp 916-926 MemoryController::MakeActivateRequest *)
Definition MakeActivateRequest : ReqPtr → ST st ReqPtr := command_like ACTIVATE.
(*| NVmain/src/MemoryController.cpp 928-944 MemoryController::MakeActivateRequest *)
Definition MakeActivateRequest_at : Z → Z → Z → Z → Z → ST st ReqPtr := command_at ACTIVATE.
(*| NVmain/src/MemoryController.cpp 946-956 MemoryController::MakePrechargeRequest *)
Definition MakePrechargeRequest : ReqPtr → ST st ReqPtr := command_like PRECHARGE.
(*| NVmain/src/MemoryController.cpp 958-974 MemoryController::MakePrechargeRequest *)
Definition MakePrechargeRequest_at : Z → Z → Z → Z → Z → ST st ReqPtr := command_at PRECHARGE.
(*| NVmain/src/MemoryController.cpp 976-986 MemoryController::MakePrechargeAllRequest *)
Definition MakePrechargeAllRequest : ReqPtr → ST st ReqPtr := command_like PRECHARGE_ALL.
(*| NVmain/src/MemoryController.cpp 988-1004 MemoryController::MakePrechargeAllRequest *)
Definition MakePrechargeAllRequest_at : Z → Z → Z → Z → Z → ST st ReqPtr := command_at PRECHARGE_ALL.
(*| NVmain/src/MemoryController.cpp 1006-1016 MemoryController::MakeImplicitPrechargeRequest *)
Definition MakeImplicitPrechargeRequest (q : ReqPtr) : ST st ReqPtr :=
  n ← now;
  update_req q (λ r, (match type r with
                      | READ => r <| type := READ_PRECHARGE |>
                      | WRITE => r <| type := WRITE_PRECHARGE |>
                      | _ => r end) <| issueCycle := n |>);;
  mret q.
(*| NVmain/src/MemoryController.cpp 1018-1034 MemoryController::MakeRefreshRequest *)
Definition MakeRefreshRequest : Z → Z → Z → Z → Z → ST st ReqPtr := command_at REFRESH.
(*| NVmain/src/MemoryController.cpp 1036-1049 MemoryController::MakePowerdownRequest *)
Definition MakePowerdownRequest (pdOp : OpType) (rank : Z) : ST st ReqPtr := command_at pdOp 0 0 0 rank 0.
(*| NVmain/src/MemoryController.cpp 1051-1063 MemoryController::MakePowerupRequest *)
Definition MakePowerupRequest (rank : Z) : ST st ReqPtr := command_at POWERUP 0 0 0 rank 0.

(** ** Refresh and the next wake-up

    [HandleRefresh] wakes the command queues up, which asks for the next
    issuable cycle, which may handle another refresh: [next] is that question. *)

Section Handling.
Variable next : ST st Z.

(*| NVmain/src/MemoryController.cpp 231-247 MemoryController::ScheduleCommandWake *)
Definition schedule_wake : ST st unit :=
  nextWakeup ← next;
  schedule_once cb_CommandQueue nextWakeup commandQueuePriority.

(** The order in which the bank groups are served: ranks from
    [nextRefreshRank], groups from [nextRefreshBank]. *)
Definition refresh_order (b : MemoryController) : list (Z * Z) :=
  let p := params b in
  rankIdx ← seqZ 0 (RANKS p); bankIdx ← seqZ 0 (m_refreshBankNum b); [(rankIdx, bankIdx)].
Definition refresh_target (b : MemoryController) (x : Z * Z) : res (Z * Z) :=
  let p := params b in
  i ← umod (nextRefreshRank b ⊕ x.1) (RANKS p);
  j ← umod (nextRefreshBank b ⊕ x.2 ⊗ BanksPerRefresh p) (BANKS p);
  Ok (i, j).
(** The first group that needs a refresh. *)
Fixpoint first_refresh (b : MemoryController) (l : list (Z * Z)) : res (option (Z * Z)) :=
  match l with
  | [] => Ok None
  | x :: l =>
      '(i, j) ← refresh_target b x;
      need ← NeedRefresh b j i;
      if (need : bool) then Ok (Some (i, j)) else first_refresh b l
  end.

(** The banks of a refresh from [j] on; they may wrap around. *)
Definition refresh_banks (b : MemoryController) (j : Z) : res (list Z) :=
  foldM (λ l t, x ← umod (t ⊕ j) (BANKS (params b)); Ok (l ++ [x])) [] (seqZ 0 (BanksPerRefresh (params b))).

(** The view of all subarrays of a bank is closed. *)
Definition clear_arrays (rank bank : Z) (b : MemoryController) : res MemoryController :=
  foldM (λ b sa,
    a ← set_ix (rank, bank, sa) false (activeSubArray b);
    e ← set_ix (rank, bank, sa) (ROWS (params b)) (effectiveRow b);
    m ← set_ix (rank, bank, sa) (ROWS (params b)) (effectiveMuxedRow b);
    Ok (b <| activeSubArray := a |> <| effectiveRow := e |> <| effectiveMuxedRow := m |>)) b (seqZ 0 (subArrayNum b)).
Definition set_activateQueued (rank bank : Z) (v : bool) (b : MemoryController) : res MemoryController :=
  m ← set_ix (rank, bank) v (activateQueued b); Ok (b <| activateQueued := m |>).

(** Every active bank of the refresh is closed. *)
Fixpoint precharge_banks (rank : Z) (l : list Z) : ST st unit :=
  match l with
  | [] => mret ()
  | refBank :: l =>
      queueId ← ask_mc (λ b, GetCommandQueueId b (bank_address refBank rank));
      active ← ask_mc (λ b, at_ix (activateQueued b) (rank, refBank));
      (if (active : bool) then
         cmdRefPre ← MakePrechargeAllRequest_at 0 0 refBank rank 0;
         set_mc_res (push_command queueId cmdRefPre);;
         set_mc_res (clear_arrays rank refBank);;
         set_mc_res (set_activateQueued rank refBank false)
       else mret ());;
      precharge_banks rank l
  end.

(** The round robin over the groups and the ranks. *)
Definition next_refresh (b : MemoryController) : MemoryController :=
  let p := params b in
  let b := b <| nextRefreshBank ::= λ x, x ⊕ BanksPerRefresh p |> in
  if nextRefreshBank b >=? BANKS p then
    let b := b <| nextRefreshBank := 0 |> <| nextRefreshRank ::= λ x, x ⊕ 1 |> in
    if nextRefreshRank b =? RANKS p then b <| nextRefreshRank := 0 |> else b
  else b.

(** The refresh of group [j] of rank [i]. *)
(*| NVmain/src/MemoryController.cpp 662-735 MemoryController::HandleRefresh *)
Definition refresh_group (i j : Z) : ST st unit :=
  cmdRefresh ← MakeRefreshRequest 0 0 j i 0;
  b ← mc;
  (if UsePrecharge (params b) then l ← ask_mc (λ b, refresh_banks b j); precharge_banks i l else mret ());;
  queueId ← ask_mc (λ b, GetCommandQueueId b (bank_address j i));
  n ← now;
  update_req cmdRefresh (λ r, r <| issueCycle := n |>);;
  set_mc_res (push_command queueId cmdRefresh);;
  set_mc_res (λ b, l ← refresh_banks b j; m ← set_group true i l (refreshQueued b); Ok (b <| refreshQueued := m |>));;
  set_mc_res (DecrementRefreshCounter j i);;
  set_mc_res (λ b, need ← NeedRefresh b j i; if (need : bool) then Ok b else ResetRefresh j i b);;
  set_mc next_refresh;;
  n ← now;
  set_mc (λ b, b <| handledRefresh := n |>);;
  schedule_wake.

(*| NVmain/src/MemoryController.cpp 651-741 MemoryController::HandleRefresh *)
Definition handle_refresh : ST st bool :=
  b ← mc;
  found ← lift (first_refresh b (refresh_order b));
  match found with
  | None => mret false
  | Some (i, j) => refresh_group i j;; mret true
  end.
End Handling.

Fixpoint all_empty (rank : Z) (l : list Z) : ST st bool :=
  match l with
  | [] => mret true
  | bank :: l =>
      queueId ← ask_mc (λ b, GetCommandQueueId b (bank_address bank rank));
      empty ← EffectivelyEmpty queueId;
      if negb empty then mret false else all_empty rank l
  end.
(*| NVmain/src/MemoryController.cpp 770-785 MemoryController::IsRefreshBankQueueEmpty *)
Definition IsRefreshBankQueueEmpty (bank rank : Z) : ST st bool :=
  l ← ask_mc (λ b, group_banks b bank); all_empty rank l.

(** All banks of all ranks, in the order of the loops. *)
Definition all_banks (p : Params) : list (Z * Z) :=
  rankIdx ← seqZ 0 (RANKS p); bankIdx ← seqZ 0 (BANKS p); [(rankIdx, bankIdx)].

(** One bank of [NextIssuable]: a refresh that is due and can be queued, then
    the head of the command queue. *)
(*| NVmain/src/MemoryController.cpp 1798-1815 MemoryController::NextIssuable *)
Definition next_of_bank (handle : ST st bool) (rank bank nextWakeup : Z) : ST st Z :=
  queueIdx ← ask_mc (λ b, GetCommandQueueId b (bank_address bank rank));
  due ← (ask_mc (λ b, NeedRefresh b bank rank) .&& IsRefreshBankQueueEmpty bank rank);
  nextWakeup ← (if (due : bool) then
    b ← mc; n ← now;
    if negb (lastIssueCycle b =? n) then _ ← handle; mret nextWakeup else mret (n ⊕ 1)
    else mret nextWakeup);
  l ← command_queue queueIdx;
  match l with
  | [] => mret nextWakeup
  | queueHead :: _ => x ← on_memory (ch_NextIssuable queueHead); mret (MIN nextWakeup x)
  end.
Fixpoint next_of_banks (handle : ST st bool) (l : list (Z * Z)) (nextWakeup : Z) : ST st Z :=
  match l with
  | [] => mret nextWakeup
  | (rank, bank) :: l => x ← next_of_bank handle rank bank nextWakeup; next_of_banks handle l x
  end.

(** The refreshes that are counted bound the depth of the recursion. *)
(*| NVmain/src/MemoryController.cpp 1788-1823 MemoryController::NextIssuable *)
Fixpoint next_issuable (fuel : nat) : ST st Z :=
  match fuel with
  | O => fail OutOfFuel
  | S fuel =>
      b ← mc;
      nextWakeup ← next_of_banks (handle_refresh (next_issuable fuel)) (all_banks (params b)) u64_max;
      n ← now;
      mret (if nextWakeup <=? n then n ⊕ 1 else nextWakeup)
  end.
Definition pending_refreshes (b : MemoryController) : Z := map_fold (λ _ x a, x + a) 0 (delayedRefreshCounter b).
Definition refresh_fuel (b : MemoryController) : nat := S (Z.to_nat (pending_refreshes b)).
Definition NextIssuable : ST st Z := b ← mc; next_issuable (refresh_fuel b).
Definition HandleRefresh : ST st bool := handle_refresh NextIssuable.
Definition ScheduleCommandWake : ST st unit := schedule_wake NextIssuable.

(** The pulse comes back after [m_tREFI] cycles. *)
(*| NVmain/src/MemoryController.cpp 747-764 MemoryController::ProcessRefreshPulse *)
Definition ProcessRefreshPulse (refresh : ReqPtr) : ST st unit :=
  r ← load_req refresh;
  lift (cassert (bool_decide (type r = REFRESH)));;
  let '(_, _, bank, rank, _, _) := GetTranslatedAddress (address r) in
  set_mc_res (IncrementRefreshCounter bank rank);;
  set_mc_res (λ b, need ← NeedRefresh b bank rank; if (need : bool) then SetRefresh bank rank b else Ok b);;
  b ← mc; n ← now;
  InsertCallback this cb_Refresh (n ⊕ m_tREFI b) (Z.pos refresh) refreshPriority.

(** ** Callbacks *)

Definition steps_since_wake : ST st Z :=
  b ← mc; n ← now;
  set_mc (λ b, b <| lastCommandWake := n |>);;
  mret (n ⊖ lastCommandWake b).
Definition count_wakeup : ST st unit := set_mc (λ b, b <| wakeupCount ::= λ x, x ⊕ 1 |>).

(*| NVmain/src/MemoryController.cpp 277-290 MemoryController::RefreshCallback *)
Definition RefreshCallback (data : Z) : ST st unit :=
  request ← (match data with Z.pos q => mret q | _ => fail NullDeref end);
  realSteps ← steps_since_wake;
  count_wakeup;;
  ProcessRefreshPulse request;;
  _ ← HandleRefresh;
  on_memory (ch_Cycle realSteps).

(** [std::remove_if]: what was issued leaves the queue. *)
Fixpoint drop_issued (l : list ReqPtr) : ST st (list ReqPtr) :=
  match l with
  | [] => mret []
  | q :: l => issued ← WasIssued q; l ← drop_issued l; mret (if (issued : bool) then l else q :: l)
  end.
Fixpoint cleanup (l : list Z) : ST st unit :=
  match l with
  | [] => mret ()
  | queueId :: l =>
      old ← command_queue queueId; new ← drop_issued old;
      set_mc (λ b, b <| commandQueues ::= <[Z.to_nat queueId := new]> |>);;
      cleanup l
  end.
(*| NVmain/src/MemoryController.cpp 292-304 MemoryController::CleanupCallback *)
Definition CleanupCallback : ST st unit := b ← mc; cleanup (seqZ 0 (commandQueueCount b)).

(*| NVmain/src/MemoryController.cpp 306-325 MemoryController::RequestComplete *)
Definition RequestComplete (q : ReqPtr) : ST st bool :=
  r ← load_req q;
  if decide (owner r = Some this) then delete_req q;; mret true else parent_RequestComplete q.

(*| NVmain/src/MemoryController.cpp 327-330 MemoryController::IsIssuable *)
Definition IsIssuable (q : ReqPtr) : ST st (bool * option FailReasons) := mret (true, None).

(** ** Low power *)

Fixpoint queues_empty (rankId : Z) (l : list Z) : ST st bool :=
  match l with
  | [] => mret true
  | i :: l =>
      queueId ← ask_mc (λ b, GetCommandQueueId b (bank_address i rankId));
      empty ← queue_empty queueId;
      if negb empty then mret false else queues_empty rankId l
  end.
(*| NVmain/src/MemoryController.cpp 1829-1844 MemoryController::RankQueueEmpty *)
Definition RankQueueEmpty (rankId : Z) : ST st bool := b ← mc; queues_empty rankId (seqZ 0 (BANKS (params b))).

Definition set_rankPowerDown (rankId : Z) (v : bool) : ST st unit :=
  set_mc_res (λ b, m ← set_ix rankId v (rankPowerDown b); Ok (b <| rankPowerDown := m |>)).
(** The power command is issued when the memory takes it, deleted otherwise. *)
Definition issue_power (rankId : Z) (guard : ST st bool) (q : ReqPtr) (down : bool) : ST st unit :=
  ok ← (guard .&& memory_IsIssuable q);
  if (ok : bool) then
    _ ← on_memory (ch_IssueCommand q); set_rankPowerDown rankId down
  else delete_req q.

(** An undefined mode is reported and taken as FASTEXIT. *)
(*| NVmain/src/MemoryController.cpp 787-822 MemoryController::PowerDown *)
Definition PowerDown (rankId : Z) : ST st unit :=
  b ← mc;
  let pdOp := if String.eqb (PowerDownMode (params b)) "SLOWEXIT" then POWERDOWN_PDPS else POWERDOWN_PDPF in
  powerdownRequest ← MakePowerdownRequest pdOp rankId;
  idle ← on_memory (rank_Idle powerdownRequest);
  powerdownRequest ← (if (idle : bool) then mret powerdownRequest else
    delete_req powerdownRequest;; MakePowerdownRequest POWERDOWN_PDA rankId);
  issue_power rankId (RankQueueEmpty rankId) powerdownRequest true.

(*| NVmain/src/MemoryController.cpp 824-839 MemoryController::PowerUp *)
Definition PowerUp (rankId : Z) : ST st unit :=
  powerupRequest ← MakePowerupRequest rankId;
  issue_power rankId (notM (RankQueueEmpty rankId)) powerupRequest false.

(** Whether a group of the rank needs a refresh. *)
Fixpoint rank_needs (b : MemoryController) (rankId : Z) (l : list Z) : res bool :=
  match l with
  | [] => Ok false
  | bankId :: l =>
      need ← NeedRefresh b (bankId ⊗ BanksPerRefresh (params b)) rankId;
      if (need : bool) then Ok true else rank_needs b rankId l
  end.
(*| NVmain/src/MemoryController.cpp 843-883 MemoryController::HandleLowPower *)
Definition low_power_rank (rankId : Z) : ST st unit :=
  b ← mc;
  needRefresh ← lift (if UseRefresh (params b) then rank_needs b rankId (seqZ 0 (m_refreshBankNum b)) else Ok false);
  if (needRefresh : bool) then
    powerupRequest ← MakePowerupRequest rankId;
    issue_power rankId (ask_mc (λ b, at_ix (rankPowerDown b) rankId)) powerupRequest false
  else
    down ← ask_mc (λ b, at_ix (rankPowerDown b) rankId);
    if (down : bool) then PowerUp rankId else PowerDown rankId.
Fixpoint low_power_ranks (l : list Z) : ST st unit :=
  match l with [] => mret () | x :: l => low_power_rank x;; low_power_ranks l end.
(*| NVmain/src/MemoryController.cpp 841-885 MemoryController::HandleLowPower *)
Definition HandleLowPower : ST st unit := b ← mc; low_power_ranks (seqZ 0 (RANKS (params b))).

(*| NVmain/src/MemoryController.cpp 892-895 MemoryController::SetID *)
Definition SetID (i : Z) : ST st unit := set_mc (λ b, b <| id := i |>).
(*| NVmain/src/MemoryController.cpp 897-900 MemoryController::GetID *)
Definition GetID : ST st Z := b ← mc; mret (id b).

(** ** Scheduling: which transaction is served next *)

Definition place r : Z * Z * Z := (GetRank (address r), GetBank (address r), GetSubArray (address r)).
Definition bank_place r : Z * Z := (GetRank (address r), GetBank (address r)).

(** A request of the list to the open row of [q]. *)
Fixpoint other_hit r (l : list ReqPtr) : ST st bool :=
  match l with
  | [] => mret false
  | x :: l =>
      rx ← load_req x;
      if decide (place rx = place r ∧ GetRow (address rx) = GetRow (address r)) then mret true else other_hit r l
  end.
(*| NVmain/src/MemoryController.cpp 1065-1096 MemoryController::IsLastRequest *)
Definition IsLastRequest (l : list ReqPtr) (q : ReqPtr) : ST st bool :=
  b ← mc;
  if ClosePage (params b) =? 0 then mret false
  else if ClosePage (params b) =? 1 then r ← load_req q; hit ← other_hit r l; mret (negb hit)
  else mret true.

(** What the body of a search decides about a request: go on, take it, stop
    with [true] and no request, stop with [false]. *)
Inductive verdict := Skip | Take | Stall | Quit.
#[export] Instance verdict_eq_dec : EqDecision verdict.
Proof. solve_decision. Defined.

(** The loop over a transaction queue from position [i]. *)
Fixpoint search (body : ReqPtr → ST st verdict) (i : nat) (l : list ReqPtr) : ST st (verdict * option (nat * ReqPtr)) :=
  match l with
  | [] => mret (Quit, None)
  | q :: l =>
      v ← body q;
      match v with
      | Skip => search body (S i) l
      | Take => mret (Take, Some (i, q))
      | Stall => mret (Stall, None)
      | Quit => mret (Quit, None)
      end
  end.

(** [transactionQueue.erase( it )]. *)
Definition erase_transaction (tq : Z) (i : nat) : ST st unit :=
  set_mc (λ b, b <| transactionQueues ::= alter (delete i) (Z.to_nat tq) |>).

(** A search that takes its request out of the queue; [last]: a request without
    another hit behind it is marked. *)
Definition find_in (last : bool) (body : ReqPtr → ST st verdict) (tq : Z) : ST st (bool * option ReqPtr) :=
  l ← transaction_queue tq;
  '(v, found) ← search body 0 l;
  match found with
  | None => mret (bool_decide (v = Stall), None)
  | Some (i, q) =>
      erase_transaction tq i;;
      (if last then
         l ← transaction_queue tq; is_last ← IsLastRequest l q;
         if (is_last : bool) then update_req q (req_set FLAG_LAST_REQUEST) else mret ()
       else mret ());;
      mret (true, Some q)
  end.
Definition take_if (m : ST st bool) : ST st verdict := b ← m; mret (if (b : bool) then Take else Skip).

(** A truth value, a condition on the row buffer of the request's subarray. *)
Definition holds (v : bool) : ST st bool := mret v.
Definition row_open (b : MemoryController) r (muxLevel : Z) : res bool :=
  a ← at_ix (activeSubArray b) (place r);
  if negb a then Ok false else
  e ← at_ix (effectiveRow b) (place r);
  if negb (e =? GetRow (address r)) then Ok false else
  m ← at_ix (effectiveMuxedRow b) (place r);
  Ok (m =? muxLevel).
Definition mux_level (b : MemoryController) r : res Z := udiv (GetCol (address r)) (RBSize (params b)).
(** The bank is neither waiting for a refresh nor has one queued. *)
Definition no_refresh r : ST st bool :=
  notM (ask_mc (λ b, at_ix (bankNeedRefresh b) (bank_place r))) .&&
  notM (ask_mc (λ b, at_ix (refreshQueued b) (bank_place r))).
Definition arrived_before r : ST st bool := n ← now; mret (negb (arrivalCycle r =? n)).
Definition bank_active r : ST st bool := ask_mc (λ b, at_ix (activateQueued b) (bank_place r)).

Section Find.
Variable pred : ReqPtr → ST st bool.

(** A candidate's queue is empty. *)
Definition queue_free (q : ReqPtr) : ST st bool := queueId ← queue_id_of q; queue_empty queueId.
(** A request whose queue is not empty is passed over; the rest is [m]. *)
Definition if_free (q : ReqPtr) (m : NVMainRequest → ST st verdict) : ST st verdict :=
  free ← queue_free q;
  if negb free then mret Skip else r ← load_req q; m r.

Definition starved (q : ReqPtr) : ST st verdict := if_free q (λ r,
  muxLevel ← ask_mc (λ b, mux_level b r);
  take_if (bank_active r .&& notM (ask_mc (λ b, row_open b r muxLevel)) .&& no_refresh r .&&
           ask_mc (λ b, x ← at_ix (starvationCounter b) (place r); Ok (x >=? starvationThreshold b)) .&&
           arrived_before r .&& queue_free q .&& pred q)).
(*| NVmain/src/MemoryController.cpp 1106-1159 MemoryController::FindStarvedRequest *)
Definition FindStarvedRequest : Z → ST st (bool * option ReqPtr) := find_in true starved.

(** The copy of the request that asks is deleted whatever the answer is. *)
Definition cached (q : ReqPtr) : ST st verdict :=
  queueId ← queue_id_of q;
  cachedRequest ← MakeCachedRequest q;
  ok ← (queue_empty queueId .&& memory_IsIssuable cachedRequest .&& (r ← load_req q; arrived_before r) .&& pred q);
  delete_req cachedRequest;;
  mret (if (ok : bool) then Take else Skip).
(*| NVmain/src/MemoryController.cpp 1175-1207 MemoryController::FindCachedAddress *)
Definition FindCachedAddress : Z → ST st (bool * option ReqPtr) := find_in false cached.

(** A read whose subarray is being written: between iterations, or in a mode
    that pauses anywhere, it is taken, else the scheduler waits. *)
Definition write_stalled (q : ReqPtr) : ST st verdict :=
  r ← load_req q;
  if negb (bool_decide (type r = READ)) then mret Skip else
  if_free q (λ r,
    writingArray ← on_memory (find_SubArray q);
    match writingArray with
    | None => mret Quit
    | Some a =>
        testActivate ← MakeActivateRequest q;
        update_req testActivate (req_set FLAG_PRIORITY);;
        ok ← (no_refresh r .&& on_memory (array_IsWriting a) .&&
              (memory_IsIssuable q .|| memory_IsIssuable testActivate) .&&
              arrived_before r .&& queue_free q .&& pred q);
        stall ← (holds ok .&& notM (on_memory (array_BetweenWriteIterations a)) .&&
                 (b ← mc; holds (bool_decide (pauseMode (params b) = PauseMode_Normal))));
        delete_req testActivate;;
        mret (if (stall : bool) then Stall else if (ok : bool) then Take else Skip)
    end).
(*| NVmain/src/MemoryController.cpp 1217-1293 MemoryController::FindWriteStalledRead *)
Definition FindWriteStalledRead (tq : Z) : ST st (bool * option ReqPtr) :=
  b ← mc;
  if negb (WritePausing (params b)) then mret (false, None) else find_in true write_stalled tq.

Definition row_hit (q : ReqPtr) : ST st verdict := if_free q (λ r,
  muxLevel ← ask_mc (λ b, mux_level b r);
  take_if (bank_active r .&& ask_mc (λ b, row_open b r muxLevel) .&& no_refresh r .&&
           arrived_before r .&& queue_free q .&& pred q)).
(*| NVmain/src/MemoryController.cpp 1303-1354 MemoryController::FindRowBufferHit *)
Definition FindRowBufferHit : Z → ST st (bool * option ReqPtr) := find_in true row_hit.

Definition oldest_ready (q : ReqPtr) : ST st verdict := if_free q (λ r,
  take_if (bank_active r .&& no_refresh r .&& queue_free q .&& arrived_before r .&& pred q)).
(*| NVmain/src/MemoryController.cpp 1364-1409 MemoryController::FindOldestReadyRequest *)
Definition FindOldestReadyRequest : Z → ST st (bool * option ReqPtr) := find_in true oldest_ready.

Definition closed_bank (q : ReqPtr) : ST st verdict := if_free q (λ r,
  take_if (notM (bank_active r) .&& no_refresh r .&& queue_free q .&& arrived_before r .&& pred q)).
(*| NVmain/src/MemoryController.cpp 1419-1464 MemoryController::FindClosedBankRequest *)
Definition FindClosedBankRequest : Z → ST st (bool * option ReqPtr) := find_in true closed_bank.
End Find.

(*| NVmain/src/MemoryController.cpp 1466-1469 MemoryController::DummyPredicate::operator *)
Definition DummyPredicate (q : ReqPtr) : ST st bool := mret true.

(** ** Commands for a transaction *)

Definition set_row (k : Z * Z * Z) (row mux : Z) (b : MemoryController) : res MemoryController :=
  e ← set_ix k row (effectiveRow b); m ← set_ix k mux (effectiveMuxedRow b);
  Ok (b <| effectiveRow := e |> <| effectiveMuxedRow := m |>).
Definition set_active (k : Z * Z * Z) (v : bool) (b : MemoryController) : res MemoryController :=
  m ← set_ix k v (activeSubArray b); Ok (b <| activeSubArray := m |>).
Definition set_starvation (k : Z * Z * Z) (f : Z → Z) (b : MemoryController) : res MemoryController :=
  x ← at_ix (starvationCounter b) k; Ok (b <| starvationCounter ::= <[k := f x]> |>).
(** The subarray is closed again by the request itself. *)
Definition close_row (k : Z * Z * Z) (b : MemoryController) : res MemoryController :=
  b ← set_active k false b; set_row k (ROWS (params b)) (ROWS (params b)) b.
(** No subarray of the bank is active. *)
Fixpoint bank_idle (rank bank : Z) (b : MemoryController) (l : list Z) : res bool :=
  match l with
  | [] => Ok true
  | i :: l => a ← at_ix (activeSubArray b) (rank, bank, i); if (a : bool) then Ok false else bank_idle rank bank b l
  end.

Definition push (queueId : Z) (q : ReqPtr) : ST st unit := set_mc_res (push_command queueId q).
Definition stamp_issue (q : ReqPtr) : ST st unit := n ← now; update_req q (λ r, r <| issueCycle := n |>).
(** The activation of a request; it has priority over a write in progress. *)
Definition push_activate (queueId : Z) (writingArray : option ObjPtr) (q : ReqPtr) : ST st unit :=
  actRequest ← MakeActivateRequest q;
  writing ← (match writingArray with Some a => on_memory (array_IsWriting a) | None => mret false end);
  (if (writing : bool) then update_req actRequest (req_set FLAG_PRIORITY) else mret ());;
  push queueId actRequest.

(** The bank is closed: activate and access. *)
(*| NVmain/src/MemoryController.cpp 1523-1559 MemoryController::IssueMemoryCommands *)
Definition open_bank (queueId : Z) (writingArray : option ObjPtr) (muxLevel : Z) r (q : ReqPtr) : ST st unit :=
  let k := place r in
  set_mc_res (set_activateQueued k.1.1 k.1.2 true);;
  set_mc_res (set_active k true);;
  set_mc_res (set_row k (GetRow (address r)) muxLevel);;
  set_mc_res (set_starvation k (λ _, 0));;
  stamp_issue q;;
  push_activate queueId writingArray q;;
  b ← mc;
  if req_has FLAG_LAST_REQUEST r && UsePrecharge (params b) then
    q' ← MakeImplicitPrechargeRequest q; push queueId q';;
    set_mc_res (close_row k);;
    set_mc_res (set_activateQueued k.1.1 k.1.2 false)
  else push queueId q.

(** Another row is open, or the subarray is closed: precharge, activate and
    access. *)
(*| NVmain/src/MemoryController.cpp 1560-1587 MemoryController::IssueMemoryCommands *)
Definition switch_row (queueId : Z) (writingArray : option ObjPtr) (muxLevel : Z) r (q : ReqPtr) : ST st unit :=
  let k := place r in
  set_mc_res (set_starvation k (λ _, 0));;
  set_mc_res (set_activateQueued k.1.1 k.1.2 true);;
  stamp_issue q;;
  active ← ask_mc (λ b, at_ix (activeSubArray b) k);
  b ← mc;
  (if (active : bool) && UsePrecharge (params b) then
     row ← ask_mc (λ b, at_ix (effectiveRow b) k);
     pre ← MakePrechargeRequest_at row 0 k.1.2 k.1.1 k.2;
     push queueId pre
   else mret ());;
  push_activate queueId writingArray q;;
  push queueId q;;
  set_mc_res (set_active k true);;
  set_mc_res (set_row k (GetRow (address r)) muxLevel).

(** The row is open: access, the last one with a precharge. *)
(*| NVmain/src/MemoryController.cpp 1588-1633 MemoryController::IssueMemoryCommands *)
Definition hit_row (queueId : Z) r (q : ReqPtr) : ST st unit :=
  let k := place r in
  set_mc_res (set_starvation k (λ x, x ⊕ 1));;
  stamp_issue q;;
  b ← mc;
  if req_has FLAG_LAST_REQUEST r && UsePrecharge (params b) then
    lift (cassert (negb (ClosePage (params b) =? 2)));;
    q' ← MakeImplicitPrechargeRequest q; push queueId q';;
    set_mc_res (close_row k);;
    b ← mc; idle ← lift (bank_idle k.1.1 k.1.2 b (seqZ 0 (subArrayNum b)));
    if (idle : bool) then set_mc_res (set_activateQueued k.1.1 k.1.2 false) else mret ()
  else push queueId q.

(*| NVmain/src/MemoryController.cpp 1476-1646 MemoryController::IssueMemoryCommands *)
Definition IssueMemoryCommands (q : ReqPtr) : ST st bool :=
  r ← load_req q;
  writingArray ← on_memory (find_SubArray q);
  muxLevel ← ask_mc (λ b, mux_level b r);
  queueId ← ask_mc (λ b, GetCommandQueueId b (address r));
  cachedRequest ← MakeCachedRequest q;
  (* not a row buffer hit, and yet the memory can serve it *)
  direct ← (memory_IsIssuable cachedRequest .&&
            (notM (bank_active r) .|| notM (ask_mc (λ b, row_open b r muxLevel))));
  (if (direct : bool) then stamp_issue q;; push queueId q else mret ());;
  delete_req cachedRequest;;
  if (direct : bool) then mret true else
  active ← bank_active r;
  empty ← queue_empty queueId;
  rv ← (if negb active && empty then open_bank queueId writingArray muxLevel r q;; mret true
        else if negb active then mret false
        else
          open ← ask_mc (λ b, row_open b r muxLevel);
          if negb open && empty then switch_row queueId writingArray muxLevel r q;; mret true
          else if (open : bool) then hit_row queueId r q;; mret true
          else mret false);
  (if (rv : bool) then ScheduleCommandWake else mret ());;
  mret rv.

(** ** Issuing the commands of the queues *)

(** The head of the queue was issued. *)
(*| NVmain/src/MemoryController.cpp 1678-1712 MemoryController::CycleCommandQueues *)
Definition issue_head (queueId : Z) (queueHead : ReqPtr) : ST st unit :=
  _ ← on_memory (ch_IssueCommand queueHead);
  update_req queueHead (req_set FLAG_ISSUED);;
  r ← load_req queueHead;
  (if decide (type r = REFRESH) then set_mc_res (ResetRefreshQueued (GetBank (address r)) (GetRank (address r))) else mret ());;
  n ← now;
  set_mc (λ b, b <| lastIssueCycle := n |>);;
  schedule_once cb_Cleanup (n ⊕ 1) cleanupPriority;;
  l ← command_queue queueId;
  (if decide (length l = 1%nat) then
     more ← TransactionAvailable queueId;
     if (more : bool) then wake_transactions (n ⊕ 1) else mret ()
   else mret ());;
  set_mc MoveCurrentQueue.

(** The queues from [curQueue] on, until one can issue; a command that waits
    longer than [DeadlockTimer] ends the program. *)
Fixpoint cycle_queues (l : list Z) : ST st unit :=
  match l with
  | [] => mret ()
  | queueIdx :: l =>
      b ← mc; n ← now;
      queueId ← lift (umod (curQueue b ⊕ queueIdx) (commandQueueCount b));
      q ← command_queue queueId;
      match q with
      | [] => cycle_queues l
      | queueHead :: _ =>
          ready ← (holds (negb (lastIssueCycle b =? n)) .&& memory_IsIssuable queueHead);
          if (ready : bool) then issue_head queueId queueHead else
          r ← load_req queueHead;
          if n ⊖ issueCycle r >? DeadlockTimer (params b) then fail ExitCall else cycle_queues l
      end
  end.
(*| NVmain/src/MemoryController.cpp 1648-1745 MemoryController::CycleCommandQueues *)
Definition CycleCommandQueues : ST st unit :=
  b ← mc; n ← now;
  if handledRefresh b =? n then mret () else cycle_queues (seqZ 0 (commandQueueCount b)).

(*| NVmain/src/MemoryController.cpp 249-275 MemoryController::CommandQueueCallback *)
Definition CommandQueueCallback : ST st unit :=
  realSteps ← steps_since_wake;
  nextWakeup ← NextIssuable;
  count_wakeup;;
  found ← FindCallback this cb_CommandQueue nextWakeup 0 commandQueuePriority;
  (match found with
   | None => if negb (nextWakeup =? u64_max)
             then InsertCallback this cb_CommandQueue nextWakeup 0 commandQueuePriority else mret ()
   | Some _ => mret ()
   end);;
  CycleCommandQueues;;
  on_memory (ch_Cycle realSteps).

(** What the event queue calls. *)
Definition Callback (method : nat) (data : Z) : ST st unit :=
  if decide (method = cb_CommandQueue) then CommandQueueCallback
  else if decide (method = cb_Cleanup) then CleanupCallback
  else RefreshCallback data.

(** The statistics of the children are reporting; the memory is brought up to
    the present before. *)
(*| NVmain/src/MemoryController.cpp 1875-1885 MemoryController::CalculateStats *)
Definition CalculateStats : ST st unit :=
  b ← mc; n ← now;
  on_memory (ch_Cycle (n ⊖ lastCommandWake b));;
  set_mc (λ b, b <| simulation_cycles := n |>).

(** ** Configuration *)

(** The translation method of the channel; [channels] is the count of the
    parent's method. *)
(*| NVmain/src/MemoryController.cpp 360-384 MemoryController::SetConfig *)
Definition channel_method (m : TranslationMethod) (p : Params) (hasMATHeight : bool) (channels : Z) : res TranslationMethod :=
  rs ← (if hasMATHeight then s ← udiv (ROWS p) (MATHeight p); Ok (MATHeight p, s) else Ok (ROWS p, 1));
  r ← mlog2 rs.1; c ← mlog2 (COLS p); b ← mlog2 (BANKS p); k ← mlog2 (RANKS p); h ← mlog2 channels; s ← mlog2 rs.2;
  Ok (SetCount rs.1 (COLS p) (BANKS p) (RANKS p) channels rs.2 (SetBitWidths r c b k h s m)).

(** The kind and number of the command queues. *)
(*| NVmain/src/MemoryController.cpp 422-443 MemoryController::SetConfig *)
Definition queue_model (c : Config) (p : Params) (subArrays : Z) (name : string) : QueueModel * Z :=
  let banks := RANKS p ⊗ BANKS p in
  if KeyExists "QueueModel" c then
    if String.eqb name "PerRank" then (PerRankQueues, RANKS p)
    else if String.eqb name "PerBank" then (PerBankQueues, banks)
    else if String.eqb name "PerSubArray" then (PerSubArrayQueues, banks ⊗ subArrays)
    else (PerBankQueues, banks)
  else (PerBankQueues, banks).

(** The indices the arrays are allocated for. *)
Definition bank_indices (p : Params) : list (Z * Z) := all_banks p.
Definition array_indices (p : Params) (subArrays : Z) : list (Z * Z * Z) :=
  k ← all_banks p; sa ← seqZ 0 subArrays; [(k, sa)].
Definition filled {K V} `{Countable K} (l : list K) (v : V) : gmap K V := list_to_map ((λ k, (k, v)) <$> l).

(** The queues and the arrays. *)
(*| NVmain/src/MemoryController.cpp 447-501 MemoryController::SetConfig *)
Definition allocate (p : Params) (model : QueueModel) (queues subArrays : Z) (b : MemoryController) : MemoryController :=
  let bs := bank_indices p in
  let sas := array_indices p subArrays in
  b <| params := p |> <| subArrayNum := subArrays |> <| queueModel := model |> <| commandQueueCount := queues |>
    <| commandQueues := replicate (Z.to_nat queues) [] |>
    <| activateQueued := filled bs false |> <| refreshQueued := filled bs false |> <| bankNeedRefresh := filled bs false |>
    <| rankPowerDown := filled (seqZ 0 (RANKS p)) (if UseLowPower p then InitPD p else false) |>
    <| starvationCounter := filled sas 0 |> <| activeSubArray := filled sas false |>
    <| effectiveRow := filled sas (ROWS p) |> <| effectiveMuxedRow := filled sas (ROWS p) |>
    <| delayedRefreshCounter := ∅ |>.

(** The first refresh pulses, staggered over the groups of all ranks. *)
Fixpoint start_pulses (slice : Z) (l : list (Z * Z)) : ST st unit :=
  match l with
  | [] => mret ()
  | (i, j) :: l =>
      b ← mc;
      set_mc (λ b, b <| delayedRefreshCounter ::= <[(i, j) := 0]> |>);;
      refreshPulse ← MakeRefreshRequest 0 0 (j ⊗ BanksPerRefresh (params b)) i 0;
      n ← now;
      InsertCallback this cb_Refresh (n ⊕ m_tREFI b ⊕ (i ⊗ m_refreshBankNum b ⊕ j) ⊗ slice) (Z.pos refreshPulse)
        refreshPriority;;
      start_pulses slice l
  end.
(*| NVmain/src/MemoryController.cpp 503-551 MemoryController::SetConfig *)
Definition start_refresh : ST st unit :=
  b ← mc;
  let p := params b in
  if negb (UseRefresh p) then mret () else
  lift (cassert (BanksPerRefresh p <=? BANKS p));;
  lift (cassert (negb (BanksPerRefresh p =? 0)));;
  groups ← lift (udiv (BANKS p) (BanksPerRefresh p));
  set_mc (λ b, b <| m_refreshBankNum := groups |>);;
  refi ← lift (n ← udiv (ROWS p) (RefreshRows p); udiv (tREFW p) n);
  set_mc (λ b, b <| m_tREFI := refi |>);;
  slice ← lift (udiv refi (RANKS p ⊗ groups));
  start_pulses slice (i ← seqZ 0 (RANKS p); j ← seqZ 0 groups; [(i, j)]).

(** With the decoder [dec] of the factory, the method of the parent and the
    memory that the interconnect factory built in place. *)
(*| NVmain/src/MemoryController.cpp 338-557 MemoryController::SetConfig *)
Definition SetConfig (c : Config) (uninit : Z * Z * Z) (createChildren : bool) (channels : Z) (fresh : TranslationMethod)
    (dec : AddressTranslator) : ST st Config :=
  let '(u1, u2, u3) := uninit in
  '(_, (c, p)) ← lift (SetParams (c, Params_new u1 u2 u3));
  let mat := KeyExists "MATHeight" c in
  (if createChildren then
     m ← lift (channel_method fresh p mat channels);
     m ← lift (SetAddressMappingScheme (AddressMappingScheme p) m);
     set_mc (λ b, b <| mcAT := SetTranslationMethod m (SetDefaultField NO_FIELD dec) |>)
   else mret ());;
  subArrays ← lift (if mat then udiv (ROWS p) (MATHeight p) else Ok 1);
  '(name, c) ← lift (if KeyExists "QueueModel" c then GetString "QueueModel" c else Ok (EmptyString, c));
  let '(model, queues) := queue_model c p subArrays name in
  set_mc (allocate p model queues subArrays);;
  start_refresh;;
  mret c.
End Operations.
End MC.
