(* ===== verification/Schedulers.v ===== *)
(** * The scheduling policies

    NVmain/MemControl: FCFS takes the oldest request it can, FRFCFS prefers
    starved requests and row buffer hits, FRFCFS-WQF keeps writes in a queue of
    their own that it drains between two watermarks, PerfectMemory answers in
    the next cycle. *)

From S2P Require Import Prelude NVMTypes Translation Config Params SimInterface Heap EventQueue Frame Tree.
From S2P Require Import MemoryController.

(** ** Latencies

    The three controllers average the same three latencies of completed
    accesses. *)

Record Latencies := mkLatencies {
  averageLatency : double;
  averageQueueLatency : double;
  averageTotalLatency : double;
  measuredLatencies : Z;
  measuredQueueLatencies : Z;
  measuredTotalLatencies : Z
}.
#[export] Instance eta_Latencies : Settable Latencies := fields! mkLatencies
  < averageLatency; averageQueueLatency; averageTotalLatency; measuredLatencies; measuredQueueLatencies;
    measuredTotalLatencies >.
Definition Latencies_new : Latencies := mkLatencies dzero dzero dzero 0 0 0.

(** [(average * n + to - from) / (n + 1)]. *)
Definition running_average (average : double) (n to from : Z) : double :=
  ddiv (dsub (dadd (dmul average (d_of_Z n)) (d_of_Z to)) (d_of_Z from)) (d_of_Z (n ⊕ 1)).
Definition measure (r : NVMainRequest) (l : Latencies) : Latencies := {|
  averageLatency := running_average (averageLatency l) (measuredLatencies l) (completionCycle r) (issueCycle r);
  averageQueueLatency :=
    running_average (averageQueueLatency l) (measuredQueueLatencies l) (issueCycle r) (arrivalCycle r);
  averageTotalLatency :=
    running_average (averageTotalLatency l) (measuredTotalLatencies l) (completionCycle r) (arrivalCycle r);
  measuredLatencies := measuredLatencies l ⊕ 1;
  measuredQueueLatencies := measuredQueueLatencies l ⊕ 1;
  measuredTotalLatencies := measuredTotalLatencies l ⊕ 1 |}.

Definition is_access (t : OpType) : bool :=
  match t with READ | READ_PRECHARGE | WRITE | WRITE_PRECHARGE => true | _ => false end.
Definition is_write (t : OpType) : bool := match t with WRITE | WRITE_PRECHARGE => true | _ => false end.
Definition put_back (r : NVMainRequest) : bool :=
  is_write (type r) && (req_has FLAG_CANCELLED r || req_has FLAG_PAUSED r).

Section Completion.
Context {B C : Type} `{MC.Controller B}.
Variable this : ObjPtr.
Variable parent_RequestComplete : ReqPtr → ST (Sim (Node B C)) bool.
Variable upd_lat : (Latencies → Latencies) → B → B.

(** An access is stamped and measured, then the base class takes over. *)
Definition complete_access (q : ReqPtr) : ST (Sim (Node B C)) bool :=
  r ← load_req q;
  (if is_access (type r) then
     n ← now;
     let r := r <| status := MEM_REQUEST_COMPLETE |> <| completionCycle := n |> in
     store_req q r;; set_me (upd_lat (measure r))
   else mret ());;
  MC.RequestComplete this parent_RequestComplete q.

(** Cancelled and paused writes go back to the head of queue [tq]. *)
Definition complete_or_requeue (tq : Z) (q : ReqPtr) : ST (Sim (Node B C)) bool :=
  r ← load_req q;
  if put_back r then MC.set_mc_res (MC.Prequeue tq q);; mret true else complete_access q.
End Completion.

(** A number of the configuration as an [unsigned int]. *)
Definition config_uint (key : string) (c : Config) (old : Z) : res (Z * Config) :=
  if KeyExists key c then '(v, c) ← GetValue key c; Ok (u32 v, c) else Ok (old, c).
