(* ===== verification/FRFCFSControl.v ===== *)
(** * First ready, first come first serve

    NVmain/MemControl/FRFCFS: row buffer hits go first, unless a request starves. *)

From S2P Require Import Prelude NVMTypes Translation Config Params SimInterface Heap EventQueue Frame Tree.
From S2P Require Import MemoryController.
From S2P Require Import Schedulers.

Module FRFCFS.

(*| NVmain/MemControl/FRFCFS/FRFCFS.h 60-72 FRFCFS *)
Record FRFCFS := mkFRFCFS {
  base : MC.MemoryController;
  queueSize : Z;
  lat : Latencies;
  mem_reads : Z;
  mem_writes : Z;
  rb_hits : Z;
  rb_miss : Z;
  starvation_precharges : Z;
  write_pauses : Z
}.
#[global] Instance eta_FRFCFS : Settable FRFCFS := fields! mkFRFCFS
  < base; queueSize; lat; mem_reads; mem_writes; rb_hits; rb_miss; starvation_precharges; write_pauses >.

#[global] Instance FRFCFS_controller : MC.Controller FRFCFS :=
  {| MC.ctl := base; MC.upd_ctl f b := b <| base ::= f |> |}.
#[global] Instance FRFCFS_laws : MC.ControllerLaws FRFCFS.
Proof. split; [done| |done]. intros f [] E. cbn in *. unfold upd. cbn. by rewrite E. Qed.

(** [base] is the constructed base class; the queue pointer is transaction
    queue 0. *)
(*| NVmain/MemControl/FRFCFS/FRFCFS.cpp 52-83 FRFCFS::FRFCFS *)
Definition FRFCFS_new (base : MC.MemoryController) : FRFCFS :=
  mkFRFCFS (MC.InitQueues 1 (base <| MC.starvationThreshold := 4 |>)) 32 Latencies_new 0 0 0 0 0 0.

Section Operations.
Context {C : Type} `{ChildOps C} `{MemoryOps C}.
Variable this : ObjPtr.
Variable out : six.
Variable parent_RequestComplete : ReqPtr → ST (Sim (Node FRFCFS C)) bool.

Abbreviation st := (Sim (Node FRFCFS C)) (only parsing).

Definition memQueue : ST st (list ReqPtr) := MC.transaction_queue 0.

(*| NVmain/MemControl/FRFCFS/FRFCFS.cpp 126-139 FRFCFS::IsIssuable *)
Definition IsIssuable (q : ReqPtr) : ST st (bool * option FailReasons) :=
  l ← memQueue; b ← me; mret (negb (Z.of_nat (length l) >=? queueSize b), None).

(*| NVmain/MemControl/FRFCFS/FRFCFS.cpp 145-169 FRFCFS::IssueCommand *)
Definition IssueCommand (q : ReqPtr) : ST st bool :=
  '(ok, _) ← IsIssuable q;
  if negb ok then mret false else
  n ← now;
  MC.update_req q (λ r, r <| arrivalCycle := n |>);;
  MC.Enqueue this out 0 q;;
  r ← load_req q;
  set_me (λ b, if decide (type r = READ) then b <| mem_reads ::= λ x, x ⊕ 1 |> else b <| mem_writes ::= λ x, x ⊕ 1 |>);;
  mret true.

(*| NVmain/MemControl/FRFCFS/FRFCFS.cpp 171-218 FRFCFS::RequestComplete *)
Definition RequestComplete : ReqPtr → ST st bool :=
  complete_or_requeue this parent_RequestComplete (λ f b, b <| lat ::= f |>) 0.

Definition miss (b : FRFCFS) : FRFCFS := b <| rb_miss ::= λ x, x ⊕ 1 |>.

(** The request that is served next. *)
(*| NVmain/MemControl/FRFCFS/FRFCFS.cpp 222-257 FRFCFS::Cycle *)
Definition next_request : ST st (option ReqPtr) :=
  '(ok, q) ← MC.FindStarvedRequest MC.DummyPredicate 0;
  if (ok : bool) then set_me (λ b, (miss b) <| starvation_precharges ::= λ x, x ⊕ 1 |>);; mret q else
  '(ok, q) ← MC.FindRowBufferHit MC.DummyPredicate 0;
  if (ok : bool) then set_me (λ b, b <| rb_hits ::= λ x, x ⊕ 1 |>);; mret q else
  '(ok, q) ← MC.FindCachedAddress this MC.DummyPredicate 0;
  if (ok : bool) then mret q else
  '(ok, q) ← MC.FindWriteStalledRead this MC.DummyPredicate 0;
  if (ok : bool) then
    (match q with Some _ => set_me (λ b, b <| write_pauses ::= λ x, x ⊕ 1 |>) | None => mret () end);; mret q
  else
  '(ok, q) ← MC.FindOldestReadyRequest MC.DummyPredicate 0;
  if (ok : bool) then set_me miss;; mret q else
  '(ok, q) ← MC.FindClosedBankRequest MC.DummyPredicate 0;
  if (ok : bool) then set_me miss;; mret q else mret None.

(*| NVmain/MemControl/FRFCFS/FRFCFS.cpp 220-269 FRFCFS::Cycle *)
Definition Cycle (steps : Z) : ST st unit :=
  nextRequest ← next_request;
  (match nextRequest with Some q => _ ← MC.IssueMemoryCommands this q; mret () | None => mret () end);;
  MC.CycleCommandQueues this;;
  MC.Cycle this steps.

(*| NVmain/MemControl/FRFCFS/FRFCFS.cpp 91-106 FRFCFS::SetConfig *)
Definition SetConfig (c : Config) (uninit : Z * Z * Z) (createChildren : bool) (channels : Z) (fresh : TranslationMethod)
    (dec : AddressTranslator) : ST st Config :=
  b ← me;
  '(v, c) ← lift (config_uint "StarvationThreshold" c (MC.starvationThreshold (base b)));
  MC.set_mc (λ m, m <| MC.starvationThreshold := v |>);;
  '(v, c) ← lift (config_uint "QueueSize" c (queueSize b));
  set_me (λ b, b <| queueSize := v |>);;
  MC.SetConfig this c uninit createChildren channels fresh dec.

(*| NVmain/MemControl/FRFCFS/FRFCFS.cpp 271-274 FRFCFS::CalculateStats *)
Definition CalculateStats : ST st unit := MC.CalculateStats.
End Operations.
End FRFCFS.
