(* ===== verification/FCFSControl.v ===== *)
(** * First come first serve

    NVmain/MemControl/FCFS: the oldest request whose bank is ready goes first. *)

From S2P Require Import Prelude NVMTypes Translation Config Params SimInterface Heap EventQueue Frame Tree.
From S2P Require Import MemoryController.
From S2P Require Import Schedulers.

Module FCFS.

(*| NVmain/MemControl/FCFS/FCFS.h 59-66 FCFS *)
Record FCFS := mkFCFS {
  base : MC.MemoryController;
  queueSize : Z;
  lat : Latencies;
  mem_reads : Z;
  mem_writes : Z;
  rb_hits : Z;
  rb_miss : Z
}.
#[global] Instance eta_FCFS : Settable FCFS := fields! mkFCFS
  < base; queueSize; lat; mem_reads; mem_writes; rb_hits; rb_miss >.
#[global] Instance FCFS_controller : MC.Controller FCFS :=
  {| MC.ctl := base; MC.upd_ctl f b := b <| base ::= f |> |}.
#[global] Instance FCFS_laws : MC.ControllerLaws FCFS.
Proof. split; [done| |done]. intros f [] E. cbn in *. unfold upd. cbn. by rewrite E. Qed.

(*| NVmain/MemControl/FCFS/FCFS.cpp 51-74 FCFS::FCFS *)
Definition FCFS_new (base : MC.MemoryController) : FCFS := mkFCFS (MC.InitQueues 1 base) 32 Latencies_new 0 0 0 0.

Section Operations.
Context {C : Type} `{ChildOps C} `{MemoryOps C}.
Variable this : ObjPtr.
Variable out : six.
Variable parent_RequestComplete : ReqPtr → ST (Sim (Node FCFS C)) bool.

Abbreviation st := (Sim (Node FCFS C)) (only parsing).

(*| NVmain/MemControl/FCFS/FCFS.cpp 143-152 FCFS::IsIssuable *)
Definition IsIssuable (q : ReqPtr) : ST st (bool * option FailReasons) :=
  l ← MC.transaction_queue 0; b ← me; mret (negb (Z.of_nat (length l) >=? queueSize b), None).

(** The cycle of arrival is not recorded. *)
(*| NVmain/MemControl/FCFS/FCFS.cpp 158-175 FCFS::IssueCommand *)
Definition IssueCommand (q : ReqPtr) : ST st bool :=
  '(ok, _) ← IsIssuable q;
  if negb ok then mret false else
  r ← load_req q;
  set_me (λ b, if decide (type r = READ) then b <| mem_reads ::= λ x, x ⊕ 1 |> else b <| mem_writes ::= λ x, x ⊕ 1 |>);;
  MC.Enqueue this out 0 q;;
  mret true.

(*| NVmain/MemControl/FCFS/FCFS.cpp 104-141 FCFS::RequestComplete *)
Definition RequestComplete : ReqPtr → ST st bool :=
  complete_access this parent_RequestComplete (λ f b, b <| lat ::= f |>).

(*| NVmain/MemControl/FCFS/FCFS.cpp 179-186 FCFS::Cycle *)
Definition next_request : ST st (option ReqPtr) :=
  '(ok, q) ← MC.FindOldestReadyRequest MC.DummyPredicate 0;
  if (ok : bool) then mret q else '(_, q) ← MC.FindClosedBankRequest MC.DummyPredicate 0; mret q.

(*| NVmain/MemControl/FCFS/FCFS.cpp 177-196 FCFS::Cycle *)
Definition Cycle (steps : Z) : ST st unit :=
  nextReq ← next_request;
  (match nextReq with Some q => _ ← MC.IssueMemoryCommands this q; mret () | None => mret () end);;
  MC.CycleCommandQueues this;;
  MC.Cycle this steps.

(*| NVmain/MemControl/FCFS/FCFS.cpp 76-86 FCFS::SetConfig *)
Definition SetConfig (c : Config) (uninit : Z * Z * Z) (createChildren : bool) (channels : Z) (fresh : TranslationMethod)
    (dec : AddressTranslator) : ST st Config :=
  b ← me;
  '(v, c) ← lift (config_uint "QueueSize" c (queueSize b));
  set_me (λ b, b <| queueSize := v |>);;
  MC.SetConfig this c uninit createChildren channels fresh dec.

(*| NVmain/MemControl/FCFS/FCFS.cpp 198-201 FCFS::CalculateStats *)
Definition CalculateStats : ST st unit := MC.CalculateStats.
End Operations.
End FCFS.
