(* ===== verification/WQFControl.v ===== *)
(** * FRFCFS with a write queue

    NVmain/MemControl/FRFCFS-WQF: writes wait in a queue of their own, which is
    drained from a high to a low watermark. *)

From S2P Require Import Prelude NVMTypes Translation Config Params SimInterface Heap EventQueue Frame Tree.
From S2P Require Import MemoryController.
From S2P Require Import Schedulers.

Module WQF.

(** The statistics of the drains; the averages are reporting. *)
(*| NVmain/MemControl/FRFCFS-WQF/FRFCFS-WQF.h 105-123 FRFCFS_WQF *)
Record DrainStats := mkDrainStats {
  total_drain_writes : Z;
  minimum_drain_writes : Z;
  maximum_drain_writes : Z;
  total_drains : Z;
  total_drain_cycles : Z;
  maximum_drain_cycles : Z;
  minimum_drain_cycles : Z;
  total_reads_during_drain : Z;
  minimum_reads_during_drain : Z;
  maximum_reads_during_drain : Z;
  total_readqueue_size : Z;
  minimum_predrain_readqueue_size : Z;
  maximum_predrain_readqueue_size : Z;
  total_non_drain_cycles : Z;
  minimum_drain_spacing : Z;
  maximum_drain_spacing : Z;
  total_read_cycles : Z;
  minimum_read_spacing : Z;
  maximum_read_spacing : Z
}.
#[global] Instance eta_DrainStats : Settable DrainStats := fields! mkDrainStats
  < total_drain_writes; minimum_drain_writes; maximum_drain_writes; total_drains; total_drain_cycles;
    maximum_drain_cycles; minimum_drain_cycles; total_reads_during_drain; minimum_reads_during_drain;
    maximum_reads_during_drain; total_readqueue_size; minimum_predrain_readqueue_size;
    maximum_predrain_readqueue_size; total_non_drain_cycles; minimum_drain_spacing; maximum_drain_spacing;
    total_read_cycles; minimum_read_spacing; maximum_read_spacing >.
Definition DrainStats_new : DrainStats :=
  let huge := 10000000000 in
  mkDrainStats 0 huge 0 0 0 0 huge 0 huge 0 0 huge 0 0 huge 0 0 huge 0.

(*| NVmain/MemControl/FRFCFS-WQF/FRFCFS-WQF.h 67-104 FRFCFS_WQF *)
Record FRFCFS_WQF := mkFRFCFS_WQF {
  base : MC.MemoryController;
  writeQueueSize : Z;
  readQueueSize : Z;
  HighWaterMark : Z;
  LowWaterMark : Z;
  m_draining : bool;
  force_drain : bool;
  m_request_per_drain : Z;
  m_drain_start_cycle : Z;
  m_drain_end_cycle : Z;
  m_drain_start_readqueue_size : Z;
  m_drain_end_readqueue_size : Z;
  m_last_drain_end_cycle : Z;
  lat : Latencies;
  mem_reads : Z;
  mem_writes : Z;
  starvation_precharges : Z;
  rq_rb_hits : Z;
  rq_rb_miss : Z;
  wq_rb_hits : Z;
  wq_rb_miss : Z;
  drains : DrainStats
}.
#[global] Instance eta_FRFCFS_WQF : Settable FRFCFS_WQF := fields! mkFRFCFS_WQF
  < base; writeQueueSize; readQueueSize; HighWaterMark; LowWaterMark; m_draining; force_drain; m_request_per_drain;
    m_drain_start_cycle; m_drain_end_cycle; m_drain_start_readqueue_size; m_drain_end_readqueue_size;
    m_last_drain_end_cycle; lat; mem_reads; mem_writes; starvation_precharges; rq_rb_hits; rq_rb_miss; wq_rb_hits;
    wq_rb_miss; drains >.
#[global] Instance WQF_controller : MC.Controller FRFCFS_WQF :=
  {| MC.ctl := base; MC.upd_ctl f b := b <| base ::= f |> |}.
#[global] Instance WQF_laws : MC.ControllerLaws FRFCFS_WQF.
Proof. split; [done| |done]. intros f [] E. cbn in *. unfold upd. cbn. by rewrite E. Qed.

Definition readQueueId : Z := 0.
Definition writeQueueId : Z := 1.

(*| NVmain/MemControl/FRFCFS-WQF/FRFCFS-WQF.cpp 49-126 FRFCFS_WQF::FRFCFS_WQF *)
Definition FRFCFS_WQF_new (base : MC.MemoryController) : FRFCFS_WQF :=
  mkFRFCFS_WQF (MC.InitQueues 2 (base <| MC.starvationThreshold := 4 |>)) 8 32 8 0 false false 0 0 0 0 0 0
    Latencies_new 0 0 0 0 0 0 0 DrainStats_new.

(** The watermarks as the configuration leaves them. *)
(*| NVmain/MemControl/FRFCFS-WQF/FRFCFS-WQF.cpp 160-172 FRFCFS_WQF::SetConfig *)
Definition check_watermarks (b : FRFCFS_WQF) : FRFCFS_WQF :=
  if HighWaterMark b >? writeQueueSize b then b <| HighWaterMark := writeQueueSize b |>
  else if LowWaterMark b >? HighWaterMark b then b <| LowWaterMark := 0 |>
  else b.

(** [if( minimum > x ) minimum = x; else if( maximum < x ) maximum = x;]. *)
Definition min_max (x lo hi : Z) : Z * Z := if lo >? x then (x, hi) else if hi <? x then (lo, x) else (lo, hi).

(** The end of a drain in the statistics. *)
(*| NVmain/MemControl/FRFCFS-WQF/FRFCFS-WQF.cpp 354-418 FRFCFS_WQF::Cycle *)
Definition count_drain (b : FRFCFS_WQF) (d : DrainStats) : DrainStats :=
  let tmpEnterReadQueue := m_drain_end_readqueue_size b ⊖ m_drain_start_readqueue_size b in
  let tmpDuration := m_drain_end_cycle b ⊖ m_drain_start_cycle b in
  let tmpInterval := m_drain_end_cycle b ⊖ m_last_drain_end_cycle b in
  let tmpReadDuration := tmpInterval ⊖ tmpDuration in
  let rs := min_max (m_drain_start_readqueue_size b) (minimum_predrain_readqueue_size d) (maximum_predrain_readqueue_size d) in
  let rd := min_max tmpEnterReadQueue (minimum_reads_during_drain d) (maximum_reads_during_drain d) in
  let wr := min_max (m_request_per_drain b) (minimum_drain_writes d) (maximum_drain_writes d) in
  let sp := min_max tmpInterval (minimum_drain_spacing d) (maximum_drain_spacing d) in
  let re := min_max tmpReadDuration (minimum_read_spacing d) (maximum_read_spacing d) in
  let cy := if maximum_drain_cycles d <? tmpDuration then (tmpDuration, minimum_drain_cycles d)
            else if minimum_drain_cycles d >? tmpDuration then (maximum_drain_cycles d, tmpDuration)
            else (maximum_drain_cycles d, minimum_drain_cycles d) in
  {| total_drain_writes := total_drain_writes d ⊕ m_request_per_drain b;
     minimum_drain_writes := wr.1; maximum_drain_writes := wr.2;
     total_drains := total_drains d ⊕ 1;
     total_drain_cycles := total_drain_cycles d ⊕ tmpDuration;
     maximum_drain_cycles := cy.1; minimum_drain_cycles := cy.2;
     total_reads_during_drain := total_reads_during_drain d ⊕ tmpEnterReadQueue;
     minimum_reads_during_drain := rd.1; maximum_reads_during_drain := rd.2;
     total_readqueue_size := total_readqueue_size d ⊕ m_drain_start_readqueue_size b;
     minimum_predrain_readqueue_size := rs.1; maximum_predrain_readqueue_size := rs.2;
     total_non_drain_cycles := total_non_drain_cycles d ⊕ tmpInterval;
     minimum_drain_spacing := sp.1; maximum_drain_spacing := sp.2;
     total_read_cycles := total_read_cycles d ⊕ tmpReadDuration;
     minimum_read_spacing := re.1; maximum_read_spacing := re.2 |}.

(** The switch between reads and drains; [rn] and [wn] are the sizes of the
    queues. *)
(*| NVmain/MemControl/FRFCFS-WQF/FRFCFS-WQF.cpp 335-428 FRFCFS_WQF::Cycle *)
Definition switch_drain (now rn wn : Z) (b : FRFCFS_WQF) : FRFCFS_WQF :=
  if negb (m_draining b) && (wn >=? HighWaterMark b) && negb (force_drain b) then
    b <| m_drain_start_cycle := now |> <| m_drain_start_readqueue_size := rn |> <| m_draining := true |>
  else if m_draining b && (wn <=? LowWaterMark b) && negb (force_drain b) then
    let b := b <| m_drain_end_cycle := now |> in
    let b := if m_last_drain_end_cycle b =? 0 then b else
      let b := b <| m_drain_end_readqueue_size := rn |> in b <| drains ::= count_drain b |> in
    b <| m_request_per_drain := 0 |> <| m_last_drain_end_cycle := now |> <| m_draining := false |>
  else b.

Section Operations.
Context {C : Type} `{ChildOps C} `{MemoryOps C}.
Variable this : ObjPtr.
Variable out : six.
Variable parent_RequestComplete : ReqPtr → ST (Sim (Node FRFCFS_WQF C)) bool.

Abbreviation st := (Sim (Node FRFCFS_WQF C)) (only parsing).

Definition queue_size (tq : Z) : ST st Z := l ← MC.transaction_queue tq; mret (Z.of_nat (length l)).

(*| NVmain/MemControl/FRFCFS-WQF/FRFCFS-WQF.cpp 230-243 FRFCFS_WQF::IsIssuable *)
Definition IsIssuable (q : ReqPtr) : ST st (bool * option FailReasons) :=
  r ← load_req q; b ← me;
  rn ← queue_size readQueueId; wn ← queue_size writeQueueId;
  let full := match type r with
    | READ => rn >=? readQueueSize b
    | WRITE => (wn >=? writeQueueSize b) || m_draining b || force_drain b
    | _ => false end in
  mret (negb full, None).

(*| NVmain/MemControl/FRFCFS-WQF/FRFCFS-WQF.cpp 245-273 FRFCFS_WQF::IssueCommand *)
Definition IssueCommand (q : ReqPtr) : ST st bool :=
  '(ok, _) ← IsIssuable q;
  if negb ok then mret false else
  n ← now;
  MC.update_req q (λ r, r <| arrivalCycle := n |>);;
  r ← load_req q;
  match type r with
  | READ => MC.Enqueue this out readQueueId q;; set_me (λ b, b <| mem_reads ::= λ x, x ⊕ 1 |>);; mret true
  | WRITE => MC.Enqueue this out writeQueueId q;; set_me (λ b, b <| mem_writes ::= λ x, x ⊕ 1 |>);; mret true
  | _ => mret false
  end.

(*| NVmain/MemControl/FRFCFS-WQF/FRFCFS-WQF.cpp 275-331 FRFCFS_WQF::RequestComplete *)
Definition RequestComplete : ReqPtr → ST st bool :=
  complete_or_requeue this parent_RequestComplete (λ f b, b <| lat ::= f |>) writeQueueId.

(** One more write of the drain. *)
Definition drained (b : FRFCFS_WQF) : FRFCFS_WQF := b <| m_request_per_drain ::= λ x, x ⊕ 1 |>.
Definition wq_miss (b : FRFCFS_WQF) : FRFCFS_WQF := drained (b <| wq_rb_miss ::= λ x, x ⊕ 1 |>).
Definition rq_miss (b : FRFCFS_WQF) : FRFCFS_WQF := b <| rq_rb_miss ::= λ x, x ⊕ 1 |>.

(** The order of the choices is the same for both queues. *)
Definition next_of (tq : Z) (miss hit : FRFCFS_WQF → FRFCFS_WQF) : ST st (option ReqPtr) :=
  '(ok, q) ← MC.FindStarvedRequest MC.DummyPredicate tq;
  if (ok : bool) then set_me (λ b, (miss b) <| starvation_precharges ::= λ x, x ⊕ 1 |>);; mret q else
  '(ok, q) ← MC.FindRowBufferHit MC.DummyPredicate tq;
  if (ok : bool) then set_me hit;; mret q else
  '(ok, q) ← MC.FindCachedAddress this MC.DummyPredicate tq;
  if (ok : bool) then mret q else
  '(ok, q) ← MC.FindOldestReadyRequest MC.DummyPredicate tq;
  if (ok : bool) then set_me miss;; mret q else
  '(ok, q) ← MC.FindClosedBankRequest MC.DummyPredicate tq;
  if (ok : bool) then set_me miss;; mret q else mret q.

(*| NVmain/MemControl/FRFCFS-WQF/FRFCFS-WQF.cpp 442-495 FRFCFS_WQF::Cycle *)
Definition next_request : ST st (option ReqPtr) :=
  b ← me; rn ← queue_size readQueueId;
  if m_draining b || (force_drain b && (rn =? 0)) then
    next_of writeQueueId wq_miss (λ b, drained (b <| wq_rb_hits ::= λ x, x ⊕ 1 |>))
  else next_of readQueueId rq_miss (λ b, b <| rq_rb_hits ::= λ x, x ⊕ 1 |>).

(*| NVmain/MemControl/FRFCFS-WQF/FRFCFS-WQF.cpp 333-511 FRFCFS_WQF::Cycle *)
Definition Cycle (steps : Z) : ST st unit :=
  n ← now; rn ← queue_size readQueueId; wn ← queue_size writeQueueId;
  set_me (switch_drain n rn wn);;
  nextRequest ← next_request;
  (match nextRequest with
   | Some q =>
       b ← me;
       (if m_draining b || force_drain b then MC.update_req q (req_set FLAG_FORCED) else mret ());;
       _ ← MC.IssueMemoryCommands this q; mret ()
   | None => mret ()
   end);;
  MC.CycleCommandQueues this;;
  MC.Cycle this steps.

(*| NVmain/MemControl/FRFCFS-WQF/FRFCFS-WQF.cpp 132-177 FRFCFS_WQF::SetConfig *)
Definition SetConfig (c : Config) (uninit : Z * Z * Z) (createChildren : bool) (channels : Z) (fresh : TranslationMethod)
    (dec : AddressTranslator) : ST st Config :=
  b ← me;
  '(v, c) ← lift (config_uint "StarvationThreshold" c (MC.starvationThreshold (base b)));
  MC.set_mc (λ m, m <| MC.starvationThreshold := v |>);;
  '(v, c) ← lift (config_uint "ReadQueueSize" c (readQueueSize b)); set_me (λ b, b <| readQueueSize := v |>);;
  '(v, c) ← lift (config_uint "WriteQueueSize" c (writeQueueSize b)); set_me (λ b, b <| writeQueueSize := v |>);;
  '(v, c) ← lift (config_uint "HighWaterMark" c (HighWaterMark b)); set_me (λ b, b <| HighWaterMark := v |>);;
  '(v, c) ← lift (config_uint "LowWaterMark" c (LowWaterMark b)); set_me (λ b, b <| LowWaterMark := v |>);;
  set_me check_watermarks;;
  MC.SetConfig this c uninit createChildren channels fresh dec.

(*| NVmain/MemControl/FRFCFS-WQF/FRFCFS-WQF.cpp 537-542 FRFCFS_WQF::Drain *)
Definition Drain : ST st bool := set_me (λ b, b <| force_drain := true |>);; mret true.
End Operations.
End WQF.
