(* ===== verification/PerfectControl.v ===== *)
(** * Perfect memory

    NVmain/MemControl/PerfectMemory: every request is answered in the next cycle. *)

From S2P Require Import Prelude NVMTypes Translation Config Params SimInterface Heap EventQueue Frame Tree.
From S2P Require Import MemoryController.
From S2P Require Import Schedulers.

Module Perfect.
Section Operations.
Context {O : Type}.
Variable this : ObjPtr.

(*| NVmain/MemControl/PerfectMemory/PerfectMemory.cpp 66-76 PerfectMemory::IssueCommand *)
Definition IssueCommand (q : ReqPtr) : ST (Sim O) bool :=
  n ← now; InsertEvent_obj EventResponse this (Some q) (n ⊕ 1) 0 0;; mret true.
(*| NVmain/MemControl/PerfectMemory/PerfectMemory.cpp 78-80 PerfectMemory::Cycle *)
Definition Cycle (steps : Z) : ST (Sim O) unit := mret ().
End Operations.
End Perfect.
