(* ===== verification/CommandQueues.v ===== *)
(** * Command queues of the memory controller

    Which command queue an address goes to: the numbers are in range, and two
    addresses share a queue exactly when the queue model says so. *)

From S2P Require Import Prelude NVMTypes Translation Config Params SimInterface Heap EventQueue Frame Tree.
From S2P Require Import MemoryController.
Import MC.

(** What the queue model separates. *)
Definition queue_key (m : QueueModel) (a : NVMAddress) : Z * Z * Z :=
  match m with
  | PerRankQueues => (GetRank a, 0, 0)
  | PerBankQueues => (GetRank a, GetBank a, 0)
  | PerSubArrayQueues => (GetRank a, GetBank a, GetSubArray a)
  end.

(** The addresses of the channel. *)
Definition in_channel (b : MemoryController) (a : NVMAddress) : Prop :=
  0 ≤ GetRank a < RANKS (params b) ∧ 0 ≤ GetBank a < BANKS (params b) ∧ 0 ≤ GetSubArray a < subArrayNum b.

(** The number of queues the configuration creates ([queue_model]); the product
    is a 64-bit number. *)
Definition queues_configured (b : MemoryController) : Prop :=
  RANKS (params b) * BANKS (params b) * subArrayNum b < 18446744073709551616 ∧
  commandQueueCount b = match queueModel b with
    | PerRankQueues => RANKS (params b)
    | PerBankQueues => RANKS (params b) ⊗ BANKS (params b)
    | PerSubArrayQueues => RANKS (params b) ⊗ BANKS (params b) ⊗ subArrayNum b
    end.

(** The schemes that number the queues of the banks. *)
Definition scheduled (b : MemoryController) : Prop :=
  queueModel b = PerBankQueues → ScheduleScheme (params b) = 1 ∨ ScheduleScheme (params b) = 2.

Lemma radix2 n m i j : 0 ≤ i < n → 0 ≤ j < m → 0 ≤ i * m + j < n * m.
Proof. nia. Qed.

Lemma radix2_inj m i j i' j' : 0 ≤ j < m → 0 ≤ j' < m → i * m + j = i' * m + j' → i = i' ∧ j = j'.
Proof. intros. assert (i = i') by nia. subst. split; [done|lia]. Qed.

(** The number of the queue without the machine arithmetic. *)
Definition plain_id (b : MemoryController) (a : NVMAddress) : Z :=
  match queueModel b with
  | PerRankQueues => GetRank a
  | PerBankQueues =>
      if ScheduleScheme (params b) =? 1 then GetBank a * RANKS (params b) + GetRank a
      else GetRank a * BANKS (params b) + GetBank a
  | PerSubArrayQueues => (GetRank a * BANKS (params b) + GetBank a) * subArrayNum b + GetSubArray a
  end.

Section Ids.
Variable b : MemoryController.
Hypothesis Hconf : queues_configured b.
Hypothesis Hs : scheduled b.

(** The factors of the product are 64-bit numbers too. *)
Lemma factors_u64 a : in_channel b a →
  0 < RANKS (params b) ∧ 0 < BANKS (params b) ∧ 0 < subArrayNum b ∧
  is_u64 (RANKS (params b)) ∧ is_u64 (RANKS (params b) * BANKS (params b)) ∧
  is_u64 (RANKS (params b) * BANKS (params b) * subArrayNum b).
Proof using Hconf.
  intros (Hr & Hk & Ha). destruct Hconf as [Hprod _]. unfold is_u64.
  set (R := RANKS (params b)) in *. set (K := BANKS (params b)) in *. set (S := subArrayNum b) in *.
  assert (0 < R * K) by (apply Z.mul_pos_pos; lia).
  assert (R * K * 1 ≤ R * K * S) by (apply Z.mul_le_mono_nonneg_l; lia).
  assert (R * 1 ≤ R * K) by (apply Z.mul_le_mono_nonneg_l; lia). lia.
Qed.

Lemma plain_id_range a : in_channel b a → 0 ≤ plain_id b a < commandQueueCount b.
Proof using Hconf Hs.
  intros Hin. destruct (factors_u64 a Hin) as (H1 & H2 & H3 & H4 & H5 & H6). destruct Hin as (Hr & Hk & Ha).
  destruct Hconf as [_ Hn]. unfold plain_id. rewrite Hn. destruct (queueModel b) eqn:Em; [done|..].
  - rewrite u64_small by done.
    destruct (Z.eqb_spec (ScheduleScheme (params b)) 1); [rewrite (Z.mul_comm (RANKS _))|]; by apply radix2.
  - rewrite (u64_small (RANKS _ * _)) by done. rewrite u64_small by done. apply radix2; [by apply radix2|done].
Qed.

Lemma GetCommandQueueId_ok a : in_channel b a → GetCommandQueueId b a = Ok (plain_id b a).
Proof using Hconf Hs.
  intros Hin. pose proof (plain_id_range a Hin) as Hid. destruct (factors_u64 a Hin) as (H1 & H2 & H3 & H4 & H5 & H6).
  destruct Hin as (Hr & Hk & Ha). pose proof (radix2 _ _ _ _ Hr Hk) as Hrk. pose proof (radix2 _ _ _ _ Hrk Ha) as Hrka.
  pose proof (radix2 _ _ _ _ Hk Hr) as Hkr. unfold is_u64 in *.
  assert (GetCommandQueueId b a = (_ ← cassert (plain_id b a <? commandQueueCount b); Ok (plain_id b a))) as ->.
  { unfold GetCommandQueueId, plain_id in *. destruct (queueModel b) eqn:Em; [done|..].
    - destruct (Z.eqb_spec (ScheduleScheme (params b)) 1) as [E|E].
      + rewrite (u64_small (_ * _)) by (unfold is_u64; lia). by rewrite u64_small by (unfold is_u64; lia).
      + destruct (Hs Em) as [?| ->]; [done|]. cbn [Z.eqb Pos.eqb].
        rewrite (u64_small (_ * _)) by (unfold is_u64; lia). by rewrite u64_small by (unfold is_u64; lia).
    - pose proof (Z.mul_add_distr_r (GetRank a * BANKS (params b)) (GetBank a) (subArrayNum b)) as E.
      assert (0 ≤ GetRank a * BANKS (params b)) by nia. assert (0 ≤ GetBank a * subArrayNum b) by nia.
      assert (0 ≤ GetRank a * BANKS (params b) * subArrayNum b) by nia.
      rewrite (u64_small (GetRank a * BANKS (params b))) by (unfold is_u64; lia).
      rewrite (u64_small (GetRank a * _ * _)), (u64_small (GetBank a * _)) by (unfold is_u64; lia).
      rewrite (u64_small (GetRank a * _ * _ + _)) by (unfold is_u64; lia). rewrite <- E. by rewrite u64_small by (unfold is_u64; lia). }
  unfold cassert. destruct (Z.ltb_spec (plain_id b a) (commandQueueCount b)); [done|lia].
Qed.

Lemma plain_id_key a a' :
  in_channel b a → in_channel b a' →
  plain_id b a = plain_id b a' ↔ queue_key (queueModel b) a = queue_key (queueModel b) a'.
Proof using Hs.
  intros (Hr & Hk & Ha) (Hr' & Hk' & Ha'). unfold plain_id, queue_key. destruct (queueModel b) eqn:Em.
  - split; congruence.
  - destruct (Z.eqb_spec (ScheduleScheme (params b)) 1).
    + split; [|congruence]. intros [-> ->]%radix2_inj; done.
    + split; [|congruence]. intros [-> ->]%radix2_inj; done.
  - split; [|congruence]. intros [[-> ->]%radix2_inj ->]%radix2_inj; done.
Qed.
End Ids.

(** C24. The command queues divide the channel: every address of the channel has
    a queue within the queues the configuration made, and two addresses share
    one exactly when they are in the same rank, bank or subarray, whichever the
    queue model names. *)
Theorem queue_ids (b : MemoryController) a a' :
  queues_configured b → scheduled b → in_channel b a → in_channel b a' →
  ∃ i i', GetCommandQueueId b a = Ok i ∧ GetCommandQueueId b a' = Ok i' ∧ 0 ≤ i < commandQueueCount b ∧
    (i = i' ↔ queue_key (queueModel b) a = queue_key (queueModel b) a').
Proof.
  intros Hc Hs Ha Ha'. exists (plain_id b a), (plain_id b a').
  split; [by apply GetCommandQueueId_ok|]. split; [by apply GetCommandQueueId_ok|].
  split; [by apply plain_id_range|by apply plain_id_key].
Qed.

(** C25. With queues per bank, a schedule scheme other than 1 and 2 stops the
    program: 0, which is documented as fixed scheduling, numbers no queue, and
    every use of a command queue fails its assertion. *)
Theorem unscheduled_asserts (b : MemoryController) a :
  ¬ scheduled b → is_u64 (commandQueueCount b) → GetCommandQueueId b a = Err AssertFail.
Proof.
  intros Hs Hc. assert (queueModel b = PerBankQueues) as Em.
  { destruct (decide (queueModel b = PerBankQueues)) as [|Hne]; [done|]. destruct Hs. intros E. by destruct (Hne E). }
  unfold GetCommandQueueId. rewrite Em.
  destruct (Z.eqb_spec (ScheduleScheme (params b)) 1) as [?|_]; [destruct Hs; intros _; by left|].
  destruct (Z.eqb_spec (ScheduleScheme (params b)) 2) as [?|_]; [destruct Hs; intros _; by right|].
  unfold cassert, u64_max.
  destruct (Z.ltb_spec 18446744073709551615 (commandQueueCount b)); [unfold is_u64 in Hc; lia|done].
Qed.

(** Two ranks of four banks. *)
Definition small_params (scheme : Z) : Params :=
  (Params_new 2 0 0) <| RANKS := 2 |> <| BANKS := 4 |> <| ScheduleScheme := scheme |>.
Definition small_controller (scheme : Z) : MemoryController :=
  allocate (small_params scheme) PerBankQueues 8 1
    (MemoryController_new (small_params scheme) AddressTranslator_new PerBankQueues 0).

Lemma queue_ids_witness :
  ∃ i i', GetCommandQueueId (small_controller 1) (bank_address 3 1) = Ok i ∧
    GetCommandQueueId (small_controller 1) (bank_address 2 1) = Ok i' ∧ 0 ≤ i < 8 ∧
    (i = i' ↔ (1, 3, 0) = (1, 2, 0)).
Proof.
  apply (queue_ids (small_controller 1) (bank_address 3 1) (bank_address 2 1)).
  - split; [vm_compute|]; reflexivity.
  - intros _. left. reflexivity.
  - unfold in_channel. vm_compute. repeat split; discriminate.
  - unfold in_channel. vm_compute. repeat split; discriminate.
Defined.

Lemma unscheduled_asserts_witness : GetCommandQueueId (small_controller 0) (bank_address 0 0) = Err AssertFail.
Proof.
  apply (unscheduled_asserts (small_controller 0) (bank_address 0 0)).
  - intros [E|E]; [reflexivity|vm_compute in E; discriminate..].
  - split; vm_compute; [discriminate|reflexivity].
Defined.
