(* ===== verification/ControllerFrame.v ===== *)
(** * What the controller's operations preserve

    The lemmas the properties of the memory controller share: the controller
    inside the state, computations that keep a relation on it, and that no time
    passes in an operation. *)

From S2P Require Import Prelude NVMTypes Translation Config Params SimInterface Heap EventQueue Frame Tree.
From S2P Require Import MemoryController.
Import MC.

(** The laws of [MemoryOps]: they are questions. *)
Class MemoryLaws (C : Type) `{MemoryOps C} := {
  ml_SubArray : ∀ q s a s', find_SubArray q s = Ok (a, s') → heap s' = heap s ∧ queue s' = queue s;
  ml_IsWriting : ∀ x s a s', array_IsWriting x s = Ok (a, s') → heap s' = heap s ∧ queue s' = queue s;
  ml_Between : ∀ x s a s', array_BetweenWriteIterations x s = Ok (a, s') → heap s' = heap s ∧ queue s' = queue s;
  ml_rank_Idle : ∀ q s a s', rank_Idle q s = Ok (a, s') → heap s' = heap s ∧ queue s' = queue s
}.

Definition ctl_of {B C} `{Controller B} (s : Sim (Node B C)) : MemoryController := ctl (node (obj s)).

(** ** Inversions *)

Lemma andM_inv {S} (m k : ST S bool) s s' :
  andM m k s = Ok (true, s') → ∃ s1, m s = Ok (true, s1) ∧ k s1 = Ok (true, s').
Proof. unfold andM. intros Hr. next Hr. destruct r; [by exists x|done]. Qed.

Section Inversions.
Context {B C : Type} `{ControllerLaws B}.
Implicit Types (s : Sim (Node B C)).

Lemma mc_inv s b s' : mc s = Ok (b, s') → s' = s ∧ b = ctl_of s.
Proof. by intros [= <- <-]. Qed.
Lemma bind_mc {A} (f : MemoryController → ST (Sim (Node B C)) A) s : (mc ≫= f) s = f (ctl_of s) s.
Proof. reflexivity. Qed.
Lemma ask_mc_inv {A} (f : MemoryController → res A) s a s' :
  ask_mc f s = Ok (a, s') → s' = s ∧ f (ctl_of s) = Ok a.
Proof. unfold ask_mc. rewrite bind_mc. unfold lift. destruct (f _); [by intros [= <- <-]|done]. Qed.

(** Only the controller changed, and became [c]. *)
Definition ctl_becomes (c : MemoryController) s s' : Prop :=
  heap s' = heap s ∧ queue s' = queue s ∧ kids (obj s') = kids (obj s) ∧ ctl_of s' = c.

Lemma set_mc_inv f s u s' : set_mc f s = Ok (u, s') → ctl_becomes (f (ctl_of s)) s s'.
Proof. intros [= _ <-]. unfold ctl_becomes, ctl_of. fields. by rewrite ctl_upd. Qed.
Lemma set_mc_res_inv f s u s' :
  set_mc_res f s = Ok (u, s') → ∃ c, f (ctl_of s) = Ok c ∧ ctl_becomes c s s'.
Proof.
  unfold set_mc_res. rewrite bind_mc. intros Hr. next Hr. unfold lift in E.
  destruct (f (ctl_of s)) as [c|] eqn:Ef; [|done]. injection E as <- <-. exists c. split; [done|].
  by apply (set_mc_inv (λ _, c)) in Hr.
Qed.

Lemma update_req_inv q f s u s' :
  update_req (B := B) q f s = Ok (u, s') →
  ∃ r, h_reqs (heap s) !! q = Some r ∧ s' = s <| heap ::= λ h, h <| h_reqs ::= <[q := f r]> |> |>.
Proof.
  unfold update_req. intros Hr. load Hr. exists r. split; [done|]. unfold store_req in Hr. rewrite E in Hr.
  by injection Hr as _ <-.
Qed.

(** A call of the memory. *)
Lemma on_memory_run {A} (m : ST (Sim C) A) s a s' :
  on_memory m s = Ok (a, s') → ∃ c sc, kids (obj s) = [c] ∧ m (seen s c) = Ok (a, sc) ∧
    s' = mkSim (heap sc) (queue sc) (mkNode (node (obj s)) [obj sc]).
Proof using.
  unfold on_memory, the_child. intros Hr. autorewrite with run in Hr.
  destruct (kids (obj s)) as [|k [|]] eqn:Ek; [done| |done]. autorewrite with run in Hr.
  destruct (on_child_run 0 m s a s' k) as (sc & Em & ->); [by rewrite Ek|exact Hr|]. exists k, sc. split_and!; [done..|].
  unfold child_acts. destruct (obj s). cbn in Ek. subst kids. done.
Qed.
End Inversions.
#[export] Hint Rewrite @bind_mc : run.

(** ** Relations on the controller *)

(** [R] holds between the controllers before and after. *)
Definition on_ctl {B C} `{Controller B} (R : MemoryController → MemoryController → Prop) (s s' : Sim (Node B C)) : Prop :=
  R (ctl_of s) (ctl_of s').

#[export] Instance on_ctl_rel {B C} `{Controller B} R `{!PreOrder R} : ObjRel (on_ctl (B := B) (C := C) R).
Proof.
  split; unfold on_ctl, ctl_of.
  - intros s1 s2 s3 H1 H2. by etransitivity.
  - intros s s' ->. reflexivity.
Qed.

Section Keeping.
Context {B C : Type} `{ControllerLaws B}.
Variable R : MemoryController → MemoryController → Prop.
Context `{!PreOrder R}.
Implicit Types (s : Sim (Node B C)).

Lemma ctl_mc : pres (on_ctl (C := C) R) mc.
Proof. intros s b s' [-> _]%mc_inv. by unfold on_ctl. Qed.
Lemma ctl_set_mc f : (∀ c, R c (f c)) → pres (on_ctl (C := C) R) (set_mc f).
Proof. intros Hf s u s' (_ & _ & _ & E)%set_mc_inv. unfold on_ctl. by rewrite E. Qed.
Lemma ctl_set_mc_res f : (∀ c c', f c = Ok c' → R c c') → pres (on_ctl (C := C) R) (set_mc_res f).
Proof. intros Hf s u s' (c & Ec & _ & _ & _ & E)%set_mc_res_inv. unfold on_ctl. rewrite E. by apply Hf. Qed.
Lemma ctl_ask_mc {A} (f : MemoryController → res A) : pres (on_ctl (C := C) R) (ask_mc f).
Proof. intros s b s' [-> _]%ask_mc_inv. by unfold on_ctl. Qed.
Lemma ctl_on_child {A} i (m : ST (Sim C) A) : pres (on_ctl (B := B) R) (on_child i m).
Proof. intros s a s' E%on_child_node. unfold on_ctl, ctl_of. by rewrite E. Qed.
Lemma ctl_the_child : pres (on_ctl (B := B) (C := C) R) the_child.
Proof. apply quiet_pres; [apply _|]. unfold the_child. quiet_tac. Qed.
Lemma ctl_on_memory {A} (m : ST (Sim C) A) : pres (on_ctl (B := B) R) (on_memory m).
Proof. unfold on_memory. apply pres_bind; [apply _|apply ctl_the_child|intros i; apply ctl_on_child]. Qed.
End Keeping.

Section Time.
Context {B C : Type} `{ControllerLaws B}.

Lemma timeless_mc : timeless (mc (B := B) (C := C)).
Proof. unfold mc. timeless_tac. Qed.
Lemma timeless_set_mc f : timeless (set_mc (B := B) (C := C) f).
Proof. apply timeless_set_me. Qed.
#[local] Hint Resolve timeless_mc timeless_set_mc : timeless.
Lemma timeless_set_mc_res f : timeless (set_mc_res (B := B) (C := C) f).
Proof. unfold set_mc_res. timeless_tac. Qed.
Lemma timeless_ask_mc {A} (f : MemoryController → res A) : timeless (ask_mc (B := B) (C := C) f).
Proof. unfold ask_mc. timeless_tac. Qed.
Lemma timeless_update_req q f : timeless (update_req (B := B) (C := C) q f).
Proof. unfold update_req. timeless_tac. Qed.
Lemma timeless_the_child : timeless (the_child (B := B) (C := C)).
Proof. unfold the_child. timeless_tac. Qed.
Lemma timeless_on_memory {A} (m : ST (Sim C) A) : timeless m → timeless (on_memory (B := B) m).
Proof. intros Hm. unfold on_memory. apply timeless_bind; [apply timeless_the_child|intros i; by apply timeless_on_child]. Qed.
End Time.
#[export] Hint Resolve timeless_mc timeless_set_mc timeless_set_mc_res timeless_ask_mc timeless_update_req
  timeless_on_memory : timeless.

(** ** What the updates of the controller touch *)

Lemma foldM_rel {A X} (R : A → A → Prop) `{!PreOrder R} (f : A → X → res A) l :
  (∀ a x a', f a x = Ok a' → R a a') → ∀ a a', foldM f a l = Ok a' → R a a'.
Proof.
  intros Hf. induction l as [|x l IH]; intros a a' E; cbn in E; [by injection E as <-|].
  rnext E. etransitivity; [by eapply Hf|by apply IH].
Qed.

Lemma set_ix_inv {K V} `{Countable K} (k : K) (v : V) m m' :
  set_ix k v m = Ok m' → is_Some (m !! k) ∧ m' = <[k := v]> m.
Proof. unfold set_ix, at_ix. intros E. rnext E. injection E as <-. unfold deref in E0. destruct (m !! k); [eauto|done]. Qed.
Lemma at_ix_inv {K V} `{Countable K} (m : gmap K V) k v : at_ix m k = Ok v → m !! k = Some v.
Proof. unfold at_ix, deref. destruct (m !! k); [by intros [= <-]|done]. Qed.
Lemma queue_at_inv l i v : queue_at l i = Ok v → 0 ≤ i ∧ l !! Z.to_nat i = Some v.
Proof.
  unfold queue_at, deref. destruct (Z.ltb_spec i 0); [done|]. destruct (l !! _); [by intros [= <-]|done].
Qed.

Section Touches.
Implicit Types (c : MemoryController).

Lemma push_command_eq i q c c' :
  push_command i q c = Ok c' → ∃ l, 0 ≤ i ∧ commandQueues c !! Z.to_nat i = Some l ∧
    c' = c <| commandQueues ::= <[Z.to_nat i := l ++ [q]]> |>.
Proof. unfold push_command. intros E. rnext E. injection E as <-. apply queue_at_inv in E0 as [? ?]. by exists v. Qed.
Lemma Prequeue_eq i q c c' :
  Prequeue i q c = Ok c' → ∃ l, 0 ≤ i ∧ transactionQueues c !! Z.to_nat i = Some l ∧
    c' = c <| transactionQueues ::= <[Z.to_nat i := q :: l]> |>.
Proof. unfold Prequeue. intros E. rnext E. rnext E. injection E as <-. apply queue_at_inv in E1 as [? ?]. by exists v0. Qed.
Lemma SetRefresh_eq k r c c' : SetRefresh k r c = Ok c' → ∃ m, c' = c <| bankNeedRefresh := m |>.
Proof. unfold SetRefresh. intros E. rnext E. rnext E. injection E as <-. eauto. Qed.
Lemma ResetRefresh_eq k r c c' : ResetRefresh k r c = Ok c' → ∃ m, c' = c <| bankNeedRefresh := m |>.
Proof. unfold ResetRefresh. intros E. rnext E. rnext E. injection E as <-. eauto. Qed.
Lemma ResetRefreshQueued_eq k r c c' : ResetRefreshQueued k r c = Ok c' → ∃ m, c' = c <| refreshQueued := m |>.
Proof. unfold ResetRefreshQueued. intros E. rnext E. rnext E. injection E as <-. eauto. Qed.
Lemma bump_counter_eq f k r c c' :
  bump_counter f k r c = Ok c' → ∃ g x, delayedRefreshCounter c !! (r, g) = Some x ∧
    udiv k (BanksPerRefresh (params c)) = Ok g ∧ c' = c <| delayedRefreshCounter ::= <[(r, g) := f x]> |>.
Proof. unfold bump_counter. intros E. rnext E. rnext E. injection E as <-. apply at_ix_inv in E1. eauto. Qed.
Lemma set_activateQueued_eq r k v c c' :
  set_activateQueued r k v c = Ok c' →
  is_Some (activateQueued c !! (r, k)) ∧ c' = c <| activateQueued ::= <[(r, k) := v]> |>.
Proof. unfold set_activateQueued. intros E. rnext E. apply set_ix_inv in E0 as [? ->]. by injection E as <-. Qed.
Lemma set_active_eq k v c c' :
  set_active k v c = Ok c' → is_Some (activeSubArray c !! k) ∧ c' = c <| activeSubArray ::= <[k := v]> |>.
Proof. unfold set_active. intros E. rnext E. apply set_ix_inv in E0 as [? ->]. by injection E as <-. Qed.
Lemma set_row_eq k x y c c' :
  set_row k x y c = Ok c' → is_Some (effectiveRow c !! k) ∧ is_Some (effectiveMuxedRow c !! k) ∧
    c' = c <| effectiveRow ::= <[k := x]> |> <| effectiveMuxedRow ::= <[k := y]> |>.
Proof.
  unfold set_row. intros E. rnext E. rnext E. apply set_ix_inv in E0 as [? ->]. apply set_ix_inv in E1 as [? ->].
  by injection E as <-.
Qed.
Lemma set_starvation_eq k f c c' :
  set_starvation k f c = Ok c' → ∃ x, c' = c <| starvationCounter ::= <[k := f x]> |>.
Proof. unfold set_starvation. intros E. rnext E. injection E as <-. eauto. Qed.
Lemma close_row_eq k c c' :
  close_row k c = Ok c' → is_Some (activeSubArray c !! k) ∧
    c' = c <| activeSubArray ::= <[k := false]> |> <| effectiveRow ::= <[k := ROWS (params c)]> |>
           <| effectiveMuxedRow ::= <[k := ROWS (params c)]> |>.
Proof.
  unfold close_row. intros E. rnext E. apply set_active_eq in E0 as [? ->].
  apply set_row_eq in E as (? & ? & ->). by split.
Qed.

(** Only the rows changed. *)
Definition rows_only c c' : Prop :=
  c' = c <| activeSubArray := activeSubArray c' |> <| effectiveRow := effectiveRow c' |>
         <| effectiveMuxedRow := effectiveMuxedRow c' |>.
#[export] Instance rows_only_preorder : PreOrder rows_only.
Proof.
  split; unfold rows_only; [by intros []|]. intros c1 c2 c3 E1 E2. rewrite E2, E1. by destruct c1.
Qed.
Lemma clear_arrays_only r k c c' : clear_arrays r k c = Ok c' → rows_only c c'.
Proof.
  unfold clear_arrays. apply foldM_rel; [apply _|]. intros a x a' E. rnext E. rnext E. rnext E. injection E as <-.
  unfold rows_only. by destruct a.
Qed.
End Touches.

(** Through an update that ended well, down to the new controller. *)
Ltac touch E :=
  lazymatch type of E with
  | push_command _ _ _ = Ok _ => apply push_command_eq in E as (? & ? & ? & ->)
  | Prequeue _ _ _ = Ok _ => apply Prequeue_eq in E as (? & ? & ? & ->)
  | SetRefresh _ _ _ = Ok _ => apply SetRefresh_eq in E as [? ->]
  | ResetRefresh _ _ _ = Ok _ => apply ResetRefresh_eq in E as [? ->]
  | ResetRefreshQueued _ _ _ = Ok _ => apply ResetRefreshQueued_eq in E as [? ->]
  | IncrementRefreshCounter _ _ _ = Ok _ => apply bump_counter_eq in E as (? & ? & ? & ? & ->)
  | DecrementRefreshCounter _ _ _ = Ok _ => apply bump_counter_eq in E as (? & ? & ? & ? & ->)
  | set_activateQueued _ _ _ _ = Ok _ => apply set_activateQueued_eq in E as [? ->]
  | set_active _ _ _ = Ok _ => apply set_active_eq in E as [? ->]
  | set_row _ _ _ _ = Ok _ => apply set_row_eq in E as (? & ? & ->)
  | set_starvation _ _ _ = Ok _ => apply set_starvation_eq in E as [? ->]
  | close_row _ _ = Ok _ => apply close_row_eq in E as [? ->]
  | clear_arrays _ _ _ = Ok _ => apply clear_arrays_only in E; rewrite E
  | Ok _ = Ok _ => injection E as <-
  | (_ ≫= _) = Ok _ => rnext E; touch E
  | (if ?b then _ else _) = Ok _ => destruct b; touch E
  end.
Ltac touch_tac := let c := fresh "c" in let c' := fresh "c" in let E := fresh "E" in
  intros c c' E; cbv beta in E; touch E; fields; try done.

(** ** Computations that only look *)

Definition reads {S A} (m : ST S A) : Prop := ∀ s a s', m s = Ok (a, s') → s' = s.

Create HintDb reads discriminated.
#[export] Hint Constants Opaque : reads.

Section Reads.
Context {S : Type}.
Lemma reads_bind {A B} (m : ST S A) (f : A → ST S B) : reads m → (∀ a, reads (f a)) → reads (m ≫= f).
Proof. intros Hm Hf s b s' (a & s1 & ->%Hm & Hr)%bind_inv. by eapply Hf. Qed.
Lemma reads_ret {A} (a : A) : reads (S := S) (mret a).
Proof. by intros s b s' [= _ <-]. Qed.
Lemma reads_get : reads (S := S) get.
Proof. by intros s b s' [= _ <-]. Qed.
Lemma reads_gets {A} (f : S → A) : reads (gets f).
Proof. by intros s b s' [= _ <-]. Qed.
Lemma reads_lift {A} (m : res A) : reads (S := S) (lift m).
Proof. by intros s b s' [_ ->]%lift_inv. Qed.
Lemma reads_fail {A} e : reads (S := S) (fail (A := A) e).
Proof. done. Qed.
End Reads.
#[export] Hint Resolve reads_ret reads_get reads_gets reads_lift reads_fail : reads.

Ltac reads_tac :=
  repeat first [solve [eauto with reads nocore] | apply reads_bind; [|intros ?] | head_step].

Section ReadsController.
Context {B C : Type} `{ControllerLaws B}.
#[local] Abbreviation looks m := (reads (S := Sim (Node B C)) m).

Lemma reads_now : looks now.
Proof. apply reads_gets. Qed.
Lemma reads_load_req q : looks (load_req q).
Proof. by intros s a s' [-> _]%load_req_inv. Qed.
Lemma reads_mc : looks mc.
Proof. by intros s b s' [-> _]%mc_inv. Qed.
Lemma reads_ask_mc {A} (f : MemoryController → res A) : looks (ask_mc f).
Proof. by intros s b s' [-> _]%ask_mc_inv. Qed.
#[local] Hint Resolve reads_now reads_load_req reads_mc reads_ask_mc : reads.
Lemma reads_queue_id_of q : looks (queue_id_of q).
Proof. unfold queue_id_of. reads_tac. Qed.
Lemma reads_command_queue i : looks (command_queue i).
Proof. apply reads_ask_mc. Qed.
Lemma reads_transaction_queue i : looks (transaction_queue i).
Proof. apply reads_ask_mc. Qed.
#[local] Hint Resolve reads_queue_id_of reads_command_queue reads_transaction_queue : reads.
Lemma reads_queue_empty i : looks (queue_empty i).
Proof. unfold queue_empty. reads_tac. Qed.
Lemma reads_WasIssued q : looks (WasIssued q).
Proof. unfold WasIssued. reads_tac. Qed.
#[local] Hint Resolve reads_queue_empty reads_WasIssued : reads.
Lemma reads_EffectivelyEmpty i : looks (EffectivelyEmpty i).
Proof. unfold EffectivelyEmpty. reads_tac. Qed.
Lemma reads_any_for i l : looks (any_for i l).
Proof. induction l; cbn [any_for]; reads_tac. Qed.
#[local] Hint Resolve reads_any_for : reads.
Lemma reads_any_queue_for i l : ∀ rv, looks (any_queue_for i l rv).
Proof. induction l; intros rv; cbn [any_queue_for]; reads_tac. Qed.
#[local] Hint Resolve reads_any_queue_for : reads.
Lemma reads_TransactionAvailable i : looks (TransactionAvailable i).
Proof. unfold TransactionAvailable. reads_tac. Qed.
Lemma reads_the_child : looks the_child.
Proof. unfold the_child. reads_tac. Qed.
Lemma reads_other_hit r l : looks (other_hit r l).
Proof. induction l; cbn [other_hit]; reads_tac. Qed.
#[local] Hint Resolve reads_other_hit : reads.
Lemma reads_IsLastRequest l q : looks (IsLastRequest l q).
Proof. unfold IsLastRequest. reads_tac. Qed.
End ReadsController.
#[export] Hint Resolve reads_now reads_load_req reads_mc reads_ask_mc reads_queue_id_of reads_command_queue
  reads_transaction_queue reads_queue_empty reads_WasIssued reads_EffectivelyEmpty reads_TransactionAvailable
  reads_the_child reads_IsLastRequest : reads.
