(* ===== verification/Spy.v ===== *)
(** * A memory with a log

    A memory that writes down which commands it is sent and when ([Spy]), and is
    the memory it spies on otherwise: what a controller does to its memory in a
    run is what the log says at the end. *)

From S2P Require Import Prelude NVMTypes Translation Config Params SimInterface Heap EventQueue Frame Tree.
From S2P Require Import MemoryController ControllerFrame.
Import MC.

(** A command: the cycle, the request (if the pointer was good), whether it was
    carried out, and the memory right afterwards. *)
Record Sent (C : Type) := mkSent {
  sent_at : Z;
  sent_ptr : ReqPtr;
  sent_req : option NVMainRequest;
  sent_ok : bool;
  sent_left : C
}.
Arguments mkSent {C}.
Arguments sent_at {C}.
Arguments sent_ptr {C}.
Arguments sent_req {C}.
Arguments sent_ok {C}.
Arguments sent_left {C}.

(** The latest command comes first. *)
Record Spy (C : Type) := mkSpy { spied : C; log : list (Sent C) }.
Arguments mkSpy {C}.
Arguments spied {C}.
Arguments log {C}.
#[export] Instance eta_Spy C : Settable (Spy C) := fields! mkSpy < spied; log >.

Section Spy.
Context {C : Type} `{ChildOps C} `{MemoryOps C}.
Implicit Types (s : Sim (Spy C)).

Definition unspied s : Sim C := mkSim (heap s) (queue s) (spied (obj s)).
Definition through {A} (m : ST (Sim C) A) : ST (Sim (Spy C)) A := λ s,
  match m (unspied s) with
  | Ok (a, s') => Ok (a, mkSim (heap s') (queue s') (mkSpy (obj s') (log (obj s))))
  | Err e => Err e
  end.
Definition spy_IssueCommand (q : ReqPtr) : ST (Sim (Spy C)) bool :=
  n ← now; r ← gets (λ s, h_reqs (heap s) !! q);
  ok ← through (ch_IssueCommand q);
  set_self (λ k, k <| log ::= cons (mkSent n q r ok (spied k)) |>);;
  mret ok.

#[export] Instance Spy_child : ChildOps (Spy C) := {|
  ch_IsIssuable q := through (ch_IsIssuable q);
  ch_IssueCommand := spy_IssueCommand;
  ch_NextIssuable q := through (ch_NextIssuable q);
  ch_Idle := through ch_Idle;
  ch_Cycle n := through (ch_Cycle n)
|}.
#[export] Instance Spy_memory : MemoryOps (Spy C) := {|
  find_SubArray q := through (find_SubArray q);
  array_IsWriting x := through (array_IsWriting x);
  array_BetweenWriteIterations x := through (array_BetweenWriteIterations x);
  rank_Idle q := through (rank_Idle q)
|}.

Lemma through_inv {A} (m : ST (Sim C) A) s a s' :
  through m s = Ok (a, s') → m (unspied s) = Ok (a, unspied s') ∧ log (obj s') = log (obj s).
Proof. unfold through. destruct (m _) as [[a' []]|]; [|done]. by intros [= <- <-]. Qed.

Lemma timeless_through {A} (m : ST (Sim C) A) : timeless m → timeless (through m).
Proof. intros Hm s a s' [Hr _]%through_inv. by destruct (Hm _ _ _ Hr). Qed.

(** A command is carried out, and written down. *)
Lemma spy_IssueCommand_inv q s ok s' :
  ch_IssueCommand q s = Ok (ok, s') → ch_IssueCommand q (unspied s) = Ok (ok, unspied s') ∧
  log (obj s') = mkSent (currentCycle (queue s)) q (h_reqs (heap s) !! q) ok (spied (obj s')) :: log (obj s).
Proof.
  cbn. unfold spy_IssueCommand. intros Hr. autorewrite with run in Hr. next Hr. apply through_inv in E as [E El].
  injection Hr as <- <-. fields. by rewrite El.
Qed.

Lemma Spy_laws `{!ChildLaws C} : ChildLaws (Spy C).
Proof.
  split.
  - intros q s a s' [Hr _]%through_inv. by apply cl_IsIssuable in Hr.
  - intros s a s' [Hr El]%through_inv. apply cl_Idle in Hr. destruct s as [h n []], s' as [h' n' []].
    unfold unspied in Hr. cbn in *. by simplify_eq.
  - intros q s a s' [Hr _]%spy_IssueCommand_inv. by destruct (cl_IssueCommand q _ _ _ Hr).
  - intros q s a s' [Hr _]%through_inv. by apply cl_NextIssuable in Hr.
  - intros n. apply timeless_through, cl_Cycle.
  - intros q q' s b s' [Hr _]%spy_IssueCommand_inv. by apply (cl_keeps q) in Hr.
Qed.
End Spy.
#[export] Existing Instance Spy_laws.
