(* ===== verification/ControllerBench.v ===== *)
(** * A memory and a controller for the examples

    A memory that takes every command but has no row outside the open ones to
    serve ([Ready]), and a controller of two ranks of four banks in front of it. *)

From S2P Require Import Prelude NVMTypes Translation Config Params SimInterface Heap EventQueue Frame Tree.
From S2P Require Import MemoryController Schedulers FRFCFSControl ControllerFrame.
Import MC.

(** A memory that is always ready for ordinary commands. *)
Inductive Ready : Type := ready.

Definition is_cached (t : OpType) : bool := match t with CACHED_READ | CACHED_WRITE => true | _ => false end.

#[export] Instance Ready_child : ChildOps Ready := {|
  ch_IsIssuable q := r ← load_req q; mret (negb (is_cached (type r)), None);
  ch_IssueCommand q := mret true;
  ch_NextIssuable q := mret 0;
  ch_Idle := mret true;
  ch_Cycle n := mret ()
|}.
#[export] Instance Ready_memory : MemoryOps Ready := {|
  find_SubArray q := mret None;
  array_IsWriting x := mret false;
  array_BetweenWriteIterations x := mret true;
  rank_Idle q := mret true
|}.
#[export] Instance Ready_laws : ChildLaws Ready.
Proof.
  split; cbn.
  - intros q s a s' Hr. load Hr. by injection Hr as _ <-.
  - by intros s a s' [= _ <-].
  - intros q. apply timeless_ret.
  - by intros q s a s' [= _ <-].
  - intros n. apply timeless_ret.
  - intros q q' s b s' [= _ <-]. by apply (keeps_heap (O := Ready) q s s).
Qed.
#[export] Instance Ready_memory_laws : MemoryLaws Ready.
Proof. split; by intros ? s a s' [= _ <-]. Qed.

Module ControllerBench.
(** Two ranks of four banks, a queue per bank. *)
Definition p0 : Params := (Params_new 2 0 0) <| RANKS := 2 |> <| BANKS := 4 |> <| ROWS := 16 |> <| COLS := 8 |>
  <| RBSize := 8 |> <| ScheduleScheme := 2 |> <| UsePrecharge := true |> <| ClosePage := 0 |> <| DeadlockTimer := 1000 |>
  <| UseRefresh := false |>.
Definition method0 : TranslationMethod := SetBitWidths 4 3 2 1 0 0 (TranslationMethod_new (mkSix 16 8 4 2 1 1)).
Definition at0 : AddressTranslator := SetTranslationMethod method0 AddressTranslator_new.
Definition base0 (p : Params) : MemoryController := allocate p PerBankQueues 8 1 (MemoryController_new p at0 PerBankQueues 0).
Definition frfcfs0 (p : Params) : FRFCFS.FRFCFS := FRFCFS.FRFCFS_new (base0 p).

(** The controller is object 5 below object 6. *)
Definition tree : gmap positive NVMObject := {[
  5%positive := mkNVMObject (Some (mkHook 7 6)) None [] [] [] [] NVMHOOK_NONE NVMHOOK_NONE;
  6%positive := mkNVMObject None None [mkHook 8 5] [] [] [] NVMHOOK_NONE NVMHOOK_NONE ]}.

Definition out0 : six := mkSix 0 0 0 0 0 0.
(** The physical address of the fields. *)
Definition physical (row bank rank : Z) : Z :=
  match ReverseTranslate (mkSix row 0 bank rank 0 0) at0 with Ok (a, _) => a | Err _ => 0 end.
Definition request (t : OpType) (row bank rank : Z) : NVMainRequest :=
  (NVMainRequest_new MEM_REQUEST_INCOMPLETE UNKNOWN_ACCESS 0) <| type := t |>
    <| address ::= SetPhysicalAddress (physical row bank rank) |>.
Definition reqs : gmap positive NVMainRequest := {[
  10%positive := request READ 7 1 0; 11%positive := request WRITE 9 1 0; 12%positive := request READ 7 1 0 ]}.

Section Start.
Context {C : Type} (memory : C).
Definition start (p : Params) : Sim (Node FRFCFS.FRFCFS C) :=
  mkSim (mkHeap tree reqs ∅ 30 None) (EventQueue_new dzero) (mkNode (frfcfs0 p) [memory]).
End Start.

Definition at_time {O} (n : Z) (s : Sim O) : Sim O := s <| queue ::= λ q, q <| currentCycle := n |> |>.
(** The state after an operation. *)
Definition after {S A} (m : ST S A) (s : S) : S := match m s with Ok (_, s') => s' | Err _ => s end.
End ControllerBench.
