(* ===== verification/Wakeups.v ===== *)
(** * The controller wakes up

    The controller is driven by its own events. When it has looked for a
    transaction to serve, it comes back in the next cycle while some command
    queue runs empty and a transaction waits for it. *)

From S2P Require Import Prelude NVMTypes Translation Config Params SimInterface Heap EventQueue Frame Tree.
From S2P Require Import MemoryController ControllerFrame Schedulers FRFCFSControl ControllerBench.
Import MC.

(** An event of the queue makes [this] run its cycle at [t]. *)
Definition wakes_at {O} (this : ObjPtr) (t : Z) (s : Sim O) : Prop :=
  ∃ l e ev h, eventMap (queue s) !! t = Some l ∧ e ∈ l ∧ h_events (heap s) !! e = Some ev ∧
    ev_type ev = EventCycle ∧ ev_recipient ev = Some h ∧ trampoline h = this.

Section Events.
Context {O : Type}.
Implicit Types (s : Sim O).

Lemma find_last_matches events f l : ∀ rv e,
  find_last events f rv l = Ok (Some e) →
  rv = Some e ∨ e ∈ l ∧ ∃ ev, events !! e = Some ev ∧ f ev = true.
Proof.
  induction l as [|x l IH]; intros rv e Hr; cbn [find_last] in Hr; [injection Hr as ->; by left|].
  rnext Hr. unfold event_matches in E. rnext E. unfold deref in E0. destruct (events !! x) as [ev|] eqn:Ex; [|done].
  injection E0 as ->. injection E as <-. apply IH in Hr as [Hr|[Hin Hev]]; [|right; split; [by right|done]].
  destruct (f v0) eqn:Ef; [|by left]. injection Hr as ->. right. split; [by left|]. by exists v0.
Qed.

Lemma find_hook_inv r s h s' : find_hook r s = Ok (h, s') → s' = s ∧ trampoline h = r.
Proof.
  unfold find_hook. intros Hr. next Hr. unfold load_obj in E. destruct (h_objs _ !! r); [|done]. injection E as <- <-.
  next Hr. apply lift_inv in E as [_ ->]. next Hr. unfold load_obj in E. destruct (h_objs _ !! _); [|done].
  injection E as <- <-. apply lift_inv in Hr as [Hr ->]. split; [done|].
  unfold deref in Hr. destruct (List.find _ _) as [h'|] eqn:Ef; [|done]. injection Hr as ->.
  apply List.find_some in Ef as [_ Ef]. by apply bool_decide_eq_true in Ef.
Qed.

Lemma FindEvent_wakes this t s e s' :
  FindEvent_obj EventCycle this None t s = Ok (Some e, s') → s' = s ∧ wakes_at this t s.
Proof.
  unfold FindEvent_obj. intros Hr. next Hr. apply find_hook_inv in E as [-> Eh]. unfold FindEvent in Hr.
  autorewrite with run in Hr. destruct (eventMap (queue s) !! t) as [l|] eqn:El; [|done].
  apply lift_inv in Hr as [Hr ->]. split; [done|]. apply find_last_matches in Hr as [?|(Hin & ev & Eev & Hf)]; [done|].
  rewrite !andb_true_iff, !bool_decide_eq_true in Hf. destruct Hf as [[? ?] _]. by exists l, e, ev, r.
Qed.

Lemma insert_by_priority_elem events e p l l' : insert_by_priority events e p l = Ok l' → e ∈ l'.
Proof.
  revert l'. induction l as [|x l IH]; intros l' Hr; cbn [insert_by_priority] in Hr; [injection Hr as <-; by left|].
  rnext Hr. destruct (_ >? _); [injection Hr as <-; by left|]. rnext Hr. injection Hr as <-. right. by apply IH.
Qed.

Lemma InsertEvent_wakes h t d p s u s' :
  InsertEvent EventCycle h None t d p s = Ok (u, s') → wakes_at (trampoline h) t s'.
Proof.
  unfold InsertEvent, InsertEvent_at. intros Hr. autorewrite with run in Hr.
  next Hr. unfold load_event in E. fields_in E. rewrite lookup_insert_eq in E. injection E as <- <-.
  next Hr. unfold store_event in E. fields_in E. rewrite lookup_insert_eq in E. injection E as _ <-.
  unfold set_queue in Hr. autorewrite with run in Hr. fields_in Hr.
  destruct (eventMap (queue s) !! t) as [l|] eqn:El.
  - next Hr. apply lift_inv in E as [E ->]. injection Hr as _ <-.
    eexists _, (h_next (heap s)), _, h. fields. rewrite !lookup_insert_eq.
    split_and!; [done|by eapply insert_by_priority_elem|done|by fields..|done].
  - injection Hr as _ <-. eexists _, (h_next (heap s)), _, h. fields. rewrite !lookup_insert_eq.
    split_and!; [done|by left|done|by fields..|done].
Qed.
End Events.

Section Rechecks.
Context {B C : Type} `{ControllerLaws B}.
Variable this : ObjPtr.
Implicit Types (s : Sim (Node B C)).

(** A command queue runs empty while a transaction waits for it. *)
Definition waiting s (i : Z) : Prop := EffectivelyEmpty i s = Ok (true, s) ∧ TransactionAvailable i s = Ok (true, s).

Lemma wake_wakes t s u s' : wake_transactions this t s = Ok (u, s') → wakes_at this t s'.
Proof.
  unfold wake_transactions, InsertEvent_cycle. intros Hr. next Hr. apply find_hook_inv in E as [-> <-].
  by apply InsertEvent_wakes in Hr.
Qed.

Lemma recheck_wakes t l i s u s' : i ∈ l → waiting s i → recheck this t l s = Ok (u, s') → wakes_at this t s'.
Proof.
  intros Hi [He Ht]. induction l as [|x l IH]; [by apply elem_of_nil in Hi|]. cbn [recheck]. intros Hr. next Hr.
  destruct r; [by apply wake_wakes in Hr|].
  assert (x0 = s) as ->.
  { revert E. match goal with |- ?m _ = _ → _ => assert (reads m) as P by (unfold andM; reads_tac) end. apply P. }
  apply elem_of_cons in Hi as [->|Hi]; [|by apply IH].
  unfold andM in E. rewrite bind_eq, He, Ht in E. done.
Qed.
End Rechecks.

(** C27. No wake-up is lost: when the controller ends its cycle while a command
    queue runs empty and a transaction waits for it, its own next cycle is in
    the event queue. *)
Theorem Cycle_reschedules {B C} `{ControllerLaws B} this steps (s s' : Sim (Node B C)) i :
  0 ≤ i < commandQueueCount (ctl_of s) → waiting s i → Cycle this steps s = Ok ((), s') →
  wakes_at this (currentCycle (queue s) ⊕ 1) s'.
Proof.
  intros Hi Hw Hr. unfold Cycle in Hr. rewrite bind_now in Hr. next Hr. destruct r as [e|].
  - injection Hr as <-. by apply FindEvent_wakes in E as [-> Hk].
  - assert (x = s) as ->.
    { unfold FindEvent_obj in E. next E. apply find_hook_inv in E0 as [-> _]. unfold FindEvent in E.
      autorewrite with run in E. destruct (eventMap _ !! _); [by apply lift_inv in E as [_ ->]|by injection E]. }
    rewrite bind_mc in Hr. eapply recheck_wakes; [|exact Hw|exact Hr]. apply elem_of_seqZ. lia.
Qed.

(** A transaction for rank 0, bank 1 arrives in cycle 5 and is still there at the
    end of cycle 6. *)
Lemma Cycle_reschedules_witness :
  ∃ s' : Sim (Node FRFCFS.FRFCFS Ready), currentCycle (queue s') = 6 ∧ wakes_at 5 7 s'.
Proof.
  set (s0 := ControllerBench.at_time 5 (ControllerBench.start ready ControllerBench.p0)).
  set (s1 := ControllerBench.after (FRFCFS.IssueCommand 5 ControllerBench.out0 10) s0).
  set (s2 := ControllerBench.at_time 6 s1).
  exists (ControllerBench.after (Cycle 5 1) s2). split; [vm_compute; reflexivity|].
  refine (Cycle_reschedules (B := FRFCFS.FRFCFS) 5 1 s2 _ 1 _ _ _).
  - vm_compute. split; [discriminate|reflexivity].
  - split; vm_compute; reflexivity.
  - vm_compute. reflexivity.
Defined.
