(* ===== verification/ControllerRuns.v ===== *)
(** * Runs of a controller

    What the operations of a controller do to the controller and to its memory
    is a matter of few of their steps: the updates of the controller, the
    questions it asks the memory, and the one place where a command is sent
    ([issue_head]). A relation these keep ([ControllerRel], [CommandRel]) is kept
    by every operation of every policy ([Policy]). *)

From S2P Require Import Prelude NVMTypes Translation Config Params SimInterface Heap EventQueue Frame Tree.
From S2P Require Import MemoryController ControllerFrame Schedulers FRFCFSControl FCFSControl WQFControl.
Import MC.

Definition now_of {O} (s : Sim O) : Z := currentCycle (queue s).

(** Of the policy with its controller, only the controller changed. *)
Definition same_own {B} `{Controller B} (b b' : B) : Prop := ∃ f, b' = upd_ctl f b.
#[export] Instance same_own_preorder {B} `{ControllerLaws B} : PreOrder same_own.
Proof.
  split; [intros b; exists (λ c, c); by rewrite upd_id|]. intros b1 b2 b3 [f ->] [g ->]. exists (λ c, g (f c)). by rewrite upd_upd.
Qed.

(** A relation that everything of the base class keeps but the sending of
    commands: it holds when only the heap and the queue change, in an orderly
    way, when only the controller changes, and across the questions. *)
Class BaseRel {B C} `{Controller B, ChildOps C, MemoryOps C} (R : Sim (Node B C) → Sim (Node B C) → Prop) := {
  cr_trans :: Transitive R;
  cr_steady : ∀ s s', steady s s' → obj s' = obj s → R s s';
  cr_ctl : ∀ s s', heap s' = heap s → queue s' = queue s → kids (obj s') = kids (obj s) →
    same_own (node (obj s)) (node (obj s')) → lastIssueCycle (ctl_of s') = lastIssueCycle (ctl_of s) → R s s';
  cr_IsIssuable : ∀ q, pres R (on_memory (ch_IsIssuable q));
  cr_NextIssuable : ∀ q, pres R (on_memory (ch_NextIssuable q));
  cr_Cycle : ∀ n, pres R (on_memory (ch_Cycle n));
  cr_SubArray : ∀ q, pres R (on_memory (find_SubArray q));
  cr_IsWriting : ∀ x, pres R (on_memory (array_IsWriting x));
  cr_Between : ∀ x, pres R (on_memory (array_BetweenWriteIterations x))
}.

(** The same when the policy changes its own members. *)
Class ControllerRel {B C} `{Controller B, ChildOps C, MemoryOps C} (R : Sim (Node B C) → Sim (Node B C) → Prop) := {
  cr_base :: BaseRel R;
  cr_own : ∀ s s', heap s' = heap s → queue s' = queue s → kids (obj s') = kids (obj s) →
    lastIssueCycle (ctl_of s') = lastIssueCycle (ctl_of s) → R s s'
}.

(** The same with the sending of a command, which happens when none was sent in
    this cycle, and which the controller remembers. *)
Class SendRel {B C} `{Controller B, ChildOps C, MemoryOps C} (R : Sim (Node B C) → Sim (Node B C) → Prop) := {
  send_base :: BaseRel R;
  cmd_send : ∀ q s ok s1 s2, lastIssueCycle (ctl_of s) ≠ now_of s → on_memory (ch_IssueCommand q) s = Ok (ok, s1) →
    steady s1 s2 → kids (obj s2) = kids (obj s1) → same_own (node (obj s1)) (node (obj s2)) →
    lastIssueCycle (ctl_of s2) = now_of s1 → R s s2
}.
Class CommandRel {B C} `{Controller B, ChildOps C, MemoryOps C} (R : Sim (Node B C) → Sim (Node B C) → Prop) := {
  cmd_rel :: ControllerRel R;
  cmd_sends :: SendRel R
}.

(** ** The updates of the controller *)

Section Updates.
Context {B C : Type} `{ControllerLaws B} `{!ChildOps C, !MemoryOps C}.
Context (R : Sim (Node B C) → Sim (Node B C) → Prop) `{!BaseRel R}.

Lemma set_mc_own f (s : Sim (Node B C)) u s' : set_mc f s = Ok (u, s') → same_own (node (obj s)) (node (obj s')).
Proof. intros [= _ <-]. by exists f. Qed.
Lemma set_mc_res_own f (s : Sim (Node B C)) u s' : set_mc_res f s = Ok (u, s') → same_own (node (obj s)) (node (obj s')).
Proof.
  unfold set_mc_res. rewrite bind_mc. intros Hr. next Hr. apply lift_inv in E as [_ ->]. by eapply set_mc_own.
Qed.
Lemma rel_refl s : R s s.
Proof. by apply cr_steady. Qed.
Lemma rel_quiet {A} (m : ST (Sim (Node B C)) A) : quiet m → timeless m → pres R m.
Proof. intros Hq Ht s a s' Hr. apply cr_steady; [by eapply Ht|by eapply Hq]. Qed.
Lemma rel_pure {A} (m : ST (Sim (Node B C)) A) : (∀ s a s', m s = Ok (a, s') → s' = s) → pres R m.
Proof. intros Hm s a s' ->%Hm. apply rel_refl. Qed.
Lemma rel_ret {A} (a : A) : pres R (mret a).
Proof. apply rel_pure. by intros s b s' [= _ <-]. Qed.
Lemma rel_me : pres R me.
Proof. apply rel_pure. by intros s b s' [= _ <-]. Qed.
Lemma rel_now : pres R now.
Proof. apply rel_pure. by intros s b s' [= _ <-]. Qed.
Lemma rel_mc : pres R mc.
Proof. apply rel_pure. by intros s b s' [-> _]%mc_inv. Qed.
Lemma rel_ask_mc {A} (f : MemoryController → res A) : pres R (ask_mc f).
Proof. apply rel_pure. by intros s b s' [-> _]%ask_mc_inv. Qed.
Lemma rel_set_me `{!ControllerRel R} f : (∀ b, ctl (f b) = ctl b) → pres R (set_me f).
Proof. intros Hf s b s' [= _ <-]. apply cr_own; unfold ctl_of; fields; by rewrite ?Hf. Qed.
Lemma rel_set_mc f : (∀ c, lastIssueCycle (f c) = lastIssueCycle c) → pres R (set_mc f).
Proof.
  intros Hf s u s' Hr. pose proof (set_mc_own _ _ _ _ Hr). apply set_mc_inv in Hr as (Eh & Eq & Ek & E).
  apply cr_ctl; by rewrite ?E, ?Hf.
Qed.
Lemma rel_set_mc_res f : (∀ c c', f c = Ok c' → lastIssueCycle c' = lastIssueCycle c) → pres R (set_mc_res f).
Proof.
  intros Hf s u s' Hr. pose proof (set_mc_res_own _ _ _ _ Hr). apply set_mc_res_inv in Hr as (c & Ec & Eh & Eq & Ek & E).
  apply cr_ctl; rewrite ?E; auto.
Qed.
Lemma rel_issuable q : pres R (memory_IsIssuable q).
Proof. unfold memory_IsIssuable. apply pres_bind; [apply _|apply cr_IsIssuable|intros []; apply rel_ret]. Qed.
End Updates.

#[export] Hint Resolve rel_ret rel_me rel_now rel_mc rel_ask_mc rel_issuable cr_NextIssuable cr_Cycle cr_SubArray
  cr_IsWriting cr_Between : pres.

Lemma MoveCurrentQueue_cycle c : lastIssueCycle (MoveCurrentQueue c) = lastIssueCycle c.
Proof. unfold MoveCurrentQueue. repeat case_match; by fields. Qed.
Lemma next_refresh_cycle c : lastIssueCycle (next_refresh c) = lastIssueCycle c.
Proof. unfold next_refresh. cbv zeta. repeat case_match; by fields. Qed.

(** Through an operation of the controller. *)
Ltac rel_tac :=
  repeat first
    [ solve [eauto with pres nocore typeclass_instances]
    | lazymatch goal with |- pres ?R _ =>
        first
          [ apply (rel_quiet R); [solve [quiet_tac] | solve [timeless_tac]]
          | apply (rel_set_me R); solve [intros; repeat case_match; by fields]
          | apply (rel_set_mc R); solve [intros; first [apply MoveCurrentQueue_cycle | apply next_refresh_cycle | by fields]]
          | apply (rel_set_mc_res R); solve [touch_tac]
          | apply (pres_bind R); [|intros ?] ] end
    | head_step ].

(** ** The operations of the controller *)

Section Operations.
Context {B C : Type} `{ControllerLaws B} `{!ChildOps C, !MemoryOps C}.
Context (R : Sim (Node B C) → Sim (Node B C) → Prop) `{!BaseRel R}.
Variable this : ObjPtr.
#[local] Abbreviation keeps_rel m := (pres R m).

Lemma quiet_update_req q f : quiet (update_req (B := B) (C := C) q f).
Proof. unfold update_req. quiet_tac. Qed.
#[local] Hint Resolve quiet_update_req : pres.
Lemma rel_command_queue i : keeps_rel (command_queue i).
Proof. apply (rel_ask_mc R). Qed.
Lemma rel_transaction_queue i : keeps_rel (transaction_queue i).
Proof. apply (rel_ask_mc R). Qed.
Lemma rel_queue_id_of q : keeps_rel (queue_id_of q).
Proof. unfold queue_id_of. rel_tac. Qed.
Lemma rel_queue_empty i : keeps_rel (queue_empty i).
Proof. unfold queue_empty. rel_tac. Qed.
Lemma rel_WasIssued q : keeps_rel (WasIssued q).
Proof. unfold WasIssued. rel_tac. Qed.
#[local] Hint Resolve rel_command_queue rel_transaction_queue rel_queue_id_of rel_queue_empty
  rel_WasIssued : pres.
Lemma rel_EffectivelyEmpty i : keeps_rel (EffectivelyEmpty i).
Proof. unfold EffectivelyEmpty. rel_tac. Qed.
Lemma rel_any_for i l : keeps_rel (any_for i l).
Proof. induction l; cbn [any_for]; rel_tac. Qed.
#[local] Hint Resolve rel_EffectivelyEmpty rel_any_for : pres.
Lemma rel_any_queue_for i l : ∀ rv, keeps_rel (any_queue_for i l rv).
Proof. induction l; intros rv; cbn [any_queue_for]; rel_tac. Qed.
#[local] Hint Resolve rel_any_queue_for : pres.
Lemma rel_TransactionAvailable i : keeps_rel (TransactionAvailable i).
Proof. unfold TransactionAvailable. rel_tac. Qed.
#[local] Hint Resolve rel_TransactionAvailable : pres.
Lemma rel_recheck n l : keeps_rel (recheck this n l).
Proof. induction l; cbn [recheck]; unfold andM, wake_transactions; rel_tac. Qed.
#[local] Hint Resolve rel_recheck : pres.
Lemma rel_Cycle n : keeps_rel (Cycle this n).
Proof. unfold Cycle. rel_tac. Qed.
Lemma rel_schedule_once m w p : keeps_rel (schedule_once this m w p).
Proof. unfold schedule_once. rel_tac. Qed.
#[local] Hint Resolve rel_Cycle rel_schedule_once : pres.
Lemma rel_Enqueue out i q : keeps_rel (Enqueue this out i q).
Proof. unfold Enqueue, wake_transactions. rel_tac. Qed.
Lemma rel_command_at t row col bank rank sub : keeps_rel (command_at this t row col bank rank sub).
Proof. unfold command_at. rel_tac. Qed.
Lemma rel_command_like t q : keeps_rel (command_like this t q).
Proof. unfold command_like. rel_tac. Qed.
Lemma rel_MakeCachedRequest q : keeps_rel (MakeCachedRequest this q).
Proof. unfold MakeCachedRequest. rel_tac. Qed.
#[local] Hint Resolve rel_Enqueue rel_command_at rel_command_like rel_MakeCachedRequest : pres.
Lemma rel_MakeImplicit q : keeps_rel (MakeImplicitPrechargeRequest q).
Proof. unfold MakeImplicitPrechargeRequest. rel_tac. Qed.
#[local] Hint Resolve rel_MakeImplicit : pres.

(** Refresh. *)
Lemma rel_precharge_banks r l : keeps_rel (precharge_banks this r l).
Proof. induction l; cbn [precharge_banks]; unfold MakePrechargeAllRequest_at; rel_tac. Qed.
#[local] Hint Resolve rel_precharge_banks : pres.
Lemma rel_all_empty r l : keeps_rel (all_empty r l).
Proof. induction l; cbn [all_empty]; rel_tac. Qed.
#[local] Hint Resolve rel_all_empty : pres.
Lemma rel_refresh_group next i j : keeps_rel next → keeps_rel (refresh_group this next i j).
Proof. intros Hn. unfold refresh_group, schedule_wake, MakeRefreshRequest. rel_tac. Qed.
Lemma rel_handle_refresh next : keeps_rel next → keeps_rel (handle_refresh this next).
Proof. intros Hn. unfold handle_refresh. rel_tac. all: by apply rel_refresh_group. Qed.
Lemma rel_next_of_banks h l : keeps_rel h → ∀ w, keeps_rel (next_of_banks h l w).
Proof.
  intros Hh. induction l as [|[r k] l IH]; intros w; cbn [next_of_banks];
    unfold next_of_bank, andM, IsRefreshBankQueueEmpty; rel_tac.
Qed.
Lemma rel_next_issuable fuel : keeps_rel (next_issuable this fuel).
Proof.
  induction fuel as [|fuel IH]; cbn [next_issuable]; [apply pres_fail|]. rel_tac.
  apply rel_next_of_banks, rel_handle_refresh, IH.
Qed.
#[local] Hint Resolve rel_next_issuable : pres.
Lemma rel_NextIssuable : keeps_rel (NextIssuable this).
Proof. unfold NextIssuable. rel_tac. Qed.
#[local] Hint Resolve rel_NextIssuable : pres.
Lemma rel_HandleRefresh : keeps_rel (HandleRefresh this).
Proof. apply rel_handle_refresh, rel_NextIssuable. Qed.
Lemma rel_ScheduleCommandWake : keeps_rel (ScheduleCommandWake this).
Proof. unfold ScheduleCommandWake, schedule_wake. rel_tac. Qed.
#[local] Hint Resolve rel_HandleRefresh rel_ScheduleCommandWake : pres.
Lemma rel_ProcessRefreshPulse q : keeps_rel (ProcessRefreshPulse this q).
Proof. unfold ProcessRefreshPulse. rel_tac. Qed.
#[local] Hint Resolve rel_ProcessRefreshPulse : pres.
Lemma rel_steps : keeps_rel steps_since_wake.
Proof. unfold steps_since_wake. rel_tac. Qed.
Lemma rel_count_wakeup : keeps_rel count_wakeup.
Proof. unfold count_wakeup. rel_tac. Qed.
#[local] Hint Resolve rel_steps rel_count_wakeup : pres.
Lemma rel_RefreshCallback d : keeps_rel (RefreshCallback this d).
Proof. unfold RefreshCallback. rel_tac. Qed.
Lemma rel_drop_issued l : keeps_rel (drop_issued l).
Proof. induction l; cbn [drop_issued]; rel_tac. Qed.
#[local] Hint Resolve rel_drop_issued : pres.
Lemma rel_cleanup l : keeps_rel (cleanup l).
Proof. induction l; cbn [cleanup]; rel_tac. Qed.
#[local] Hint Resolve rel_cleanup : pres.
Lemma rel_CleanupCallback : keeps_rel CleanupCallback.
Proof. unfold CleanupCallback. rel_tac. Qed.

(** Scheduling. *)
Lemma rel_other_hit r l : keeps_rel (other_hit r l).
Proof. induction l; cbn [other_hit]; rel_tac. Qed.
#[local] Hint Resolve rel_other_hit : pres.
Lemma rel_IsLastRequest l q : keeps_rel (IsLastRequest l q).
Proof. unfold IsLastRequest. rel_tac. Qed.
Lemma rel_search body l : (∀ q, keeps_rel (body q)) → ∀ i, keeps_rel (search body i l).
Proof. intros Hb. induction l as [|q l IH]; intros i; cbn [search]; rel_tac. Qed.
#[local] Hint Resolve rel_IsLastRequest rel_search : pres.
Lemma rel_find_in last body tq : (∀ q, keeps_rel (body q)) → keeps_rel (find_in last body tq).
Proof. intros Hb. unfold find_in, erase_transaction. rel_tac. Qed.

Section Pred.
Variable pred : ReqPtr → ST (Sim (Node B C)) bool.
Hypothesis Hpred : ∀ q, keeps_rel (pred q).
#[local] Hint Resolve Hpred : pres.
Ltac find_tac := unfold if_free, take_if, queue_free, andM, orM, notM, holds, bank_active, no_refresh, arrived_before; rel_tac.

Lemma rel_FindStarvedRequest tq : keeps_rel (FindStarvedRequest pred tq).
Proof using All. apply rel_find_in. intros q. unfold starved. find_tac. Qed.
Lemma rel_FindRowBufferHit tq : keeps_rel (FindRowBufferHit pred tq).
Proof using All. apply rel_find_in. intros q. unfold row_hit. find_tac. Qed.
Lemma rel_FindCachedAddress tq : keeps_rel (FindCachedAddress this pred tq).
Proof using All. apply rel_find_in. intros q. unfold cached. find_tac. Qed.
Lemma rel_FindWriteStalledRead tq : keeps_rel (FindWriteStalledRead this pred tq).
Proof using All.
  unfold FindWriteStalledRead. apply pres_bind; [apply _|apply (rel_mc R)|intros b]. destruct (negb _); [apply (rel_ret R)|].
  apply rel_find_in. intros q. unfold write_stalled, MakeActivateRequest. find_tac.
Qed.
Lemma rel_FindOldestReadyRequest tq : keeps_rel (FindOldestReadyRequest pred tq).
Proof using All. apply rel_find_in. intros q. unfold oldest_ready. find_tac. Qed.
Lemma rel_FindClosedBankRequest tq : keeps_rel (FindClosedBankRequest pred tq).
Proof using All. apply rel_find_in. intros q. unfold closed_bank. find_tac. Qed.
End Pred.

Lemma rel_push i q : keeps_rel (push i q).
Proof. unfold push. rel_tac. Qed.
Lemma rel_stamp q : keeps_rel (stamp_issue q).
Proof. unfold stamp_issue. rel_tac. Qed.
#[local] Hint Resolve rel_push rel_stamp : pres.
Lemma rel_push_activate i a q : keeps_rel (push_activate this i a q).
Proof. unfold push_activate, MakeActivateRequest. rel_tac. Qed.
#[local] Hint Resolve rel_push_activate : pres.
Lemma rel_open_bank i a m r q : keeps_rel (open_bank this i a m r q).
Proof. unfold open_bank. rel_tac. Qed.
Lemma rel_switch_row i a m r q : keeps_rel (switch_row this i a m r q).
Proof. unfold switch_row, MakePrechargeRequest_at. rel_tac. Qed.
Lemma rel_hit_row i r q : keeps_rel (hit_row i r q).
Proof. unfold hit_row. rel_tac. Qed.
#[local] Hint Resolve rel_open_bank rel_switch_row rel_hit_row : pres.
Lemma rel_IssueMemoryCommands q : keeps_rel (IssueMemoryCommands this q).
Proof. unfold IssueMemoryCommands, bank_active, andM, orM, notM. rel_tac. Qed.
End Operations.
#[export] Hint Resolve quiet_update_req rel_command_queue rel_transaction_queue rel_queue_id_of
  rel_TransactionAvailable rel_schedule_once rel_Cycle rel_Enqueue rel_NextIssuable rel_steps
  rel_count_wakeup rel_RefreshCallback rel_CleanupCallback rel_FindStarvedRequest rel_FindRowBufferHit
  rel_FindCachedAddress rel_FindWriteStalledRead rel_FindOldestReadyRequest rel_FindClosedBankRequest
  rel_IssueMemoryCommands : pres.


(** ** Sending commands *)

Section Sending.
Context {B C : Type} `{ControllerLaws B} `{ChildLaws C} `{!MemoryOps C}.
Context (R : Sim (Node B C) → Sim (Node B C) → Prop) `{!SendRel R}.
Variable this : ObjPtr.
Implicit Types (s : Sim (Node B C)).

(** Nothing reaches the memory, and the controller sends no command. *)
Record unsent s s' : Prop := {
  us_steady : steady s s';
  us_kids : kids (obj s') = kids (obj s);
  us_own : same_own (node (obj s)) (node (obj s'));
  us_last : lastIssueCycle (ctl_of s') = lastIssueCycle (ctl_of s)
}.
#[local] Instance unsent_trans : Transitive unsent.
Proof. intros s1 s2 s3 [A1 A2 A3 A4] [B1 B2 B3 B4]. split; [by etransitivity|congruence|by etransitivity|congruence]. Qed.
Lemma unsent_quiet {A} (m : ST (Sim (Node B C)) A) : quiet m → timeless m → pres unsent m.
Proof. intros Hq Ht s a s' Hr. split; [by eapply Ht|unfold ctl_of; by rewrite (Hq _ _ _ Hr)..]. Qed.
Lemma unsent_set_mc_res f :
  (∀ c c', f c = Ok c' → lastIssueCycle c' = lastIssueCycle c) → pres unsent (set_mc_res f).
Proof.
  intros Hf s u s' Hr. pose proof (set_mc_res_own _ _ _ _ Hr). apply set_mc_res_inv in Hr as (c & Ec & Eh & Eq & Ek & E).
  split; [by apply steady_same|done|done|rewrite E; auto].
Qed.

Lemma rel_issue_head i q s u s' :
  lastIssueCycle (ctl_of s) ≠ now_of s → issue_head this i q s = Ok (u, s') → R s s'.
Proof.
  intros Hne Hr. unfold issue_head in Hr. next Hr. next Hr.
  apply unsent_quiet in E0; [|apply quiet_update_req|apply timeless_update_req].
  load Hr. next Hr. assert (unsent x0 x1) as Hx.
  { revert E2. destruct (decide _); [apply unsent_set_mc_res; touch_tac|by intros [= _ <-]]. }
  rewrite bind_now in Hr. next Hr. pose proof (set_mc_own _ _ _ _ E3) as Eo. apply set_mc_inv in E3 as (Eh & Eq & Ek & Ec).
  assert (unsent x x1) as [U1 U2 U3 U4] by by etransitivity.
  transitivity x2.
  - eapply cmd_send; [exact Hne|exact E| | | |].
    + etransitivity; [exact U1|]. by apply steady_same.
    + congruence.
    + by etransitivity.
    + rewrite Ec. fields. apply U1.
  - revert Hr. match goal with |- ?m _ = _ → _ => assert (pres R m) as P end; [|apply P].
    unfold wake_transactions. rel_tac.
Qed.

(** A question leaves the controller and the time. *)
Lemma asked_memory q s b s' :
  memory_IsIssuable q s = Ok (b, s') → ctl_of s' = ctl_of s ∧ now_of s' = now_of s.
Proof.
  intros Hr. unfold memory_IsIssuable in Hr. next Hr. destruct r. injection Hr as _ <-. split.
  - symmetry. exact (ctl_on_memory eq _ _ _ _ E).
  - assert (timeless (on_memory (B := B) (ch_IsIssuable q))) as Ht; [|by destruct (Ht _ _ _ E)].
    apply timeless_on_memory. intros t a t' [Eh Eq]%cl_IsIssuable. by apply steady_same.
Qed.

Lemma rel_cycle_queues l : pres R (cycle_queues (B := B) (C := C) this l).
Proof.
  induction l as [|x l IH]; cbn [cycle_queues]; [apply (rel_ret R)|]. intros s u s' Hr.
  rewrite bind_mc, bind_now in Hr. next Hr. apply lift_inv in E as [_ ->]. next Hr. apply ask_mc_inv in E as [-> _].
  destruct r0 as [|q r0]; [by eapply IH|]. next Hr.
  assert (R s x0) as Hf.
  { revert E. match goal with |- ?m _ = _ → _ => assert (pres R m) as P by (unfold andM, holds; rel_tac) end. apply P. }
  etransitivity; [exact Hf|]. destruct r1; [|load Hr; destruct (_ >? _); [done|by eapply IH]].
  refine (rel_issue_head r q x0 u s' _ Hr). apply andM_inv in E as (x2 & E & Ea). apply asked_memory in Ea as [-> ->].
  injection E as E <-. by apply negb_true_iff, Z.eqb_neq in E.
Qed.

Lemma rel_CycleCommandQueues : pres R (CycleCommandQueues (B := B) (C := C) this).
Proof.
  unfold CycleCommandQueues. intros s u s' Hr. rewrite bind_mc, bind_now in Hr.
  destruct (_ =? _); [injection Hr as _ <-; apply (rel_refl R)|]. by eapply rel_cycle_queues.
Qed.
#[local] Hint Resolve rel_CycleCommandQueues : pres.
Lemma rel_Callback m d : pres R (Callback (B := B) (C := C) this m d).
Proof.
  unfold Callback. case_decide; [unfold CommandQueueCallback; rel_tac|case_decide; rel_tac].
Qed.
End Sending.
#[export] Hint Resolve rel_CycleCommandQueues rel_Callback : pres.

(** ** What the base class leaves alone

    The members of the policy: a relation on the policy that allows any change
    of the controller is kept by all operations of the base class. *)

Section Members.
Context {B C : Type} `{ControllerLaws B} `{!ChildOps C, !MemoryOps C}.
Context (R : B → B → Prop) `{!PreOrder R} (Rctl : ∀ f b, R b (upd_ctl f b)).

Lemma members_own b b' : same_own b b' → R b b'.
Proof using Rctl. by intros [f ->]. Qed.
Lemma members_memory {A} (m : ST (Sim C) A) : pres (on_node R) (on_memory (B := B) m).
Proof using PreOrder0. intros s a s' (k & sc & _ & _ & ->)%on_memory_run. by unfold on_node. Qed.
Lemma members_base : BaseRel (B := B) (C := C) (on_node R).
Proof using All.
  split; [apply _| | |intros; apply members_memory..].
  - intros s s' _ Eo. unfold on_node. by rewrite Eo.
  - intros s s' _ _ _ Ho _. by apply members_own.
Qed.
Lemma members_send : SendRel (B := B) (C := C) (on_node R).
Proof using All.
  split; [apply members_base|]. intros q s ok s1 s2 _ Hr%members_memory _ _ Ho _. unfold on_node in *.
  etransitivity; [exact Hr|by apply members_own].
Qed.
End Members.

(** ** Policies *)

(** What a policy adds to the controller, for any memory. *)
Class Policy (B : Type) `{Controller B} := {
  po_IssueCommand : ∀ {C} `{ChildOps C, MemoryOps C}, ObjPtr → six → ReqPtr → ST (Sim (Node B C)) bool;
  po_RequestComplete : ∀ {C} `{ChildOps C, MemoryOps C},
    ObjPtr → (ReqPtr → ST (Sim (Node B C)) bool) → ReqPtr → ST (Sim (Node B C)) bool;
  po_Cycle : ∀ {C} `{ChildOps C, MemoryOps C}, ObjPtr → Z → ST (Sim (Node B C)) unit
}.
(** It sends commands only through the command queues of the controller. *)
Class PolicyLaws (B : Type) `{Policy B} := {
  pl_IssueCommand : ∀ C `{ChildOps C, MemoryOps C} (R : Sim (Node B C) → Sim (Node B C) → Prop) `{!ControllerRel R} this out q,
    pres R (po_IssueCommand this out q);
  pl_RequestComplete : ∀ C `{ChildOps C, MemoryOps C} (R : Sim (Node B C) → Sim (Node B C) → Prop) `{!ControllerRel R}
    this parent q, (∀ q, quiet (parent q)) → (∀ q, timeless (parent q)) → pres R (po_RequestComplete this parent q);
  pl_Cycle : ∀ C `{ChildLaws C, MemoryOps C} (R : Sim (Node B C) → Sim (Node B C) → Prop) `{!CommandRel R} this n,
    pres R (po_Cycle this n)
}.

Lemma rel_DummyPredicate {B C} `{ControllerLaws B} `{!ChildOps C, !MemoryOps C} R `{!BaseRel R} q :
  pres R (DummyPredicate (B := B) (C := C) q).
Proof. apply (rel_ret R). Qed.
#[export] Hint Resolve rel_DummyPredicate : pres.

Section Completion.
Context {B C : Type} `{ControllerLaws B} `{!ChildOps C, !MemoryOps C}.
Context (R : Sim (Node B C) → Sim (Node B C) → Prop) `{!ControllerRel R}.
Variable this : ObjPtr.
Variable parent : ReqPtr → ST (Sim (Node B C)) bool.
Variable upd_lat : (Latencies → Latencies) → B → B.
Hypothesis parent_quiet : ∀ q, quiet (parent q).
Hypothesis parent_timeless : ∀ q, timeless (parent q).
Hypothesis lat_only : ∀ f b, ctl (upd_lat f b) = ctl b.

Lemma rel_complete_access q : pres R (complete_access this parent upd_lat q).
Proof using All.
  unfold complete_access, MC.RequestComplete. rel_tac. all: first [apply (rel_set_me R); intros; apply lat_only | apply (rel_quiet R); auto].
Qed.
Lemma rel_complete_or_requeue tq q : pres R (complete_or_requeue this parent upd_lat tq q).
Proof using All. unfold complete_or_requeue, complete_access, MC.RequestComplete. rel_tac. all: first [apply (rel_set_me R); intros; apply lat_only | apply (rel_quiet R); auto]. Qed.
End Completion.

#[export] Instance FRFCFS_policy : Policy FRFCFS.FRFCFS := {|
  po_IssueCommand C _ _ := FRFCFS.IssueCommand; po_RequestComplete C _ _ := FRFCFS.RequestComplete;
  po_Cycle C _ _ := FRFCFS.Cycle |}.
#[export] Instance FRFCFS_policy_laws : PolicyLaws FRFCFS.FRFCFS.
Proof.
  split; intros; cbn; assert (BaseRel R) by apply _.
  - unfold FRFCFS.IssueCommand, FRFCFS.IsIssuable, FRFCFS.memQueue. rel_tac.
  - by apply (rel_complete_or_requeue R).
  - unfold FRFCFS.Cycle, FRFCFS.next_request. rel_tac.
Qed.
#[export] Instance FCFS_policy : Policy FCFS.FCFS := {|
  po_IssueCommand C _ _ := FCFS.IssueCommand; po_RequestComplete C _ _ := FCFS.RequestComplete;
  po_Cycle C _ _ := FCFS.Cycle |}.
#[export] Instance FCFS_policy_laws : PolicyLaws FCFS.FCFS.
Proof.
  split; intros; cbn; assert (BaseRel R) by apply _.
  - unfold FCFS.IssueCommand, FCFS.IsIssuable. rel_tac.
  - by apply (rel_complete_access R).
  - unfold FCFS.Cycle, FCFS.next_request. rel_tac.
Qed.
#[export] Instance WQF_policy : Policy WQF.FRFCFS_WQF := {|
  po_IssueCommand C _ _ := WQF.IssueCommand; po_RequestComplete C _ _ := WQF.RequestComplete;
  po_Cycle C _ _ := WQF.Cycle |}.
#[export] Instance WQF_policy_laws : PolicyLaws WQF.FRFCFS_WQF.
Proof.
  split; intros; cbn; assert (BaseRel R) by apply _.
  - unfold WQF.IssueCommand, WQF.IsIssuable, WQF.queue_size. rel_tac.
  - by apply (rel_complete_or_requeue R).
  - unfold WQF.Cycle, WQF.next_request, WQF.next_of, WQF.queue_size. rel_tac.
    apply (rel_set_me R). intros b. unfold WQF.switch_drain. cbv zeta. repeat case_match; done.
Qed.

(** ** Runs *)

Section Runs.
Context {B C : Type} `{PolicyLaws B} `{!ControllerLaws B} `{ChildLaws C} `{!MemoryOps C}.
Variable this : ObjPtr.
Variable out : six.
Variable parent : ReqPtr → ST (Sim (Node B C)) bool.
(** What the rest of the system does. *)
Variable world : Sim (Node B C) → Sim (Node B C) → Prop.

(** What happens to the controller: transactions, completed requests, its
    cycles and callbacks, and the rest of the system while time goes on. *)
Inductive controller_step : Sim (Node B C) → Sim (Node B C) → Prop :=
  | step_transaction s q ok s' : po_IssueCommand this out q s = Ok (ok, s') → controller_step s s'
  | step_complete s q ok s' : po_RequestComplete this parent q s = Ok (ok, s') → controller_step s s'
  | step_cycle s n s' : po_Cycle this n s = Ok ((), s') → controller_step s s'
  | step_callback s m d s' : Callback this m d s = Ok ((), s') → controller_step s s'
  | step_elsewhere s s' : node (obj s') = node (obj s) → world s s' → controller_step s s'.

Context (R : Sim (Node B C) → Sim (Node B C) → Prop) `{!CommandRel R}.
Hypothesis parent_quiet : ∀ q, quiet (parent q).
Hypothesis parent_timeless : ∀ q, timeless (parent q).
Hypothesis world_rel : ∀ s s', node (obj s') = node (obj s) → world s s' → R s s'.

Lemma controller_step_rel s s' : controller_step s s' → R s s'.
Proof using All.
  intros [? q ok ? Hr|? q ok ? Hr|? n ? Hr|? m d ? Hr|? ? En Ew].
  - exact (pl_IssueCommand _ R _ _ _ _ _ _ Hr).
  - exact (pl_RequestComplete _ R _ _ _ parent_quiet parent_timeless _ _ _ Hr).
  - exact (pl_Cycle _ R _ _ _ _ _ Hr).
  - exact (rel_Callback R _ _ _ _ _ _ Hr).
  - by apply world_rel.
Qed.
Lemma controller_steps_rel s s' : rtc controller_step s s' → R s s'.
Proof using All.
  induction 1 as [s|s1 s2 s3 H12 _ IH]; [apply (rel_refl R)|]. etransitivity; [|exact IH]. by apply controller_step_rel.
Qed.
End Runs.
