(* ===== verification/TimedController.v ===== *)
(** * A controller over a memory that keeps times

    When the memory of a controller keeps times ([Timed], [TimedMemory]), then
    in any run of the controller, whatever its policy, every command it sends
    comes no earlier than the earlier ones demand. *)

From S2P Require Import Prelude NVMTypes Translation Config Params SimInterface Heap EventQueue Frame SubArray Tree Timed.
From S2P Require Import MemoryController ControllerFrame Spy ControllerRuns.
Import MC.

(** What the controller's theorems need of its memory, with times. *)
Class TimedMemory (C : Type) `{ChildOps C, MemoryOps C, TimedOps C} := {
  tme_gate : ∀ q r s ok s' e, h_reqs (heap s) !! q = Some r → ch_IssueCommand q s = Ok (ok, s') →
    tm_refuses e r (obj s) → e ≤ currentCycle (queue s);
  tme_SubArray : ∀ q, pres moves (find_SubArray q);
  tme_IsWriting : ∀ x, pres moves (array_IsWriting x);
  tme_Between : ∀ x, pres moves (array_BetweenWriteIterations x)
}.

Section Checked.
Context {B C : Type} `{ControllerLaws B} `{ChildLaws C} `{MemoryLaws C} `{TimedOps C, !TimedLaws C, !TimedMemory C}.
Implicit Types (s : Sim (Node B (Spy C))) (k : Spy C).

(** The memory refuses what the commands of the log demand. *)
Definition covered k : Prop := ∀ x r1 r2 e, x ∈ log k → sent_ok x = true → sent_req x = Some r1 →
  e ∈ tm_demands (sent_left x) r1 (sent_at x) r2 → tm_refuses e r2 (spied k).
(** No command of the log is earlier than the earlier ones demand (the latest
    comes first). *)
Definition spaced (l : list (Sent C)) : Prop := ∀ i j x y r1 r2 e, (i < j)%nat → l !! j = Some x → l !! i = Some y →
  sent_ok x = true → sent_req x = Some r1 → sent_req y = Some r2 →
  e ∈ tm_demands (sent_left x) r1 (sent_at x) r2 → e ≤ sent_at y.

Definition channel_ok s : Prop := heap_wf (heap s) ∧ Forall (λ k, covered k ∧ spaced (log k)) (kids (obj s)).
Definition checked s s' : Prop := channel_ok s → channel_ok s'.

Lemma covered_later k k' : log k' = log k → tm_later (spied k) (spied k') → covered k → covered k'.
Proof. intros El Hl Hc x r1 r2 e Hx Ho Hr He. rewrite El in Hx. eapply tl_refuses; [exact Hl|by eapply Hc]. Qed.

(** The memory moves on, and nothing is written down. *)
Lemma checked_through {A} (m : ST (Sim C) A) : timeless m → pres moves m → pres checked (on_memory (B := B) (through m)).
Proof.
  intros Ht Hm s a s' (k & sc & Ek & Hr & ->)%on_memory_run [Hh Hk]. rewrite Ek in Hk. apply Forall_cons in Hk as [[Hc Hs] _].
  pose proof (timeless_through m Ht _ _ _ Hr) as [_ Hw]. apply through_inv in Hr as [Hr El].
  split; [by apply Hw|]. cbn [kids obj]. constructor; [|done]. split; [|by rewrite El].
  eapply covered_later; [exact El| |exact Hc]. exact (Hm _ _ _ Hr).
Qed.
Lemma checked_question {A} (m : ST (Sim C) A) : (∀ t a t', m t = Ok (a, t') → heap t' = heap t ∧ queue t' = queue t) →
  pres moves m → pres checked (on_memory (B := B) (through m)).
Proof. intros Hq. apply checked_through. intros t a t' [Eh Eq]%Hq. by apply steady_same. Qed.

#[export] Instance checked_rel : ControllerRel checked.
Proof.
  assert (∀ s s' : Sim (Node B (Spy C)), heap s' = heap s → queue s' = queue s → kids (obj s') = kids (obj s) →
    lastIssueCycle (ctl_of s') = lastIssueCycle (ctl_of s) → checked s s') as Hown.
  { intros s s' Eh Eq Ek _ [Hh Hk]. split; [by rewrite Eh|]. by rewrite Ek. }
  split; [split|exact Hown].
  - unfold checked. auto.
  - intros s s' [_ Hw] Eo [Hh Hk]. split; [by apply Hw|]. by rewrite Eo.
  - auto.
  - intros q. apply checked_question; [apply cl_IsIssuable|apply tl_IsIssuable].
  - intros q. apply checked_question; [apply cl_NextIssuable|apply tl_NextIssuable].
  - intros n. apply checked_through; [apply cl_Cycle|apply tl_Cycle].
  - intros q. apply checked_question; [apply ml_SubArray|apply tme_SubArray].
  - intros x. apply checked_question; [apply ml_IsWriting|apply tme_IsWriting].
  - intros x. apply checked_question; [apply ml_Between|apply tme_Between].
Qed.

(** A command is checked against the earlier ones, and covered from now on. *)
Lemma spaced_cons x l : spaced l → (∀ y r1 r2 e, y ∈ l → sent_ok y = true → sent_req y = Some r1 → sent_req x = Some r2 →
  e ∈ tm_demands (sent_left y) r1 (sent_at y) r2 → e ≤ sent_at x) → spaced (x :: l).
Proof.
  intros Hl Hx [|i] [|j] y z r1 r2 e Hij Hy Hz; try lia; cbn in Hy, Hz.
  - injection Hz as <-. intros ????. eapply Hx; [|done..]. by eapply list_elem_of_lookup_2.
  - eapply (Hl i j); [lia|done..].
Qed.
#[export] Instance checked_command : CommandRel checked.
Proof.
  split; [apply _|]. split; [apply _|]. intros q s ok s1 s2 _ (k & sc & Ek & Hr & ->)%on_memory_run [_ Hw] Ek2 _ _ [Hh Hk].
  rewrite Ek in Hk. apply Forall_cons in Hk as [[Hc Hs] _].
  pose proof (cl_IssueCommand q _ _ _ Hr) as [_ Hw1]. apply spy_IssueCommand_inv in Hr as [Hr El].
  pose proof (tl_IssueCommand q _ _ _ Hr) as Hl. unfold moves in Hl.
  split; [by apply Hw, Hw1|]. rewrite Ek2. cbn [kids obj]. constructor; [|done]. split.
  - intros x r1 r2 e Hx Ho Hq He. rewrite El in Hx. apply elem_of_cons in Hx as [->|Hx].
    + cbn in Ho, Hq, He. subst ok. exact (tl_issue q r1 (unspied (seen s k)) (unspied sc) r2 e Hh Hq Hr He).
    + eapply tl_refuses; [exact Hl|]. by eapply Hc.
  - rewrite El. apply spaced_cons; [done|]. intros y r1 r2 e Hy Ho Hq Hq2 He. cbn in Hq2 |- *.
    exact (tme_gate q r2 (unspied (seen s k)) ok (unspied sc) e Hq2 Hr (Hc y r1 r2 e Hy Ho Hq He)).
Qed.

(** While the controller rests, its memory acts on its own, and anything happens
    elsewhere; pointers stay fresh. *)
Inductive memory_acts : Sim (Node B (Spy C)) → Sim (Node B (Spy C)) → Prop :=
  | acts_memory s i k sk : kids (obj s) !! i = Some k → log (obj sk) = log k →
      tm_acts (unspied (seen s k)) (unspied sk) → (heap_wf (heap s) → heap_wf (heap sk)) →
      memory_acts s (child_acts i s sk)
  | acts_elsewhere s s' : obj s' = obj s → (heap_wf (heap s) → heap_wf (heap s')) → memory_acts s s'.

Lemma memory_acts_checked s s' : memory_acts s s' → checked s s'.
Proof.
  intros [? i k sk Hk El Ha Hw|? ? Eo Hw] [Hh Hf]; (split; [by apply Hw|]); [|by rewrite Eo].
  unfold child_acts. cbn [obj]. fields. pose proof Hf as Hf'. rewrite Forall_lookup in Hf'. destruct (Hf' i k Hk) as [Hc Hs].
  apply Forall_insert; [done|]. split; [|by rewrite El]. eapply covered_later; [exact El| |exact Hc].
  exact (tl_acts _ _ Ha).
Qed.

Lemma channel_spaced `{!Policy B, !PolicyLaws B} this out parent s0 s l :
  (∀ q, quiet (parent q)) → (∀ q, timeless (parent q)) → heap_wf (heap s0) → log <$> kids (obj s0) = [[]] →
  rtc (controller_step this out parent memory_acts) s0 s → log <$> kids (obj s) = [l] → spaced l.
Proof.
  intros Hq Ht Hh Hl Hs El. apply (controller_steps_rel this out parent memory_acts checked Hq Ht) in Hs.
  - destruct Hs as [_ Hf].
    + split; [done|]. destruct (kids (obj s0)) as [|k [|]]; [done| |done]. cbn in Hl. injection Hl as Hl.
      constructor; [|done]. split; [intros x r1 r2 e Hx; rewrite Hl in Hx; by apply elem_of_nil in Hx|].
      rewrite Hl. intros i j x y r1 r2 e _ Hx. by rewrite lookup_nil in Hx.
    + destruct (kids (obj s)) as [|k [|]]; [done| |done]. cbn in El. injection El as <-. by apply Forall_cons in Hf as [[_ ?] _].
  - intros t t' _. apply memory_acts_checked.
Qed.
End Checked.
