(* ===== verification/OneCommand.v ===== *)
(** * At most one command per cycle

    The log of a memory ([Spy]) shows that in any run of a controller no two
    commands reach the memory in the same cycle, whatever its policy. *)

From S2P Require Import Prelude NVMTypes Translation Config Params SimInterface Heap EventQueue Frame Tree.
From S2P Require Import MemoryController ControllerFrame Schedulers FRFCFSControl ControllerBench ControllerRuns Spy.
Import MC.

Section Logs.
Context {B C : Type} `{ControllerLaws B} `{ChildLaws C} `{MemoryLaws C}.
Implicit Types (s : Sim (Node B (Spy C))).

(** The log of the memory. *)
Definition logs s : list (list (Sent C)) := log <$> kids (obj s).
(** The cycles of a log are strictly ordered, and none is after [n]. *)
Definition log_ok (n : Z) (l : list (Sent C)) : Prop := StronglySorted Z.gt (sent_at <$> l) ∧ ∀ x, x ∈ l → sent_at x ≤ n.
Definition paced_state s : Prop :=
  lastIssueCycle (ctl_of s) ≤ now_of s ∧ Forall (log_ok (lastIssueCycle (ctl_of s))) (logs s).
Definition paced s s' : Prop := paced_state s → paced_state s'.

Lemma log_ok_cons x l m : log_ok m l → m < sent_at x → log_ok (sent_at x) (x :: l).
Proof using.
  intros [Hs Hl] Hn. split; cbn.
  - constructor; [done|]. apply Forall_fmap, Forall_forall. intros y Hy%Hl. cbn. lia.
  - intros y [->|Hy%Hl]%elem_of_cons; lia.
Qed.

(** The log, the last command and the time decide. *)
Lemma paced_same s s' :
  now_of s' = now_of s → lastIssueCycle (ctl_of s') = lastIssueCycle (ctl_of s) → logs s' = logs s → paced s s'.
Proof using. unfold paced, paced_state. by intros -> -> ->. Qed.

(** Nothing but a command is written down. *)
Lemma paced_through {A} (m : ST (Sim C) A) : timeless m → pres paced (on_memory (B := B) (through m)).
Proof using.
  intros Hm s a s' (k & sc & Ek & Hr & ->)%on_memory_run. pose proof (timeless_through m Hm _ _ _ Hr) as [Et _].
  apply through_inv in Hr as [_ El]. apply paced_same; [done..|]. unfold logs. cbn. by rewrite Ek, El.
Qed.
(** Questions take no time. *)
Lemma paced_question {A} (m : ST (Sim C) A) :
  (∀ t a t', m t = Ok (a, t') → heap t' = heap t ∧ queue t' = queue t) → pres paced (on_memory (B := B) (through m)).
Proof using. intros Hm. apply paced_through. intros t a t' [Eh Eq]%Hm. by apply steady_same. Qed.

#[export] Instance paced_rel : ControllerRel paced.
Proof.
  assert (∀ s s' : Sim (Node B (Spy C)), heap s' = heap s → queue s' = queue s → kids (obj s') = kids (obj s) →
    lastIssueCycle (ctl_of s') = lastIssueCycle (ctl_of s) → paced s s') as Hown.
  { intros s s' Eh Eq Ek El. apply paced_same; [unfold now_of; by rewrite Eq|done|unfold logs; by rewrite Ek]. }
  split; [split|exact Hown].
  - unfold paced. auto.
  - intros s s' [Et _] Eo. apply paced_same; [done|..]; unfold ctl_of, logs; by rewrite Eo.
  - auto.
  - intros q. apply paced_question, cl_IsIssuable.
  - intros q. apply paced_question, cl_NextIssuable.
  - intros n. apply paced_through, cl_Cycle.
  - intros q. apply paced_question, ml_SubArray.
  - intros x. apply paced_question, ml_IsWriting.
  - intros x. apply paced_question, ml_Between.
Qed.
#[export] Instance paced_command : CommandRel paced.
Proof.
  split; [apply _|]. split; [apply _|]. intros q s ok s1 s2 Hne (k & sc & Ek & Hr & ->)%on_memory_run [Et _] Ek2 _ El [Hn Hl].
  pose proof (cl_IssueCommand q _ _ _ Hr) as [Ei _]. apply spy_IssueCommand_inv in Hr as [_ Elog].
  unfold paced_state, logs, now_of in *. rewrite Ek2, El, Ek in *. cbn in *. apply Forall_cons in Hl as [Hl _].
  split; [lia|]. constructor; [|done]. rewrite Elog, Ei. eapply log_ok_cons; [exact Hl|]. cbn. lia.
Qed.
End Logs.

(** The log and the policy are left alone while time goes on. *)
Definition time_passes {B C} (s s' : Sim (Node B (Spy C))) : Prop := logs s' = logs s ∧ now_of s ≤ now_of s'.

(** C26. The memory gets at most one command per cycle: in any run of a controller
    over a memory that writes down what it is sent, whatever its policy, whatever
    transactions arrive and however often the controller is woken up, the
    cycles of the commands are all different. *)
Theorem one_command_per_cycle {B C} `{PolicyLaws B, !ControllerLaws B} `{ChildLaws C} `{MemoryLaws C} this out parent
    (s0 s : Sim (Node B (Spy C))) l :
  (∀ q, quiet (parent q)) → (∀ q, timeless (parent q)) →
  lastIssueCycle (ctl_of s0) ≤ now_of s0 → logs s0 = [[]] →
  rtc (controller_step this out parent time_passes) s0 s → logs s = [l] → NoDup (sent_at <$> l).
Proof.
  intros Hq Ht Hn Hl Hs El.
  assert (paced_state s) as [_ Hp].
  { apply (controller_steps_rel this out parent time_passes paced Hq Ht) in Hs; [apply Hs|].
    - split; [done|]. rewrite Hl. constructor; [|done]. split; [constructor|]. by intros t ?%elem_of_nil.
    - intros t t' En [E Hle] [Hn' Hl']. unfold paced_state, ctl_of in *. rewrite En, E. split; [lia|done]. }
  rewrite El in Hp. apply Forall_cons in Hp as [[Hp _] _]. clear -Hp.
  induction Hp as [|t ts Hts IH Hgt]; constructor; [|done].
  intros Hin. rewrite Forall_forall in Hgt. specialize (Hgt t Hin). lia.
Qed.

(** A transaction that arrives in cycle 5 activates a row in cycle 6 and reads it
    in cycle 7. *)
Lemma one_command_per_cycle_witness : NoDup [7; 6].
Proof.
  set (s0 := ControllerBench.at_time 5 (ControllerBench.start (mkSpy ready []) ControllerBench.p0)).
  set (s1 := ControllerBench.after (FRFCFS.IssueCommand 5 ControllerBench.out0 10) s0).
  set (s2 := ControllerBench.after (FRFCFS.Cycle 5 1) (ControllerBench.at_time 6 s1)).
  set (s3 := ControllerBench.after (Callback 5 cb_Cleanup 0) (ControllerBench.at_time 7 s2)).
  set (s4 := ControllerBench.after (Callback 5 cb_CommandQueue 0) s3).
  assert (sent_at <$> default [] (head (logs s4)) = [7; 6]) as <- by (vm_compute; reflexivity).
  refine (one_command_per_cycle (B := FRFCFS.FRFCFS) (C := Ready) 5 ControllerBench.out0 (λ _, mret true) s0 s4 _ _ _ _ _ _ _).
  - intros q. apply quiet_ret.
  - intros q. apply timeless_ret.
  - vm_compute. discriminate.
  - reflexivity.
  - assert (∀ n s, now_of s ≤ n → controller_step (B := FRFCFS.FRFCFS) (C := Spy Ready) 5 ControllerBench.out0 (λ _, mret true) time_passes s
      (ControllerBench.at_time n s)) as Htime by (intros n s Hn; apply step_elsewhere; by split).
    eapply rtc_l; [apply (step_transaction _ _ _ _ s0 10 true s1); vm_compute; reflexivity|].
    eapply rtc_l; [apply (Htime 6); vm_compute; discriminate|].
    eapply rtc_l; [apply (step_cycle _ _ _ _ _ 1 s2); vm_compute; reflexivity|].
    eapply rtc_l; [apply (Htime 7); vm_compute; discriminate|].
    eapply rtc_l; [apply (step_callback _ _ _ _ _ cb_Cleanup 0 s3); vm_compute; reflexivity|].
    apply rtc_once. apply (step_callback _ _ _ _ _ cb_CommandQueue 0). vm_compute. reflexivity.
  - vm_compute. reflexivity.
Defined.
