(* ===== verification/RefreshHandling.v ===== *)
(** * Refreshes do not keep the controller in a loop

    The next issuable cycle is asked for by what handles a refresh, and it
    handles a refresh that is due: [NextIssuable], [HandleRefresh] and
    [ScheduleCommandWake] call each other. Every turn takes one of the refreshes
    that are counted, so the recursion is as deep as their number at most, which
    is the fuel of [MC.NextIssuable]. *)

From S2P Require Import Prelude NVMTypes Translation Config Params SimInterface Heap EventQueue Frame Tree.
From S2P Require Import MemoryController ControllerFrame Schedulers FRFCFSControl ControllerBench.
Import MC.

(** ** Runs from one state

    [m] from [s] ends: well, and then in [Q], or in an abort of the program. *)

Definition lands {S A} (m : ST S A) (s : S) (Q : A → S → Prop) : Prop :=
  match m s with Ok (a, s') => Q a s' | Err e => e ≠ OutOfFuel end.

Lemma lands_bind {S A B} (m : ST S A) (f : A → ST S B) s Q :
  lands m s (λ a s1, lands (f a) s1 Q) → lands (m ≫= f) s Q.
Proof. unfold lands. rewrite bind_eq. by destruct (m s) as [[]|]. Qed.
Lemma lands_pres {S A} (R : S → S → Prop) (m : ST S A) s (Q : A → S → Prop) :
  ends m → pres R m → (∀ a s', R s s' → Q a s') → lands m s Q.
Proof.
  intros He Hp HQ. unfold lands. destruct (m s) as [[a s']|e] eqn:E; [by eapply HQ, Hp|].
  intros ->. by apply (He s).
Qed.
Lemma lands_weaken {S A} (m : ST S A) s (P Q : A → S → Prop) :
  lands m s P → (∀ a s', P a s' → Q a s') → lands m s Q.
Proof. unfold lands. intros HP HQ. destruct (m s) as [[]|]; [by apply HQ|done]. Qed.

(** ** The parts that do not recurse *)

Section Ends.
Context {B C : Type} `{ControllerLaws B} `{ChildLaws C}.
Variable this : ObjPtr.
#[local] Abbreviation ending m := (ends (S := Sim (Node B C)) m).

Lemma ends_mc : ending mc.
Proof. by intros s. Qed.
Lemma ends_set_mc f : ending (set_mc f).
Proof. by intros s. Qed.
#[local] Hint Resolve ends_mc ends_set_mc : ends.
Lemma ends_set_mc_res f : (∀ c, fueled (f c)) → ending (set_mc_res f).
Proof. intros Hf. unfold set_mc_res. ends_tac. Qed.
Lemma ends_ask_mc {A} (f : MemoryController → res A) : (∀ c, fueled (f c)) → ending (ask_mc f).
Proof. intros Hf. unfold ask_mc. ends_tac. Qed.
Lemma ends_update_req q f : ending (update_req q f).
Proof. unfold update_req. ends_tac. Qed.
Lemma ends_the_child : ending the_child.
Proof. unfold the_child. ends_tac. Qed.
#[local] Hint Resolve ends_update_req ends_the_child : ends.
Lemma ends_on_memory {A} (m : ST (Sim C) A) : ends m → ending (on_memory m).
Proof. intros Hm. unfold on_memory. ends_tac. Qed.

Lemma fueled_at_ix {K V} `{Countable K} (m : gmap K V) k : fueled (at_ix m k).
Proof. unfold at_ix. fueled_tac. Qed.
Lemma fueled_udiv a b : fueled (udiv a b).
Proof. unfold udiv. fueled_tac. Qed.
Lemma fueled_umod a b : fueled (umod a b).
Proof. unfold umod. fueled_tac. Qed.
Lemma fueled_queue_at l i : fueled (queue_at l i).
Proof. unfold queue_at. fueled_tac. Qed.
#[local] Hint Resolve fueled_at_ix fueled_udiv fueled_umod fueled_queue_at : ends.
Lemma fueled_set_ix {K V} `{Countable K} k v (m : gmap K V) : fueled (set_ix k v m).
Proof. unfold set_ix. fueled_tac. Qed.
Lemma fueled_queue_id b a : fueled (GetCommandQueueId b a).
Proof. unfold GetCommandQueueId. fueled_tac. Qed.
Lemma fueled_NeedRefresh b k r : fueled (NeedRefresh b k r).
Proof. unfold NeedRefresh. fueled_tac. Qed.
Lemma fueled_group_banks b k : fueled (group_banks b k).
Proof. unfold group_banks. fueled_tac. Qed.
#[local] Hint Resolve fueled_set_ix fueled_queue_id fueled_NeedRefresh fueled_group_banks : ends.
Lemma fueled_set_group v r l m : fueled (set_group v r l m).
Proof. unfold set_group. fueled_tac. Qed.
Lemma fueled_push_command i q b : fueled (push_command i q b).
Proof. unfold push_command. fueled_tac. Qed.
Lemma fueled_clear_arrays r k b : fueled (clear_arrays r k b).
Proof. unfold clear_arrays. fueled_tac. Qed.
Lemma fueled_set_activateQueued r k v b : fueled (set_activateQueued r k v b).
Proof. unfold set_activateQueued. fueled_tac. Qed.
Lemma fueled_refresh_banks b j : fueled (refresh_banks b j).
Proof. unfold refresh_banks. fueled_tac. Qed.
Lemma fueled_refresh_target b x : fueled (refresh_target b x).
Proof. unfold refresh_target. fueled_tac. Qed.
#[local] Hint Resolve fueled_set_group fueled_push_command fueled_clear_arrays fueled_set_activateQueued
  fueled_refresh_banks fueled_refresh_target : ends.
Lemma fueled_first_refresh b l : fueled (first_refresh b l).
Proof. induction l; cbn [first_refresh]; fueled_tac. Qed.
Lemma fueled_ResetRefresh k r b : fueled (ResetRefresh k r b).
Proof. unfold ResetRefresh. fueled_tac. Qed.
Lemma fueled_Decrement k r b : fueled (DecrementRefreshCounter k r b).
Proof. unfold DecrementRefreshCounter, bump_counter. fueled_tac. Qed.
#[local] Hint Resolve fueled_first_refresh fueled_ResetRefresh fueled_Decrement : ends.

End Ends.
#[local] Hint Resolve ends_mc ends_set_mc ends_update_req ends_the_child ends_on_memory fueled_at_ix fueled_udiv
  fueled_umod fueled_queue_at fueled_set_ix fueled_queue_id fueled_NeedRefresh fueled_group_banks fueled_set_group
  fueled_push_command fueled_clear_arrays fueled_set_activateQueued fueled_refresh_banks fueled_refresh_target
  fueled_first_refresh fueled_ResetRefresh fueled_Decrement : ends.

Ltac ends_mc_tac := repeat first
  [ progress ends_tac
  | apply ends_set_mc_res; intros ?; solve [fueled_tac]
  | apply ends_ask_mc; intros ?; solve [fueled_tac] ].

Section EndsMore.
Context {B C : Type} `{ControllerLaws B} `{ChildLaws C}.
Variable this : ObjPtr.
#[local] Abbreviation ending m := (ends (S := Sim (Node B C)) m).

Lemma ends_schedule_once m w p : ending (schedule_once this m w p).
Proof. unfold schedule_once. ends_mc_tac. Qed.
Lemma ends_command_at t row col bank rank sub : ending (command_at this t row col bank rank sub).
Proof. unfold command_at. ends_mc_tac. Qed.
Lemma ends_command_queue i : ending (command_queue i).
Proof. unfold command_queue. ends_mc_tac. Qed.
#[local] Hint Resolve ends_schedule_once ends_command_at ends_command_queue : ends.
Lemma ends_precharge_banks r l : ending (precharge_banks this r l).
Proof. induction l; cbn [precharge_banks]; unfold MakePrechargeAllRequest_at; ends_mc_tac. Qed.
Lemma ends_WasIssued q : ending (WasIssued q).
Proof. unfold WasIssued. ends_mc_tac. Qed.
#[local] Hint Resolve ends_WasIssued : ends.
Lemma ends_EffectivelyEmpty i : ending (EffectivelyEmpty i).
Proof. unfold EffectivelyEmpty. ends_mc_tac. Qed.
#[local] Hint Resolve ends_EffectivelyEmpty : ends.
Lemma ends_all_empty r l : ending (all_empty r l).
Proof. induction l; cbn [all_empty]; ends_mc_tac. Qed.
#[local] Hint Resolve ends_all_empty : ends.
Lemma ends_refresh_queue_empty k r : ending (IsRefreshBankQueueEmpty k r).
Proof. unfold IsRefreshBankQueueEmpty. ends_mc_tac. Qed.
End EndsMore.
#[local] Hint Resolve ends_schedule_once ends_command_at ends_command_queue ends_precharge_banks ends_refresh_queue_empty : ends.

(** ** The refreshes that are counted *)

(** The counters stay. *)
Definition kept (c c' : MemoryController) : Prop :=
  params c' = params c ∧ delayedRefreshCounter c' = delayedRefreshCounter c.
#[export] Instance kept_preorder : PreOrder kept.
Proof. split; unfold kept; [done|]. intros c1 c2 c3 [E1 E2] [E3 E4]. split; congruence. Qed.

(** A refresh is due when its counter has reached a threshold that is not zero,
    and the counters are 64-bit numbers. *)
Definition counting (c : MemoryController) : Prop :=
  1 ≤ DelayedRefreshThreshold (params c) ∧ map_Forall (λ _ x, is_u64 x) (delayedRefreshCounter c).
(** No more refreshes than before. *)
Definition fewer (c c' : MemoryController) : Prop :=
  params c' = params c ∧ (counting c → counting c' ∧ pending_refreshes c' ≤ pending_refreshes c).
#[export] Instance fewer_preorder : PreOrder fewer.
Proof.
  split; unfold fewer; [done|]. intros c1 c2 c3 [E1 H1] [E2 H2]. split; [congruence|].
  intros [Hc Hp]%H1. destruct (H2 Hc) as [Hc' Hp']. split; [done|lia].
Qed.
Lemma kept_fewer c c' : kept c c' → fewer c c'.
Proof. intros [E1 E2]. unfold fewer, counting, pending_refreshes. by rewrite E1, E2. Qed.

Lemma sum_insert (m : gmap (Z * Z) Z) k x y :
  m !! k = Some x → map_fold (λ _ x a, x + a) 0 (<[k := y]> m) = map_fold (λ _ x a, x + a) 0 m - x + y.
Proof.
  intros Hk. rewrite <-(insert_id _ _ _ Hk) at 2. rewrite <-(insert_delete_eq m k y), <-(insert_delete_eq m k x).
  rewrite !map_fold_insert_L by (rewrite ?lookup_delete_eq; auto with lia). lia.
Qed.
Lemma pending_nonneg c : counting c → 0 ≤ pending_refreshes c.
Proof.
  intros [_ Hc]. unfold pending_refreshes.
  cut (map_Forall (λ _ x, is_u64 x) (delayedRefreshCounter c) → 0 ≤ map_fold (λ _ x a, x + a) 0 (delayedRefreshCounter c)).
  { intros Hn. by apply Hn. }
  apply (map_fold_weak_ind (λ a m, map_Forall (λ _ x, is_u64 x) m → 0 ≤ a)); [done|].
  intros k x m a Hk IH Hf. rewrite map_Forall_insert in Hf by done. destruct Hf as [Hx Hm]. specialize (IH Hm).
  unfold is_u64 in Hx. lia.
Qed.

(** What is handled was counted. *)
Lemma first_refresh_due c l i j :
  first_refresh c l = Ok (Some (i, j)) → counting c →
  ∃ g x, udiv j (BanksPerRefresh (params c)) = Ok g ∧ delayedRefreshCounter c !! (i, g) = Some x ∧ 1 ≤ x.
Proof.
  intros Hr [Ht _]. induction l as [|y l IH]; cbn [first_refresh] in Hr; [done|].
  rnext Hr. destruct v as [i' j']. rnext Hr. destruct v; [|by apply IH]. injection Hr as -> ->.
  unfold NeedRefresh in E0. destruct (UseRefresh (params c)); [|done]. rnext E0. rnext E0.
  apply at_ix_inv in E2. injection E0 as Hx. apply Z.geb_le in Hx. exists v, v0. split_and!; [done..|lia].
Qed.
Lemma Decrement_pending c c' i j g x :
  DecrementRefreshCounter j i c = Ok c' → counting c →
  udiv j (BanksPerRefresh (params c)) = Ok g → delayedRefreshCounter c !! (i, g) = Some x → 1 ≤ x →
  params c' = params c ∧ counting c' ∧ pending_refreshes c' = pending_refreshes c - 1.
Proof.
  intros (g' & x' & Ex & Eg & ->)%bump_counter_eq [Ht Hc] Hg Hx H1. rewrite Hg in Eg. injection Eg as <-.
  rewrite Hx in Ex. injection Ex as <-. pose proof (Hc _ _ Hx) as Hu.
  assert (x ⊖ 1 = x - 1) as E by (apply u64_small; unfold is_u64 in *; lia).
  unfold counting, pending_refreshes. fields. split; [done|]. split; [split; [done|]|].
  - apply map_Forall_insert_2; [|done]. rewrite E. unfold is_u64 in *. lia.
  - rewrite (sum_insert _ _ _ _ Hx), E. lia.
Qed.

Section Counters.
Context {B C : Type} `{ControllerLaws B} `{ChildLaws C}.
Variable this : ObjPtr.
Implicit Types (s : Sim (Node B C)).
#[local] Abbreviation keeps_count m := (pres (on_ctl (B := B) (C := C) kept) m).

Lemma kept_next_refresh c : kept c (next_refresh c).
Proof. unfold kept, next_refresh. cbv zeta. repeat case_match; by fields. Qed.
Lemma kept_clear r k c c' : clear_arrays r k c = Ok c' → kept c c'.
Proof. intros E%clear_arrays_only. rewrite E. unfold kept. by fields. Qed.
Lemma quiet_update q f : quiet (update_req (B := B) (C := C) q f).
Proof. unfold update_req. quiet_tac. Qed.
#[local] Hint Resolve quiet_update : pres.

Ltac kept_tac :=
  repeat first
    [ solve [eauto with pres nocore typeclass_instances]
    | lazymatch goal with |- pres ?R _ =>
        first
          [ apply quiet_pres; [apply _|solve [quiet_tac]]
          | apply ctl_ask_mc; apply _ | apply ctl_mc; apply _ | apply ctl_on_memory; apply _
          | apply ctl_set_mc; solve [intros; first [apply kept_next_refresh | unfold kept; by fields]]
          | apply ctl_set_mc_res; first [solve [apply kept_clear] | solve [unfold kept; touch_tac]]
          | apply (pres_bind R); [|intros ?] ] end
    | head_step ].

Lemma kept_command_at t row col bank rank sub : keeps_count (command_at this t row col bank rank sub).
Proof. unfold command_at. kept_tac. Qed.
Lemma kept_command_queue i : keeps_count (command_queue i).
Proof. apply ctl_ask_mc; apply _. Qed.
Lemma kept_schedule_once m w p : keeps_count (schedule_once this m w p).
Proof. unfold schedule_once. kept_tac. Qed.
#[local] Hint Resolve kept_command_at kept_command_queue kept_schedule_once : pres.
Lemma kept_precharge_banks r l : keeps_count (precharge_banks this r l).
Proof. induction l; cbn [precharge_banks]; unfold MakePrechargeAllRequest_at; kept_tac. Qed.
Lemma kept_EffectivelyEmpty i : keeps_count (EffectivelyEmpty i).
Proof. unfold EffectivelyEmpty, WasIssued. kept_tac. Qed.
#[local] Hint Resolve kept_EffectivelyEmpty kept_precharge_banks : pres.
Lemma kept_all_empty r l : keeps_count (all_empty r l).
Proof. induction l; cbn [all_empty]; kept_tac. Qed.
#[local] Hint Resolve kept_all_empty : pres.
Lemma kept_refresh_queue_empty k r : keeps_count (IsRefreshBankQueueEmpty k r).
Proof. unfold IsRefreshBankQueueEmpty. kept_tac. Qed.
#[local] Hint Resolve kept_refresh_queue_empty : pres.

(** ** The recursion *)

Lemma lands_keep {A A'} (m : ST (Sim (Node B C)) A) (f : A → ST (Sim (Node B C)) A') s Q :
  ends m → keeps_count m → (∀ a s1, kept (ctl_of s) (ctl_of s1) → lands (f a) s1 Q) → lands (m ≫= f) s Q.
Proof. intros He Hk Hf. apply lands_bind. by apply (lands_pres (on_ctl kept)). Qed.
Lemma lands_set_mc_res {A} f (k : unit → ST (Sim (Node B C)) A) s Q :
  (∀ c, fueled (f c)) → (∀ c s1, f (ctl_of s) = Ok c → ctl_of s1 = c → lands (k ()) s1 Q) →
  lands (set_mc_res f ≫= k) s Q.
Proof.
  intros Hf Hk. apply lands_bind. unfold lands at 1. destruct (set_mc_res f s) as [[[] s1]|e] eqn:E.
  - apply set_mc_res_inv in E as (c & Ec & _ & _ & _ & Es). by apply (Hk c s1).
  - intros ->. by apply (ends_set_mc_res f Hf s).
Qed.

Lemma lands_mc {A} (f : MemoryController → ST (Sim (Node B C)) A) s Q : lands (f (ctl_of s)) s Q → lands (mc ≫= f) s Q.
Proof. unfold lands. by rewrite bind_mc. Qed.
Lemma lands_lift {A A'} (m : res A) (f : A → ST (Sim (Node B C)) A') s Q :
  fueled m → (∀ a, m = Ok a → lands (f a) s Q) → lands (lift m ≫= f) s Q.
Proof.
  intros Hm Hf. apply lands_bind. unfold lands at 1, lift. destruct m as [a|e]; [by apply Hf|].
  intros ->. by apply Hm.
Qed.

(** The question ends and counts no more refreshes than before. *)
Definition settles {A} (m : ST (Sim (Node B C)) A) s : Prop := lands m s (λ _ s', fewer (ctl_of s) (ctl_of s')).

Lemma settles_keep {A A'} (m : ST (Sim (Node B C)) A) (f : A → ST (Sim (Node B C)) A') s :
  ends m → keeps_count m → (∀ a s1, kept (ctl_of s) (ctl_of s1) → settles (f a) s1) → settles (m ≫= f) s.
Proof.
  intros He Hk Hf. apply lands_keep; [done..|]. intros a s1 Hs. eapply lands_weaken; [by apply Hf|].
  intros a' s' Hs'. cbn beta in Hs'. etransitivity; [by apply kept_fewer|done].
Qed.

Lemma kept_settles {A} (m : ST (Sim (Node B C)) A) s : ends m → keeps_count m → settles m s.
Proof. intros He Hk. apply (lands_pres (on_ctl kept)); [done..|]. intros a s' K. by apply kept_fewer. Qed.
Lemma settles_bind {A A'} n (m : ST (Sim (Node B C)) A) (f : A → ST (Sim (Node B C)) A') s :
  settles m s → counting (ctl_of s) → pending_refreshes (ctl_of s) ≤ n →
  (∀ a s1, counting (ctl_of s1) → pending_refreshes (ctl_of s1) ≤ n → settles (f a) s1) → settles (m ≫= f) s.
Proof.
  intros Hm Hc Hn Hf. apply lands_bind. eapply lands_weaken; [exact Hm|]. intros a s1 [Ep H1s]. destruct (H1s Hc) as [Hc1 Hn1].
  eapply lands_weaken; [apply Hf; [done|lia]|]. intros a' s' Hs'. transitivity (ctl_of s1); [by split|exact Hs'].
Qed.

Section Depth.
Variable next : ST (Sim (Node B C)) Z.
Variable n : Z.
Hypothesis next_settles : ∀ s, counting (ctl_of s) → pending_refreshes (ctl_of s) < n → settles next s.

Ltac keep := let a := fresh "a" in let s1 := fresh "s1" in let K := fresh "K" in
  apply lands_keep; [ends_mc_tac|kept_tac|intros a s1 K];
  try match type of K with kept ?c2 _ => match goal with K' : kept ?c1 c2 |- _ =>
    apply (transitivity K') in K; clear K' end end.

Lemma schedule_wake_settles s :
  counting (ctl_of s) → pending_refreshes (ctl_of s) < n → settles (schedule_wake this next) s.
Proof using All.
  intros Hc Hn. apply lands_bind. eapply lands_weaken; [by apply next_settles|]. intros w s1 Hs1.
  apply (lands_pres (on_ctl kept)); [apply ends_schedule_once|apply kept_schedule_once|].
  intros u s2 Hs2. transitivity (ctl_of s1); [exact Hs1|by apply kept_fewer].
Qed.

(** One refresh takes one off its counter before the question comes back. *)
Lemma refresh_group_settles s i j g x :
  counting (ctl_of s) → pending_refreshes (ctl_of s) ≤ n →
  udiv j (BanksPerRefresh (params (ctl_of s))) = Ok g → delayedRefreshCounter (ctl_of s) !! (i, g) = Some x → 1 ≤ x →
  settles (refresh_group this next i j) s.
Proof using All.
  intros Hc Hn Hg Hx Hx1. unfold refresh_group, MakeRefreshRequest. keep.
  keep. keep. keep. keep. keep. keep. keep.
  match goal with K : kept (ctl_of s) (ctl_of ?s') |- _ => destruct K as [Ep Ed]; rename s' into t1 end.
  apply lands_set_mc_res; [intros c; fueled_tac|]. intros c t2 Ec E2.
  apply (Decrement_pending _ _ _ _ g x) in Ec as (Ep' & Hc' & Hp'); [|unfold counting; by rewrite Ep, Ed|by rewrite Ep|by rewrite Ed|done].
  assert (pending_refreshes c < n) as Hc1 by (revert Hp'; unfold pending_refreshes; rewrite Ed; unfold pending_refreshes in Hn; lia).
  rewrite <-E2 in *.
  keep. keep. keep. keep. match goal with K : kept (ctl_of t2) (ctl_of ?s') |- _ => rename K into K2; rename s' into t3 end.
  destruct (kept_fewer _ _ K2) as [Ep2 Hf]. destruct (Hf Hc') as [Hc3 Hp3].
  eapply lands_weaken; [apply schedule_wake_settles; [done|lia]|]. cbv beta. intros _ t4 Hs4.
  transitivity (ctl_of t3); [|done]. split; [congruence|]. intros _. split; [done|].
  revert Hp' Hp3. unfold pending_refreshes. rewrite Ed. lia.
Qed.

Lemma handle_refresh_settles s :
  counting (ctl_of s) → pending_refreshes (ctl_of s) ≤ n → settles (handle_refresh this next) s.
Proof using All.
  intros Hc Hn. unfold handle_refresh. apply lands_mc, lands_lift; [apply fueled_first_refresh|].
  intros [[i j]|] Ef; [|done]. destruct (first_refresh_due _ _ _ _ Ef Hc) as (g & x & Hg & Hx & Hx1).
  apply lands_bind. eapply lands_weaken; [by eapply refresh_group_settles|]. done.
Qed.

(** The memory's answers end. *)
Hypothesis memory_answers : ∀ q, ends (ch_NextIssuable (C := C) q).

Ltac settle := first
  [ apply kept_settles; [ends_mc_tac|kept_tac]; fail
  | apply (settles_bind n); [apply kept_settles; [solve [ends_mc_tac]|solve [kept_tac]]|done|done|intros ? ? ? ? ] ].

Lemma next_of_bank_settles rank bank w s :
  counting (ctl_of s) → pending_refreshes (ctl_of s) ≤ n →
  settles (next_of_bank (handle_refresh this next) rank bank w) s.
Proof using All.
  intros Hc Hn. unfold next_of_bank, andM. settle. settle.
  apply (settles_bind n); [|done..|].
  - destruct a0; [|by apply kept_settles; [ends_mc_tac|kept_tac]]. settle. settle.
    destruct (negb _); [|by apply kept_settles; [ends_mc_tac|kept_tac]].
    apply (settles_bind n); [by apply handle_refresh_settles|done|done|]. intros ????.
    apply kept_settles; [ends_mc_tac|kept_tac].
  - intros w' t1 Hc1 Hn1. settle.
Qed.

Lemma next_of_banks_settles l : ∀ w s,
  counting (ctl_of s) → pending_refreshes (ctl_of s) ≤ n →
  settles (next_of_banks (handle_refresh this next) l w) s.
Proof using All.
  induction l as [|[r k] l IH]; intros w s Hc Hn; cbn [next_of_banks]; [apply kept_settles; [ends_tac|kept_tac]|].
  apply (settles_bind n); [by apply next_of_bank_settles|done..|]. intros x s1 Hc1 Hn1. by apply IH.
Qed.
End Depth.

Lemma next_issuable_settles fuel : (∀ q, ends (ch_NextIssuable (C := C) q)) → ∀ s,
  counting (ctl_of s) → pending_refreshes (ctl_of s) < Z.of_nat fuel → settles (next_issuable this fuel) s.
Proof using All.
  intros Hmem. induction fuel as [|fuel IH]; intros s Hc Hn; [pose proof (pending_nonneg _ Hc); lia|].
  cbn [next_issuable]. apply lands_mc.
  assert (pending_refreshes (ctl_of s) ≤ Z.of_nat fuel) as Hf by lia. apply (settles_bind (Z.of_nat fuel)).
  - by apply (next_of_banks_settles (next_issuable this fuel) (Z.of_nat fuel)).
  - done.
  - done.
  - intros w s1 Hc1 Hn1. apply kept_settles; [ends_mc_tac|kept_tac].
Qed.
End Counters.

(** C28. The question for the next issuable cycle ends: handling a refresh asks
    it again, but as soon as a counter has to be at least one for a refresh to
    be due, every turn of the recursion takes a refresh off the counters; none
    is counted anew. The answer is a cycle in the future. *)
Theorem NextIssuable_terminates {B C} `{ControllerLaws B} `{ChildLaws C} this (s : Sim (Node B C)) :
  (∀ q, ends (ch_NextIssuable (C := C) q)) → counting (ctl_of s) →
  match NextIssuable this s with
  | Ok (t, s') =>
      pending_refreshes (ctl_of s') ≤ pending_refreshes (ctl_of s) ∧
      (currentCycle (queue s') < u64_max → currentCycle (queue s') < t)
  | Err e => e ≠ OutOfFuel
  end.
Proof.
  intros Hm Hc. unfold NextIssuable, refresh_fuel. rewrite bind_mc. pose proof (pending_nonneg _ Hc) as Hp.
  pose proof (next_issuable_settles this (S (Z.to_nat (pending_refreshes (ctl_of s)))) Hm s Hc) as Hs.
  unfold settles, lands in Hs. specialize (Hs ltac:(lia)).
  destruct (next_issuable _ _ s) as [[t s']|e] eqn:E; [|done]. split; [by apply Hs|].
  intros Hn. cbn [next_issuable] in E. rewrite bind_mc in E. next E. rewrite bind_now in E. injection E as <- <-.
  destruct (Z.leb_spec r (currentCycle (queue x))); [|done].
  destruct (Z.le_gt_cases 0 (currentCycle (queue x))) as [H0n|H0n].
  - rewrite u64_small by (unfold is_u64, u64_max in *; lia). lia.
  - pose proof (u64_range (currentCycle (queue x) + 1)) as Hu. unfold is_u64 in Hu. lia.
Qed.

(** Two refreshes are due for rank 0 and one for rank 1; the controller queues
    the first one in cycle 6 and comes back in cycle 7. *)
Definition refreshing : Sim (Node FRFCFS.FRFCFS Ready) :=
  let p := ControllerBench.p0 <| UseRefresh := true |> <| BanksPerRefresh := 4 |> <| DelayedRefreshThreshold := 1 |> in
  let s := ControllerBench.at_time 6 (ControllerBench.start ready p) in
  ControllerBench.after (set_mc (λ b,
    b <| m_refreshBankNum := 1 |> <| delayedRefreshCounter := {[ (0, 0) := 2; (1, 0) := 1 ]} |>
      <| bankNeedRefresh ::= fmap (λ _, true) |>)) s.

Lemma NextIssuable_terminates_witness :
  match NextIssuable 5 refreshing with
  | Ok (t, s') => pending_refreshes (ctl_of s') ≤ 3 ∧ 6 < t
  | Err e => e ≠ OutOfFuel
  end.
Proof.
  enough (∃ t s', NextIssuable 5 refreshing = Ok (t, s') ∧ currentCycle (queue s') = 6) as (t & s' & E & En).
  { pose proof (NextIssuable_terminates (B := FRFCFS.FRFCFS) (C := Ready) 5 refreshing) as Ht. rewrite E in *.
    destruct Ht as [Hp Ht].
    - intros q. apply ends_ret.
    - split; [vm_compute; discriminate|]. unfold is_u64. by_decide.
    - split; [exact Hp|]. rewrite En in Ht. apply Ht. reflexivity. }
  eexists _, _. split; [vm_compute; reflexivity|]. reflexivity.
Defined.
