(* ===== verification/CacheBank.v ===== *)
(** * Cache banks

    NVmain/Utils/Caches/CacheBank.cpp: the set associative cache the DRAM cache
    controllers keep. A set is an array of lines, the most recently used one
    first; lines move by assignment, so the data blocks are copied into each
    other. Requests to the bank point at a [CacheRequest]; [infos] is the part of
    the heap where these live. *)

From S2P Require Import Prelude NVMTypes Translation SimInterface Heap EventQueue.

Module Cache.

(*| NVmain/Utils/Caches/CacheBank.h 47-47 CacheState *)
Inductive CacheState := CACHE_IDLE | CACHE_BUSY.
(*| NVmain/Utils/Caches/CacheBank.h 48-49 CacheOperation *)
Inductive CacheOperation := CACHE_NONE | CACHE_READ | CACHE_WRITE | CACHE_SCRUB | CACHE_EVICT.

#[export] Instance CacheState_eq_dec : EqDecision CacheState.
Proof. solve_decision. Defined.
#[export] Instance CacheOperation_eq_dec : EqDecision CacheOperation.
Proof. solve_decision. Defined.

(*| NVmain/Utils/Caches/CacheBank.h 51-60 CacheRequest *)
Record CacheRequest := mkCacheRequest {
  optype : CacheOperation;
  cr_address : NVMAddress;
  endAddr : NVMAddress;
  cr_data : NVMDataBlock;
  hit : bool;
  cr_owner : option ObjPtr;
  originalRequest : option ReqPtr
}.
#[global] Instance eta_CacheRequest : Settable CacheRequest := fields! mkCacheRequest
  < optype; cr_address; endAddr; cr_data; hit; cr_owner; originalRequest >.

Definition CACHE_ENTRY_NONE : Z := 0.
Definition CACHE_ENTRY_VALID : Z := 1.
Definition CACHE_ENTRY_DIRTY : Z := 2.

(*| NVmain/Utils/Caches/CacheBank.h 69-74 CacheEntry *)
Record CacheEntry := mkCacheEntry { ce_flags : Z; ce_address : NVMAddress; ce_data : NVMDataBlock }.
#[global] Instance eta_CacheEntry : Settable CacheEntry := fields! mkCacheEntry < ce_flags; ce_address; ce_data >.
#[export] Instance CacheEntry_eq_dec : EqDecision CacheEntry.
Proof. solve_decision. Defined.

(** The decode function: the bank's own, or one of the owner's. *)
Inductive SetDecoder := DefaultSet | CustomSet (f : NVMAddress → res Z).

(*| NVmain/Utils/Caches/CacheBank.h 118-132 CacheBank *)
Record CacheBank := mkCacheBank {
  numRows : Z;
  numSets : Z;
  numAssoc : Z;
  cachelineSize : Z;
  cacheEntry : gmap (Z * Z) (list CacheEntry);
  stateTimer : Z;
  readTime : Z;
  writeTime : Z;
  state : CacheState;
  isMissMap : bool;
  decodeFunc : SetDecoder;
  infos : gmap positive CacheRequest
}.
#[global] Instance eta_CacheBank : Settable CacheBank := fields! mkCacheBank
  < numRows; numSets; numAssoc; cachelineSize; cacheEntry; stateTimer; readTime; writeTime; state; isMissMap;
    decodeFunc; infos >.

(** The address of a fresh line has an uninitialised [bit]. *)
Definition CacheEntry_new (bit0 : Z) : CacheEntry :=
  mkCacheEntry CACHE_ENTRY_NONE (NVMAddress_new bit0) NVMDataBlock_new.

Definition set_indices (rows sets : Z) : list (Z * Z) := r ← seqZ 0 rows; i ← seqZ 0 sets; [(r, i)].

(*| NVmain/Utils/Caches/CacheBank.cpp 43-79 CacheBank::CacheBank *)
Definition CacheBank_new (rows sets assoc lineSize bit0 : Z) : CacheBank := {|
  numRows := rows; numSets := sets; numAssoc := assoc; cachelineSize := lineSize;
  cacheEntry := list_to_map ((λ k, (k, replicate (Z.to_nat assoc) (CacheEntry_new bit0))) <$> set_indices rows sets);
  stateTimer := 0; readTime := 1; writeTime := 1; state := CACHE_IDLE; isMissMap := false; decodeFunc := DefaultSet;
  infos := ∅ |}.

(*| NVmain/Utils/Caches/CacheBank.cpp 97-101 CacheBank::SetDecodeFunction *)
Definition SetDecodeFunction (f : SetDecoder) (b : CacheBank) : CacheBank := b <| decodeFunc := f |>.

(*| NVmain/Utils/Caches/CacheBank.cpp 103-106 CacheBank::DefaultDecoder *)
Definition DefaultDecoder (addr : NVMAddress) (b : CacheBank) : res Z :=
  if numSets b =? 0 then Err DivideByZero else Ok (GetCol addr mod numSets b).

(*| NVmain/Utils/Caches/CacheBank.cpp 108-123 CacheBank::SetID *)
Definition SetID (addr : NVMAddress) (b : CacheBank) : res Z :=
  match decodeFunc b with DefaultSet => DefaultDecoder addr b | CustomSet f => f addr end.

(** The row and the index of the set, and its lines. *)
Definition set_key (addr : NVMAddress) (b : CacheBank) : res (Z * Z) := i ← SetID addr b; Ok (GetRow addr, i).
(*| NVmain/Utils/Caches/CacheBank.cpp 125-135 CacheBank::FindSet *)
Definition FindSet (addr : NVMAddress) (b : CacheBank) : res (list CacheEntry) :=
  k ← set_key addr b; deref OutOfBounds (cacheEntry b !! k).
(** The set after an operation on its lines. *)
Definition on_set {A} (addr : NVMAddress) (f : list CacheEntry → res (A * list CacheEntry)) (b : CacheBank) : res (A * CacheBank) :=
  k ← set_key addr b; l ← deref OutOfBounds (cacheEntry b !! k);
  '(a, l') ← f l; Ok (a, b <| cacheEntry ::= <[k := l']> |>).

Definition valid (e : CacheEntry) : bool := has_flag (ce_flags e) CACHE_ENTRY_VALID.
Definition dirty (e : CacheEntry) : bool := has_flag (ce_flags e) CACHE_ENTRY_DIRTY.
(** The line holds the address. *)
Definition holds_addr (addr : NVMAddress) (e : CacheEntry) : bool :=
  (GetPhysicalAddress (ce_address e) =? GetPhysicalAddress addr) && valid e.

(*| NVmain/Utils/Caches/CacheBank.cpp 137-153 CacheBank::Present *)
Definition Present (addr : NVMAddress) (b : CacheBank) : res bool :=
  l ← FindSet addr b; Ok (existsb (holds_addr addr) l).
(*| NVmain/Utils/Caches/CacheBank.cpp 155-171 CacheBank::SetFull *)
Definition SetFull (addr : NVMAddress) (b : CacheBank) : res bool :=
  l ← FindSet addr b; Ok (forallb valid l).

(** The first invalid line takes the data. *)
Fixpoint install (addr : NVMAddress) (d : NVMDataBlock) (l : list CacheEntry) : res (bool * list CacheEntry) :=
  match l with
  | [] => Ok (false, [])
  | e :: l =>
      if valid e then '(rv, l) ← install addr d l; Ok (rv, e :: l)
      else
        d' ← NVMDataBlock_assign (ce_data e) d;
        Ok (true, (e <| ce_address ::= λ a, NVMAddress_assign a addr |> <| ce_data := d' |>
                     <| ce_flags ::= λ f, set_flag f CACHE_ENTRY_VALID |>) :: l)
  end.
(*| NVmain/Utils/Caches/CacheBank.cpp 173-193 CacheBank::Install *)
Definition Install (addr : NVMAddress) (d : NVMDataBlock) : CacheBank → res (bool * CacheBank) :=
  on_set addr (install addr d).

(** A line is assigned field by field. *)
Definition entry_assign (this m : CacheEntry) : res CacheEntry :=
  d ← NVMDataBlock_assign (ce_data this) (ce_data m);
  Ok (mkCacheEntry (ce_flags m) (NVMAddress_assign (ce_address this) (ce_address m)) d).
Definition line_at (l : list CacheEntry) (i : nat) : res CacheEntry := deref OutOfBounds (l !! i).
Definition assign_line (i : nat) (m : CacheEntry) (l : list CacheEntry) : res (list CacheEntry) :=
  e ← line_at l i; e' ← entry_assign e m; Ok (<[i := e']> l).
(** [for( j = i; j > stop; j-- ) set[j] = set[j-1]]. *)
Fixpoint shift_lines (stop j : nat) (l : list CacheEntry) : res (list CacheEntry) :=
  match j with
  | O => Ok l
  | S j' => if (j <=? stop)%nat then Ok l else m ← line_at l j'; l ← assign_line j m l; shift_lines stop j' l
  end.
(** Line [i] to the front, by way of a fresh line. *)
Definition to_front (stop i : nat) (l : list CacheEntry) : res (list CacheEntry) :=
  e ← line_at l i;
  tmp ← entry_assign (CacheEntry_new 0) e;
  l ← shift_lines stop i l;
  assign_line 0 tmp l.

(** Every line of the set is looked at, also after the hit. *)
Definition read_line (addr : NVMAddress) (x : bool * NVMDataBlock * list CacheEntry) (i : nat) : res (bool * NVMDataBlock * list CacheEntry) :=
  let '(rv, d, l) := x in
  e ← line_at l i;
  if holds_addr addr e then
    d ← NVMDataBlock_assign d (ce_data e); l ← to_front 0 i l; Ok (true, d, l)
  else Ok (rv, d, l).
Definition read_set (addr : NVMAddress) (d : NVMDataBlock) (l : list CacheEntry) : res (bool * NVMDataBlock * list CacheEntry) :=
  foldM (read_line addr) (false, d, l) (seq 0 (length l)).
(*| NVmain/Utils/Caches/CacheBank.cpp 195-231 CacheBank::Read *)
Definition Read (addr : NVMAddress) (d : NVMDataBlock) (b : CacheBank) : res (bool * NVMDataBlock * CacheBank) :=
  p ← Present addr b; _ ← cassert p; on_set addr (read_set addr d) b.

(** The loop that makes room stops one line too early. *)
Definition write_line (addr : NVMAddress) (d : NVMDataBlock) (x : bool * list CacheEntry) (i : nat) : res (bool * list CacheEntry) :=
  let '(rv, l) := x in
  e ← line_at l i;
  if holds_addr addr e then
    d' ← NVMDataBlock_assign (ce_data e) d;
    let e := e <| ce_data := d' |> <| ce_flags ::= λ f, set_flag f CACHE_ENTRY_DIRTY |> in
    l ← to_front 1 i (<[i := e]> l); Ok (true, l)
  else Ok (rv, l).
Definition write_set (addr : NVMAddress) (d : NVMDataBlock) (l : list CacheEntry) : res (bool * list CacheEntry) :=
  foldM (write_line addr d) (false, l) (seq 0 (length l)).
(*| NVmain/Utils/Caches/CacheBank.cpp 233-270 CacheBank::Write *)
Definition Write (addr : NVMAddress) (d : NVMDataBlock) (b : CacheBank) : res (bool * CacheBank) :=
  p ← Present addr b; _ ← cassert p; on_set addr (write_set addr d) b.

Fixpoint update_set (addr : NVMAddress) (d : NVMDataBlock) (l : list CacheEntry) : res (bool * list CacheEntry) :=
  match l with
  | [] => Ok (false, [])
  | e :: l =>
      e' ← (if holds_addr addr e then d' ← NVMDataBlock_assign (ce_data e) d; Ok (e <| ce_data := d' |>) else Ok e);
      '(rv, l) ← update_set addr d l; Ok (holds_addr addr e || rv, e' :: l)
  end.
(*| NVmain/Utils/Caches/CacheBank.cpp 276-294 CacheBank::UpdateData *)
Definition UpdateData (addr : NVMAddress) (d : NVMDataBlock) (b : CacheBank) : res (bool * CacheBank) :=
  p ← Present addr b; _ ← cassert p; on_set addr (update_set addr d) b.

(** The least recently used line is the last one. *)
(*| NVmain/Utils/Caches/CacheBank.cpp 297-311 CacheBank::ChooseVictim *)
Definition ChooseVictim (addr victim : NVMAddress) (b : CacheBank) : res (bool * NVMAddress) :=
  full ← SetFull addr b; _ ← cassert full;
  l ← FindSet addr b;
  e ← deref OutOfBounds (last l); _ ← cassert (valid e);
  Ok (dirty e, NVMAddress_assign victim (ce_address e)).

(** The line that holds the address becomes invalid; [d] takes its data. *)
Fixpoint evict_set (addr : NVMAddress) (d : NVMDataBlock) (l : list CacheEntry) : res (bool * NVMDataBlock * list CacheEntry) :=
  match l with
  | [] => Ok (false, d, [])
  | e :: l =>
      if holds_addr addr e then
        d ← NVMDataBlock_assign d (ce_data e); Ok (dirty e, d, (e <| ce_flags := CACHE_ENTRY_NONE |>) :: l)
      else '(rv, d, l) ← evict_set addr d l; Ok (rv, d, e :: l)
  end.
(*| NVmain/Utils/Caches/CacheBank.cpp 314-346 CacheBank::Evict *)
Definition Evict (addr : NVMAddress) (d : NVMDataBlock) (b : CacheBank) : res (bool * NVMDataBlock * CacheBank) :=
  p ← Present addr b; _ ← cassert p; on_set addr (evict_set addr d) b.

(*| NVmain/Utils/Caches/CacheBank.cpp 348-351 CacheBank::SetReadTime *)
Definition SetReadTime (rtime : Z) (b : CacheBank) : CacheBank := b <| readTime := rtime |>.
(*| NVmain/Utils/Caches/CacheBank.cpp 353-356 CacheBank::SetWriteTime *)
Definition SetWriteTime (wtime : Z) (b : CacheBank) : CacheBank := b <| writeTime := wtime |>.
(*| NVmain/Utils/Caches/CacheBank.cpp 358-361 CacheBank::GetReadTime *)
Definition GetReadTime (b : CacheBank) : Z := readTime b.
(*| NVmain/Utils/Caches/CacheBank.cpp 363-366 CacheBank::GetWriteTime *)
Definition GetWriteTime (b : CacheBank) : Z := writeTime b.
(*| NVmain/Utils/Caches/CacheBank.cpp 368-371 CacheBank::GetAssociativity *)
Definition GetAssociativity (b : CacheBank) : Z := numAssoc b.
(*| NVmain/Utils/Caches/CacheBank.cpp 373-376 CacheBank::GetCachelineSize *)
Definition GetCachelineSize (b : CacheBank) : Z := cachelineSize b.
(*| NVmain/Utils/Caches/CacheBank.cpp 378-381 CacheBank::GetSetCount *)
Definition GetSetCount (b : CacheBank) : Z := numSets b.

(** The valid lines of all sets, counted over the sets the bank was made with. *)
(*| NVmain/Utils/Caches/CacheBank.cpp 383-408 CacheBank::GetCacheOccupancy *)
Definition GetCacheOccupancy (b : CacheBank) : res double :=
  n ← foldM (λ n k, l ← deref OutOfBounds (cacheEntry b !! k); Ok (n ⊕ Z.of_nat (length (filter (λ e, valid e = true) l))))
        0 (set_indices (numRows b) (numSets b));
  Ok (ddiv (d_of_Z n) (d_of_Z (numRows b ⊗ numSets b ⊗ numAssoc b))).

(** ** Requests *)

Section Requests.
Variable this : ObjPtr.
Variable parent_RequestComplete : ReqPtr → ST (Sim CacheBank) bool.
(** What a new [CacheRequest] holds before it is filled in. *)
Variable uninit : CacheRequest.

Abbreviation st := (Sim CacheBank) (only parsing).

(** The cache request behind a request. *)
Definition info_ptr (q : ReqPtr) : ST st positive :=
  r ← load_req q; match reqInfo r with Some i => mret i | None => fail NullDeref end.
Definition load_info (i : positive) : ST st CacheRequest := b ← self; lift (deref UseAfterFree (infos b !! i)).
Definition store_info (i : positive) (f : CacheRequest → CacheRequest) : ST st unit :=
  r ← load_info i; set_self (λ b, b <| infos ::= <[i := f r]> |>).
Definition new_info (r : CacheRequest) : ST st positive := λ s,
  let i := h_next (heap s) in
  Ok (i, s <| heap ::= λ h, h <| h_next ::= Pos.succ |> |> <| obj ::= λ b, b <| infos ::= <[i := r]> |> |>).
(** An operation of the bank. *)
Definition on_bank {A} (f : CacheBank → res (A * CacheBank)) : ST st A :=
  b ← self; '(a, b') ← lift (f b); set_self (λ _, b');; mret a.

(*| NVmain/Utils/Caches/CacheBank.cpp 410-425 CacheBank::IsIssuable *)
Definition IsIssuable : ST st bool := b ← self; mret (bool_decide (state b = CACHE_IDLE)).

Definition busy_for (time : CacheBank → Z) : ST st Z :=
  n ← now; b ← self;
  set_self (λ b, b <| state := CACHE_BUSY |> <| stateTimer := n ⊕ time b |>);;
  mret (n ⊕ time b).
Definition respond (q : ReqPtr) (when : Z) : ST st unit := InsertEvent_obj EventResponse this (Some q) when 0 0.

(** The victim of a full set is evicted; a request of its own tells the owner. *)
(*| NVmain/Utils/Caches/CacheBank.cpp 452-469 CacheBank::IssueCommand *)
Definition evict_victim (q : ReqPtr) (address : NVMAddress) (when : Z) : ST st unit :=
  b ← self;
  '(_, victim) ← lift (ChooseVictim address (NVMAddress_new 0) b);
  '(_, d) ← on_bank (λ b, '(rv, d, b) ← Evict victim NVMDataBlock_new b; Ok ((rv, d), b));
  evreq ← new_info (uninit <| cr_address := victim |> <| cr_data := d |> <| optype := CACHE_EVICT |>);
  r ← load_req q;
  r' ← lift (NVMainRequest_assign (NVMainRequest_new MEM_REQUEST_INCOMPLETE UNKNOWN_ACCESS 0) r);
  mmEvict ← new_req (r' <| owner := owner r |> <| reqInfo := Some evreq |> <| tag := tag r |>);
  respond mmEvict when.

(*| NVmain/Utils/Caches/CacheBank.cpp 427-488 CacheBank::IssueCommand *)
Definition IssueCommand (q : ReqPtr) : ST st bool :=
  i ← info_ptr q; req ← load_info i;
  ok ← IsIssuable; lift (cassert ok);;
  match optype req with
  | CACHE_READ =>
      when ← busy_for readTime;
      b ← self; present ← lift (Present (cr_address req) b);
      store_info i (λ r, r <| hit := present |>);;
      (if (present : bool) then
         '(_, d) ← on_bank (λ b, '(rv, d, b) ← Read (cr_address req) (cr_data req) b; Ok ((rv, d), b));
         store_info i (λ r, r <| cr_data := d |>)
       else mret ());;
      respond q when;; mret true
  | CACHE_WRITE =>
      when ← busy_for writeTime;
      b ← self; full ← lift (SetFull (cr_address req) b);
      (if (full : bool) then evict_victim q (cr_address req) when else mret ());;
      b ← self; present ← lift (Present (cr_address req) b);
      store_info i (λ r, r <| hit := present |>);;
      _ ← (if (present : bool) then on_bank (Write (cr_address req) (cr_data req))
           else on_bank (Install (cr_address req) (cr_data req)));
      respond q when;; mret true
  | _ => mret true
  end.

(*| NVmain/Utils/Caches/CacheBank.cpp 490-497 CacheBank::RequestComplete *)
Definition RequestComplete (q : ReqPtr) : ST st bool :=
  _ ← parent_RequestComplete q;
  set_self (λ b, b <| state := CACHE_IDLE |>);;
  mret true.
End Requests.
End Cache.
