(* ===== verification/CacheLRU.v ===== *)
(** * What a cache bank keeps

    A cache set seen from outside: for each line, the address, the bytes and
    whether they are dirty, or nothing. Reading, installing, updating, evicting
    and choosing a victim do to this view what [spec_op] says: reading keeps the
    lines in the order of use, but installing does not put the new line in front
    ([newest_is_victim]), and writing loses a line ([Write_drops_line]). *)

From S2P Require Import Prelude NVMTypes Translation SimInterface Heap EventQueue.
From S2P Require Import CacheBank.
Import Cache.

(** ** Data blocks of one size *)

(** The block is a whole line; the allocation holds one, if there is one. *)
Definition full (n : nat) (d : NVMDataBlock) : Prop := ∃ l, rawData d = Some l ∧ length l = n ∧ size d = Z.of_nat n.
Definition roomy (n : nat) (d : NVMDataBlock) : Prop := ∀ l, rawData d = Some l → length l = n.

Lemma full_roomy n d : full n d → roomy n d.
Proof. intros (l & E & El & Es) l' E'. congruence. Qed.

Lemma assign_full n this m : roomy n this → full n m → NVMDataBlock_assign this m = Ok m.
Proof.
  intros Ht (l & E & El & Es). unfold NVMDataBlock_assign. rewrite E, Es, Nat2Z.id.
  assert (length (default (replicate n 0) (rawData this)) = n) as Hd.
  { destruct (rawData this) as [x|] eqn:Ex; [by apply Ht|apply length_replicate]. }
  rewrite !bool_decide_true by lia. cbn. rewrite firstn_all2, skipn_all2, app_nil_r by lia.
  destruct this, m; cbn in *; subst. reflexivity.
Qed.
Lemma address_assign a m : NVMAddress_assign a m = m.
Proof. by destruct a, m. Qed.

(** ** Well-formed sets

    Lines that were used come first and hold a whole line; the others have no
    allocation yet. No address is valid twice. *)

Definition used_line (n : nat) (e : CacheEntry) : Prop := full n (ce_data e) ∧ (valid e = false → ce_flags e = 0).
Definition fresh_line (e : CacheEntry) : Prop := rawData (ce_data e) = None ∧ ce_flags e = 0.
Definition phys (e : CacheEntry) : Z := GetPhysicalAddress (ce_address e).
Definition valid_lines (l : list CacheEntry) : list CacheEntry := filter (λ e, valid e = true) l.

Record set_ok (n : nat) (l : list CacheEntry) : Prop := {
  so_lines : ∃ k, ∀ i e, l !! i = Some e → if decide (i < k)%nat then used_line n e else fresh_line e;
  so_NoDup : NoDup (phys <$> valid_lines l)
}.

(** The view of a line and of a set. *)
Abbreviation aline := (Z * list Z * bool)%type.
Definition view (e : CacheEntry) : option aline :=
  if valid e then Some (phys e, bytes (ce_data e), dirty e) else None.

Definition is_at (a : Z) (o : option aline) : Prop := match o with Some (a', _, _) => a' = a | None => False end.
#[export] Instance is_at_dec a o : Decision (is_at a o).
Proof. destruct o as [[[? ?] ?]|]; unfold is_at; apply _. Defined.

Lemma holds_is_at addr e : holds_addr addr e = bool_decide (is_at (GetPhysicalAddress addr) (view e)).
Proof.
  unfold holds_addr, view, phys. destruct (valid e); cbn; [|by rewrite andb_false_r].
  rewrite andb_true_r. by destruct (Z.eqb_spec (GetPhysicalAddress (ce_address e)) (GetPhysicalAddress addr)) as [E|E];
    [rewrite bool_decide_true|rewrite bool_decide_false].
Qed.

(** *** The specification *)

Definition spec_find (a : Z) (v : list (option aline)) : option (nat * aline) :=
  '(i, o) ← list_find (is_at a) v; x ← o; Some (i, x).
Definition spec_read (a : Z) (v : list (option aline)) : option (list Z * list (option aline)) :=
  '(i, x) ← spec_find a v; Some (x.1.2, Some x :: delete i v).
Definition spec_update (a : Z) (d : list Z) (v : list (option aline)) : option (list (option aline)) :=
  '(i, x) ← spec_find a v; Some (<[i := Some (x.1.1, d, x.2)]> v).
Definition spec_evict (a : Z) (v : list (option aline)) : option (bool * list Z * list (option aline)) :=
  '(i, x) ← spec_find a v; Some (x.2, x.1.2, <[i := None]> v).
(** Only an address that is not there may be installed. *)
Definition spec_install (a : Z) (d : list Z) (v : list (option aline)) : option (bool * list (option aline)) :=
  match spec_find a v with
  | Some _ => None
  | None =>
      match list_find (λ o, o = None) v with
      | Some (i, _) => Some (true, <[i := Some (a, d, false)]> v)
      | None => Some (false, v)
      end
  end.

(** The victim of a full set is its last line. *)
Definition spec_victim (v : list (option aline)) : option (bool * Z) :=
  if decide (Forall is_Some v) then x ← mjoin (last v); Some (x.2, x.1.1) else None.

(** ** The loops *)

Lemma entry_assign_full n this m : roomy n (ce_data this) → full n (ce_data m) → entry_assign this m = Ok m.
Proof.
  intros Ht Hm. unfold entry_assign. rewrite (assign_full n) by done. cbn. rewrite address_assign. by destruct m.
Qed.
Lemma assign_line_full n i e m l :
  l !! i = Some e → roomy n (ce_data e) → full n (ce_data m) → assign_line i m l = Ok (<[i := m]> l).
Proof. intros Ei He Hm. unfold assign_line, line_at. rewrite Ei. cbn. by rewrite (entry_assign_full n). Qed.

(** All lines up to [i] are whole. *)
Definition full_upto (n i : nat) (l : list CacheEntry) : Prop := ∀ k e, (k ≤ i)%nat → l !! k = Some e → full n (ce_data e).

Lemma full_upto_insert n i j e l : full_upto n i l → full n (ce_data e) → full_upto n i (<[j := e]> l).
Proof.
  intros Hl He k x Hk Hx. destruct (decide (k = j)) as [->|Hne].
  - apply list_lookup_insert_Some in Hx as [(_ & <- & _)|(? & _)]; done.
  - rewrite list_lookup_insert_ne in Hx by done. by eapply Hl.
Qed.

Lemma shift_all n j : ∀ l, full_upto n j l → (j < length l)%nat →
  shift_lines 0 j l = Ok (take 1 l ++ take j l ++ drop (S j) l).
Proof.
  induction j as [|j IH]; intros l Hl Hj; cbn [shift_lines].
  - by destruct l.
  - cbn [Nat.leb]. destruct (lookup_lt_is_Some_2 l j) as [m Em]; [lia|].
    destruct (lookup_lt_is_Some_2 l (S j)) as [e Ee]; [lia|].
    unfold line_at. rewrite Em. cbn [deref mbind res_bind].
    assert (full n (ce_data m)) as Hm by (apply (Hl j m); [lia|done]).
    rewrite (assign_line_full n _ e) by eauto using full_roomy. cbn [mbind res_bind]. rewrite IH.
    + f_equal. rewrite (take_S_r l j m) by done. rewrite !take_insert_ge by lia. rewrite <-!app_assoc. f_equal.
      rewrite drop_insert_ge, Nat.sub_diag by lia. rewrite (drop_S l e (S j)) by done. done.
    + apply full_upto_insert; [|done]. intros k x Hk. apply Hl. lia.
    + rewrite length_insert. lia.
Qed.

Lemma to_front_all n i l e : full_upto n i l → l !! i = Some e → to_front 0 i l = Ok (e :: delete i l).
Proof.
  intros Hl Ei. pose proof (lookup_lt_Some _ _ _ Ei) as Hi. assert (full n (ce_data e)) as He by (apply (Hl i e); [lia|done]).
  unfold to_front, line_at. rewrite Ei. cbn [deref mbind res_bind]. rewrite (entry_assign_full n) by done. cbn [mbind res_bind].
  rewrite (shift_all n) by done. cbn [mbind res_bind]. destruct l as [|x l]; [cbn in Hi; lia|].
  rewrite (assign_line_full n _ x); [|done|apply full_roomy, (Hl 0%nat x); [lia|done]|done].
  cbn [take app list_insert]. by rewrite delete_take_drop.
Qed.

(** Without the address there is nothing to do. *)
Definition free_of (addr : NVMAddress) (l : list CacheEntry) : Prop := Forall (λ e, holds_addr addr e = false) l.

Lemma read_line_eq addr rv d l i e : l !! i = Some e →
  read_line addr (rv, d, l) i =
    if holds_addr addr e then d ← NVMDataBlock_assign d (ce_data e); l ← to_front 0 i l; Ok (true, d, l) else Ok (rv, d, l).
Proof. intros Ee. unfold read_line, line_at. by rewrite Ee. Qed.
Lemma read_skip addr d rv k : ∀ i l, free_of addr (take k (drop i l)) → (i + k ≤ length l)%nat →
  foldM (read_line addr) (rv, d, l) (seq i k) = Ok (rv, d, l).
Proof.
  induction k as [|k IH]; intros i l Hf Hk; [done|]. destruct (lookup_lt_is_Some_2 l i) as [e Ee]; [lia|].
  rewrite (drop_S l e i) in Hf by done. apply Forall_cons in Hf as [He Hf].
  cbn [seq foldM]. rewrite (read_line_eq _ _ _ _ _ e), He by done. cbn [mbind res_bind].
  apply IH; [done|lia].
Qed.

(** The place of the address among the lines. *)
Lemma find_line (addr : NVMAddress) l i x :
  spec_find (GetPhysicalAddress addr) (view <$> l) = Some (i, x) →
  ∃ e, l !! i = Some e ∧ holds_addr addr e = true ∧ view e = Some x ∧ free_of addr (take i l).
Proof.
  unfold spec_find. destruct (list_find _ _) as [[i' o]|] eqn:E; [|done]. cbn. destruct o as [x'|]; [|done].
  intros [= <- <-]. apply list_find_Some in E as (Ei & Hx & Hb). rewrite list_lookup_fmap in Ei.
  destruct (l !! i') as [e|] eqn:Ee; [|done]. injection Ei as Ev. exists e. split; [done|].
  rewrite holds_is_at, Ev, bool_decide_true by done. split_and!; [done..|].
  apply Forall_forall. intros e' (j & Hj)%list_elem_of_lookup. apply lookup_take_Some in Hj as [Hj Hlt].
  rewrite holds_is_at. apply bool_decide_false. eapply Hb; [|exact Hlt]. by rewrite list_lookup_fmap, Hj.
Qed.

Lemma unique_after n addr l i e : set_ok n l → l !! i = Some e → holds_addr addr e = true → free_of addr (drop (S i) l).
Proof.
  intros [_ Hd] Ei He. rewrite <-(take_drop_middle _ _ _ Ei) in Hd. unfold valid_lines in Hd.
  rewrite filter_app, filter_cons, fmap_app in Hd. apply andb_true_iff in He as [Ha Hv]. rewrite decide_True in Hd by done.
  apply NoDup_app in Hd as (_ & _ & Hd). cbn in Hd. apply NoDup_cons in Hd as [Hn _].
  apply Forall_forall. intros x Hx. unfold holds_addr. destruct (valid x) eqn:Ex; [|by rewrite andb_false_r].
  apply andb_false_iff. left. apply Z.eqb_neq. intros E. apply Z.eqb_eq in Ha. apply Hn. apply list_elem_of_fmap.
  exists x. split; [unfold phys; congruence|]. by apply list_elem_of_filter.
Qed.

Lemma fresh_invalid e : fresh_line e → valid e = false.
Proof. intros [_ E]. unfold valid. by rewrite E. Qed.
Lemma valid_used n l i e : set_ok n l → l !! i = Some e → valid e = true → full_upto n i l.
Proof.
  intros [[k Hk] _] Ei Hv j x Hj Ex. pose proof (Hk _ _ Ei) as Hi. case_decide; [|apply fresh_invalid in Hi; congruence].
  specialize (Hk _ _ Ex). rewrite decide_True in Hk by lia. apply Hk.
Qed.

Lemma seq_around i k : (i < k)%nat → seq 0 k = seq 0 i ++ i :: seq (S i) (k - S i).
Proof.
  intros Hi. replace k with (i + (1 + (k - S i)))%nat at 1 by lia. rewrite seq_app. f_equal.
Qed.

Lemma read_set_ok n addr d l i e :
  set_ok n l → roomy n d → l !! i = Some e → holds_addr addr e = true → free_of addr (take i l) →
  read_set addr d l = Ok (true, ce_data e, e :: delete i l).
Proof.
  intros Hl Hd Ei He Hb. pose proof (lookup_lt_Some _ _ _ Ei) as Hi.
  assert (valid e = true) as Hv by by apply andb_true_iff in He as [_ ?].
  pose proof (valid_used _ _ _ _ Hl Ei Hv) as Hu.
  unfold read_set. rewrite (seq_around i) by done. rewrite foldM_app, read_skip by done || lia. cbn [mbind res_bind foldM].
  rewrite (read_line_eq _ _ _ _ _ e), He by done. rewrite (assign_full n) by (done || by apply (Hu i e)). cbn [mbind res_bind].
  rewrite (to_front_all n _ _ e) by done. cbn [mbind res_bind]. rewrite delete_take_drop. apply read_skip.
  - cbn [drop]. rewrite drop_app_length' by (rewrite length_take; lia).
    rewrite firstn_all2 by (rewrite length_drop; lia). by eapply unique_after.
  - cbn [length]. rewrite length_app, length_take, length_drop. lia.
Qed.

(** The three ways a set changes. *)
Lemma set_ok_front n l i e : set_ok n l → l !! i = Some e → valid e = true → set_ok n (e :: delete i l).
Proof.
  intros [[k Hk] Hd] Ei Hv. pose proof (Hk _ _ Ei) as Hi. case_decide; [|apply fresh_invalid in Hi; congruence].
  split; [exists k; intros [|j] x Hx|].
  - injection Hx as <-. rewrite decide_True by lia. done.
  - change (delete i l !! j = Some x) in Hx. destruct (decide (j < i)%nat).
    + rewrite list_lookup_delete_lt in Hx by done. specialize (Hk _ _ Hx).
      rewrite decide_True in Hk by lia. rewrite decide_True by lia. done.
    + rewrite list_lookup_delete_ge in Hx by lia. by apply Hk.
  - pose proof (delete_Permutation _ _ _ Ei) as Hp. unfold valid_lines. by rewrite <-Hp.
Qed.

Lemma valid_lines_insert l i e e' : l !! i = Some e →
  valid_lines l = valid_lines (take i l) ++ valid_lines [e] ++ valid_lines (drop (S i) l) ∧
  valid_lines (<[i := e']> l) = valid_lines (take i l) ++ valid_lines [e'] ++ valid_lines (drop (S i) l).
Proof.
  intros Ei. pose proof (lookup_lt_Some _ _ _ Ei). unfold valid_lines. split.
  - rewrite <-(take_drop_middle _ _ _ Ei) at 1. by rewrite (cons_middle e), !filter_app.
  - rewrite insert_take_drop by done. by rewrite (cons_middle e'), !filter_app.
Qed.

Lemma set_ok_insert n l i e e' :
  set_ok n l → l !! i = Some e → used_line n e' →
  valid e = true ∨ (∀ j x, (j < i)%nat → l !! j = Some x → valid x = true) →
  (valid e' = true → (valid e = true ∧ phys e' = phys e) ∨ (phys e' ∉ phys <$> valid_lines l)) → set_ok n (<[i := e']> l).
Proof.
  intros [[k Hk] Hd] Ei He' Hor Hnew. split.
  - exists (Nat.max k (S i)). intros j x Hx. destruct (decide (j = i)) as [->|Hne].
    { apply list_lookup_insert_Some in Hx as [(_ & <- & _)|(? & _)]; [|done]. by rewrite decide_True by lia. }
    rewrite list_lookup_insert_ne in Hx by done. pose proof (Hk _ _ Hx) as Hj.
    destruct (decide (j < k)%nat); [by rewrite decide_True by lia|].
    destruct (decide (j < Nat.max k (S i))%nat); [|done]. exfalso. destruct Hor as [Hv|Hv].
    + specialize (Hk _ _ Ei). rewrite decide_False in Hk by lia. apply fresh_invalid in Hk. congruence.
    + apply fresh_invalid in Hj. rewrite (Hv j x) in Hj by (done || lia). done.
  - destruct (valid_lines_insert l i e e' Ei) as [E1 E2]. rewrite E1 in Hd, Hnew. rewrite E2. clear E1 E2 Hk Hor.
    unfold valid_lines at 2 in Hd. unfold valid_lines at 2 in Hnew. unfold valid_lines at 2.
    rewrite filter_cons, filter_nil in Hd, Hnew. rewrite filter_cons, filter_nil.
    destruct (decide (valid e' = true)) as [Hv'|Hv'].
    + destruct (Hnew Hv') as [[Hv Ep]|Hn].
      * rewrite decide_True in Hd by done. by rewrite !fmap_app in *; cbn in *; rewrite Ep.
      * rewrite !fmap_app in *. cbn. rewrite <-Permutation_middle. constructor.
        -- destruct (decide (valid e = true)); set_solver.
        -- destruct (decide (valid e = true)); [|done]. cbn in Hd. rewrite <-Permutation_middle in Hd. by apply NoDup_cons in Hd as [_ Hd].
    + rewrite !fmap_app in *. cbn. destruct (decide (valid e = true)); [|done]. cbn in Hd.
      rewrite <-Permutation_middle in Hd. by apply NoDup_cons in Hd as [_ Hd].
Qed.

Lemma update_skip addr d l : free_of addr l → update_set addr d l = Ok (false, l).
Proof. induction 1 as [|e l He _ IH]; cbn [update_set]; [done|]. rewrite He. cbn. by rewrite IH. Qed.
Lemma update_set_ok n addr d l i e :
  set_ok n l → full n d → l !! i = Some e → holds_addr addr e = true → free_of addr (take i l) →
  update_set addr d l = Ok (true, <[i := e <| ce_data := d |>]> l).
Proof.
  intros Hl Hd Ei He Hb. pose proof (unique_after _ _ _ _ _ Hl Ei He) as Ha.
  assert (valid e = true) as Hv by by apply andb_true_iff in He as [_ ?].
  pose proof (valid_used _ _ _ _ Hl Ei Hv i e ltac:(lia) Ei) as Hf. clear Hl.
  rewrite insert_take_drop by by eapply lookup_lt_Some. rewrite <-(take_drop_middle _ _ _ Ei) at 1.
  induction Hb as [|x l1 Hx _ IH]; cbn [app update_set].
  - rewrite He, (assign_full n) by eauto using full_roomy. cbn [mbind res_bind]. by rewrite update_skip.
  - rewrite Hx. cbn [mbind res_bind]. rewrite IH. done.
Qed.

Lemma evict_set_ok n addr d l i e :
  set_ok n l → roomy n d → l !! i = Some e → holds_addr addr e = true → free_of addr (take i l) →
  evict_set addr d l = Ok (dirty e, ce_data e, <[i := e <| ce_flags := CACHE_ENTRY_NONE |>]> l).
Proof.
  intros Hl Hd Ei He Hb. assert (valid e = true) as Hv by by apply andb_true_iff in He as [_ ?].
  pose proof (valid_used _ _ _ _ Hl Ei Hv i e ltac:(lia) Ei) as Hf. clear Hl.
  rewrite insert_take_drop by by eapply lookup_lt_Some. rewrite <-(take_drop_middle _ _ _ Ei) at 1.
  induction Hb as [|x l1 Hx _ IH]; cbn [app evict_set].
  - by rewrite He, (assign_full n).
  - rewrite Hx, IH. done.
Qed.

(** The line a new address goes to. *)
Definition installed (addr : NVMAddress) (d : NVMDataBlock) : CacheEntry := mkCacheEntry CACHE_ENTRY_VALID addr d.
Lemma install_ok n addr d l i e :
  set_ok n l → full n d → l !! i = Some e → valid e = false → Forall (λ x, valid x = true) (take i l) →
  install addr d l = Ok (true, <[i := installed addr d]> l).
Proof.
  intros [[k Hk] _] Hd Ei Hv Hb.
  assert (roomy n (ce_data e) ∧ ce_flags e = 0) as [Hr Hf].
  { specialize (Hk _ _ Ei). case_decide; destruct Hk as [Hr Hf]; [eauto using full_roomy|].
    split; [intros x Hx; congruence|done]. }
  clear Hk. rewrite insert_take_drop by by eapply lookup_lt_Some. rewrite <-(take_drop_middle _ _ _ Ei) at 1.
  induction Hb as [|x l1 Hx _ IH]; cbn [app install].
  - rewrite Hv, (assign_full n) by done. cbn [mbind res_bind]. destruct e as [f a x]. cbn in Hf. subst f. unfold upd. cbn. by rewrite address_assign.
  - rewrite Hx, IH. done.
Qed.
Lemma install_full addr d l : Forall (λ x, valid x = true) l → install addr d l = Ok (false, l).
Proof. induction 1 as [|x l Hx _ IH]; cbn [install]; [done|]. by rewrite Hx, IH. Qed.

(** ** The bank *)

Inductive cache_op :=
  | OpRead (a : NVMAddress) | OpUpdate (a : NVMAddress) (d : NVMDataBlock)
  | OpEvict (a : NVMAddress) | OpInstall (a : NVMAddress) (d : NVMDataBlock) | OpVictim (a : NVMAddress).
Definition op_addr (o : cache_op) : NVMAddress :=
  match o with OpRead a | OpUpdate a _ | OpEvict a | OpInstall a _ | OpVictim a => a end.
(** The data of an operation is a whole line. *)
Definition op_full (n : nat) (o : cache_op) : Prop :=
  match o with OpUpdate _ d | OpInstall _ d => full n d | _ => True end.

(** An operation, with its result and the bytes or the address it delivers. *)
Definition run_op (o : cache_op) (b : CacheBank) : res ((bool * list Z) * CacheBank) :=
  match o with
  | OpRead a => '(rv, d, b) ← Read a NVMDataBlock_new b; Ok ((rv, bytes d), b)
  | OpUpdate a d => '(rv, b) ← UpdateData a d b; Ok ((rv, []), b)
  | OpEvict a => '(rv, d, b) ← Evict a NVMDataBlock_new b; Ok ((rv, bytes d), b)
  | OpInstall a d => '(rv, b) ← Install a d b; Ok ((rv, []), b)
  | OpVictim a => '(rv, victim) ← ChooseVictim a (NVMAddress_new 0) b; Ok ((rv, [GetPhysicalAddress victim]), b)
  end.
Fixpoint run_ops (os : list cache_op) (b : CacheBank) : res (list (bool * list Z) * CacheBank) :=
  match os with
  | [] => Ok ([], b)
  | o :: os => '(x, b) ← run_op o b; '(xs, b) ← run_ops os b; Ok (x :: xs, b)
  end.

(** The same on the views of the sets; [key] tells the set of an address. *)
Definition spec_set (o : cache_op) (v : list (option aline)) : option ((bool * list Z) * list (option aline)) :=
  let a := GetPhysicalAddress (op_addr o) in
  match o with
  | OpRead _ => '(d, v) ← spec_read a v; Some ((true, d), v)
  | OpUpdate _ d => v ← spec_update a (bytes d) v; Some ((true, []), v)
  | OpEvict _ => '(rv, d, v) ← spec_evict a v; Some ((rv, d), v)
  | OpInstall _ d => '(rv, v) ← spec_install a (bytes d) v; Some ((rv, []), v)
  | OpVictim _ => '(rv, x) ← spec_victim v; Some ((rv, [x]), v)
  end.
Abbreviation sets := (gmap (Z * Z) (list (option aline))).
Definition spec_op (key : NVMAddress → res (Z * Z)) (o : cache_op) (m : sets) : option ((bool * list Z) * sets) :=
  match key (op_addr o) with
  | Ok k => v ← m !! k; '(x, v') ← spec_set o v; Some (x, <[k := v']> m)
  | Err _ => None
  end.
Fixpoint spec_ops (key : NVMAddress → res (Z * Z)) (os : list cache_op) (m : sets) : option (list (bool * list Z) * sets) :=
  match os with
  | [] => Some ([], m)
  | o :: os => '(x, m) ← spec_op key o m; '(xs, m) ← spec_ops key os m; Some (x :: xs, m)
  end.

Definition cache_ok (n : nat) (b : CacheBank) : Prop := map_Forall (λ _ l, set_ok n l) (cacheEntry b).
Definition view_bank (b : CacheBank) : sets := (λ l : list CacheEntry, view <$> l) <$> cacheEntry b.
Definition key_of (b : CacheBank) (a : NVMAddress) : res (Z * Z) := set_key a b.

Lemma view_delete i (l : list CacheEntry) : view <$> delete i l = delete i (view <$> l).
Proof. rewrite !delete_take_drop, fmap_app. by rewrite fmap_take, fmap_drop. Qed.

(** One operation on one set. *)
Definition run_set (o : cache_op) (l : list CacheEntry) : res ((bool * list Z) * list CacheEntry) :=
  match o with
  | OpRead a => '(rv, d, l) ← read_set a NVMDataBlock_new l; Ok ((rv, bytes d), l)
  | OpUpdate a d => '(rv, l) ← update_set a d l; Ok ((rv, []), l)
  | OpEvict a => '(rv, d, l) ← evict_set a NVMDataBlock_new l; Ok ((rv, bytes d), l)
  | OpInstall a d => '(rv, l) ← install a d l; Ok ((rv, []), l)
  | OpVictim a => e ← deref OutOfBounds (last l); Ok ((dirty e, [phys e]), l)
  end.
(** What the operation asserts about its set. *)
Definition op_asserts (o : cache_op) (l : list CacheEntry) : Prop :=
  match o with
  | OpInstall _ _ => True
  | OpVictim _ => forallb valid l = true
  | _ => existsb (holds_addr (op_addr o)) l = true
  end.

Lemma view_all l : Forall is_Some (view <$> l) → forallb valid l = true.
Proof.
  rewrite Forall_fmap, Forall_forall. intros H. apply forallb_forall. intros e He%list_elem_of_In. specialize (H e He).
  cbn in H. unfold view in H. destruct (valid e); [done|by destruct H].
Qed.

Lemma roomy_new n : roomy n NVMDataBlock_new.
Proof. done. Qed.
#[local] Hint Resolve roomy_new full_roomy : core.

Lemma view_valid e a d y : view e = Some (a, d, y) → valid e = true ∧ phys e = a ∧ bytes (ce_data e) = d ∧ dirty e = y.
Proof. unfold view. destruct (valid e); [|done]. by intros [= <- <- <-]. Qed.

Lemma present_at addr l i e : l !! i = Some e → holds_addr addr e = true → existsb (holds_addr addr) l = true.
Proof. intros Ei He. apply existsb_exists. exists e. split; [|done]. apply list_elem_of_In. by eapply list_elem_of_lookup_2. Qed.

(** The found line without an address of its own afterwards. *)
Lemma set_ok_update n l i e d :
  set_ok n l → l !! i = Some e → valid e = true → full n d → set_ok n (<[i := e <| ce_data := d |>]> l).
Proof.
  intros Hl Ei Hv Hd. eapply set_ok_insert; [done|exact Ei| |by left|].
  - split; [by fields|]. unfold valid in *. fields. congruence.
  - intros _. left. split; [done|]. unfold phys. by fields.
Qed.
Lemma set_ok_evict n l i e :
  set_ok n l → l !! i = Some e → valid e = true → set_ok n (<[i := e <| ce_flags := CACHE_ENTRY_NONE |>]> l).
Proof.
  intros Hl Ei Hv. eapply set_ok_insert; [done|exact Ei| |by left|done].
  split; [fields|by fields]. by eapply valid_used.
Qed.

Lemma spec_find_None a l : spec_find a (view <$> l) = None → a ∉ phys <$> valid_lines l.
Proof.
  unfold spec_find. destruct (list_find _ _) as [[i o]|] eqn:E.
  - apply list_find_Some in E as (Ei & Ho & _). by destruct o.
  - intros _ (e & -> & Hin)%list_elem_of_fmap. apply list_elem_of_filter in Hin as [Hv Hin].
    apply list_find_None in E. rewrite Forall_forall in E. apply (E (view e)); [by apply list_elem_of_fmap_2|].
    unfold view. by rewrite Hv.
Qed.
Lemma find_invalid l i o :
  list_find (λ o : option aline, o = None) (view <$> l) = Some (i, o) →
  ∃ e, l !! i = Some e ∧ valid e = false ∧ Forall (λ x, valid x = true) (take i l).
Proof.
  intros (Ei & -> & Hb)%list_find_Some. rewrite list_lookup_fmap in Ei. destruct (l !! i) as [e|] eqn:Ee; [|done].
  exists e. injection Ei as Ev. unfold view in Ev. destruct (valid e) eqn:Hv; [done|]. split_and!; [done..|].
  apply Forall_forall. intros x (j & Hj)%list_elem_of_lookup. apply lookup_take_Some in Hj as [Hj Hlt].
  destruct (valid x) eqn:Hx; [done|]. exfalso. eapply Hb; [|exact Hlt|reflexivity].
  rewrite list_lookup_fmap, Hj. cbn. unfold view. by rewrite Hx.
Qed.

Lemma run_set_refines n o l x v' :
  set_ok n l → op_full n o → spec_set o (view <$> l) = Some (x, v') →
  ∃ l', run_set o l = Ok (x, l') ∧ set_ok n l' ∧ view <$> l' = v' ∧ op_asserts o l.
Proof.
  intros Hl Ho E. destruct o as [a|a d|a|a d|a]; cbn [spec_set run_set op_full op_addr op_asserts] in *.
  - unfold spec_read in E. destruct (spec_find _ _) as [[i [[a' d'] y]]|] eqn:Es; [|done]. injection E as <- <-.
    apply find_line in Es as (e & Ei & He & Hv & Hb). pose proof (view_valid _ _ _ _ Hv) as (Hva & _ & Hd & _).
    exists (e :: delete i l). rewrite (read_set_ok n _ _ _ i e) by done. cbn. rewrite Hd. split; [done|].
    split; [by apply set_ok_front|]. split; [by rewrite Hv, view_delete|]. by eapply present_at.
  - unfold spec_update in E. destruct (spec_find _ _) as [[i [[a' d'] y]]|] eqn:Es; [|done]. injection E as <- <-.
    apply find_line in Es as (e & Ei & He & Hv & Hb). pose proof (view_valid _ _ _ _ Hv) as (Hva & Ha & Hd & Hy).
    exists (<[i := e <| ce_data := d |>]> l). rewrite (update_set_ok n _ _ _ i e) by done. split; [done|].
    split; [by apply set_ok_update|]. split; [|by eapply present_at]. rewrite list_fmap_insert. f_equal.
    unfold view, valid, dirty, phys in *. fields. by rewrite Hva, Ha, Hy.
  - unfold spec_evict in E. destruct (spec_find _ _) as [[i [[a' d'] y]]|] eqn:Es; [|done]. injection E as <- <-.
    apply find_line in Es as (e & Ei & He & Hv & Hb). pose proof (view_valid _ _ _ _ Hv) as (Hva & Ha & Hd & Hy).
    eexists. rewrite (evict_set_ok n _ _ _ i e) by done. cbn. rewrite Hd, Hy. split; [done|].
    split; [by apply set_ok_evict|]. split; [|by eapply present_at]. by rewrite list_fmap_insert.
  - unfold spec_install in E. destruct (spec_find _ _) as [|] eqn:Es; [done|]. apply spec_find_None in Es.
    destruct (list_find _ _) as [[i o]|] eqn:Ef; injection E as <- <-.
    + apply find_invalid in Ef as (e & Ei & Hv & Hb). exists (<[i := installed a d]> l).
      rewrite (install_ok n _ _ _ i e) by done. split; [done|]. split; [|split; [by rewrite list_fmap_insert|done]].
      eapply set_ok_insert; [done|exact Ei|by split| |by right].
      right. intros j y Hj Ey. rewrite Forall_forall in Hb. apply Hb. eapply list_elem_of_lookup_2.
      by rewrite lookup_take_lt.
    + exists l. rewrite install_full; [done|]. apply list_find_None in Ef. rewrite Forall_fmap in Ef.
      eapply Forall_impl; [exact Ef|]. intros e He. unfold view in He. cbn in He. by destruct (valid e).
  - unfold spec_victim in E. case_decide as Hall; [|done]. exists l. rewrite fmap_last in E.
    destruct (last l) as [e|]; [|done]. cbn in E. destruct (view e) as [[[a' d'] y]|] eqn:Hv; [|done]. injection E as <- <-.
    destruct (view_valid _ _ _ _ Hv) as (_ & Ha & _ & Hy). cbn. rewrite Ha, Hy. split_and!; [done..|]. by apply view_all.
Qed.

Lemma on_set_run {A} a (f : list CacheEntry → res (A * list CacheEntry)) b k l x l' :
  key_of b a = Ok k → cacheEntry b !! k = Some l → f l = Ok (x, l') →
  on_set a f b = Ok (x, b <| cacheEntry ::= <[k := l']> |>).
Proof. unfold key_of, on_set. intros -> El Ef. cbn. rewrite El. cbn. by rewrite Ef. Qed.
Lemma Present_run a b k l : key_of b a = Ok k → cacheEntry b !! k = Some l → Present a b = Ok (existsb (holds_addr a) l).
Proof. unfold key_of, Present, FindSet. intros -> El. cbn. by rewrite El. Qed.

Lemma run_op_set o b k l x l' :
  key_of b (op_addr o) = Ok k → cacheEntry b !! k = Some l → run_set o l = Ok (x, l') →
  op_asserts o l →
  run_op o b = Ok (x, b <| cacheEntry ::= <[k := l']> |>).
Proof.
  intros Ek El Er Hp. destruct o as [a|a d|a|a d|a]; cbn [run_op run_set op_addr op_asserts] in *.
  5: { rnext Er. injection Er as <- <-. unfold ChooseVictim, SetFull, FindSet. unfold key_of in Ek. rewrite Ek. cbn. rewrite El. cbn.
       rewrite Hp. cbn. destruct (last l) as [e|] eqn:Hlast; [|done]. injection E as <-. cbn.
       rewrite forallb_forall in Hp. rewrite (Hp e) by by apply list_elem_of_In, last_Some_elem_of. cbn.
       rewrite address_assign. unfold phys. do 2 f_equal. destruct b. unfold upd. cbn in *. by rewrite insert_id. }
  all: unfold Read, UpdateData, Evict, Install; rewrite ?(Present_run _ _ _ _ Ek El), ?Hp; cbn [cassert mbind res_bind];
    rnext Er; repeat match goal with v : _ * _ |- _ => destruct v end; simplify_eq;
    by rewrite (on_set_run _ _ _ _ _ _ _ Ek El E).
Qed.

Lemma run_op_refines n o b x m' :
  cache_ok n b → op_full n o → spec_op (key_of b) o (view_bank b) = Some (x, m') →
  ∃ b', run_op o b = Ok (x, b') ∧ cache_ok n b' ∧ view_bank b' = m' ∧ key_of b' = key_of b.
Proof.
  intros Hb Ho E. unfold spec_op, view_bank in E. destruct (key_of b (op_addr o)) as [k|] eqn:Ek; [|done].
  rewrite lookup_fmap in E. destruct (cacheEntry b !! k) as [l|] eqn:El; [|done]. cbn in E.
  destruct (spec_set o _) as [[x' v']|] eqn:Es; [|done]. injection E as <- <-.
  destruct (run_set_refines n o l x' v') as (l' & Er & Hl' & Hv & Hp); [by eapply Hb|done..|].
  exists (b <| cacheEntry ::= <[k := l']> |>). split_and!.
  - by eapply run_op_set.
  - unfold cache_ok. fields. by apply map_Forall_insert_2.
  - unfold view_bank. fields. rewrite fmap_insert. by rewrite Hv.
  - reflexivity.
Qed.

Lemma run_ops_refines n os (b : CacheBank) xs m' :
  cache_ok n b → Forall (op_full n) os → spec_ops (key_of b) os (view_bank b) = Some (xs, m') →
  ∃ b', run_ops os b = Ok (xs, b') ∧ cache_ok n b' ∧ view_bank b' = m'.
Proof.
  intros Hb Ho. revert b xs m' Hb. induction Ho as [|o os Ho _ IH]; intros b xs m' Hb E; cbn [spec_ops run_ops] in *.
  - injection E as <- <-. by exists b.
  - destruct (spec_op _ o _) as [[x m]|] eqn:Eo; [|done]. cbn in E.
    destruct (run_op_refines n o b x m) as (b1 & Er & Hb1 & Hv1 & Hk); [done..|]. rewrite Er. cbn.
    destruct (spec_ops _ os m) as [[ys m2]|] eqn:Es; [|done]. cbn in E. injection E as <- <-.
    rewrite <-Hk, <-Hv1 in Es. destruct (IH b1 ys m2 Hb1 Es) as (b2 & E2 & Hb2 & Hv2). rewrite E2. by exists b2.
Qed.

(** C29. The lines of a cache bank are a list of lines and free places per set. A
    sequence of reads and updates of addresses that are there, evictions,
    installations of addresses that are not and choices of a victim in full sets
    has the results it has on these lists: a read moves its line to the front and
    delivers the bytes stored last, an update changes the bytes in place, an
    eviction leaves the place free and says whether the line was dirty, a new
    address takes the first free place, if any, and the victim is the last line.
    No address is ever there twice. This is not the least-recently-used order in
    full: after an eviction from the end the new line is the next victim
    ([newest_is_victim]); and [Write], which loses a line ([Write_drops_line]),
    is not among the operations. *)
Theorem cache_refines n os (b : CacheBank) xs m' :
  cache_ok n b → Forall (op_full n) os → spec_ops (key_of b) os (view_bank b) = Some (xs, m') →
  ∃ b', run_ops os b = Ok (xs, b') ∧ cache_ok n b' ∧ view_bank b' = m'.
Proof. apply run_ops_refines. Qed.

(** ** Writing *)

Lemma elem_of_tail {A} (x : A) l : x ∈ tail l ↔ ∃ i, l !! S i = Some x.
Proof. destruct l as [|y l]; cbn; [|apply list_elem_of_lookup]. split; [by intros ?%elem_of_nil|by intros (i & ?)]. Qed.

(** The loop of a write leaves the first two lines where they are. *)
Lemma shift_tail n j : ∀ l, full_upto n j l → (j < length l)%nat →
  ∃ l', shift_lines 1 j l = Ok l' ∧ l' !! 0%nat = l !! 0%nat ∧ length l' = length l ∧ drop (S j) l' = drop (S j) l ∧
    ∀ x, x ∈ tail l' → x ∈ tail l.
Proof.
  induction j as [|j IH]; intros l Hl Hj; cbn [shift_lines]; [by exists l|].
  destruct (Nat.leb_spec (S j) 1) as [H1|H1]; [by exists l|].
  destruct (lookup_lt_is_Some_2 l j) as [m Em]; [lia|]. destruct (lookup_lt_is_Some_2 l (S j)) as [e Ee]; [lia|].
  unfold line_at. rewrite Em. cbn [deref mbind res_bind].
  assert (full n (ce_data m)) as Hm by (apply (Hl j m); [lia|done]).
  rewrite (assign_line_full n _ e) by eauto using full_roomy. cbn [mbind res_bind].
  destruct (IH (<[S j := m]> l)) as (l' & E & E0 & Hn & Hd & Ht).
  - apply full_upto_insert; [|done]. intros k x Hk. apply Hl. lia.
  - rewrite length_insert. lia.
  - exists l'. rewrite length_insert in Hn. rewrite list_lookup_insert_ne in E0 by lia. split_and!; [done..| |].
    + assert (∀ k : list CacheEntry, drop (S (S j)) k = drop 1 (drop (S j) k)) as Hdd.
      { intros k. rewrite drop_drop. f_equal. lia. }
      rewrite !Hdd, Hd, drop_insert_ge, Nat.sub_diag by lia. by rewrite (drop_S l e (S j)).
    + intros x [i Hi]%Ht%elem_of_tail. apply elem_of_tail. destruct (decide (i = j)) as [->|Hne].
      * apply list_lookup_insert_Some in Hi as [(_ & <- & _)|(? & _)]; [|done]. destruct j as [|j]; [lia|]. by exists j.
      * rewrite list_lookup_insert_ne in Hi by lia. by exists i.
Qed.

(** What is written: new data, and the line is dirty. *)
Definition written (d : NVMDataBlock) (e : CacheEntry) : CacheEntry :=
  e <| ce_data := d |> <| ce_flags ::= λ f, set_flag f CACHE_ENTRY_DIRTY |>.

Lemma write_line_eq addr d rv l i e : l !! i = Some e →
  write_line addr d (rv, l) i =
    if holds_addr addr e then
      d' ← NVMDataBlock_assign (ce_data e) d;
      l ← to_front 1 i (<[i := written d' e]> l); Ok (true, l)
    else Ok (rv, l).
Proof. intros Ee. unfold write_line, line_at. by rewrite Ee. Qed.
Lemma write_skip addr d rv k : ∀ i l, free_of addr (take k (drop i l)) → (i + k ≤ length l)%nat →
  foldM (write_line addr d) (rv, l) (seq i k) = Ok (rv, l).
Proof.
  induction k as [|k IH]; intros i l Hf Hk; [done|]. destruct (lookup_lt_is_Some_2 l i) as [e Ee]; [lia|].
  rewrite (drop_S l e i) in Hf by done. apply Forall_cons in Hf as [He Hf].
  cbn [seq foldM]. rewrite (write_line_eq _ _ _ _ _ e), He by done. cbn [mbind res_bind]. apply IH; [done|lia].
Qed.

Lemma to_front_tail n i l e : full_upto n i l → l !! i = Some e →
  ∃ l', to_front 1 i l = Ok l' ∧ l' !! 0%nat = Some e ∧ length l' = length l ∧ drop (S i) l' = drop (S i) l ∧
    ∀ x, x ∈ tail l' → x ∈ tail l.
Proof.
  intros Hl Ei. pose proof (lookup_lt_Some _ _ _ Ei) as Hi. assert (full n (ce_data e)) as He by (apply (Hl i e); [lia|done]).
  unfold to_front, line_at. rewrite Ei. cbn [deref mbind res_bind]. rewrite (entry_assign_full n) by done. cbn [mbind res_bind].
  destruct (shift_tail n i l Hl Hi) as (l1 & -> & E0 & Hn & Hd & Ht). cbn [mbind res_bind].
  destruct l as [|x0 l]; [cbn in Hi; lia|]. destruct l1 as [|y l1]; [done|]. injection E0 as ->.
  rewrite (assign_line_full n _ x0); [|done|apply full_roomy, (Hl 0%nat x0); [lia|done]|done].
  exists (e :: l1). by split_and!.
Qed.

Lemma write_set_ok n addr d l i e :
  set_ok n l → full n d → l !! i = Some e → holds_addr addr e = true → free_of addr (take i l) →
  ∃ l', write_set addr d l = Ok (true, l') ∧ l' !! 0%nat = Some (written d e) ∧ length l' = length l ∧
    ∀ x, x ∈ tail l' → x ∈ tail (<[i := written d e]> l).
Proof.
  intros Hl Hd Ei He Hb. pose proof (lookup_lt_Some _ _ _ Ei) as Hi.
  assert (valid e = true) as Hv by by apply andb_true_iff in He as [_ ?].
  pose proof (valid_used _ _ _ _ Hl Ei Hv) as Hu.
  unfold write_set. rewrite (seq_around i) by done. rewrite foldM_app, write_skip by done || lia. cbn [mbind res_bind foldM].
  rewrite (write_line_eq _ _ _ _ _ e), He by done. rewrite (assign_full n) by eauto. cbn [mbind res_bind].
  destruct (to_front_tail n i (<[i := written d e]> l) (written d e)) as (l' & -> & E0 & Hn & Hdr & Ht).
  - apply full_upto_insert; [done|]. unfold written. by fields.
  - by rewrite list_lookup_insert_eq.
  - cbn [mbind res_bind]. rewrite length_insert in Hn. exists l'. split; [|done]. apply write_skip; [|lia].
    rewrite Hdr, drop_insert_lt by lia. rewrite firstn_all2 by (rewrite length_drop; lia). by eapply unique_after.
Qed.

(** Two valid lines with one address are one line. *)
Lemma valid_once n l i j x y :
  set_ok n l → l !! i = Some x → l !! j = Some y → valid x = true → valid y = true → phys x = phys y → i = j.
Proof.
  intros [_ Hd] Hi Hj Vx Vy E. destruct (Nat.lt_trichotomy i j) as [Hlt|[->|Hlt]]; [|done|]; exfalso.
  1: rename l into m. 2: rename i into i'; rename j into i; rename i' into j; rename x into x'; rename y into x;
    rename x' into y; rename Hi into Hj'; rename Hj into Hi; rename Hj' into Hj; rename l into m; symmetry in E.
  all: rewrite <-(take_drop_middle _ _ _ Hj) in Hd; unfold valid_lines in Hd;
    rewrite filter_app, filter_cons, fmap_app in Hd; rewrite decide_True in Hd by done;
    apply NoDup_app in Hd as (_ & Hd & _); apply (Hd (phys x)); [|rewrite E; by left];
    apply list_elem_of_fmap; exists x; split; [done|]; apply list_elem_of_filter; split; [done|];
    eapply list_elem_of_lookup_2; by rewrite lookup_take_lt.
Qed.

Lemma valid_written d e : valid (written d e) = valid e.
Proof.
  unfold valid, written, has_flag, set_flag. fields. unfold CACHE_ENTRY_VALID, CACHE_ENTRY_DIRTY.
  rewrite Z.land_lor_distr_l. by rewrite Z.lor_0_r.
Qed.

(** A write loses a line: when the line that is written is not the most
    recent one, it becomes so by overwriting the most recent line. That line was
    not evicted, its data, dirty or not, is gone, and its address is nowhere in
    the set. *)
Theorem Write_drops_line n (b : CacheBank) addr d k l i e e0 :
  cache_ok n b → full n d → key_of b addr = Ok k → cacheEntry b !! k = Some l →
  l !! 0%nat = Some e0 → valid e0 = true → l !! S i = Some e → holds_addr addr e = true →
  ∃ b' l', Write addr d b = Ok (true, b') ∧ cacheEntry b' !! k = Some l' ∧ l' !! 0%nat = Some (written d e) ∧
    ∀ x, x ∈ l' → valid x = true → phys x ≠ phys e0.
Proof.
  intros Hb Hd Ek El E0 V0 Ei He. pose proof (Hb _ _ El) as Hl. pose proof He as [Ha Hv]%andb_true_iff.
  assert (free_of addr (take (S i) l)) as Hf.
  { apply Forall_forall. intros x (j & Hj)%list_elem_of_lookup. apply lookup_take_Some in Hj as [Hj Hlt].
    destruct (holds_addr addr x) eqn:Hx; [|done]. apply andb_true_iff in Hx as [Hxa Hxv].
    apply Z.eqb_eq in Hxa, Ha. pose proof (valid_once _ _ _ _ _ _ Hl Hj Ei Hxv Hv). unfold phys in *.
    specialize (H ltac:(congruence)). lia. }
  destruct (write_set_ok n addr d l (S i) e) as (l' & Ew & Eh & Hn & Ht); [done..|].
  exists (b <| cacheEntry ::= <[k := l']> |>), l'. split_and!.
  - unfold Write. rewrite (Present_run _ _ _ _ Ek El), (present_at _ _ _ _ Ei He). cbn [cassert mbind res_bind].
    by apply (on_set_run _ _ _ _ _ _ _ Ek El).
  - fields. by rewrite lookup_insert_eq.
  - done.
  - assert (phys (written d e) = phys e) as Hp by (unfold phys, written; by fields).
    assert (phys e ≠ phys e0) as Hne.
    { intros E. by pose proof (valid_once _ _ _ _ _ _ Hl Ei E0 Hv V0 E). }
    intros x Hx Vx E. destruct l' as [|y l']; [done|]. injection Eh as ->. apply elem_of_cons in Hx as [->|Hx]; [congruence|].
    apply Ht, elem_of_tail in Hx as [j Hj]. destruct (decide (j = i)) as [->|Hji].
    + rewrite list_lookup_insert_eq in Hj by (by eapply lookup_lt_Some). injection Hj as <-. congruence.
    + rewrite list_lookup_insert_ne in Hj by lia. by pose proof (valid_once _ _ _ _ _ _ Hl Hj E0 Vx V0 E).
Qed.

(** ** Examples *)

(** A new bank is empty. *)
Lemma cache_ok_new n rows sets assoc lineSize bit0 : cache_ok n (CacheBank_new rows sets assoc lineSize bit0).
Proof.
  intros k l Hk. apply elem_of_list_to_map_2, list_elem_of_fmap in Hk as (k' & [= -> ->] & _). split.
  - exists 0%nat. intros i e Hi. apply lookup_replicate in Hi as [-> _]. by rewrite decide_False by lia.
  - unfold valid_lines. induction (Z.to_nat assoc); cbn [replicate]; [constructor|]. by rewrite filter_cons, decide_False.
Qed.

(** Four sets of two lines of two bytes; the two addresses share a set. *)
Definition small_bank : CacheBank := CacheBank_new 2 2 2 2 0.
Definition line_addr (a : Z) : NVMAddress := SetPhysicalAddress a (SetTranslatedAddress 1 0 0 0 0 0 (NVMAddress_new 0)).
Definition fills : list cache_op :=
  [OpInstall (line_addr 64) (blk [1; 2]); OpInstall (line_addr 128) (blk [3; 4])].
Definition looks : list cache_op :=
  [OpRead (line_addr 128); OpVictim (line_addr 192); OpEvict (line_addr 64); OpRead (line_addr 128)].

(** A full set: the victim is evicted, a new line installed in its place, and a
    victim chosen again: it is the newest line. *)
Definition replaces : list cache_op :=
  [OpVictim (line_addr 192); OpEvict (line_addr 128); OpInstall (line_addr 192) (blk [5; 6]); OpVictim (line_addr 256)].
Lemma newest_is_victim :
  match run_ops (fills ++ replaces) small_bank with
  | Ok (xs, _) => drop 2 xs = [(false, [128]); (false, [3; 4]); (true, []); (false, [192])]
  | Err _ => False
  end.
Proof. by vm_compute. Qed.

Lemma op_full_fills : Forall (op_full 2) (fills ++ looks).
Proof. repeat constructor; by eexists. Qed.

(** Two lines are filled; the second is read, the first is evicted. *)
Lemma cache_refines_witness : ∃ b', run_ops (fills ++ looks) small_bank =
  Ok ([(true, []); (true, []); (true, [3; 4]); (false, [64]); (false, [1; 2]); (true, [3; 4])], b') ∧ cache_ok 2 b' ∧
  view_bank b' !! (1, 0) = Some [Some (128, [3; 4], false); None].
Proof.
  destruct (spec_ops (key_of small_bank) (fills ++ looks) (view_bank small_bank)) as [[xs m]|] eqn:E;
    [|exfalso; revert E; vm_compute; discriminate].
  destruct (cache_refines 2 (fills ++ looks) small_bank xs m) as (b' & Er & Hb & Hv);
    [apply cache_ok_new|apply op_full_fills|exact E|].
  exists b'. rewrite Hv, Er. revert E. vm_compute. intros [= <- <-]. split; [reflexivity|]. split; [exact Hb|reflexivity].
Defined.

(** The second line is written: the first one is lost. *)
Definition filled_bank : CacheBank := match run_ops fills small_bank with Ok (_, b) => b | Err _ => small_bank end.
Lemma filled_ok : cache_ok 2 filled_bank.
Proof.
  unfold filled_bank. destruct (spec_ops (key_of small_bank) fills (view_bank small_bank)) as [[xs m]|] eqn:E;
    [|exfalso; revert E; vm_compute; discriminate].
  destruct (run_ops_refines 2 fills small_bank xs m) as (b' & Er & Hb & Hv);
    [apply cache_ok_new|by apply (Forall_app _ fills looks), op_full_fills|exact E|]. by rewrite Er.
Qed.
Lemma Write_drops_line_witness :
  ∃ b' l', Write (line_addr 128) (blk [5; 6]) filled_bank = Ok (true, b') ∧ cacheEntry b' !! (1, 0) = Some l' ∧
    ∀ x, x ∈ l' → valid x = true → phys x ≠ 64.
Proof.
  destruct (Write_drops_line 2 filled_bank (line_addr 128) (blk [5; 6]) (1, 0)
    [installed (line_addr 64) (blk [1; 2]); installed (line_addr 128) (blk [3; 4])] 0
    (installed (line_addr 128) (blk [3; 4])) (installed (line_addr 64) (blk [1; 2]))) as (b' & l' & Hw & Hl & _ & Hn).
  - apply filled_ok.
  - by eexists.
  - reflexivity.
  - vm_compute. reflexivity.
  - reflexivity.
  - reflexivity.
  - reflexivity.
  - reflexivity.
  - exists b', l'. split; [exact Hw|]. split; [exact Hl|exact Hn].
Defined.
