(* ===== verification/RankChild.v ===== *)
(** * The rank as the child of a bus

    The operations of StandardRank.v implement the interface the interconnects
    are written against, and satisfy its laws when the banks do. A rank is also
    told about the commands of the other ranks ([NotifyOps]). *)

From S2P Require Import Prelude NVMTypes Translation Config Params SimInterface Heap EventQueue Frame Tree.
From S2P Require Import StandardRank StandardRankTiming StandardRankAccess.
Import Rank.

(** A child that listens to the commands of its siblings, and changes nothing
    but itself. *)
Class NotifyOps (C : Type) := { ch_Notify : ReqPtr → ST (Sim C) unit }.
Class NotifyLaws (C : Type) `{NotifyOps C} := {
  nl_Notify : ∀ q s u s', ch_Notify q s = Ok (u, s') → heap s' = heap s ∧ queue s' = queue s
}.

Section Child.
Context {C : Type} `{ChildLaws C}.
Variable out : six.

Definition Rank_child : ChildOps (Child (Node StandardRank C)) := {|
  ch_IsIssuable q := at_child (λ _, IsIssuable out q);
  ch_IssueCommand q := at_child (λ this, IssueCommand this out q);
  ch_NextIssuable q := at_child (λ _, NextIssuable out q);
  ch_Idle := at_child (λ _, Idle);
  ch_Cycle n := at_child (λ _, Cycle n)
|}.
Definition Rank_notify : NotifyOps (Child (Node StandardRank C)) := {| ch_Notify q := at_child (λ _, Notify q) |}.

Variable this : ObjPtr.

Lemma rank_timeless_IsIssuable q : timeless (IsIssuable (C := C) out q).
Proof. intros s a s' Hr. apply rank_asks_IsIssuable in Hr as (Eh & Eq & _). by apply steady_same. Qed.
#[local] Hint Resolve rank_timeless_IsIssuable timeless_set_me_res : timeless.
Lemma rank_timeless_idle_loop l : timeless (idle_loop (C := C) l).
Proof. induction l; cbn [idle_loop]; timeless_tac. Qed.
Lemma timeless_issue_all q l : timeless (issue_all (C := C) q l).
Proof. induction l; cbn [issue_all]; timeless_tac. Qed.
Lemma timeless_refresh_banks q l : timeless (refresh_banks (C := C) q l).
Proof. induction l; cbn [refresh_banks]; timeless_tac. Qed.
Lemma rank_timeless_cycle_all n l : timeless (cycle_all (C := C) n l).
Proof. induction l; cbn [cycle_all]; timeless_tac. Qed.
#[local] Hint Resolve rank_timeless_idle_loop timeless_issue_all timeless_refresh_banks rank_timeless_cycle_all : timeless.
Lemma rank_timeless_IssueCommand q : timeless (IssueCommand (C := C) this out q).
Proof.
  unfold IssueCommand, Activate, Read, Write, Precharge, Refresh, PowerDown, PowerUp, Idle, children, close_event,
    access_times, insert_response, to_child. timeless_tac.
Qed.
Lemma rank_timeless_Cycle n : timeless (Cycle (C := C) n).
Proof. unfold Cycle, children. timeless_tac. Qed.

Lemma rank_asks_NextIssuable q : asks any (NextIssuable (C := C) out q).
Proof. unfold NextIssuable. asks_tac. all: by apply asks_set_me. Qed.

Lemma rank_idle_loop_inv l : ∀ s a s', idle_loop (C := C) l s = Ok (a, s') → s' = s.
Proof.
  induction l as [|x l IH]; intros s a s' Hr; cbn [idle_loop] in Hr; [by injection Hr|].
  next Hr. apply child_at_inv in E as ->. next Hr. apply on_idle_inv in E as ->.
  destruct r0; [by eapply IH|by injection Hr].
Qed.

Lemma rank_keeping_IsIssuable q q' : keeping q (IsIssuable (C := C) out q').
Proof. intros s a s' Hr. apply rank_asks_IsIssuable in Hr as (Eh & _ & _). by apply keeps_heap. Qed.
#[local] Hint Resolve rank_keeping_IsIssuable : keeping.
Lemma rank_keeping_set_me_res q f : keeping q (set_me_res (C := C) f).
Proof. unfold set_me_res. keeping_tac. Qed.
#[local] Hint Resolve rank_keeping_set_me_res : keeping.
Lemma rank_keeping_idle_loop q l : keeping q (idle_loop (C := C) l).
Proof. induction l; cbn [idle_loop]; keeping_tac. Qed.
Lemma keeping_issue_all q q' l : keeping q (issue_all (C := C) q' l).
Proof. induction l; cbn [issue_all]; keeping_tac. Qed.
Lemma keeping_refresh_banks q q' l : keeping q (refresh_banks (C := C) q' l).
Proof. induction l; cbn [refresh_banks]; keeping_tac. Qed.
#[local] Hint Resolve rank_keeping_idle_loop keeping_issue_all keeping_refresh_banks : keeping.
(** An update of a request that leaves its type and its bursts. *)
Lemma keeping_own {A} q q' f (k : unit → ST (Sim (Node StandardRank C)) A) :
  (∀ r, type (f r) = type r ∧ burstCount (f r) = burstCount r ∧ address (f r) = address r) → (∀ u, keeping q (k u)) →
  keeping q (load_req q' ≫= λ r, store_req q' (f r) ≫= k).
Proof.
  intros Hf Hk s a s' Hr. load Hr. next Hr. destruct r0. destruct (Hf r) as (? & ? & ?).
  eapply transitivity; [by eapply keeping_store|by eapply Hk].
Qed.
Lemma rank_keeping_IssueCommand q q' : keeping q (IssueCommand (C := C) this out q').
Proof.
  unfold IssueCommand, Activate, Read, Write, Precharge, Refresh, PowerDown, PowerUp, Idle, children, close_event,
    access_times, insert_response.
  repeat first [apply (keeping_own _ _ (λ r, r <| owner := Some this |>)); [by intros|intros ?] | solve [eauto with keeping nocore]
    | apply keeping_bind; [|intros ?] | head_step].
Qed.
End Child.

Lemma Rank_laws {C} `{ChildLaws C} out : ChildLaws (H := Rank_child out) (Child (Node StandardRank C)).
Proof.
  split; cbn.
  - intros q s a s' [Hr _]%at_child_inv. apply rank_asks_IsIssuable in Hr as (E1 & E2 & _). by split.
  - intros s a s' [Hr Ht]%at_child_inv. unfold Idle, me in Hr. autorewrite with run in Hr. apply rank_idle_loop_inv in Hr.
    destruct s as [h q []], s' as [h' q' []]. cbn in Ht. unfold inner in Hr. cbn in Hr. by simplify_eq.
  - intros q. apply timeless_at_child. intros this. apply rank_timeless_IssueCommand.
  - intros q s a s' [Hr _]%at_child_inv. apply rank_asks_NextIssuable in Hr as (E1 & E2 & _). by split.
  - intros n. apply timeless_at_child. intros this. apply rank_timeless_Cycle.
  - intros q q' s b s' [Hr _]%at_child_inv. exact (rank_keeping_IssueCommand _ _ q q' _ _ _ Hr).
Qed.

Lemma asks_Notify {C} `{ChildOps C} q (s : Sim (Node StandardRank C)) u s' :
  Notify q s = Ok (u, s') → heap s' = heap s ∧ queue s' = queue s ∧ params (node (obj s')) = params (node (obj s)).
Proof.
  intros Hr. unfold Notify in Hr. load Hr. unfold me in Hr. autorewrite with run in Hr. cbv zeta in Hr.
  assert (∀ nr nw, set_me_res (C := C) (bump_all nr nw) s = Ok (u, s') →
    heap s' = heap s ∧ queue s' = queue s ∧ params (node (obj s')) = params (node (obj s))) as Hb.
  { intros nr nw Hs. destruct u. apply set_me_res_inv in Hs as (Eh & Eq & Hs). split; [done|]. split; [done|].
    apply bump_all_ring in Hs. unfold same_ring, ring_part in Hs. congruence. }
  destruct (type r); try (by injection Hr as _ <-); by eapply Hb.
Qed.
Lemma Rank_notify_laws {C} `{ChildOps C} : NotifyLaws (H := Rank_notify) (Child (Node StandardRank C)).
Proof. split; cbn. intros q s u s' [Hr _]%at_child_inv. apply asks_Notify in Hr as (E1 & E2 & _). by split. Qed.
