(* ===== verification/Interconnect.v ===== *)
(** * The interconnects

    NVmain/Interconnect: the bus between a memory controller and its ranks. A
    command goes to the rank its address names, and the other ranks are told
    about it. Here is what the two buses share. *)

From S2P Require Import Prelude NVMTypes Translation Config Params SimInterface Heap EventQueue Frame Tree.
From S2P Require Import RankChild.

(** ** What the two buses share

    [B] is the state of the bus, the children are the ranks. *)

Section Bus.
Context {B C : Type} `{!Decodes B} `{ChildOps C} `{NotifyOps C}.
Variable out : six.
Abbreviation st := (Sim (Node B C)) (only parsing).

Definition child_count : ST st Z := s ← get; mret (Z.of_nat (length (kids (obj s)))).

(** The child of the request is looked up again for each of the others. *)
Fixpoint notify_others (q : ReqPtr) (l : list Z) : ST st unit :=
  match l with
  | [] => mret ()
  | childIdx :: l =>
      i ← child_of out q; j ← child_at childIdx;
      (if decide (i = j) then mret () else on_child j (ch_Notify q));;
      notify_others q l
  end.
Definition bus_IssueCommand (q : ReqPtr) : ST st bool :=
  '(ok, _) ← ask_child out q;
  lift (cassert ok);;
  success ← to_child out q;
  (if (success : bool) then n ← child_count; notify_others q (seqZ 0 n) else mret ());;
  mret success.
Definition bus_IsIssuable (q : ReqPtr) : ST st (bool * option FailReasons) := ask_child out q.
Fixpoint cycle_children (steps : Z) (l : list Z) : ST st unit :=
  match l with
  | [] => mret ()
  | x :: l => i ← child_at x; on_child i (ch_Cycle steps);; cycle_children steps l
  end.
Definition bus_Cycle (steps : Z) : ST st unit := n ← child_count; cycle_children steps (seqZ 0 n).
(** [NVMObject::NextIssuable] and [NVMObject::Idle]. *)
Definition bus_NextIssuable (q : ReqPtr) : ST st Z := i ← child_of out q; on_child i (ch_NextIssuable q).
Definition bus_Idle : ST st bool := mret true.
End Bus.

(** The ranks a configuration asks for. *)
Definition create_ranks {C} (c : Config) (ranks : Z) (kids : list C) (new_child : string → Z → Config → res (Config * C)) :
    res (list C * Config) :=
  foldM (λ st i, let '(kids, c) := st in '(t, c) ← GetString "RankType" c;
                 '(c, k) ← new_child t i c; Ok (kids ++ [k], c))
    (kids, c) (seqZ 0 ranks).
