(* ===== verification/OffChipBus.v ===== *)
(** * The off-chip bus

    NVmain/Interconnect/OffChipBus: the bus to ranks on other chips. It delays
    the answers of the ranks by the off-chip latency. *)

From S2P Require Import Prelude NVMTypes Translation Config Params SimInterface Heap EventQueue Frame Tree.
From S2P Require Import RankChild Interconnect.

Module OffChip.
(*| NVmain/Interconnect/OffChipBus/OffChipBus.h 60-65 OffChipBus *)
Record OffChipBus := mkOffChipBus {
  params : Params;
  busAT : AddressTranslator;
  configSet : bool;
  numRanks : Z;
  offChipDelay : Z;
  syncValue : double
}.
#[global] Instance eta_OffChipBus : Settable OffChipBus := fields! mkOffChipBus
  < params; busAT; configSet; numRanks; offChipDelay; syncValue >.
#[global] Instance OffChipBus_decodes : Decodes OffChipBus :=
  {| at_of := busAT; set_at t b := b <| busAT := t |> |}.
#[global] Instance OffChipBus_decodes_laws : DecodesLaws OffChipBus.
Proof. by split. Qed.

(** The constructor leaves the delay [u] uninitialised; parameters and decoder
    come with the configuration. *)
(*| NVmain/Interconnect/OffChipBus/OffChipBus.cpp 46-52 OffChipBus::OffChipBus *)
Definition OffChipBus_new (p : Params) (at_ : AddressTranslator) (u : Z) : OffChipBus :=
  mkOffChipBus p at_ false 0 u dzero.

(** ** The power of the data pins

    The resistor networks of the bus, as the code solves them; nothing calls
    [CalculateIOPower]. *)

#[local] Infix "+." := dadd (at level 50, left associativity).
#[local] Infix "-." := dsub (at level 50, left associativity).
#[local] Infix "*." := dmul (at level 40, left associativity).
#[local] Infix "/." := ddiv (at level 40, left associativity).

Definition one : double := d_of_Z 1.
(** [1.0f / r]. *)
Definition per (r : double) : double := one /. r.
(** An [unsigned int] times two. *)
Definition twice (r : Z) : double := d_of_Z (u32 r) *. d_of_Z 2.
Definition Rs : double := d_of_Z 15.
Definition Ron : double := d_of_Z 34.

(** One rank on the DIMM: the driver [Rdevice] at [Vdrive] against the pull-up
    and pull-down [Rtt]. *)
(*| NVmain/Interconnect/OffChipBus/OffChipBus.cpp 186-209 OffChipBus::CalculateIOPower *)
Definition single_rank_power (VDDQ VSSQ Rttpu Rttpd Rdevice Vdrive : double) : double :=
  let Vbus := (VDDQ /. Rttpu +. VSSQ /. Rttpd +. Vdrive /. Rdevice) /. (per Rttpu +. per Rttpd +. per Rdevice) in
  let Ipu := (VDDQ -. Vbus) /. Rttpu in
  let Ipd := (Vbus -. VSSQ) /. Rttpd in
  let Ibus := (Vbus -. Vdrive) /. Rdevice in
  Ipu *. Ipu *. Rttpu +. Ipd *. Ipd *. Rttpd +. Ibus *. Ibus *. Rdevice.

(** Several ranks, one of them terminated: a read. *)
(*| NVmain/Interconnect/OffChipBus/OffChipBus.cpp 257-321 OffChipBus::CalculateIOPower *)
Definition read_power (VDDQ VSSQ : double) (Rtt_nom Rtt_cont bitValue : Z) : double :=
  let Rdevice := Rs +. Ron in
  let Rttpu := twice Rtt_cont in let Rttpd := twice Rtt_cont in
  let Rothpu := twice Rtt_nom in let Rothpd := twice Rtt_nom in
  let R1 := if bitValue =? 0 then Rttpu else one /. (per Rttpu +. per Rdevice) in
  let R2 := if bitValue =? 0 then one /. (per Rttpu +. per Rdevice) else Rttpd in
  let R3 := Rs in let R4 := Rothpu in let R5 := Rothpd in
  let RP := R3 *. R4 +. R4 *. R5 +. R5 *. R3 in
  let RB := RP /. R5 in let RC := RP /. R4 in
  let RX := one /. (per R1 +. per RB) in let RY := one /. (per R2 +. per RC) in
  let Ibus := (VDDQ -. VSSQ) /. (RX +. RY) in
  let Vbus := VSSQ +. Ibus *. RY in
  let Vterm := d_of_Z (-1) *. R3 *. ((VDDQ -. Vbus) /. R1 -. (Vbus -. VSSQ) /. R2) +. Vbus in
  let I1 := (VDDQ -. Vbus) /. R1 in let I2 := (Vbus -. VSSQ) /. R2 in let I3 := (Vbus -. Vterm) /. R3 in
  let I4 := (VDDQ -. Vterm) /. R4 in let I5 := (Vterm -. VSSQ) /. R5 in
  I1 *. I1 *. R1 +. I2 *. I2 *. R2 +. I3 *. I3 *. R3 +. I4 *. I4 *. R4 +. I5 *. I5 *. R5.

(** The same for a write of [Vwrite]. *)
(*| NVmain/Interconnect/OffChipBus/OffChipBus.cpp 337-384 OffChipBus::CalculateIOPower *)
Definition write_power (VDDQ VSSQ : double) (Rtt_nom Rtt_wr : Z) (Vwrite : double) : double :=
  let Rttpu := twice Rtt_wr in let Rttpd := twice Rtt_wr in
  let Rothpu := twice Rtt_nom in let Rothpd := twice Rtt_nom in
  let RPL := Rothpu *. Rothpd +. Rothpd *. Rs +. Rs *. Rothpu in
  let RAL := RPL /. Rothpd in let RBL := RPL /. Rothpu in
  let RPR := Rttpu *. Rttpd +. Rttpd *. Rs +. Rs *. Rttpu in
  let RAR := RPR /. Rttpd in let RBR := RPR /. Rttpu in
  let Vbus := (VSSQ /. RBL +. VSSQ /. RBR +. VDDQ /. RAL +. VDDQ /. RAR +. Vwrite /. Ron)
    /. (per RBL +. per RBR +. per RAL +. per RAR +. per Ron) in
  let Vterm := (VDDQ /. Rttpu +. VSSQ /. Rttpd +. Vbus /. Rs) /. (per Rttpu +. per Rttpd +. per Rs) in
  let Voterm := (VDDQ /. Rothpu +. VSSQ /. Rothpd +. Vbus /. Rs) /. (per Rothpu +. per Rothpd +. per Rs) in
  let Ittpu := (VDDQ -. Vterm) /. Rttpu in let Ittpd := (Vterm -. VSSQ) /. Rttpd in
  let Iothpu := (VDDQ -. Voterm) /. Rothpu in let Iothpd := (Voterm -. VSSQ) /. Rothpd in
  let Irs1 := (Vbus -. Vterm) /. Rs in let Irs2 := (Vbus -. Voterm) /. Rs in
  let Ibus := (Vwrite -. Vbus) /. Ron in
  Ittpu *. Ittpu *. Rttpu +. Ittpd *. Ittpd *. Rttpd +. Iothpu *. Iothpu *. Rothpu +. Iothpd *. Iothpd *. Rothpd
    +. Irs1 *. Irs1 *. Rs +. Irs2 *. Irs2 *. Rs +. Ibus *. Ibus *. Ron.

(*| NVmain/Interconnect/OffChipBus/OffChipBus.cpp 157-388 OffChipBus::CalculateIOPower *)
Definition CalculateIOPower (p : Params) (isRead : bool) (bitValue : Z) : double :=
  let V := if bitValue =? 0 then Vssq p else Vddq p in
  let ranksPerDimm := u32 (RanksPerDIMM p) in
  if ranksPerDimm =? 1 then
    let Rtt := twice (if isRead then Rtt_nom p else Rtt_wr p) in
    single_rank_power (Vddq p) (Vssq p) Rtt Rtt (Rs +. Ron) V
  else if (ranksPerDimm =? 2) || (ranksPerDimm =? 3) || (ranksPerDimm =? 4) then
    if isRead then read_power (Vddq p) (Vssq p) (Rtt_nom p) (Rtt_cont p) bitValue
    else write_power (Vddq p) (Vssq p) (Rtt_nom p) (Rtt_wr p) V
  else dzero.

Section Operations.
Context {C : Type} `{ChildOps C} `{NotifyOps C}.
Variable this : ObjPtr.
Variable out : six.
Abbreviation st := (Sim (Node OffChipBus C)) (only parsing).

(*| NVmain/Interconnect/OffChipBus/OffChipBus.cpp 103-109 OffChipBus::RequestComplete *)
Definition RequestComplete (request : ReqPtr) : ST st bool :=
  o ← load_obj this; h ← lift (deref NullDeref (parent o));
  n ← now; b ← me;
  InsertEvent EventResponse h (Some request) (n ⊕ offChipDelay b) 0 0;;
  mret true.

(*| NVmain/Interconnect/OffChipBus/OffChipBus.cpp 111-134 OffChipBus::IssueCommand *)
Definition IssueCommand (req : ReqPtr) : ST st bool := bus_IssueCommand out req.
(*| NVmain/Interconnect/OffChipBus/OffChipBus.cpp 136-139 OffChipBus::IsIssuable *)
Definition IsIssuable (req : ReqPtr) : ST st (bool * option FailReasons) := bus_IsIssuable out req.
(*| NVmain/Interconnect/OffChipBus/OffChipBus.cpp 149-155 OffChipBus::Cycle *)
Definition Cycle (steps : Z) : ST st unit := bus_Cycle steps.

(** [method] is the translation method of the parent's decoder. *)
(*| NVmain/Interconnect/OffChipBus/OffChipBus.cpp 58-101 OffChipBus::SetConfig *)
Definition SetConfig (c : Config) (createChildren : bool) (uninit : Z * Z * Z) (method : option TranslationMethod)
    (CreateDecoderNoWarn : string → AddressTranslator) (new_child : string → Z → Config → res (Config * C))
    (s : Node OffChipBus C) : res (Config * Node OffChipBus C) :=
  let '(u1, u2, u3) := uninit in
  '(_, (c, p)) ← SetParams (c, Params_new u1 u2 u3);
  let b := (node s) <| params := p |> <| configSet := true |> <| offChipDelay := OffChipLatency p |> <| numRanks := RANKS p |> in
  if createChildren then
    '(d, c) ← GetString "Decoder" c;
    m ← deref NullDeref method;
    let at_ := SetDefaultField RANK_FIELD (SetTranslationMethod m (CreateDecoderNoWarn d)) in
    '(ranks, c) ← create_ranks c (numRanks b) (kids s) new_child;
    Ok (c, mkNode (b <| busAT := at_ |>) ranks)
  else Ok (c, mkNode b (kids s)).
End Operations.
End OffChip.
