(* ===== verification/OnChipBus.v ===== *)
(** * The on-chip bus

    NVmain/Interconnect/OnChipBus: the bus to ranks on the same chip. It has no
    delay of its own: the answers go to the parent as they come
    ([Objects.NVMObject_RequestComplete]). *)

From S2P Require Import Prelude NVMTypes Translation Config Params SimInterface Heap EventQueue Frame Tree.
From S2P Require Import RankChild Interconnect.

Module OnChip.
(*| NVmain/Interconnect/OnChipBus/OnChipBus.h 61-66 OnChipBus *)
Record OnChipBus := mkOnChipBus {
  params : Params;
  busAT : AddressTranslator;
  configSet : bool;
  numRanks : Z;
  syncValue : double
}.
#[global] Instance eta_OnChipBus : Settable OnChipBus := fields! mkOnChipBus
  < params; busAT; configSet; numRanks; syncValue >.
#[global] Instance OnChipBus_decodes : Decodes OnChipBus :=
  {| at_of := busAT; set_at t b := b <| busAT := t |> |}.
#[global] Instance OnChipBus_decodes_laws : DecodesLaws OnChipBus.
Proof. by split. Qed.

(*| NVmain/Interconnect/OnChipBus/OnChipBus.cpp 44-50 OnChipBus::OnChipBus *)
Definition OnChipBus_new (p : Params) (at_ : AddressTranslator) : OnChipBus := mkOnChipBus p at_ false 0 dzero.

Section Operations.
Context {C : Type} `{ChildOps C} `{NotifyOps C}.
Variable out : six.
Abbreviation st := (Sim (Node OnChipBus C)) (only parsing).

(*| NVmain/Interconnect/OnChipBus/OnChipBus.cpp 99-122 OnChipBus::IssueCommand *)
Definition IssueCommand (req : ReqPtr) : ST st bool := bus_IssueCommand out req.
(*| NVmain/Interconnect/OnChipBus/OnChipBus.cpp 124-127 OnChipBus::IsIssuable *)
Definition IsIssuable (req : ReqPtr) : ST st (bool * option FailReasons) := bus_IsIssuable out req.
(*| NVmain/Interconnect/OnChipBus/OnChipBus.cpp 137-143 OnChipBus::Cycle *)
Definition Cycle (steps : Z) : ST st unit := bus_Cycle steps.

(*| NVmain/Interconnect/OnChipBus/OnChipBus.cpp 56-97 OnChipBus::SetConfig *)
Definition SetConfig (c : Config) (createChildren : bool) (uninit : Z * Z * Z) (method : option TranslationMethod)
    (CreateDecoderNoWarn : string → AddressTranslator) (new_child : string → Z → Config → res (Config * C))
    (s : Node OnChipBus C) : res (Config * Node OnChipBus C) :=
  let '(u1, u2, u3) := uninit in
  '(_, (c, p)) ← SetParams (c, Params_new u1 u2 u3);
  let b := (node s) <| params := p |> <| configSet := true |> <| numRanks := RANKS p |> in
  if createChildren then
    '(d, c) ← GetString "Decoder" c;
    m ← deref NullDeref method;
    let at_ := SetDefaultField RANK_FIELD (SetTranslationMethod m (CreateDecoderNoWarn d)) in
    '(ranks, c) ← create_ranks c (numRanks b) (kids s) new_child;
    Ok (c, mkNode (b <| busAT := at_ |>) ranks)
  else Ok (c, mkNode b (kids s)).
End Operations.
End OnChip.
