(* ===== verification/BusTiming.v ===== *)
(** * Timing through the bus

    What happens on a bus is, for each rank, a run of that rank; and a command
    that was issued through the bus was carried out by the rank of its address
    and notified to every other one. So the times of the ranks hold for the whole
    channel. The buses are children a memory controller can drive. *)

From S2P Require Import Prelude NVMTypes Translation Config Params SimInterface Heap EventQueue Frame Tree.
From S2P Require Import SubArray SubArrayTiming SubArrayProtocol SubArrayChild DDR3Bank DDR3BankProtocol DDR3BankTiming DDR3BankChildren BankChild.
From S2P Require Import StandardRank StandardRankTiming StandardRankAccess RankOfBanks RankChild.
From S2P Require Import Interconnect OffChipBus OnChipBus.

(** ** A command on the bus *)

Section Bus.
Context {B C : Type} `{DecodesLaws B} `{ChildLaws C} `{NotifyLaws C}.
Variable out : six.
Implicit Types (s : Sim (Node B C)) (c : C).
#[local] Abbreviation target := (target out).

(** Child [j] of the others heard of [q], which is now in [c']. *)
Definition heard (q : ReqPtr) s (yes : bool) (c c' : C) : Prop :=
  if yes then ∃ sc, ch_Notify q (seen s c) = Ok ((), sc) ∧ obj sc = c' else c' = c.

Record notified (q : ReqPtr) (i : nat) (l : list Z) s s' : Prop := {
  no_heap : heap s' = heap s;
  no_queue : queue s' = queue s;
  no_length : length (kids (obj s')) = length (kids (obj s));
  no_kids : ∀ j c, kids (obj s) !! j = Some c →
    ∃ c', kids (obj s') !! j = Some c' ∧ heard q s (bool_decide (Z.of_nat j ∈ l ∧ j ≠ i)) c c'
}.

Lemma notify_others_spec q r i l : NoDup l → Forall (λ x, 0 ≤ x) l → ∀ s u s',
  h_reqs (heap s) !! q = Some r → target (node (obj s)) r = Some i →
  notify_others out q l s = Ok (u, s') → notified q i l s s'.
Proof.
  intros Hd Hl. induction Hl as [|x l Hx Hl IH]; intros s u s' Hq Ht Hr; cbn [notify_others] in Hr.
  - injection Hr as _ <-. split; [done..|]. intros j c Hj. exists c. split; [done|].
    rewrite bool_decide_false; [done|]. by intros [?%elem_of_nil _].
  - apply NoDup_cons in Hd as [Hn Hd].
    next Hr. destruct (child_of_target _ _ _ _ _ _ Hq E) as (Ht0 & Eh & Eq & Ek & Em). rewrite Ht in Ht0. injection Ht0 as <-.
    next Hr. pose proof (child_at_inv _ _ _ _ E0) as ->.
    assert (r0 = Z.to_nat x) as ->.
    { unfold child_at in E0. autorewrite with run in E0. case_decide; [by injection E0|done]. }
    next Hr. revert E1. destruct (decide (i = Z.to_nat x)) as [Ei|Ei]; intros E1.
    + injection E1 as _ <-. destruct (IH Hd x0 u s') as [Eh' Eq' El' Hk']; [congruence| |done|].
      { by rewrite (target_map out _ _ _ Em). }
      split; [congruence..|]. intros j c Hj. rewrite <-Ek in Hj. destruct (Hk' j c Hj) as (c' & Hc' & Hh).
      exists c'. split; [done|]. unfold heard, seen in *. rewrite Eh, Eq in Hh.
      rewrite (bool_decide_ext _ (Z.of_nat j ∈ l ∧ j ≠ i)); [done|]. rewrite elem_of_cons.
      split; [intros [[?|?] ?]; [lia|done]|tauto].
    + assert (∃ cx, kids (obj x0) !! Z.to_nat x = Some cx) as [cx Hcx].
      { unfold on_child in E1. destruct (kids (obj x0) !! _); [eauto|done]. }
      destruct (on_child_run _ _ _ _ _ _ Hcx E1) as (sc & En & ->). destruct r0.
      destruct (nl_Notify _ _ _ _ En) as [En1 En2]. cbn in En1, En2.
      destruct (IH Hd (child_acts (Z.to_nat x) x0 sc) u s') as [Eh' Eq' El' Hk'];
        [cbn; congruence| |done|].
      { unfold child_acts. cbn [obj]. fields. by rewrite (target_map out _ _ _ Em). }
      unfold child_acts in El', Hk', Eh', Eq'. cbn [obj heap queue] in *. revert El' Hk'. fields. intros El' Hk'.
      rewrite length_insert in El'. split; [congruence..|]. intros j c Hj. rewrite <-Ek in Hj.
      destruct (decide (j = Z.to_nat x)) as [->|Hne].
      * destruct (Hk' (Z.to_nat x) (obj sc)) as (c' & Hc' & Hh); [apply list_lookup_insert_eq; by eapply lookup_lt_Some|].
        exists c'. split; [done|]. rewrite Hcx in Hj. injection Hj as ->. unfold heard in *.
        rewrite bool_decide_false in Hh by (intros [Hin _]; rewrite Z2Nat.id in Hin by done; done).
        rewrite bool_decide_true by (rewrite Z2Nat.id by done; split; [by left|done]). subst c'.
        exists sc. split; [|done]. unfold seen in *. by rewrite <-Eh, <-Eq.
      * destruct (Hk' j c) as (c' & Hc' & Hh); [by rewrite list_lookup_insert_ne|]. exists c'. split; [done|].
        unfold heard, seen in *. cbn in Hh. rewrite En1, En2, Eh, Eq in Hh.
        rewrite (bool_decide_ext _ (Z.of_nat j ∈ l ∧ j ≠ i)); [done|]. rewrite elem_of_cons.
        split; [intros [[?|?] ?]; [subst x; rewrite Nat2Z.id in Hne; done|done]|tauto].
Qed.

(** A command that was issued: its rank [i] said it could be, and carried it
    out; the others were told right afterwards. *)
Record bus_issued (q : ReqPtr) r (i : nat) s s' : Prop := {
  bi_target : target (node (obj s)) r = Some i;
  bi_here : ∃ c w sa sb, kids (obj s) !! i = Some c ∧ ch_IsIssuable q (seen s c) = Ok ((true, w), sa) ∧
    ch_IssueCommand q sa = Ok (true, sb) ∧ seen s' (obj sb) = sb ∧ kids (obj s') !! i = Some (obj sb);
  bi_others : ∀ j c, j ≠ i → kids (obj s) !! j = Some c →
    ∃ sx r' sc, obj sx = c ∧ currentCycle (queue sx) = currentCycle (queue s) ∧ h_reqs (heap sx) !! q = Some r' ∧
      (type r' = type r ∧ burstCount r' = burstCount r ∧ address r' = address r) ∧
      ch_Notify q sx = Ok ((), sc) ∧ seen s' (obj sc) = sc ∧ kids (obj s') !! j = Some (obj sc)
}.

Lemma target_address b r r' : address r' = address r → target b r' = target b r.
Proof using.
  intros Ea. unfold Tree.target. f_equal. unfold TranslateRequest. by rewrite Ea.
Qed.

Lemma bus_issue_inv q r s s' :
  h_reqs (heap s) !! q = Some r → (q < h_next (heap s))%positive → bus_IssueCommand out q s = Ok (true, s') →
  ∃ i, bus_issued q r i s s'.
Proof.
  intros Hq Hlt Hr. unfold bus_IssueCommand in Hr. next Hr. destruct r0 as [ok w]. next Hr. apply lift_inv in E0 as [Ec ->].
  destruct ok; [clear Ec|done]. unfold ask_child in E. next E.
  destruct (child_of_target _ _ _ _ _ _ Hq E0) as (Ht & Eh & Eq & Ek & Em). rename r1 into i. exists i.
  assert (∃ c, kids (obj x0) !! i = Some c) as [c Hc].
  { unfold on_child in E. destruct (kids (obj x0) !! i); [eauto|done]. }
  destruct (on_child_run _ _ _ _ _ _ Hc E) as (sa & Ea & ->). destruct (cl_IsIssuable _ _ _ _ Ea) as [Ea1 Ea2].
  cbn in Ea1, Ea2. clear E. next Hr. destruct r1; [|by injection Hr].
  set (x1 := child_acts i x0 sa) in *.
  assert (heap x1 = heap s ∧ queue x1 = queue s) as [Hx1 Hx2] by (unfold x1; cbn; split; congruence).
  assert (target (node (obj x1)) r = Some i) as Ht1.
  { unfold x1, child_acts. cbn [obj]. fields. by rewrite (target_map out _ _ _ Em). }
  assert (h_reqs (heap x1) !! q = Some r) as Hq1 by by rewrite Hx1.
  unfold to_child in E. next E. destruct (child_of_target _ _ _ _ _ _ Hq1 E1) as (Ht2 & Eh2 & Eq2 & Ek2 & Em2).
  rewrite Ht1 in Ht2. injection Ht2 as <-.
  assert (kids (obj x2) !! i = Some (obj sa)) as Hc2.
  { rewrite Ek2. unfold x1, child_acts. cbn [obj]. fields. apply list_lookup_insert_eq. by eapply lookup_lt_Some. }
  destruct (on_child_run _ _ _ _ _ _ Hc2 E) as (sb & Eb & ->). clear E.
  assert (seen x2 (obj sa) = sa) as Esa.
  { destruct sa as [ha qa oa]. unfold seen. cbn in *. f_equal; congruence. }
  rewrite Esa in Eb.
  assert (∃ r', h_reqs (heap sb) !! q = Some r' ∧ type r' = type r ∧ burstCount r' = burstCount r ∧ address r' = address r) as (r' & Hr' & Hc').
  { apply (cl_keeps q) in Eb. destruct Eb as [_ Hk]; [by rewrite Ea1, Eh|]. apply Hk. by rewrite Ea1, Eh. }
  next Hr. injection Hr as <-. next E. unfold child_count in E2. autorewrite with run in E2. injection E2 as <- <-.
  apply (notify_others_spec q r' i) in E as [N1 N2 N3 N4].
  2: apply NoDup_seqZ. 2: apply Forall_forall; intros y Hy%elem_of_seqZ; lia. 2: done.
  2: { rewrite (target_address _ r) by apply Hc'. unfold child_acts. cbn [obj]. fields. by rewrite (target_map out _ _ _ Em2). }
  unfold child_acts in N1, N2, N3, N4. cbn [obj heap queue] in N1, N2, N3, N4. revert N3 N4. fields. rewrite length_insert. intros N3 N4.
  split; [done|..].
  - destruct (N4 i (obj sb)) as (ci & Hci & Hh); [apply list_lookup_insert_eq; by eapply lookup_lt_Some|].
    unfold heard in Hh. rewrite bool_decide_false in Hh by tauto. subst ci.
    exists c, w, sa, sb. split_and!; [congruence| |done| |done].
    + revert Ea. unfold seen. by rewrite Eh, Eq.
    + destruct sb. unfold seen. cbn in *. congruence.
  - intros j cj Hne Hj. assert (kids (obj x2) !! j = Some cj) as Hj2.
    { rewrite Ek2. unfold x1, child_acts. cbn [obj]. fields. rewrite list_lookup_insert_ne by done. congruence. }
    destruct (N4 j cj) as (cj' & Hcj' & Hh); [by rewrite list_lookup_insert_ne|].
    unfold heard in Hh. rewrite bool_decide_true in Hh.
    2: { split; [|done]. apply elem_of_seqZ. apply lookup_lt_Some in Hj2. cbn [obj]. fields. lia. }
    destruct Hh as (sc & En & <-). destruct (nl_Notify _ _ _ _ En) as [Ha Hb]. cbn in Ha, Hb.
    match type of En with ch_Notify _ ?sx = _ => exists sx, r', sc end. destruct Hc' as (? & ? & ?).
    destruct (cl_IssueCommand _ _ _ _ Eb) as [Et _]. split_and!; try done.
    + cbn. rewrite Et. congruence.
    + destruct sc. unfold seen. cbn in *. congruence.
Qed.
End Bus.

(** ** Runs of the bus *)

Section Runs.
Context {B C : Type} `{DecodesLaws B} `{ChildLaws C} `{NotifyOps C}.
Variable out : six.
Variable own : Sim C → Sim C → Prop.
Implicit Types (s : Sim (Node B C)).

(** A step of the bus: an operation of it, an act of a rank on its own, or
    anything elsewhere (with [RequestComplete], which changes the queue only). *)
Inductive bus_step : Sim (Node B C) → Sim (Node B C) → Prop :=
  | bus_issues s q ok s' : bus_IssueCommand out q s = Ok (ok, s') → bus_step s s'
  | bus_asks s q a s' : bus_IsIssuable out q s = Ok (a, s') → bus_step s s'
  | bus_cycles s n s' : bus_Cycle n s = Ok ((), s') → bus_step s s'
  | bus_child s i c sc : kids (obj s) !! i = Some c → own (seen s c) sc → bus_step s (child_acts i s sc)
  | bus_env s s' : obj s' = obj s → bus_step s s'.

Hypothesis own_Notify : ∀ q sc sc', ch_Notify q sc = Ok ((), sc') → own sc sc'.

Lemma run_notify i q : pres (children_run own) (on_child (B := B) i (ch_Notify q)).
Proof using own_Notify. apply run_on_child. intros sc [] sc' Hn. by eapply child_own, own_Notify. Qed.
#[local] Hint Resolve run_notify : pres.
Lemma run_notify_others q l : pres (children_run own) (notify_others (B := B) out q l).
Proof using own_Notify. induction l; cbn [notify_others]; pres_tac. Qed.
Lemma run_child_count : pres (children_run own) (child_count (B := B)).
Proof using. unfold child_count. pres_tac. Qed.
Lemma run_cycle_children n l : pres (children_run own) (cycle_children (B := B) n l).
Proof using. induction l; cbn [cycle_children]; pres_tac. Qed.
#[local] Hint Resolve run_notify_others run_child_count run_cycle_children : pres.

Lemma bus_step_children s s' : bus_step s s' → children_run own s s'.
Proof using own_Notify.
  destruct 1 as [s q ok s' Hr|s q a s' Hr|s n s' Hr|s i c sc Hc Ho|s s' Ho].
  - revert Hr. match goal with |- ?m _ = _ → _ => assert (pres (children_run own) m) as P by (unfold bus_IssueCommand; pres_tac) end. apply P.
  - revert Hr. apply run_ask_child.
  - revert Hr. match goal with |- ?m _ = _ → _ => assert (pres (children_run own) m) as P by (unfold bus_Cycle; pres_tac) end. apply P.
  - eapply run_child_acts; [done|]. by apply child_own.
  - by apply objrel_obj.
Qed.
Lemma bus_steps_children s s' : rtc bus_step s s' → children_run own s s'.
Proof using own_Notify.
  induction 1 as [s|s1 s2 s3 H12 _ IH]; [by apply objrel_obj|]. etransitivity; [|exact IH]. by eapply bus_step_children.
Qed.
End Runs.

(** ** The ranks of a bus *)

Import Rank.

Section Ranks.
Context {B D : Type} `{DecodesLaws B} `{ChildLaws D}.
Variable out out_rank : six.
Variable parent : ReqPtr → ST (Sim (Node StandardRank D)) bool.
Variable own : Sim D → Sim D → Prop.
#[local] Abbreviation K := (Child (Node StandardRank D)).

#[local] Instance rank_ops : ChildOps K := Rank_child out_rank.
#[local] Instance rank_laws : ChildLaws K := Rank_laws out_rank.
#[local] Instance rank_notify_ops : NotifyOps K := Rank_notify.
#[local] Instance rank_notify_laws : NotifyLaws K := Rank_notify_laws.

(** What the event queue makes a rank do: its banks act, requests complete. *)
Definition rank_acts (s s' : Sim K) : Prop :=
  c_this (obj s') = c_this (obj s) ∧ ∃ l, rank_step (c_this (obj s)) out_rank parent own l (inner s) (inner s').

Lemma rank_hears q s s' : ch_Notify q s = Ok ((), s') → rank_acts s s'.
Proof.
  intros Hr. apply (at_child_inv (λ _, Rank.Notify q)) in Hr as [Hr Ht]. split; [done|].
  exists None. by eapply rank_notify.
Qed.

#[local] Abbreviation steps this := (rank_steps this out_rank parent own).

Lemma child_step_rank s s' :
  child_step rank_acts s s' →
  steps (c_this (obj s)) (inner s) (inner s') ∧ c_this (obj s') = c_this (obj s).
Proof.
  intros [sc q b sc' Hr|sc q a sc' Hr|sc a sc' Hr|sc n sc' Hr|sc sc' [Ht [l Hl]]|sc sc' Eo].
  - assert (∃ r, h_reqs (heap sc) !! q = Some r) as [r Hq].
    { apply (at_child_inv (λ this, Rank.IssueCommand this out_rank q)) in Hr as [Hr _].
      unfold Rank.IssueCommand in Hr. next Hr. unfold Rank.IsIssuable in E. load E. by exists r0. }
    apply (at_child_inv (λ this, Rank.IssueCommand this out_rank q)) in Hr as [Hr Ht].
    split; [|done]. apply rtc_once. eexists. by eapply rank_issue.
  - apply (at_child_inv (λ _, Rank.IsIssuable out_rank q)) in Hr as [Hr Ht].
    split; [|done]. apply rtc_once. exists None. by eapply rank_query.
  - apply cl_Idle in Hr as ->. done.
  - apply (at_child_inv (λ _, Rank.Cycle n)) in Hr as [Hr Ht].
    split; [|done]. apply rtc_once. exists None. by eapply rank_cycle.
  - split; [|done]. apply rtc_once. by exists l.
  - split; [|by rewrite Eo]. apply rtc_once. exists None. apply rank_env. unfold inner. cbn. by rewrite Eo.
Qed.
Lemma child_steps_rank s s' :
  rtc (child_step rank_acts) s s' →
  steps (c_this (obj s)) (inner s) (inner s') ∧ c_this (obj s') = c_this (obj s).
Proof.
  induction 1 as [s|s1 s2 s3 H12 _ [IH1 IH2]]; [done|]. apply child_step_rank in H12 as [H12 E1].
  rewrite E1 in IH1, IH2. split; [by etransitivity|done].
Qed.

Lemma bus_rank_timing q1 r1 (s0 s1 s2 s3 : Sim (Node B K)) q2 r2 w i j c e :
  (∀ q, quiet (parent q)) → heap_wf (heap s0) →
  h_reqs (heap s0) !! q1 = Some r1 → bus_IssueCommand out q1 s0 = Ok (true, s1) →
  rtc (bus_step out rank_acts) s1 s2 → h_reqs (heap s2) !! q2 = Some r2 → bus_IsIssuable out q2 s2 = Ok ((true, w), s3) →
  target out (node (obj s0)) r1 = Some i → target out (node (obj s2)) r2 = Some j → kids (obj s0) !! j = Some c →
  e ∈ rank_min (bool_decide (i = j)) (same_group (node (c_obj c)) (bank_of r1) (bank_of r2)) (params (node (c_obj c)))
    (burstCount r1) (currentCycle (queue s0)) (type r1) (type r2) → e ≤ currentCycle (queue s2).
Proof.
  intros Hp Hh Hq1 Hb1 Hs Hq2 Hb2 Hi Hj Hc He.
  destruct (bus_issue_inv out q1 r1 s0 s1 Hq1 (heap_wf_lt _ _ _ Hh Hq1) Hb1) as [i' [Ht Here Others]].
  rewrite Hi in Ht. injection Ht as <-.
  destruct (ask_child_target _ _ _ _ _ _ Hq2 Hb2) as (j' & c2 & sc & Ht2 & Hc2 & Ha). rewrite Hj in Ht2. injection Ht2 as <-.
  apply (at_child_inv (λ _, Rank.IsIssuable out_rank q2)) in Ha as [Ha _].
  destruct (bus_steps_children out rank_acts rank_hears _ _ Hs) as [_ Hk].
  assert (∀ c1, kids (obj s1) !! j = Some c1 → not_before e (type r2) (bank_of r2) (node (c_obj c1)) →
    e ≤ currentCycle (queue s2)) as Hlater.
  { intros c1 Hc1 Hn. destruct (Hk j c1 Hc1) as (c2' & Hc2' & Hrun). rewrite Hc2 in Hc2'. injection Hc2' as <-.
    apply child_steps_rank in Hrun as [Hrun _].
    exact (rank_kept_later _ _ _ _ (inner (seen s1 c1)) (inner (seen s2 c2)) q2 r2 w _ e Hp Hrun Hq2 Ha Hn). }
  case_bool_decide as Eij.
  - subst j. destruct Here as (c0 & w0 & sa & sb & Hc0 & Hask & Hissue & _ & Hc1). rewrite Hc in Hc0. injection Hc0 as <-.
    apply (Hlater _ Hc1). apply (at_child_inv (λ _, Rank.IsIssuable out_rank q1)) in Hask as [Hask _].
    apply (at_child_inv (λ this, Rank.IssueCommand this out_rank q1)) in Hissue as [Hissue _].
    apply rank_asks_IsIssuable in Hask as (Eh & Eq & Ec). cbn in Eh, Eq.
    change (same_core (node (c_obj c)) (node (c_obj (obj sa)))) in Ec.
    assert (ahead (node (c_obj c)) (node (c_obj (obj sb)))) as Ha1.
    { transitivity (node (obj (inner sa))); [by apply rank_core_ahead|]. exact (rank_ahead_IssueCommand _ _ _ _ _ _ Hissue). }
    rewrite <- (same_group_ahead _ _ _ _ Ha1), <- (rank_core_eq params _ _ ltac:(done) Ec) in He.
    rewrite <- Eq in He. rewrite <- Eh in Hq1.
    pose proof (IssueCommand_bounded (c_this (obj sa)) out_rank parent q1 (inner sa) (inner sb) r1 (bank_of r2) (type r2) Hq1) as Hb.
    unfold bounded in Hb. rewrite Forall_forall in Hb. eapply Hb; [|exact Hissue|exact He].
    cbn. rewrite Eh in Hq1 |- *. exact (heap_wf_lt _ _ _ Hh Hq1).
  - destruct (Others j c) as (sx & r' & sc1 & <- & Eq & Hr' & (Ety & Ebu & _) & Hn & _ & Hc1); [congruence|done|].
    apply (Hlater _ Hc1). apply (at_child_inv (λ _, Rank.Notify q1)) in Hn as [Hn _]. rewrite <- Ety, <- Ebu, <- Eq in He.
    pose proof (Notify_bounded q1 (inner sx) (inner sc1) r' (bank_of r2) (type r2)
      (same_group (node (c_obj (obj sx))) (bank_of r1) (bank_of r2)) (burstCount r') Hr' Hn) as Hb.
    unfold bounded in Hb. rewrite Forall_forall in Hb. by apply Hb.
Qed.
End Ranks.

(** Timing through the bus: after a command was issued over the bus, and after
    any further steps of the bus and its ranks, a second command is issuable
    only when the times of its rank have passed: those within a rank when both
    go to the same one, those between ranks when they go to different ones,
    because the bus tells every other rank. *)
Theorem bus_timing {B D} `{DecodesLaws B} `{ChildLaws D} out out_rank parent own
    q1 r1 (s0 s1 s2 s3 : Sim (Node B (Child (Node StandardRank D)))) q2 r2 w i j c e :
  (∀ q, quiet (parent q)) → heap_wf (heap s0) →
  h_reqs (heap s0) !! q1 = Some r1 →
  bus_IssueCommand (H := Rank_child out_rank) (H0 := Rank_notify) out q1 s0 = Ok (true, s1) →
  rtc (bus_step (H1 := Rank_child out_rank) (H3 := Rank_notify) out (rank_acts out_rank parent own)) s1 s2 →
  h_reqs (heap s2) !! q2 = Some r2 → bus_IsIssuable (H := Rank_child out_rank) out q2 s2 = Ok ((true, w), s3) →
  target out (node (obj s0)) r1 = Some i → target out (node (obj s2)) r2 = Some j → kids (obj s0) !! j = Some c →
  e ∈ rank_min (bool_decide (i = j)) (same_group (node (c_obj c)) (bank_of r1) (bank_of r2)) (params (node (c_obj c)))
    (burstCount r1) (currentCycle (queue s0)) (type r1) (type r2) → e ≤ currentCycle (queue s2).
Proof. apply bus_rank_timing. Qed.

(** ** A bus with two ranks *)

(** [heap_wf], checked on the entries of a given heap. *)
Definition heap_wf_check (h : Heap) : bool :=
  forallb (λ x, Pos.ltb x.1 (h_next h)) (map_to_list (h_reqs h)) &&
  forallb (λ x, Pos.ltb x.1 (h_next h)) (map_to_list (h_events h)).
Lemma map_keys_below {A} (m : gmap positive A) (n p : positive) :
  forallb (λ x, Pos.ltb x.1 n) (map_to_list m) = true → (n ≤ p)%positive → m !! p = None.
Proof.
  intros Hf Hp. destruct (m !! p) as [a|] eqn:E; [|done]. apply elem_of_map_to_list in E.
  rewrite forallb_forall in Hf. apply list_elem_of_In in E. apply Hf, Pos.ltb_lt in E. cbn in E. lia.
Qed.
Lemma heap_wf_checked h : heap_wf_check h = true → heap_wf h.
Proof. intros [H1 H2]%andb_prop p Hp. split; by eapply map_keys_below. Qed.

Module BusBench.
Definition K : Type := Child (Node StandardRank RankBench.B).
#[global] Instance ops : ChildOps K := Rank_child BankBench.out0.
#[global] Instance notify : NotifyOps K := Rank_notify.
Definition bus0 : OffChip.OffChipBus :=
  OffChip.OffChipBus_new RankBench.p0 (AddressTranslator_new <| defaultField := RANK_FIELD |>) 0.
Definition on_rank (k : Z) (t : OpType) : NVMainRequest :=
  (RankBench.request t 0 0 7) <| address ::= λ a, a <| NVMTypes.rank := k |> |>.
Definition reqs : gmap positive NVMainRequest := {[
  10%positive := on_rank 0 ACTIVATE; 11%positive := on_rank 1 ACTIVATE;
  12%positive := on_rank 0 READ; 13%positive := on_rank 1 READ ]}.
Definition start : Sim (Node OffChip.OffChipBus K) := mkSim (mkHeap RankBench.tree reqs ∅ 30 None) (EventQueue_new dzero)
  (mkNode bus0 [mkChild 8%positive RankBench.rank0; mkChild 8%positive RankBench.rank0]).
Definition run (n : Z) (q : ReqPtr) (s : Sim (Node OffChip.OffChipBus K)) : Sim (Node OffChip.OffChipBus K) :=
  match bus_IssueCommand BankBench.out0 q (s <| queue ::= λ q, q <| currentCycle := n |> |>) with Ok (_, s) => s | Err _ => s end.
Definition at_time (n : Z) (s : Sim (Node OffChip.OffChipBus K)) : Sim (Node OffChip.OffChipBus K) :=
  s <| queue ::= λ q, q <| currentCycle := n |> |>.
Lemma bus_at_time_obj n s : obj (at_time n s) = obj s.
Proof. reflexivity. Qed.
(** Both rows are open at cycle 60. *)
Definition opened : Sim (Node OffChip.OffChipBus K) := at_time 60 (run 30 11 (run 20 10 start)).
End BusBench.

(** Two reads of different ranks: the burst and the turn-around of the bus. *)
Lemma bus_timing_witness : 60 ⊕ 5 ≤ 70.
Proof.
  refine (bus_timing BankBench.out0 BankBench.out0 (λ _, mret true) (λ _ _, False) 12 (BusBench.on_rank 0 READ)
    BusBench.opened (BusBench.run 60 12 BusBench.opened) (BusBench.at_time 70 (BusBench.run 60 12 BusBench.opened))
    (BusBench.at_time 70 (BusBench.run 60 12 BusBench.opened)) 13 (BusBench.on_rank 1 READ) None 0 1
    (default (mkChild 1%positive RankBench.rank0) (kids (obj BusBench.opened) !! 1%nat)) _ _ _ _ _ _ _ _ _ _ _ _).
  - intros q. apply quiet_ret.
  - apply heap_wf_checked. vm_compute. reflexivity.
  - vm_compute. reflexivity.
  - vm_compute. reflexivity.
  - apply rtc_once. apply bus_env. apply BusBench.bus_at_time_obj.
  - vm_compute. reflexivity.
  - vm_compute. reflexivity.
  - vm_compute. reflexivity.
  - vm_compute. reflexivity.
  - vm_compute. reflexivity.
  - vm_compute. left.
Defined.
