(* ===== verification/TimedRank.v ===== *)
(** * The rank keeps times

    The promise of [Timed] for the rank, when its banks keep it: from the times of
    the rank, and from the bank a command goes to. A rank also refuses commands
    because of what it hears about the other ranks ([HearsOps]). *)

From S2P Require Import Prelude NVMTypes Translation Config Params SimInterface Heap EventQueue Frame SubArray.
From S2P Require Import SubArrayTiming Tree Timed StandardRank StandardRankTiming StandardRankAccess RankOfBanks RankChild BusTiming.
Import Rank.

(** What a part demands after it heard of a command of a sibling. *)
Class HearsOps (C : Type) := { tm_hears : C → NVMainRequest → Z → NVMainRequest → list Z }.
Class HearsLaws (C : Type) `{NotifyOps C, TimedOps C, HearsOps C} := {
  hl_moves : ∀ q, pres moves (ch_Notify q);
  hl_refuses : ∀ q r s s' r2 e, h_reqs (heap s) !! q = Some r → ch_Notify q s = Ok ((), s') →
    e ∈ tm_hears (obj s') r (currentCycle (queue s)) r2 → tm_refuses e r2 (obj s');
  hl_same : ∀ c r r' n r2, type r' = type r → burstCount r' = burstCount r → tm_hears c r' n r2 = tm_hears c r n r2
}.

Section Rank.
Context {C : Type} `{ChildLaws C} `{TimedOps C, !TimedLaws C} `{ReadyOps C, !ReadyLaws C}.
Variable out : six.
Variable parent : ReqPtr → ST (Sim (Node StandardRank C)) bool.
#[local] Abbreviation K := (Child (Node StandardRank C)).
#[local] Instance rk_ops : ChildOps K := Rank_child out.
#[local] Instance rk_laws : ChildLaws K := Rank_laws out.
#[local] Instance rk_notify : NotifyOps K := Rank_notify.
Implicit Types (c : K) (s : Sim (Node StandardRank C)).

(** The commands the rank forwards to the bank of their address. *)
Definition forwards (t : OpType) : bool :=
  match t with
  | ACTIVATE | READ | READ_PRECHARGE | WRITE | WRITE_PRECHARGE | PRECHARGE | PRECHARGE_ALL => true
  | _ => false
  end.

Definition Rank_timed : TimedOps K := {|
  tm_later c c' := ahead (node (c_obj c)) (node (c_obj c')) ∧ same_map (node (c_obj c)) (node (c_obj c')) ∧
    kids_later (c_obj c) (c_obj c');
  tm_refuses e r c := not_before e (type r) (bank_of r) (node (c_obj c)) ∨
    forwards (type r) = true ∧ below_refuses out e r (c_obj c);
  tm_demands c r1 n r2 := let b := node (c_obj c) in
    rank_min true (same_group b (bank_of r1) (bank_of r2)) (params b) (burstCount r1) n (type r1) (type r2) ++
    (if forwards (type r1) && forwards (type r2) then below_demands out (c_obj c) r1 n r2 else []);
  tm_acts := rank_acts out parent tm_acts
|}.
(** A notification makes all groups wait alike. *)
Definition Rank_hears : HearsOps K := {|
  tm_hears c r1 n r2 := rank_min false false (params (node (c_obj c))) (burstCount r1) n (type r1) (type r2)
|}.
#[local] Instance rk_timed : TimedOps K := Rank_timed.
#[local] Instance rk_hears : HearsOps K := Rank_hears.

(** ** Updates leave the decoder and the banks *)

(** The decoder is the same, and so are the banks. *)
Definition same_place s s' : Prop := kids (obj s') = kids (obj s) ∧ same_map (node (obj s)) (node (obj s')).
#[local] Instance same_place_rel : ObjRel same_place.
Proof using.
  unfold same_place. split; [intros s1 s2 s3 [E1 M1] [E2 M2]; split; [congruence|by etransitivity]|].
  intros s s' ->. split; reflexivity.
Qed.
Lemma place_set_me f : (∀ b, rankAT (f b) = rankAT b) → pres same_place (set_me (C := C) f).
Proof using. intros Hf s a s' [= _ <-]. unfold same_place, same_map. fields. cbn. by rewrite Hf. Qed.
Lemma place_set_me_res f : (∀ b b', f b = Ok b' → rankAT b' = rankAT b) → pres same_place (set_me_res (C := C) f).
Proof using.
  intros Hf s a s' Hr. unfold set_me_res, me, set_me in Hr. autorewrite with run in Hr. next Hr.
  apply lift_inv in E as [E ->]. injection Hr as _ <-. unfold same_place, same_map. fields. cbn. by rewrite (Hf _ _ E).
Qed.

Lemma foldM_at {A} (f : StandardRank → A → res StandardRank) l :
  (∀ b x b', f b x = Ok b' → rankAT b' = rankAT b) → ∀ b b', foldM f b l = Ok b' → rankAT b' = rankAT b.
Proof using.
  intros Hf. induction l as [|x l IH]; intros b b' E; cbn [foldM] in E; [by injection E as <-|].
  rnext E. apply IH in E. apply Hf in E0. congruence.
Qed.
Lemma bump_groups_at v l b b' : bump_groups v l b = Ok b' → rankAT b' = rankAT b.
Proof using. apply foldM_at. intros b0 x b1 Hr. do 2 rnext Hr. injection Hr as <-. by fields. Qed.
Lemma bump_all_at nr nw b b' : bump_all nr nw b = Ok b' → rankAT b' = rankAT b.
Proof using.
  unfold bump_all. intros Hr. rnext Hr. injection Hr as <-. fields. eapply foldM_at; [|exact E].
  intros b0 x b1 Hr. do 2 rnext Hr. injection Hr as <-. by fields.
Qed.
Lemma wait_stats_at k n b b' : wait_stats k n b = Ok b' → rankAT b' = rankAT b.
Proof using. unfold wait_stats. intros Hr. do 5 rnext Hr. cbv zeta in Hr. injection Hr as <-. repeat case_match; by fields. Qed.
Lemma push_raw_at n b b' : push_raw n b = Ok b' → rankAT b' = rankAT b.
Proof using. unfold push_raw. intros Hr. do 2 rnext Hr. injection Hr as <-. by fields. Qed.

Lemma map_set_me_res f : (∀ b b', f b = Ok b' → rankAT b' = rankAT b) → pres (on_node same_map) (set_me_res (C := C) f).
Proof using. intros Hf s a s' Hr. by apply (place_set_me_res f Hf) in Hr as [_ Hm]. Qed.

Ltac map_res := apply map_set_me_res; intros ? ? Hr;
  first [ by apply push_raw_at in Hr | by apply bump_groups_at in Hr | by apply bump_all_at in Hr | by apply wait_stats_at in Hr
        | cbv zeta in Hr; repeat rnext Hr; injection Hr as <-; by fields ].
Ltac map_tac := repeat first [map_res | node_step]; unfold same_map; intros; cbv zeta; repeat case_match; by fields.

Lemma map_all_issuable q l : pres (on_node (C := C) same_map) (all_issuable q l).
Proof using. induction l; cbn [all_issuable]; map_tac. Qed.
Lemma map_count_issuable q l : ∀ k, pres (on_node (C := C) same_map) (count_issuable q l k).
Proof using. induction l; intros k; cbn [count_issuable]; map_tac. Qed.
Lemma map_ask_group q l : ∀ ans, pres (on_node (C := C) same_map) (ask_group q l ans).
Proof using. induction l; intros ans; cbn [ask_group]; map_tac. Qed.
Lemma map_idle_loop l : pres (on_node (C := C) same_map) (idle_loop l).
Proof using. induction l; cbn [idle_loop]; map_tac. Qed.
Lemma map_issue_all q l : pres (on_node (C := C) same_map) (issue_all q l).
Proof using. induction l; cbn [issue_all]; map_tac. Qed.
Lemma map_refresh_banks q l : pres (on_node (C := C) same_map) (refresh_banks q l).
Proof using. induction l; cbn [refresh_banks]; map_tac. Qed.
Lemma map_cycle_all n l : pres (on_node (C := C) same_map) (cycle_all n l).
Proof using. induction l; cbn [cycle_all]; map_tac. Qed.
#[local] Hint Resolve map_all_issuable map_count_issuable map_ask_group map_idle_loop map_issue_all map_refresh_banks
  map_cycle_all : pres.
Lemma rank_map_IsIssuable q : pres (on_node (C := C) same_map) (IsIssuable out q).
Proof using. unfold IsIssuable, CanPowerDown, CanPowerUp, children, ask_after, ask_child. map_tac. Qed.
#[local] Hint Resolve rank_map_IsIssuable : pres.
Lemma map_access_times k a1 a2 a3 a4 : pres (on_node (C := C) same_map) (access_times k a1 a2 a3 a4).
Proof using. unfold access_times. map_res. Qed.
#[local] Hint Resolve map_access_times : pres.
Lemma rank_map_IssueCommand this q : pres (on_node (C := C) same_map) (IssueCommand this out q).
Proof using.
  unfold IssueCommand, Activate, Read, Write, Precharge, Refresh, PowerDown, PowerUp, Idle, children, close_event,
    insert_response, to_child. map_tac.
Qed.
Lemma map_NextIssuable q : pres (on_node (C := C) same_map) (NextIssuable out q).
Proof using. unfold NextIssuable. map_tac. Qed.
Lemma map_Notify q : pres (on_node (C := C) same_map) (Notify q).
Proof using. unfold Notify. map_tac. Qed.
Lemma map_RequestComplete this q : (∀ q, quiet (parent q)) → pres (on_node (C := C) same_map) (RequestComplete this parent q).
Proof using. intros Hp. unfold RequestComplete, Idle. map_tac. Qed.
Lemma rank_map_Cycle n : pres (on_node (C := C) same_map) (Cycle n).
Proof using. unfold Cycle, children. map_tac. Qed.

(** ** The rank only moves forward *)

Lemma rank_moves {A} (m : ObjPtr → ST (Sim (Node StandardRank C)) A) :
  (∀ this, pres (on_node ahead) (m this)) → (∀ this, pres (on_node same_map) (m this)) →
  (∀ this, pres below_later (m this)) → pres (moves (C := K)) (at_child m).
Proof.
  intros Ha Hm Hk s a s' [Hr _]%at_child_inv. split_and!; [exact (Ha _ _ _ _ Hr)|exact (Hm _ _ _ _ Hr)|exact (Hk _ _ _ _ Hr)].
Qed.
Lemma rank_below_runs {A} (m : ST (Sim (Node StandardRank C)) A) : pres (children_run tm_acts) m → pres below_later m.
Proof. intros Hm s a s' Hr%Hm. by apply run_below_later. Qed.

Lemma rank_step_map this own l s s' :
  (∀ q, quiet (parent q)) → rank_step this out parent own l s s' → on_node same_map s s'.
Proof.
  intros Hp. destruct 1 as [s q r ok s' Hq Hr|s q a s' Hr|s q s' Hr|s q ok s' Hr|s n s' Hr|s i c sc Hc Ho|s s' Ho].
  - by eapply rank_map_IssueCommand.
  - by eapply rank_map_IsIssuable.
  - by eapply map_Notify.
  - by eapply map_RequestComplete.
  - by eapply rank_map_Cycle.
  - unfold on_node, child_acts. cbn [obj]. by fields.
  - unfold on_node. by rewrite Ho.
Qed.
(** A step of the rank itself. *)
Lemma rank_step_later this l s s' : (∀ q, quiet (parent q)) → rank_step this out parent tm_acts l s s' →
  on_node ahead s s' ∧ on_node same_map s s' ∧ below_later s s'.
Proof.
  intros Hp Hs. split_and!; [by eapply rank_step_ahead|by eapply rank_step_map|].
  eapply run_below_later. by eapply rank_step_children.
Qed.
Lemma rank_moves_NextIssuable q : pres (moves (C := K)) (at_child (λ _, NextIssuable out q)).
Proof.
  apply rank_moves; intros _.
  - intros s z s' Hr. apply rank_core_ahead. revert Hr. match goal with |- ?m _ = _ → _ => assert (asks same_core m) as P end.
    { unfold NextIssuable. asks_tac. all: by apply asks_set_me. }
    by intros (_ & _ & E)%P.
  - apply map_NextIssuable.
  - unfold NextIssuable. pres_tac. apply below_on_child, tl_NextIssuable.
Qed.

(** ** Commands that go to a bank *)

Lemma rank_asks q r s w s' :
  h_reqs (heap s) !! q = Some r → forwards (type r) = true → IsIssuable out q s = Ok ((true, w), s') →
  ask_child out q s = Ok ((true, w), s').
Proof.
  intros Hq Hf Hr. unfold IsIssuable in Hr. load Hr. rewrite Hq in E. injection E as <-.
  unfold me, now in Hr. autorewrite with run in Hr. cbv zeta in Hr.
  destruct (type r); try discriminate Hf;
    try (next Hr; apply lift_inv in E as [_ ->]); try (unfold ask_after in Hr; by destruct (_ >? _)).
  next Hr. destruct r1 as [rv why]. destruct rv.
  - autorewrite with run in Hr. injection Hr as <- <-. destruct r0; [done|exact E].
  - next Hr. done.
Qed.

(** A bank got the command, and the rest of the rank's work left the banks. *)
Definition rank_forwarded q s s' : Prop := ∃ sy ok,
  to_child out q s = Ok (ok, sy) ∧ same_place sy s' ∧ (ok = true ∨ below_ready out q s).

Ltac place := first [apply place_set_me; intros; repeat case_match; by fields | apply place_set_me_res; let Hz := fresh in intros ? ? Hz;
  first [ by apply push_raw_at in Hz | cbv zeta in Hz; repeat rnext Hz; injection Hz as <-; by fields ]].
Ltac place_tac := repeat first [solve [eauto with pres nocore] | place | apply quiet_pres; [apply _|]; solve [quiet_tac] | apply pres_bind; [apply _| |intros ?] | head_step].
Ltac rest_place H := match type of H with ?m ?x = Ok (_, ?y) =>
  let P := fresh in assert (pres same_place m) as P by place_tac; exact (P _ _ _ H) end.

Lemma place_access_times k a1 a2 a3 a4 : pres same_place (access_times (C := C) k a1 a2 a3 a4).
Proof using. unfold access_times. place. Qed.
Lemma place_close_event this w : pres same_place (close_event (C := C) this w).
Proof using. unfold close_event, insert_response. place_tac. Qed.
Lemma place_Idle : pres same_place (Idle (C := C)).
Proof. unfold Idle, me. intros s a s' Hr. autorewrite with run in Hr. apply rank_idle_loop_inv in Hr as ->. by split. Qed.
#[local] Hint Resolve place_access_times place_close_event place_Idle : pres.

Lemma access_forwarded this q r s s' :
  h_reqs (heap s) !! q = Some r → Read this out q s = Ok (true, s') ∨ Write this out q s = Ok (true, s') → rank_forwarded q s s'.
Proof.
  intros Hq [Hr|Hr]; [unfold Read, me, now in Hr|unfold Write, me, now in Hr]; load Hr; rewrite Hq in E; injection E as <-;
    autorewrite with run in Hr; cbv zeta in Hr; (destruct (_ >=? _); [done|]); next Hr; apply lift_inv in E as [_ ->];
    (destruct (_ >? _); [done|]); next Hr; eexists x, _; (split; [exact E|]);
    (split; [clear E; rest_place Hr|left; load Hr; next Hr; next Hr; by injection Hr]).
Qed.
Lemma Precharge_forwarded q r s s' :
  h_reqs (heap s) !! q = Some r → Precharge out q s = Ok (true, s') → rank_forwarded q s s'.
Proof.
  intros Hq Hr. unfold Precharge, me, now in Hr. load Hr. autorewrite with run in Hr. destruct (_ >=? _); [done|].
  next Hr. eexists x, _. split; [exact E0|]. split; [clear E0; rest_place Hr|]. left. do 3 next Hr. by injection Hr.
Qed.
Lemma operation_rank_forwarded this q r s s' :
  h_reqs (heap s) !! q = Some r → forwards (type r) = true → (type r = ACTIVATE → below_ready out q s) →
  rank_gate (node (obj s)) (currentCycle (queue s)) r → operation this out (type r) q s = Ok (true, s') →
  rank_forwarded q s s'.
Proof.
  intros Hq Hf Hd Hg Hr. destruct (type r) eqn:Et; try discriminate Hf; cbn [operation] in Hr;
    try (by eapply access_forwarded; eauto); try (by eapply Precharge_forwarded).
  unfold Activate, me, now in Hr. load Hr. rewrite Hq in E. injection E as <-.
  autorewrite with run in Hr. cbv zeta in Hr. destruct (_ >=? _); [done|].
  unfold rank_gate in Hg. rewrite Et in Hg. rewrite Hg in Hr. autorewrite with run in Hr. next Hr.
  eexists x, _. split; [exact E|]. split; [clear E; rest_place Hr|right; by apply Hd].
Qed.

Lemma rank_issue_below this q r s s' r2 e :
  heap_wf (heap s) → h_reqs (heap s) !! q = Some r → forwards (type r) = true →
  IssueCommand this out q s = Ok (true, s') →
  e ∈ below_demands out (obj s') r (currentCycle (queue s)) r2 → below_refuses out e r2 (obj s').
Proof.
  intros Hh Hq Hf Hr He. unfold IssueCommand in Hr. next Hr. destruct r0 as [ok w].
  destruct ok; cbn [negb] in Hr; [|done].
  destruct (rank_asks_IsIssuable _ _ _ _ _ E) as (Eh & Eq & Ec).
  pose proof (rank_IsIssuable_gate _ _ _ _ _ E) as (r' & Hq' & Hg). rewrite Hq in Hq'. injection Hq' as <-.
  apply (core_gate _ _ _ _ Ec) in Hg. rewrite <- Eq in Hg, He.
  pose proof (rank_asks _ _ _ _ _ Hq Hf E) as Ha. rewrite <- Eh in Hh. pose proof Hq as Hqx. rewrite <- Eh in Hqx.
  load Hr. rewrite Hqx in E0. injection E0 as <-.
  assert (rank_forwarded q x s') as (sy & ok & Hc & [Ek Em] & Hok).
  { eapply (operation_rank_forwarded this); [exact Hqx|exact Hf| |exact Hg|by destruct (type r)].
    intros Ht. exact (below_ask out q r s w x Hq Ht Ha). }
  eapply (below_issue out q r x sy ok); [done|done|exact Hc|exact Ek|exact Em| |exact He].
  destruct Hok as [->|Hd]; [by left|]. by eapply below_ready_issue.
Qed.

Lemma Rank_timed_laws : (∀ q, quiet (parent q)) → TimedLaws K.
Proof.
  intros Hp. split.
  - split.
    + intros c. split_and!; reflexivity.
    + intros c1 c2 c3 (A1 & A2 & A3) (B1 & B2 & B3). split_and!; by etransitivity.
  - intros e r c c' (Ha & Hm & Hk) [Hn|[Hs Hb]]; [left|right]; [by eapply rank_not_before_ahead|].
    split; [done|]. by eapply below_refuses_later.
  - intros q. apply rank_moves; intros _;
      [apply rank_ahead_IsIssuable|apply rank_map_IsIssuable|apply rank_below_runs, rank_run_IsIssuable].
  - intros q. apply rank_moves; intros this;
      [apply rank_ahead_IssueCommand|apply rank_map_IssueCommand|apply rank_below_runs, rank_run_IssueCommand].
  - apply rank_moves_NextIssuable.
  - intros n. apply rank_moves; intros _; intros s [] s' Hr;
      (destruct (rank_step_later 1%positive None s s' Hp) as (? & ? & ?); [by eapply rank_cycle|done]).
  - intros s s' [_ [l Hs]]. exact (rank_step_later _ _ _ _ Hp Hs).
  - intros q r s w s' e Hq Hr [Hn|[Hf (i & c & Ht & Hc & Hb)]]; apply (at_child_inv (λ _, IsIssuable out q)) in Hr as [Hr _].
    + apply rank_IsIssuable_gate in Hr as (r' & Hq' & Hg). cbn in Hq'. rewrite Hq in Hq'. injection Hq' as <-.
      exact (rank_not_before_gate _ _ _ _ _ _ eq_refl eq_refl Hn Hg).
    + apply (rank_asks q r (inner s)) in Hr; [|done..].
      destruct (ask_child_target out q (inner s) _ _ _ Hq Hr) as (j & c' & sc & Ht' & Hc' & Ha).
      cbn in Ht', Hc'. rewrite Ht in Ht'. injection Ht' as <-. rewrite Hc in Hc'. injection Hc' as <-.
      exact (tl_gate q r (seen (inner s) c) w sc e Hq Ha Hb).
  - intros q r s s' r2 e Hh Hq Hr He. apply (at_child_inv (λ this, IssueCommand this out q)) in Hr as [Hr _].
    cbn [tm_demands rk_timed Rank_timed] in He. apply elem_of_app in He as [He|He]; [left|right].
    + pose proof (rank_ahead_IssueCommand _ _ _ _ _ _ Hr) as (Ep & _). cbn in Ep. rewrite Ep in He.
      pose proof (IssueCommand_bounded (c_this (obj s)) out parent q (inner s) (inner s') r (bank_of r2) (type r2) Hq
        (heap_wf_lt _ _ _ Hh Hq) Hr) as Hb. unfold bounded in Hb. rewrite Forall_forall in Hb. by apply Hb.
    + case_match eqn:Eg; [|by apply elem_of_nil in He]. apply andb_prop in Eg as [Hs1 Hs2]. split; [done|].
      exact (rank_issue_below _ _ _ (inner s) _ _ _ Hh Hq Hs1 Hr He).
Qed.

Lemma Rank_hears_laws : HearsLaws K.
Proof.
  split.
  - intros q. apply rank_moves; intros _; [apply ahead_Notify|apply map_Notify|].
    apply rank_below_runs. unfold Notify. pres_tac.
  - intros q r s s' r2 e Hq Hr He. apply (at_child_inv (λ _, Notify q)) in Hr as [Hr _]. left.
    pose proof (ahead_Notify _ _ _ _ Hr) as (Ep & _). cbn in Ep. cbn [tm_hears rk_hears Rank_hears] in He. rewrite Ep in He.
    pose proof (Notify_bounded q (inner s) (inner s') r (bank_of r2) (type r2) false (burstCount r) Hq Hr) as Hb.
    unfold bounded in Hb. rewrite Forall_forall in Hb. by apply Hb.
  - intros c r r' n r2 Et Eb. cbn [tm_hears rk_hears Rank_hears]. by rewrite Et, Eb.
Qed.
End Rank.
