(* ===== verification/TimedBus.v ===== *)
(** * The bus as a memory

    The buses implement the interface the memory controllers are written against
    (with the operations they inherit from NVMObject), and keep times when their
    ranks do: a command waits for what its rank refuses, and a command that was
    carried out makes its own rank and all the others refuse. *)

From S2P Require Import Prelude NVMTypes Translation Config Params SimInterface Heap EventQueue Frame Tree Timed.
From S2P Require Import RankChild Interconnect BusTiming TimedRank.

Section Child.
Context {B C : Type} `{DecodesLaws B} `{ChildLaws C} `{NotifyLaws C}.
Variable out : six.

Definition Bus_child : ChildOps (Node B C) := {|
  ch_IsIssuable := bus_IsIssuable out;
  ch_IssueCommand := bus_IssueCommand out;
  ch_NextIssuable := bus_NextIssuable out;
  ch_Idle := bus_Idle;
  ch_Cycle := bus_Cycle
|}.

Lemma asks_on_notify i q : asks any (on_child (B := B) i (ch_Notify q)).
Proof.
  intros s a s' (c & sc & _ & E & Eh & Eq & _)%on_child_inv. apply nl_Notify in E as [E1 E2]. cbn in *.
  by split_and!; [congruence..|].
Qed.
#[local] Hint Resolve asks_on_notify : asks.
Lemma asks_notify_others q l : asks any (notify_others (B := B) out q l).
Proof. induction l; cbn [notify_others]; asks_tac. all: by apply asks_set_me. Qed.
Lemma asks_child_count : asks any (child_count (B := B) (C := C)).
Proof. unfold child_count. apply asks_bind; [apply _| |]; [by intros s a s' [= _ <-]|asks_tac]. Qed.
#[local] Hint Resolve asks_notify_others asks_child_count : asks.
Lemma bus_timeless_IssueCommand q : timeless (bus_IssueCommand (B := B) out q).
Proof.
  unfold bus_IssueCommand. apply timeless_bind; [apply timeless_asks, asks_ask_child; by try apply _|intros [ok w]].
  apply timeless_bind; [timeless_tac|intros _]. apply timeless_bind; [unfold to_child; timeless_tac|intros b].
  destruct b; apply timeless_asks; asks_tac.
Qed.
Lemma bus_keeping_IssueCommand q q' : keeping q (bus_IssueCommand (B := B) out q').
Proof.
  unfold bus_IssueCommand. apply keeping_bind; [keeping_tac|intros [ok w]].
  apply keeping_bind; [keeping_tac|intros _]. apply keeping_bind; [keeping_tac|intros b].
  destruct b; apply keeping_asks; asks_tac.
Qed.
Lemma timeless_cycle_children n l : timeless (cycle_children (B := B) (C := C) n l).
Proof. induction l; cbn [cycle_children]; timeless_tac. Qed.
Lemma asks_bus_NextIssuable q : asks any (bus_NextIssuable (B := B) out q).
Proof. unfold bus_NextIssuable. asks_tac. all: by apply asks_set_me. Qed.
End Child.

Lemma Bus_laws {B C} `{DecodesLaws B} `{ChildLaws C} `{NotifyLaws C} out : ChildLaws (H := Bus_child out) (Node B C).
Proof.
  split; cbn.
  - intros q s a s' Hr. assert (asks any (bus_IsIssuable (B := B) out q)) as P by by apply asks_ask_child; try apply _.
    by destruct (P _ _ _ Hr) as (E1 & E2 & _).
  - by intros s a s' [= _ <-].
  - intros q. apply bus_timeless_IssueCommand.
  - intros q s a s' Hr. by apply asks_bus_NextIssuable in Hr as (E1 & E2 & _).
  - intros n. unfold bus_Cycle. apply timeless_bind; [apply timeless_asks, asks_child_count|intros k].
    apply timeless_cycle_children.
  - intros q q' s b s' Hr. exact (bus_keeping_IssueCommand _ _ _ _ _ _ Hr).
Qed.

(** ** Times *)

Section Timed.
Context {B C : Type} `{DecodesLaws B} `{ChildLaws C} `{NotifyLaws C} `{TimedOps C, !TimedLaws C} `{HearsOps C, !HearsLaws C}.
Variable out : six.
#[local] Instance bus_ops : ChildOps (Node B C) := Bus_child out.
#[local] Instance bus_laws : ChildLaws (Node B C) := Bus_laws out.
Implicit Types (s : Sim (Node B C)) (n : Node B C).
#[local] Abbreviation target := (target out).

(** What the rank of [r2] demands: its own times after its own command, those of
    a notification after the command of another rank. *)
Definition bus_demands n (r1 : NVMainRequest) (k : Z) (r2 : NVMainRequest) : list Z :=
  match target (node n) r1, target (node n) r2 with
  | Some i, Some j =>
      match kids n !! j with
      | Some c => if decide (i = j) then tm_demands c r1 k r2 else tm_hears c r1 k r2
      | None => []
      end
  | _, _ => []
  end.
Definition Bus_timed : TimedOps (Node B C) := {|
  tm_later n n' := same_map (node n) (node n') ∧ kids_later n n';
  tm_refuses e r n := below_refuses out e r n;
  tm_demands := bus_demands;
  tm_acts s s' := ∃ i c sc, kids (obj s) !! i = Some c ∧ tm_acts (seen s c) sc ∧ s' = child_acts i s sc
|}.
#[local] Instance bus_timed : TimedOps (Node B C) := Bus_timed.

Lemma bus_moves {A} (m : ST (Sim (Node B C)) A) : pres (on_node same_map) m → pres below_later m → pres moves m.
Proof. intros Hm Hk s a s' Hr. split; [exact (Hm _ _ _ Hr)|exact (Hk _ _ _ Hr)]. Qed.

Ltac kid_moves := first [apply tl_IsIssuable | apply tl_IssueCommand | apply tl_NextIssuable | apply tl_Cycle | apply hl_moves].
Ltac move_tac := repeat first
  [ solve [eauto with pres nocore typeclass_instances] | apply below_on_child; kid_moves
  | lazymatch goal with |- pres ?R _ => first [apply (quiet_pres R); solve [eauto with pres nocore] | apply (pres_bind R); [|intros ?]] end
  | head_step ].
Lemma map_notify_others q l : pres (on_node (C := C) same_map) (notify_others (B := B) out q l).
Proof. induction l; cbn [notify_others]; node_tac. Qed.
Lemma map_cycle_children k l : pres (on_node (C := C) same_map) (cycle_children (B := B) k l).
Proof. induction l; cbn [cycle_children]; node_tac. Qed.
Lemma below_notify_others q l : pres below_later (notify_others (B := B) out q l).
Proof. induction l; cbn [notify_others]; move_tac. Qed.
Lemma below_cycle_children k l : pres below_later (cycle_children (B := B) (C := C) k l).
Proof. induction l; cbn [cycle_children]; move_tac. Qed.
#[local] Hint Resolve map_notify_others map_cycle_children below_notify_others below_cycle_children : pres.

Lemma bus_moves_IsIssuable q : pres moves (bus_IsIssuable (B := B) out q).
Proof. unfold bus_IsIssuable, ask_child. apply bus_moves; [node_tac|move_tac]. Qed.
Lemma bus_moves_IssueCommand q : pres moves (bus_IssueCommand (B := B) out q).
Proof. unfold bus_IssueCommand, ask_child, to_child, child_count. apply bus_moves; [node_tac|move_tac]. Qed.
Lemma bus_moves_Cycle k : pres moves (bus_Cycle (B := B) k).
Proof. unfold bus_Cycle, child_count. apply bus_moves; [node_tac|move_tac]. Qed.
Lemma bus_moves_NextIssuable q : pres moves (bus_NextIssuable (B := B) out q).
Proof. unfold bus_NextIssuable. apply bus_moves; [node_tac|move_tac]. Qed.

Lemma bus_gate q r s w s' e :
  h_reqs (heap s) !! q = Some r → ask_child out q s = Ok ((true, w), s') → below_refuses out e r (obj s) →
  e ≤ currentCycle (queue s).
Proof.
  intros Hq Hr (i & c & Ht & Hc & Hb). destruct (ask_child_target out q s _ _ _ Hq Hr) as (j & c' & sc & Ht' & Hc' & Ha).
  rewrite Ht in Ht'. injection Ht' as <-. rewrite Hc in Hc'. injection Hc' as <-. exact (tl_gate q r (seen s c) w sc e Hq Ha Hb).
Qed.

Lemma bus_issue q r s s' r2 e :
  heap_wf (heap s) → h_reqs (heap s) !! q = Some r → bus_IssueCommand out q s = Ok (true, s') →
  e ∈ bus_demands (obj s') r (currentCycle (queue s)) r2 → below_refuses out e r2 (obj s').
Proof.
  intros Hh Hq Hr He. destruct (bus_moves_IssueCommand _ _ _ _ Hr) as [Hm Hk].
  destruct (bus_issue_inv out q r s s' Hq (heap_wf_lt _ _ _ Hh Hq) Hr) as [i [Ht Here Others]].
  unfold bus_demands in He. rewrite (target_map out _ _ r Hm), Ht in He.
  destruct (target (node (obj s')) r2) as [j|] eqn:Ht2; [|by apply elem_of_nil in He].
  destruct (kids (obj s') !! j) as [c'|] eqn:Hc'; [|by apply elem_of_nil in He].
  exists j, c'. split_and!; [done..|]. case_decide as Eij.
  - subst j. destruct Here as (c & w & sa & sb & Hc & Ha & Hi & _ & Hb). rewrite Hc' in Hb. injection Hb as ->.
    apply cl_IsIssuable in Ha as [Eh Eq]. cbn in Eh, Eq. rewrite <- Eh in Hh, Hq. rewrite <- Eq in He.
    exact (tl_issue q r sa sb r2 e Hh Hq Hi He).
  - destruct (Forall2_lookup_r _ _ _ _ _ Hk Hc') as (c & Hc & _).
    destruct (Others j c ltac:(congruence) Hc) as (sx & r' & sc & <- & Eq & Hr' & (Ety & Ebu & _) & Hn & _ & Hc1).
    rewrite Hc' in Hc1. injection Hc1 as ->.
    rewrite <- (hl_same _ _ _ _ _ Ety Ebu), <- Eq in He. exact (hl_refuses q r' sx sc r2 e Hr' Hn He).
Qed.

Lemma Bus_timed_laws : TimedLaws (Node B C).
Proof.
  split.
  - split; [intros n; split; reflexivity|]. intros n1 n2 n3 [A1 A2] [B1 B2]. split; by etransitivity.
  - intros e r n n' [Hm Hk]. by apply below_refuses_later.
  - apply bus_moves_IsIssuable.
  - apply bus_moves_IssueCommand.
  - apply bus_moves_NextIssuable.
  - apply bus_moves_Cycle.
  - intros s s' (i & c & sc & Hc & Ha & ->). apply tl_acts in Ha. split.
    + unfold child_acts. cbn [obj]. by fields.
    + unfold kids_later, child_acts. cbn [obj]. fields.
      rewrite <- (list_insert_id (kids (obj s)) i c Hc) at 1. apply Forall2_insert; [|exact Ha].
      apply Forall2_same_length_lookup_2; [done|]. intros k x y Hx Hy. rewrite Hx in Hy. injection Hy as ->. reflexivity.
  - intros q r s w s' e. apply bus_gate.
  - intros q r s s' r2 e. apply bus_issue.
Qed.

(** Whatever the answer, a command that got through was issuable. *)
Lemma bus_issue_gate q r s ok s' e :
  h_reqs (heap s) !! q = Some r → bus_IssueCommand out q s = Ok (ok, s') → below_refuses out e r (obj s) →
  e ≤ currentCycle (queue s).
Proof.
  intros Hq Hr Hb. unfold bus_IssueCommand in Hr. next Hr. destruct r0 as [okk w]. next Hr.
  apply lift_inv in E0 as [Ec ->]. destruct okk; [|done]. by eapply bus_gate.
Qed.
End Timed.
