(* ===== verification/MemoryTree.v ===== *)
(** * The memory as the controller sees it

    What a memory controller asks of its memory besides commands goes down the
    tree of parts: [FindChild] follows the decoders to the subarray of a request,
    and the answer is a pointer whose write state the controller reads. *)

From S2P Require Import Prelude NVMTypes Translation Config Params SimInterface Heap EventQueue Frame SubArray Tree Timed.
From S2P Require Import DDR3Bank SubArrayChild DDR3BankProtocol DDR3BankTiming BankChild StandardRank StandardRankTiming.
From S2P Require Import StandardRankAccess RankChild Interconnect.
From S2P Require Import TimedSubArray TimedBank TimedRank TimedBus MemoryController ControllerFrame TimedController.

(** A subarray, for those who have its pointer: whether it is writing, and
    whether it is between two iterations of a write in a cycle. *)
Record ArrayState := mkArrayState { ar_this : ObjPtr; ar_writing : bool; ar_between : Z → bool }.

(** A part of the memory and the subarrays below it. *)
Class ArrayOps (C : Type) := {
  to_array : ReqPtr → ST (Sim C) (option ObjPtr);
  arrays : C → list ArrayState
}.
Class ArrayLaws (C : Type) `{TimedOps C, ArrayOps C} := {
  al_asks : ∀ q s a s', to_array q s = Ok (a, s') → heap s' = heap s ∧ queue s' = queue s;
  al_moves : ∀ q, pres moves (to_array q)
}.

#[export] Instance SubArray_arrays {E M} : ArrayOps (Child (SA.SubArray E M)) := {|
  to_array q := gets (λ s, Some (c_this (obj s)));
  arrays c := [mkArrayState (c_this c) (SA.isWriting (c_obj c)) (SA.BetweenWriteIterations (c_obj c))]
|}.

Section Parent.
Context {B C : Type} `{!Decodes B} `{ArrayOps C}.
Variable out : six.
(** One round of the loop of [_FindChild]: the child of the request. *)
(*| NVmain/src/NVMObject.cpp 439-456 NVMObject::_FindChild *)
Definition find_below (q : ReqPtr) : ST (Sim (Node B C)) (option ObjPtr) := i ← child_of out q; on_child i (to_array q).
Definition arrays_below (n : Node B C) : list ArrayState := concat (arrays <$> kids n).
Definition Bus_arrays : ArrayOps (Node B C) := {| to_array := find_below; arrays := arrays_below |}.
Definition Child_arrays : ArrayOps (Child (Node B C)) :=
  {| to_array q := at_child (λ _, find_below q); arrays c := arrays_below (c_obj c) |}.
End Parent.

(** The memory below a controller. *)
Section Memory.
Context {B C : Type} `{!Decodes B} `{ChildOps C} `{ArrayOps C}.
Variable out : six.
Definition the_array (x : ObjPtr) : ST (Sim (Node B C)) ArrayState :=
  s ← get; lift (deref NullDeref (find (λ a, bool_decide (ar_this a = x)) (arrays_below (obj s)))).
Definition Bus_memory : MemoryOps (Node B C) := {|
  find_SubArray := find_below out;
  array_IsWriting x := a ← the_array x; mret (ar_writing a);
  array_BetweenWriteIterations x := a ← the_array x; n ← now; mret (ar_between a n);
  rank_Idle q := i ← child_of out q; on_child i ch_Idle
|}.
End Memory.

(** ** These are questions *)

#[export] Instance SubArray_arrays_laws {E M} `{DataEncoderOps E, EnduranceModelOps M} parent : ArrayLaws (H := SubArray_timed parent) (Child (SA.SubArray E M)).
Proof.
  split; cbn; [by intros q s a s' [= _ <-]|]. intros q s a s' [= _ <-]. split; [done|]. intros _. unfold SubArrayTiming.ahead. lia.
Qed.

Section Laws.
Context {B C : Type} `{DecodesLaws B} `{ChildLaws C} `{TimedOps C, !TimedLaws C} `{ArrayOps C, !ArrayLaws C}.
Variable out : six.

Lemma asks_find_below (R : B → B → Prop) `{!PreOrder R} q : (∀ t b, R b (set_at t b)) → asks R (find_below (C := C) out q).
Proof.
  intros Hat. unfold find_below. apply asks_bind; [apply _|by apply asks_child_of; try apply _|intros i].
  intros s a s' (c & sc & _ & E & Eh & Eq & En)%on_child_inv. apply al_asks in E as [E1 E2]. cbn in *.
  split_and!; [congruence..|]. by rewrite En.
Qed.
Lemma node_find_below (R : B → B → Prop) `{!PreOrder R} q : (∀ t b, R b (set_at t b)) → pres (on_node R) (find_below (C := C) out q).
Proof. intros Hat s a s' Hr. by eapply (asks_find_below R) in Hr as (_ & _ & E). Qed.
Lemma map_find_below q : pres (on_node (C := C) same_map) (find_below (B := B) out q).
Proof. unfold find_below. node_tac. Qed.
Lemma below_find_below q : pres below_later (find_below (B := B) out q).
Proof. unfold find_below. apply pres_bind; [apply _|apply below_child_of|intros i]. apply below_on_child, al_moves. Qed.
End Laws.

(** For the bank, the rank and the bus. *)
#[local] Existing Instances DDR3.DDR3Bank_decodes DDR3.DDR3Bank_decodes_laws Rank.StandardRank_decodes Rank.StandardRank_decodes_laws
  DDR3BankTiming.ahead_preorder StandardRankAccess.ahead_preorder.
Lemma Bank_arrays_laws {C} `{ChildLaws C} `{TimedOps C, !TimedLaws C} `{ArrayOps C, !ArrayLaws C} out :
  ArrayLaws (H := Bank_timed out) (H0 := Child_arrays out) (Child (DDR3.Bank C)).
Proof.
  split; cbn.
  - intros q s a s' [Hr _]%(at_child_inv (λ _, find_below out q)). by apply (asks_find_below out any) in Hr as (E1 & E2 & _).
  - intros q. apply (bank_moves out (λ _, find_below out q)); intros _; [|apply map_find_below|apply below_find_below].
    apply (node_find_below out DDR3BankTiming.ahead). intros t b. apply DDR3BankTiming.core_ahead, DDR3BankProtocol.core_decoder.
Qed.
Lemma Rank_arrays_laws {C} `{ChildLaws C} `{TimedOps C, !TimedLaws C} `{ArrayOps C, !ArrayLaws C} out parent :
  ArrayLaws (H := Rank_timed out parent) (H0 := Child_arrays out) (Child (Node Rank.StandardRank C)).
Proof.
  split; cbn.
  - intros q s a s' [Hr _]%(at_child_inv (λ _, find_below out q)). by apply (asks_find_below out any) in Hr as (E1 & E2 & _).
  - intros q. apply (rank_moves out parent (λ _, find_below out q)); intros _; [|apply map_find_below|apply below_find_below].
    apply (node_find_below out StandardRankAccess.ahead). intros t b. apply StandardRankAccess.rank_core_ahead, rank_core_decoder.
Qed.

Section BusMemory.
Context {B C : Type} `{DecodesLaws B} `{ChildLaws C} `{NotifyLaws C} `{TimedOps C, !TimedLaws C} `{HearsOps C, !HearsLaws C}.
Context `{ArrayOps C, !ArrayLaws C}.
Variable out : six.
#[local] Instance bm_ops : ChildOps (Node B C) := Bus_child out.
#[local] Instance bm_timed : TimedOps (Node B C) := Bus_timed out.
#[local] Instance bm_memory : MemoryOps (Node B C) := Bus_memory out.

Lemma the_array_inv x (s : Sim (Node B C)) a s' : the_array x s = Ok (a, s') → s' = s.
Proof. unfold the_array. intros Hr. autorewrite with run in Hr. by apply lift_inv in Hr as [_ ->]. Qed.
Lemma IsWriting_inv x s a s' : array_IsWriting x s = Ok (a, s') → s' = s.
Proof. cbn. intros Hr. next Hr. apply the_array_inv in E as ->. by injection Hr. Qed.
Lemma Between_inv x s a s' : array_BetweenWriteIterations x s = Ok (a, s') → s' = s.
Proof. cbn. intros Hr. next Hr. apply the_array_inv in E as ->. autorewrite with run in Hr. by injection Hr. Qed.

Lemma Bus_memory_laws : MemoryLaws (Node B C).
Proof.
  split.
  - intros q s a s' Hr. by apply (asks_find_below out any) in Hr as (E1 & E2 & _).
  - by intros x s a s' ->%IsWriting_inv.
  - by intros x s a s' ->%Between_inv.
  - intros q s a s' Hr. assert (asks any (rank_Idle q)) as P.
    { cbn. asks_tac. all: by apply asks_set_me. }
    by apply P in Hr as (E1 & E2 & _).
Qed.
Lemma Bus_timed_memory : TimedMemory (Node B C).
Proof.
  assert (∀ s : Sim (Node B C), moves s s) as Hr by (intros s; split; reflexivity).
  split.
  - intros q r s ok s' e. apply bus_issue_gate.
  - intros q. apply (bus_moves out); [apply map_find_below|apply below_find_below].
  - by intros x s a s' ->%IsWriting_inv.
  - by intros x s a s' ->%Between_inv.
Qed.
End BusMemory.
