(* ===== verification/Channel.v ===== *)
(** * A channel

    A memory controller with the memory of the simulator: the bus, the ranks, the
    banks and the subarrays below it. Whatever transactions arrive, and whatever
    the policy of the controller, every command it sends respects the times that
    the bus, the rank, the bank and (without write pausing, writing through) the
    subarray ask for after every earlier command. *)

From S2P Require Import Prelude NVMTypes Translation Config Params SimInterface Heap EventQueue Frame SubArray Tree Timed.
From S2P Require Import SubArrayTiming SubArrayProtocol DDR3Bank SubArrayChild DDR3BankProtocol DDR3BankTiming DDR3BankChildren BankChild.
From S2P Require Import StandardRank StandardRankTiming StandardRankAccess RankOfBanks RankChild Interconnect OffChipBus BusTiming.
From S2P Require Import TimedSubArray TimedBank TimedRank TimedBus Schedulers FRFCFSControl ControllerBench.
From S2P Require Import MemoryController ControllerFrame Spy ControllerRuns TimedController MemoryTree.
Import MC.

#[local] Existing Instances DDR3.DDR3Bank_decodes DDR3.DDR3Bank_decodes_laws Rank.StandardRank_decodes Rank.StandardRank_decodes_laws.

Section Memory.
Context {E M : Type} `{DataEncoderOps E, EnduranceModelOps M, !DataEncoderLaws E} {Bus : Type} `{DecodesLaws Bus}.

Definition ArrayPart : Type := Child (SA.SubArray E M).
Definition BankPart : Type := Child (DDR3.Bank ArrayPart).
Definition RankPart : Type := Child (Node Rank.StandardRank BankPart).
Definition MemoryPart : Type := Node Bus RankPart.

(** What the parts are connected to: the endurance model's noise, who is told
    about completed requests, and what the decoders find in their result
    variables. *)
Record Wires := mkWires {
  w_norm : Z → Z → Z → Z;
  w_array_parent : ReqPtr → ST (Sim (SA.SubArray E M)) bool;
  w_rank_parent : ReqPtr → ST (Sim (Node Rank.StandardRank BankPart)) bool;
  w_bank_out : six;
  w_rank_out : six;
  w_bus_out : six
}.
Variable w : Wires.

#[local] Instance array_ops : ChildOps ArrayPart := SubArray_child (w_norm w).
#[local] Instance bank_ops : ChildOps BankPart := Bank_child (w_bank_out w).
#[local] Instance rank_ops : ChildOps RankPart := Rank_child (w_rank_out w).
#[local] Instance rank_notify : NotifyOps RankPart := Rank_notify.
Definition memory_ops : ChildOps MemoryPart := Bus_child (w_bus_out w).
#[local] Instance bank_arrays : ArrayOps BankPart := Child_arrays (w_bank_out w).
#[local] Instance rank_arrays : ArrayOps RankPart := Child_arrays (w_rank_out w).
Definition memory_asks : MemoryOps MemoryPart := Bus_memory (w_bus_out w).

(** *** The times of the parts *)

(** The specification, part by part: the cycles [r2] has to wait for after [r1] in
    cycle [n], as the 64-bit numbers the program computes.

    The subarray demands something only when it does not pause writes and writes
    through ([strict]): a paused or cancelled write puts earlier times back, and
    then nothing is demanded here. *)
Definition array_demands (c : ArrayPart) r1 (n : Z) r2 : list Z :=
  if strict c then
    match earliest (SA.params (c_obj c)) (SA.sa_decdelay (c_obj c)) (burstCount r1) n (SA.writeEnd (c_obj c))
            (type r1) (type r2) with
    | Some e => [u64 e]
    | None => []
    end
  else [].
(** What the child demands if both commands go to the same one. *)
Definition same_child {B C} `{!Decodes B} (out : six) (demands : C → NVMainRequest → Z → NVMainRequest → list Z)
    (n : Node B C) r1 k r2 : list Z :=
  match target out (node n) r1, target out (node n) r2 with
  | Some i, Some j => if decide (i = j) then match kids n !! i with Some c => demands c r1 k r2 | None => [] end else []
  | _, _ => []
  end.
Definition bank_demands (c : BankPart) r1 (n : Z) r2 : list Z :=
  option_list (bank_after (DDR3.params (node (c_obj c))) (burstCount r1) n (type r1) (type r2)) ++
  (if went_below c r1 && single (type r2) then same_child (w_bank_out w) array_demands (c_obj c) r1 n r2 else []).
Definition rank_demands (c : RankPart) r1 (n : Z) r2 : list Z :=
  let b := node (c_obj c) in
  rank_min true (same_group b (Rank.bank_of r1) (Rank.bank_of r2)) (Rank.params b) (burstCount r1) n (type r1) (type r2) ++
  (if forwards (type r1) && forwards (type r2) then same_child (w_rank_out w) bank_demands (c_obj c) r1 n r2 else []).
(** The cycles [r2] has to wait for after [r1] in cycle [n]. *)
Definition channel_demands (m : MemoryPart) r1 (n : Z) r2 : list Z :=
  match target (w_bus_out w) (node m) r1, target (w_bus_out w) (node m) r2 with
  | Some i, Some j =>
      match kids m !! j with
      | Some c =>
          if decide (i = j) then rank_demands c r1 n r2
          else rank_min false false (Rank.params (node (c_obj c))) (burstCount r1) n (type r1) (type r2)
      | None => []
      end
  | _, _ => []
  end.

#[local] Instance array_timed : TimedOps ArrayPart := SubArray_timed (w_array_parent w).
#[local] Instance bank_timed : TimedOps BankPart := Bank_timed (w_bank_out w).
#[local] Instance rank_timed : TimedOps RankPart := Rank_timed (w_rank_out w) (w_rank_parent w).
#[local] Instance rank_hears : HearsOps RankPart := Rank_hears.
Definition memory_timed : TimedOps MemoryPart := Bus_timed (w_bus_out w).
Lemma memory_demands m r1 n r2 : tm_demands (TimedOps := memory_timed) m r1 n r2 = channel_demands m r1 n r2.
Proof. reflexivity. Qed.

(** *** The memory keeps them *)

Hypothesis array_parent_quiet : ∀ q, quiet (w_array_parent w q).
Hypothesis rank_parent_quiet : ∀ q, quiet (w_rank_parent w q).
#[local] Instance array_laws : ChildLaws ArrayPart := SubArray_laws (w_norm w).
#[local] Instance array_times : TimedLaws ArrayPart := SubArray_timed_laws (w_norm w) (w_array_parent w) array_parent_quiet.
#[local] Instance array_ready : ReadyOps ArrayPart := SubArray_ready (w_norm w).
#[local] Instance array_ready_laws : ReadyLaws ArrayPart := SubArray_ready_laws (w_norm w) (w_array_parent w).
#[local] Instance bank_laws : ChildLaws BankPart := Bank_laws (w_bank_out w).
#[local] Instance bank_times : TimedLaws BankPart := Bank_timed_laws (w_bank_out w).
#[local] Instance bank_ready : ReadyOps BankPart := Bank_ready (w_bank_out w).
#[local] Instance bank_ready_laws : ReadyLaws BankPart := Bank_ready_laws (w_bank_out w).
#[local] Instance rank_laws : ChildLaws RankPart := Rank_laws (w_rank_out w).
#[local] Instance rank_times : TimedLaws RankPart := Rank_timed_laws (w_rank_out w) (w_rank_parent w) rank_parent_quiet.
#[local] Instance rank_notify_laws : NotifyLaws RankPart := Rank_notify_laws.
#[local] Instance rank_hears_laws : HearsLaws RankPart := Rank_hears_laws (w_rank_out w) (w_rank_parent w).
#[local] Instance bank_arrays_laws : ArrayLaws BankPart := Bank_arrays_laws (w_bank_out w).
#[local] Instance rank_arrays_laws : ArrayLaws RankPart := Rank_arrays_laws (w_rank_out w) (w_rank_parent w).
#[local] Instance memory_laws : ChildLaws (H := memory_ops) MemoryPart := Bus_laws (w_bus_out w).
#[local] Instance memory_asks_laws : MemoryLaws (H := memory_asks) MemoryPart := Bus_memory_laws (w_bus_out w).
Lemma memory_times : TimedLaws (H := memory_ops) (H0 := memory_timed) MemoryPart.
Proof. exact (Bus_timed_laws (w_bus_out w)). Qed.
Lemma memory_gate : TimedMemory (H := memory_ops) (H0 := memory_asks) (H1 := memory_timed) MemoryPart.
Proof. exact (Bus_timed_memory (w_bus_out w)). Qed.
End Memory.
Arguments Wires : clear implicits.

(** ** Commands on the channel *)

Section Runs.
Context {B E M Bus : Type} `{PolicyLaws B, !ControllerLaws B} `{DataEncoderOps E, EnduranceModelOps M, !DataEncoderLaws E}.
Context `{DecodesLaws Bus}.
Variable w : Wires E M.
#[local] Instance channel_ops : ChildOps MemoryPart := memory_ops (Bus := Bus) w.
#[local] Instance channel_asks : MemoryOps MemoryPart := memory_asks (Bus := Bus) w.
#[local] Instance channel_timed : TimedOps MemoryPart := memory_timed (Bus := Bus) w.

(** Runs of the controller, while the parts of the memory act on their own. *)
Definition channel_run (this : ObjPtr) (out : six) parent : Sim (Node B (Spy (MemoryPart (Bus := Bus)))) →
    Sim (Node B (Spy MemoryPart)) → Prop := rtc (controller_step this out parent memory_acts).

Lemma channel_run_spaced this out parent s0 s l :
  (∀ q, quiet (w_array_parent w q)) → (∀ q, quiet (w_rank_parent w q)) →
  (∀ q, quiet (parent q)) → (∀ q, timeless (parent q)) → heap_wf (heap s0) → log <$> kids (obj s0) = [[]] →
  channel_run this out parent s0 s → log <$> kids (obj s) = [l] → spaced l.
Proof.
  intros Ha Hr. pose proof (memory_laws (Bus := Bus) w) as L1. pose proof (memory_asks_laws (Bus := Bus) w Ha) as L2.
  pose proof (memory_times (Bus := Bus) w Ha Hr) as L3. pose proof (memory_gate (Bus := Bus) w Ha Hr) as L4.
  exact (channel_spaced this out parent s0 s l).
Qed.
End Runs.

(** C1. Timing of a channel: in any run of a memory controller, whatever its
    policy and whatever transactions arrive, over the bus, ranks, banks and
    subarrays of a channel, every command it sends comes no earlier than every
    earlier command that was carried out demands ([channel_demands]): the times of
    the bank that both go to, of the rank they share (within and across bank
    groups), of the bus between different ranks, and, when the subarray both go to
    does not pause writes and writes through, of that subarray. With write pausing
    or another write mode the subarray's times are not part of the claim: pausing
    or cancelling a write restores earlier ones. Times are 64-bit cycles. *)
Theorem channel_timing {B E M Bus} `{PolicyLaws B, !ControllerLaws B} `{DataEncoderOps E, EnduranceModelOps M, !DataEncoderLaws E}
    `{DecodesLaws Bus} (w : Wires E M) this out parent (s0 s : Sim (Node B (Spy (MemoryPart (Bus := Bus))))) l i j x y r1 r2 e :
  (∀ q, quiet (w_array_parent w q)) → (∀ q, quiet (w_rank_parent w q)) →
  (∀ q, quiet (parent q)) → (∀ q, timeless (parent q)) → heap_wf (heap s0) → log <$> kids (obj s0) = [[]] →
  channel_run w this out parent s0 s → log <$> kids (obj s) = [l] →
  (i < j)%nat → l !! j = Some x → l !! i = Some y → sent_ok x = true → sent_req x = Some r1 → sent_req y = Some r2 →
  e ∈ channel_demands w (sent_left x) r1 (sent_at x) r2 → e ≤ sent_at y.
Proof.
  intros Ha Hr Hq Ht Hh Hl Hs El Hij Hx Hy Ho H1' H2' He.
  exact (channel_run_spaced w this out parent s0 s l Ha Hr Hq Ht Hh Hl Hs El i j x y r1 r2 e Hij Hx Hy Ho H1' H2' He).
Qed.

(** ** A channel for the examples

    Two ranks of two banks of two subarrays on an off-chip bus, and an FRFCFS
    controller. *)

Module ChannelBench.
Definition w0 : Wires BaseEncoder NullModel := mkWires Bench.norm Bench.parent (λ _, mret true) BankBench.out0 BankBench.out0 BankBench.out0.
Definition Mem : Type := MemoryPart (E := BaseEncoder) (M := NullModel) (Bus := OffChip.OffChipBus).
#[global] Instance ops : ChildOps Mem := memory_ops w0.
#[global] Instance asks : MemoryOps Mem := memory_asks w0.
#[global] Instance times : TimedOps Mem := memory_timed w0.
Definition memory0 : Mem := mkNode BusBench.bus0 [mkChild 8%positive RankBench.rank0; mkChild 18%positive RankBench.rank0].
(** The controller is object 35 below object 36, the ranks are 8 and 18. *)
Definition tree : gmap positive NVMObject :=
  <[35%positive := mkNVMObject (Some (mkHook 37 36)) None [] [] [] [] NVMHOOK_NONE NVMHOOK_NONE]>
  (<[36%positive := mkNVMObject None None [mkHook 38 35] [] [] [] NVMHOOK_NONE NVMHOOK_NONE]>
  (<[18%positive := mkNVMObject (Some (mkHook 19 9)) None [] [] [] [] NVMHOOK_NONE NVMHOOK_NONE]> RankBench.tree)).
Definition params0 : Params := ControllerBench.p0 <| BANKS := 2 |>.
Definition channel0 : Sim (Node FRFCFS.FRFCFS (Spy Mem)) :=
  mkSim (mkHeap tree ControllerBench.reqs ∅ 40 None) (EventQueue_new dzero) (mkNode (ControllerBench.frfcfs0 params0) [mkSpy memory0 []]).
Import ControllerBench.

(** A read arrives in cycle 5; its row is opened in cycle 20 and read in cycle
    30, not before 29. *)
Definition arrived : Sim (Node FRFCFS.FRFCFS (Spy Mem)) := after (FRFCFS.IssueCommand 35 out0 10) (at_time 5 channel0).
Definition scheduled : Sim (Node FRFCFS.FRFCFS (Spy Mem)) := after (FRFCFS.Cycle 35 1) (at_time 6 arrived).
Definition cleaned (n : Z) (s : Sim (Node FRFCFS.FRFCFS (Spy Mem))) := after (Callback 35 cb_Cleanup 0) (at_time n s).
Definition sent (s : Sim (Node FRFCFS.FRFCFS (Spy Mem))) := after (Callback 35 cb_CommandQueue 0) s.
Definition opened : Sim (Node FRFCFS.FRFCFS (Spy Mem)) := sent (cleaned 20 scheduled).
Definition early : Sim (Node FRFCFS.FRFCFS (Spy Mem)) := sent (cleaned 28 opened).
Definition served : Sim (Node FRFCFS.FRFCFS (Spy Mem)) := sent (cleaned 30 opened).
Definition log_of (s : Sim (Node FRFCFS.FRFCFS (Spy Mem))) : list (Sent Mem) := default [] (head (log <$> kids (obj s))).
Example early_refused : sent_at <$> log_of early = [20].
Proof. vm_compute. reflexivity. Qed.
Example late_sent : (λ x, (sent_at x, sent_ok x, type <$> sent_req x)) <$> log_of served = [(30, true, Some READ); (20, true, Some ACTIVATE)].
Proof. vm_compute. reflexivity. Qed.
Definition nothing : Sent Mem := mkSent 0 1 None false memory0.
Definition nth_sent (i : nat) : Sent Mem := default nothing (log_of served !! i).
Definition request_of (i : nat) : NVMainRequest := default (ControllerBench.request READ 0 0 0) (sent_req (nth_sent i)).
End ChannelBench.

Lemma channel_timing_witness : 29 ≤ 30.
Proof.
  refine (channel_timing (B := FRFCFS.FRFCFS) (Bus := OffChip.OffChipBus) ChannelBench.w0 35 ControllerBench.out0 (λ _, mret true)
    ChannelBench.channel0 ChannelBench.served (ChannelBench.log_of ChannelBench.served) 0 1
    (ChannelBench.nth_sent 1) (ChannelBench.nth_sent 0) (ChannelBench.request_of 1) (ChannelBench.request_of 0) 29
    _ _ _ _ _ _ _ _ _ _ _ _ _ _ _).
  1, 2, 3: intros q; apply quiet_ret.
  - intros q. apply timeless_ret.
  - apply heap_wf_checked. vm_compute. reflexivity.
  - reflexivity.
  - assert (∀ n s, controller_step (B := FRFCFS.FRFCFS) (C := Spy ChannelBench.Mem) 35 ControllerBench.out0 (λ _, mret true) memory_acts s
      (ControllerBench.at_time n s)) as Htime by (intros n s; apply step_elsewhere; [done|by apply acts_elsewhere]).
    unfold channel_run. eapply rtc_l; [apply (Htime 5)|].
    eapply rtc_l; [apply (step_transaction _ _ _ _ _ 10 true ChannelBench.arrived); vm_compute; reflexivity|].
    eapply rtc_l; [apply (Htime 6)|].
    eapply rtc_l; [apply (step_cycle _ _ _ _ _ 1 ChannelBench.scheduled); vm_compute; reflexivity|].
    eapply rtc_l; [apply (Htime 20)|].
    eapply rtc_l; [apply (step_callback _ _ _ _ _ cb_Cleanup 0 (ChannelBench.cleaned 20 ChannelBench.scheduled)); vm_compute; reflexivity|].
    eapply rtc_l; [apply (step_callback _ _ _ _ _ cb_CommandQueue 0 ChannelBench.opened); vm_compute; reflexivity|].
    eapply rtc_l; [apply (Htime 30)|].
    eapply rtc_l; [apply (step_callback _ _ _ _ _ cb_Cleanup 0 (ChannelBench.cleaned 30 ChannelBench.opened)); vm_compute; reflexivity|].
    apply rtc_once. apply (step_callback _ _ _ _ _ cb_CommandQueue 0). vm_compute. reflexivity.
  - vm_compute. reflexivity.
  - lia.
  - vm_compute. reflexivity.
  - vm_compute. reflexivity.
  - vm_compute. reflexivity.
  - vm_compute. reflexivity.
  - vm_compute. reflexivity.
  - vm_compute. left.
Defined.
