(* ===== verification/TagPolicy.v ===== *)
(** * The replacement policy of the tag cache

    The class [LRU] of NVM/nvmain.h: a map from addresses to DRAM addresses with
    a deque of its keys, the most recently used first. It does what a list of
    entries in order of use does, and what it holds are the most recently used
    keys. *)

From S2P Require Import Prelude.

Module LRU.
(*| NVmain/NVM/nvmain.h 155-157 NVMain::LRU *)
Record LRU := mkLRU { size : Z; m : gmap Z Z; dq : list Z }.
#[global] Instance eta_LRU : Settable LRU := fields! mkLRU < size; m; dq >.

(** The capacity is stored in an [int]. *)
(*| NVmain/NVM/nvmain.h 159-163 NVMain::LRU::LRU *)
Definition LRU_new (capacity : Z) : LRU := mkLRU (s32 capacity) ∅ [].

(*| NVmain/NVM/nvmain.h 165-168 NVMain::LRU::has *)
Definition has (key : Z) (c : LRU) : bool := bool_decide (is_Some (m c !! key)).

(** [while( *it != key ) it++; dq.erase( it )]: running off the end is undefined. *)
Fixpoint dq_erase (key : Z) (l : list Z) : res (list Z) :=
  match l with
  | [] => Err OutOfBounds
  | x :: l => if x =? key then Ok l else l' ← dq_erase key l; Ok (x :: l')
  end.

(** [dq.back( )] and [dq.pop_back( )]: undefined on an empty deque. *)
Definition dq_pop (l : list Z) : res (Z * list Z) :=
  match last l with Some x => Ok (x, removelast l) | None => Err OutOfBounds end.

(** An [int] compared with a [size_t]. *)
(*| NVmain/NVM/nvmain.h 224-227 NVMain::LRU::isFull *)
Definition isFull (c : LRU) : bool := u64 (size c) =? Z.of_nat (length (dq c)).

(** The value, or 0 with [found] cleared. *)
(*| NVmain/NVM/nvmain.h 170-187 NVMain::LRU::get *)
Definition get (key : Z) (c : LRU) : res (option Z * LRU) :=
  match m c !! key with
  | None => Ok (None, c)
  | Some v => l ← dq_erase key (dq c); Ok (Some v, c <| dq := key :: l |>)
  end.

(*| NVmain/NVM/nvmain.h 189-213 NVMain::LRU::put *)
Definition put (key value : Z) (c : LRU) : res LRU :=
  c ← match m c !! key with
      | None => if isFull c then '(leastUsed, l) ← dq_pop (dq c); Ok (c <| dq := l |> <| m ::= delete leastUsed |>)
                else Ok c
      | Some _ => l ← dq_erase key (dq c); Ok (c <| dq := l |> <| m ::= delete key |>)
      end;
  Ok (c <| dq ::= cons key |> <| m ::= <[key := value]> |>).

(** [m[ leastUsed ]] makes an entry of 0 when there is none; it is erased. *)
(*| NVmain/NVM/nvmain.h 215-222 NVMain::LRU::removeLRU *)
Definition removeLRU (c : LRU) : res (Z * LRU) :=
  '(leastUsed, l) ← dq_pop (dq c);
  Ok (default 0 (m c !! leastUsed), c <| dq := l |> <| m ::= delete leastUsed |>).
End LRU.

Import LRU.

(** ** Sequences of operations *)

Inductive lru_op := OpHas (k : Z) | OpGet (k : Z) | OpPut (k v : Z) | OpRemove | OpIsFull.
Inductive lru_answer := AnBool (b : bool) | AnFound (o : option Z) | AnValue (v : Z) | AnNone.

Definition lru_exec (o : lru_op) (c : LRU) : res (lru_answer * LRU) :=
  match o with
  | OpHas k => Ok (AnBool (has k c), c)
  | OpGet k => '(x, c) ← get k c; Ok (AnFound x, c)
  | OpPut k v => c ← put k v c; Ok (AnNone, c)
  | OpRemove => '(v, c) ← removeLRU c; Ok (AnValue v, c)
  | OpIsFull => Ok (AnBool (isFull c), c)
  end.
Fixpoint lru_run (os : list lru_op) (c : LRU) : res (list lru_answer * LRU) :=
  match os with
  | [] => Ok ([], c)
  | o :: os => '(x, c) ← lru_exec o c; '(xs, c) ← lru_run os c; Ok (x :: xs, c)
  end.

(** ** The specification: entries in order of use *)

Abbreviation entry := (Z * Z)%type.
Definition without (k : Z) (l : list entry) : list entry := filter (λ x, x.1 ≠ k) l.
Fixpoint lookup_key (k : Z) (l : list entry) : option Z :=
  match l with [] => None | (k', v) :: l => if decide (k' = k) then Some v else lookup_key k l end.

Definition lru_spec (cap : nat) (o : lru_op) (l : list entry) : option (lru_answer * list entry) :=
  match o with
  | OpHas k => Some (AnBool (bool_decide (is_Some (lookup_key k l))), l)
  | OpGet k => Some (match lookup_key k l with
                     | Some v => (AnFound (Some v), (k, v) :: without k l)
                     | None => (AnFound None, l)
                     end)
  | OpPut k v => Some (AnNone, (k, v) :: match lookup_key k l with
                                         | Some _ => without k l
                                         | None => take (cap - 1) l
                                         end)
  | OpRemove => match last l with Some (_, v) => Some (AnValue v, take (length l - 1) l) | None => None end
  | OpIsFull => Some (AnBool (bool_decide (length l = cap)), l)
  end.
Fixpoint lru_spec_run (cap : nat) (os : list lru_op) (l : list entry) : option (list lru_answer * list entry) :=
  match os with
  | [] => Some ([], l)
  | o :: os => '(x, l) ← lru_spec cap o l; '(xs, l) ← lru_spec_run cap os l; Some (x :: xs, l)
  end.

(** ** The invariant *)

(** The entries of the keys [l] under [mp]. *)
Definition pairs (mp : gmap Z Z) (l : list Z) : list entry := (λ k, (k, default 0 (mp !! k))) <$> l.
Definition entries (c : LRU) : list entry := pairs (m c) (dq c).

Record lru_ok (cap : nat) (c : LRU) : Prop := {
  lo_size : size c = Z.of_nat cap;
  lo_room : (0 < cap)%nat ∧ Z.of_nat cap < 2147483648;
  lo_NoDup : NoDup (dq c);
  lo_keys : ∀ k, k ∈ dq c ↔ is_Some (m c !! k);
  lo_length : (length (dq c) ≤ cap)%nat
}.

Lemma lru_ok_new cap : (0 < cap)%nat → Z.of_nat cap < 2147483648 → lru_ok cap (LRU_new (Z.of_nat cap)).
Proof.
  intros H0 H1. split; cbn; [|done|constructor| |lia].
  - unfold s32. rewrite Z.mod_small by lia. by rewrite (proj2 (Z.ltb_lt _ _) H1).
  - intros k. rewrite lookup_empty. split; [by intros ?%elem_of_nil|by intros [? ?]].
Qed.

Lemma isFull_spec cap c : lru_ok cap c → isFull c = bool_decide (length (dq c) = cap).
Proof.
  intros [Es [H0 H1] _ _ _]. unfold isFull. rewrite Es, u64_small by (unfold is_u64; lia).
  destruct (Z.eqb_spec (Z.of_nat cap) (Z.of_nat (length (dq c)))) as [E|E];
    [rewrite bool_decide_true|rewrite bool_decide_false]; (done || lia).
Qed.

Lemma filter_all {A} (P : A → Prop) `{∀ x, Decision (P x)} (l : list A) : Forall P l → filter P l = l.
Proof. induction 1 as [|x l Hx Hl IH]; [done|]. rewrite filter_cons_True by done. by rewrite IH. Qed.
Lemma dq_erase_spec k l : NoDup l → k ∈ l → dq_erase k l = Ok (filter (λ x, x ≠ k) l).
Proof.
  induction l as [|x l IH]; intros Hn Hk; [by apply elem_of_nil in Hk|]. apply NoDup_cons in Hn as [Hx Hn].
  cbn [dq_erase]. destruct (Z.eqb_spec x k) as [->|Hne].
  - rewrite filter_cons_False by tauto. f_equal. symmetry. apply filter_all. apply Forall_forall. by intros y Hy ->.
  - apply elem_of_cons in Hk as [->|Hk]; [done|]. rewrite filter_cons_True by done. by rewrite (IH Hn Hk).
Qed.

Lemma removelast_take {A} (l : list A) : removelast l = take (length l - 1) l.
Proof. by rewrite removelast_firstn_len, <- Nat.sub_1_r. Qed.
Lemma dq_pop_spec l k : last l = Some k → dq_pop l = Ok (k, take (length l - 1) l).
Proof. intros E. unfold dq_pop. by rewrite E, removelast_take. Qed.
Lemma dq_pop_split l k l' : dq_pop l = Ok (k, l') → l = l' ++ [k].
Proof.
  unfold dq_pop. destruct (last l) as [x|] eqn:E; [|done]. intros [= -> <-]. apply last_Some in E as [l0 ->].
  by rewrite removelast_last.
Qed.

(** ** Entries *)

Lemma pairs_cons mp k l : pairs mp (k :: l) = (k, default 0 (mp !! k)) :: pairs mp l.
Proof. done. Qed.
Lemma pairs_take mp n l : pairs mp (take n l) = take n (pairs mp l).
Proof. apply fmap_take. Qed.
Lemma pairs_last mp l : last (pairs mp l) = (λ k, (k, default 0 (mp !! k))) <$> last l.
Proof. apply fmap_last. Qed.
Lemma pairs_length mp l : length (pairs mp l) = length l.
Proof. apply length_fmap. Qed.
Lemma pairs_ext mp mp' l : (∀ k, k ∈ l → mp' !! k = mp !! k) → pairs mp' l = pairs mp l.
Proof. intros He. apply list_fmap_ext. intros i k Hk. rewrite He; [done|]. by eapply list_elem_of_lookup_2. Qed.
Lemma pairs_without mp k l : without k (pairs mp l) = pairs mp (filter (λ x, x ≠ k) l).
Proof.
  unfold without, pairs. induction l as [|x l IH]; [done|]. rewrite fmap_cons. destruct (decide (x = k)) as [->|Hne].
  - rewrite !filter_cons_False by (cbn; tauto). done.
  - rewrite !filter_cons_True by done. by rewrite fmap_cons, IH.
Qed.
Lemma pairs_lookup mp k l : (k ∈ l → is_Some (mp !! k)) → lookup_key k (pairs mp l) = if decide (k ∈ l) then mp !! k else None.
Proof.
  induction l as [|x l IH]; intros Hs; [done|]. unfold pairs. rewrite fmap_cons. cbn [lookup_key].
  destruct (decide (x = k)) as [->|Hne].
  - rewrite decide_True by by left. destruct (Hs ltac:(by left)) as [v ->]. done.
  - fold (pairs mp l). rewrite IH by (intros; apply Hs; by right). apply decide_ext. rewrite elem_of_cons. naive_solver.
Qed.

Lemma entries_lookup cap c k : lru_ok cap c → lookup_key k (entries c) = m c !! k.
Proof.
  intros [_ _ _ Hk _]. unfold entries. rewrite pairs_lookup by apply Hk.
  case_decide as E; [done|]. symmetry. apply eq_None_not_Some. by rewrite <- Hk.
Qed.

(** Using a key: it moves to the front. *)
Lemma used_NoDup (k : Z) (l : list Z) : NoDup l → NoDup (k :: filter (λ x, x ≠ k) l).
Proof. intros Hn. apply NoDup_cons. split; [intros [? _]%list_elem_of_filter; done|by apply NoDup_filter]. Qed.
Lemma used_length (k : Z) (l : list Z) : k ∈ l → (length (filter (λ x, x ≠ k) l) < length l)%nat.
Proof. intros Hk. eapply length_filter_lt; [exact Hk|tauto]. Qed.
Lemma used_elem (k x : Z) (l : list Z) : k ∈ l → x ∈ k :: filter (λ x, x ≠ k) l ↔ x ∈ l.
Proof. rewrite elem_of_cons, list_elem_of_filter. destruct (decide (x = k)) as [->|]; tauto. Qed.

Lemma get_ok cap c k v : lru_ok cap c → m c !! k = Some v →
  ∃ c', get k c = Ok (Some v, c') ∧ lru_ok cap c' ∧ entries c' = (k, v) :: without k (entries c) ∧
    dq c' = k :: filter (λ x, x ≠ k) (dq c).
Proof.
  intros [Es Hr Hn Hk Hl] Ev. assert (k ∈ dq c) as Hin by (apply Hk; by exists v).
  unfold get. rewrite Ev, (dq_erase_spec _ _ Hn Hin). cbn. eexists. split; [done|]. split_and!.
  - split; fields; [done|done|by apply used_NoDup| |].
    + intros x. by rewrite (used_elem k x) by done.
    + cbn. pose proof (used_length _ _ Hin). lia.
  - unfold entries. fields. by rewrite pairs_cons, Ev, pairs_without.
  - by fields.
Qed.

Lemma take_NoDup {A} n (l : list A) : NoDup l → NoDup (take n l).
Proof. intros Hn. eapply sublist_NoDup; [exact Hn|]. apply sublist_take. Qed.

(** The oldest entry leaves. *)
Lemma pop_ok cap c k : lru_ok cap c → last (dq c) = Some k →
  ∃ v, m c !! k = Some v ∧ last (entries c) = Some (k, v) ∧
  let c' := c <| dq := take (length (dq c) - 1) (dq c) |> <| m ::= delete k |> in
  lru_ok cap c' ∧ entries c' = take (length (dq c) - 1) (entries c).
Proof.
  intros [Es Hr Hn Hk Hl] Ek. pose proof Ek as Ed. apply last_Some in Ed as [l0 Ed].
  destruct (proj1 (Hk k)) as [v Ev]. { rewrite Ed. apply elem_of_app. right. by left. }
  assert (take (length (dq c) - 1) (dq c) = l0) as Et.
  { rewrite Ed, length_app. cbn. rewrite Nat.add_sub. by rewrite take_app_length. }
  assert (k ∉ l0) as Hout.
  { rewrite Ed in Hn. apply NoDup_app in Hn as (_ & Hn & _). intros Hin. apply (Hn k Hin). by left. }
  exists v. split; [done|]. split. { unfold entries. by rewrite pairs_last, Ek; cbn; rewrite Ev. }
  cbv zeta. rewrite Et. split.
  - split; fields; [done|done| | |].
    + rewrite Ed in Hn. by apply NoDup_app in Hn as (Hn & _ & _).
    + intros x. rewrite lookup_delete_is_Some, <- Hk, Ed, elem_of_app, list_elem_of_singleton. naive_solver.
    + rewrite Ed, length_app in Hl. lia.
  - unfold entries. fields. rewrite <- pairs_take, Et. apply pairs_ext. intros x Hx. rewrite lookup_delete_ne; [done|].
    by intros ->.
Qed.

(** A new entry comes to the front. *)
Lemma push_ok cap c k v : lru_ok cap c → m c !! k = None → (length (dq c) < cap)%nat →
  let c' := c <| dq ::= cons k |> <| m ::= <[k := v]> |> in
  lru_ok cap c' ∧ entries c' = (k, v) :: entries c.
Proof.
  intros [Es Hr Hn Hk Hl] Ev Hlt. assert (k ∉ dq c) as Hout by (rewrite Hk, Ev; by intros [? ?]). cbv zeta. split.
  - split; fields; [done|done|by apply NoDup_cons| |cbn; lia].
    intros x. rewrite lookup_insert_is_Some, elem_of_cons, Hk. destruct (decide (x = k)) as [->|]; naive_solver.
  - unfold entries. fields. rewrite pairs_cons, lookup_insert_eq. cbn. f_equal. apply pairs_ext.
    intros x Hx. rewrite lookup_insert_ne; [done|]. by intros ->.
Qed.

(** A key that is present is taken out before it is put again. *)
Lemma drop_ok cap c k v : lru_ok cap c → m c !! k = Some v →
  ∃ l, dq_erase k (dq c) = Ok l ∧ l = filter (λ x, x ≠ k) (dq c) ∧ (length l < cap)%nat ∧
  let c' := c <| dq := l |> <| m ::= delete k |> in
  lru_ok cap c' ∧ m c' !! k = None ∧ entries c' = without k (entries c).
Proof.
  intros [Es Hr Hn Hk Hl] Ev. assert (k ∈ dq c) as Hin by (apply Hk; by exists v).
  pose proof (used_length _ _ Hin) as Hlen.
  exists (filter (λ x, x ≠ k) (dq c)). split; [by apply dq_erase_spec|]. split; [done|]. split; [lia|]. cbv zeta. split_and!.
  - split; fields; [done|done|by apply NoDup_filter| |lia].
    intros x. rewrite lookup_delete_is_Some, list_elem_of_filter, Hk. naive_solver.
  - fields. apply lookup_delete_eq.
  - unfold entries. fields. rewrite pairs_without. apply pairs_ext.
    intros x [Hx _]%list_elem_of_filter. by rewrite lookup_delete_ne.
Qed.

Lemma put_ok cap c k v : lru_ok cap c →
  ∃ c', put k v c = Ok c' ∧ lru_ok cap c' ∧
    entries c' = (k, v) :: (match lookup_key k (entries c) with Some _ => without k (entries c) | None => take (cap - 1) (entries c) end) ∧
    dq c' = k :: (if decide (k ∈ dq c) then filter (λ x, x ≠ k) (dq c) else take (cap - 1) (dq c)).
Proof.
  intros Hc. pose proof Hc as [Es Hr Hn Hk Hl]. rewrite (entries_lookup _ _ _ Hc). unfold put.
  destruct (m c !! k) as [v0|] eqn:Ev.
  - destruct (drop_ok cap c k v0 Hc Ev) as (l & -> & El & Hlt & Hc' & Ev' & Een). cbn [mbind res_bind].
    rewrite decide_True by (apply Hk; by exists v0). eexists. split; [done|].
    destruct (push_ok _ _ k v Hc' Ev') as [Hc2 Ee2]; [by fields|]. split; [done|]. split; [by rewrite Ee2, Een|].
    fields. by rewrite El.
  - assert (k ∉ dq c) as Hout by (rewrite Hk, Ev; by intros [? ?]). rewrite decide_False by done.
    rewrite (isFull_spec _ _ Hc). case_bool_decide as Hf.
    + destruct (last (dq c)) as [k'|] eqn:El. 2: { apply last_None in El. rewrite El in Hf. cbn in Hf. lia. }
      rewrite (dq_pop_spec _ _ El). cbn [mbind res_bind]. destruct (pop_ok _ _ _ Hc El) as (v' & Ev' & _ & Hc' & Ee').
      eexists. split; [done|]. destruct (push_ok _ _ k v Hc') as [Hc2 Ee2].
      * fields. rewrite lookup_delete_ne; [done|]. intros ->; congruence.
      * fields. rewrite length_take. lia.
      * split; [done|]. rewrite Ee2, Ee', Hf. split; [done|]. by fields.
    + cbn [mbind res_bind]. eexists. split; [done|]. destruct (push_ok _ _ k v Hc Ev) as [Hc2 Ee2]; [lia|].
      split; [done|]. rewrite Ee2. rewrite !take_ge; [|lia|unfold entries; rewrite pairs_length; lia]. split; [done|]. by fields.
Qed.

(** ** Refinement *)

Lemma lru_exec_refines cap o c x l : lru_ok cap c → lru_spec cap o (entries c) = Some (x, l) →
  ∃ c', lru_exec o c = Ok (x, c') ∧ lru_ok cap c' ∧ entries c' = l.
Proof.
  intros Hc Hs. destruct o as [k|k|k v| |]; cbn [lru_spec lru_exec] in *.
  - injection Hs as <- <-. exists c. unfold has. by rewrite (entries_lookup _ _ _ Hc).
  - rewrite (entries_lookup _ _ _ Hc) in Hs. destruct (m c !! k) as [v|] eqn:Ev; injection Hs as <- <-.
    + destruct (get_ok _ _ _ _ Hc Ev) as (c' & -> & Hc' & Ee & _). by exists c'.
    + unfold get. rewrite Ev. by exists c.
  - injection Hs as <- <-. destruct (put_ok _ _ k v Hc) as (c' & -> & Hc' & Ee & _). by exists c'.
  - unfold removeLRU. destruct (last (dq c)) as [k|] eqn:Ek.
    + destruct (pop_ok _ _ _ Hc Ek) as (v & Ev & El & Hc' & Ee). rewrite El in Hs. injection Hs as <- <-.
      rewrite (dq_pop_spec _ _ Ek). cbn [mbind res_bind]. rewrite Ev. eexists. split; [done|]. split; [done|].
      rewrite Ee. f_equal. unfold entries. by rewrite pairs_length.
    + apply last_None in Ek. unfold entries in Hs. by rewrite Ek in Hs.
  - injection Hs as <- <-. exists c. rewrite (isFull_spec _ _ Hc). unfold entries. by rewrite pairs_length.
Qed.

Lemma lru_run_refines cap os : ∀ c xs l, lru_ok cap c → lru_spec_run cap os (entries c) = Some (xs, l) →
  ∃ c', lru_run os c = Ok (xs, c') ∧ lru_ok cap c' ∧ entries c' = l.
Proof.
  induction os as [|o os IH]; intros c xs l Hc Hs; cbn [lru_spec_run lru_run] in *.
  - injection Hs as <- <-. by exists c.
  - destruct (lru_spec cap o (entries c)) as [[x l1]|] eqn:Eo; [|done]. cbn in Hs.
    destruct (lru_exec_refines _ _ _ _ _ Hc Eo) as (c1 & -> & Hc1 & <-). cbn.
    destruct (lru_spec_run cap os (entries c1)) as [[xs' l2]|] eqn:Er; [|done]. injection Hs as <- <-.
    destruct (IH _ _ _ Hc1 Er) as (c' & -> & Hc' & <-). by exists c'.
Qed.

(** ** What the cache holds *)

(** The keys an operation uses: looking up an absent key uses nothing. *)
Definition uses (o : lru_op) (c : LRU) : list Z :=
  match o with OpGet k => if has k c then [k] else [] | OpPut k _ => [k] | _ => [] end.
(** The keys used by a run, the latest first. *)
Fixpoint history (os : list lru_op) (c : LRU) : list Z :=
  match os with
  | [] => []
  | o :: os => (match lru_exec o c with Ok (_, c) => history os c | Err _ => [] end) ++ uses o c
  end.
(** Every key once, at its latest use. *)
Fixpoint recent (l : list Z) : list Z :=
  match l with [] => [] | x :: l => x :: filter (λ y, y ≠ x) (recent l) end.

Lemma prefix_filter (P : Z → Prop) `{∀ x, Decision (P x)} (l1 l2 : list Z) :
  l1 `prefix_of` l2 → filter P l1 `prefix_of` filter P l2.
Proof. intros [k ->]. rewrite filter_app. by exists (filter P k). Qed.
Lemma prefix_use k (l : list Z) h n : l `prefix_of` recent h → k ∉ l → k :: take n l `prefix_of` recent (k :: h).
Proof.
  intros Hl Hk. cbn [recent]. apply prefix_cons. etransitivity; [exists (drop n l); symmetry; apply take_drop|].
  rewrite <- (filter_all (λ y, y ≠ k) l); [by apply prefix_filter|]. apply Forall_forall. by intros y Hy ->.
Qed.
Lemma prefix_reuse k (l : list Z) h : l `prefix_of` recent h → k :: filter (λ x, x ≠ k) l `prefix_of` recent (k :: h).
Proof. intros Hl. cbn [recent]. by apply prefix_cons, prefix_filter. Qed.

Lemma exec_recent cap o c x c' h : lru_ok cap c → dq c `prefix_of` recent h → lru_exec o c = Ok (x, c') →
  lru_ok cap c' ∧ dq c' `prefix_of` recent (uses o c ++ h).
Proof.
  intros Hc Hp Hr. destruct o as [k|k|k v| |]; cbn [lru_exec uses] in *.
  - by injection Hr as <- <-.
  - unfold has. destruct (m c !! k) as [v|] eqn:Ev.
    + destruct (get_ok _ _ _ _ Hc Ev) as (c1 & Eg & Hc1 & _ & Ed). rewrite Eg in Hr. injection Hr as <- <-.
      rewrite bool_decide_true by done. split; [done|]. rewrite Ed. by apply prefix_reuse.
    + unfold get in Hr. rewrite Ev in Hr. injection Hr as <- <-. by rewrite bool_decide_false by by intros [? ?].
  - destruct (put_ok _ _ k v Hc) as (c1 & Ep & Hc1 & _ & Ed). rewrite Ep in Hr. injection Hr as <- <-.
    split; [done|]. rewrite Ed. cbn [app]. case_decide; [by apply prefix_reuse|by apply prefix_use].
  - unfold removeLRU in Hr. destruct (last (dq c)) as [k|] eqn:Ek.
    + rewrite (dq_pop_spec _ _ Ek) in Hr. injection Hr as <- <-.
      destruct (pop_ok _ _ _ Hc Ek) as (_ & _ & _ & Hc1 & _). split; [done|]. fields.
      etransitivity; [exists (drop (length (dq c) - 1) (dq c)); symmetry; apply take_drop|done].
    + unfold dq_pop in Hr. by rewrite Ek in Hr.
  - by injection Hr as <- <-.
Qed.

Lemma run_recent cap os : ∀ c xs c' h, lru_ok cap c → dq c `prefix_of` recent h → lru_run os c = Ok (xs, c') →
  lru_ok cap c' ∧ dq c' `prefix_of` recent (history os c ++ h).
Proof.
  induction os as [|o os IH]; intros c xs c' h Hc Hp Hr; cbn [lru_run history] in *.
  - injection Hr as <- <-. done.
  - rnext Hr. destruct v as [x c1]. rnext Hr. destruct v as [xs' c2]. injection Hr as <- <-. rewrite E.
    destruct (exec_recent _ _ _ _ _ _ Hc Hp E) as [Hc1 Hp1]. rewrite <- app_assoc. by eapply IH.
Qed.

(** C38. The replacement policy of the tag cache is a list of entries in order of
    use: from an empty cache of a given capacity, every sequence of operations
    that never removes from an empty cache succeeds, with the answers of that
    list, and leaves its entries. *)
Theorem lru_refines cap os xs l :
  (0 < cap)%nat → Z.of_nat cap < 2147483648 → lru_spec_run cap os [] = Some (xs, l) →
  ∃ c, lru_run os (LRU_new (Z.of_nat cap)) = Ok (xs, c) ∧ entries c = l.
Proof.
  intros H0 H1 Hs. destruct (lru_run_refines cap os (LRU_new (Z.of_nat cap)) xs l) as (c & Hr & _ & He);
    [by apply lru_ok_new|done|by exists c].
Qed.

(** What the cache holds: after any operations, its keys are the most recently
    used ones, each once and the latest first, and they are never more than
    the capacity. *)
Theorem lru_keeps_recent cap os xs c :
  (0 < cap)%nat → Z.of_nat cap < 2147483648 → lru_run os (LRU_new (Z.of_nat cap)) = Ok (xs, c) →
  dq c = take (length (dq c)) (recent (history os (LRU_new (Z.of_nat cap)))) ∧
  (length (dq c) ≤ cap)%nat ∧ ∀ k, has k c = true ↔ k ∈ dq c.
Proof.
  intros H0 H1 Hr. destruct (run_recent cap os _ xs c [] (lru_ok_new cap H0 H1) ltac:(by exists []) Hr) as [Hc [l Hp]].
  rewrite app_nil_r in Hp. split_and!; [by rewrite Hp, take_app_length|by apply Hc|].
  intros k. unfold has. rewrite bool_decide_eq_true. symmetry. by apply Hc.
Qed.

Definition some_ops : list lru_op := [OpPut 1 10; OpPut 2 20; OpGet 1; OpPut 3 30; OpGet 2; OpIsFull; OpHas 1].
Lemma lru_refines_witness : ∃ c, lru_run some_ops (LRU_new 2) =
  Ok ([AnNone; AnNone; AnFound (Some 10); AnNone; AnFound None; AnBool true; AnBool true], c) ∧ entries c = [(3, 30); (1, 10)].
Proof. apply (lru_refines 2); [lia|lia|vm_compute; reflexivity]. Defined.
Lemma lru_keeps_recent_witness :
  ∃ c, dq c = take 2 (recent (history some_ops (LRU_new 2))) ∧ (2 ≤ 2)%nat ∧ (∀ k, has k c = true ↔ k ∈ dq c).
Proof.
  destruct (lru_run some_ops (LRU_new 2)) as [[xs c]|] eqn:E; [|by vm_compute in E]. exists c.
  assert (length (dq c) = 2%nat) as El. { vm_compute in E. by injection E as _ <-. }
  pose proof (lru_keeps_recent 2 some_ops xs c ltac:(lia) ltac:(lia) E) as H. rewrite El in H. exact H.
Defined.
