(* ===== verification/Traces.v ===== *)
(** * Traces

    traceReader/ and traceWriter/: the lines of a memory trace, the writer that
    prints them and the reader that parses them. Files are strings; what the
    file system does on opening is an argument. *)

From S2P Require Import Prelude NVMTypes Config.

(** ** Hexadecimal numbers

    [std::hex] output and input of unsigned integers. *)

Definition hex_char (d : Z) : Ascii.ascii :=
  Ascii.ascii_of_nat (Z.to_nat (if d <? 10 then 48 + d else 87 + d)).
Definition hex_digit_of (a : Ascii.ascii) : option Z :=
  let n := Z.of_nat (Ascii.nat_of_ascii a) in
  if (48 <=? n) && (n <=? 57) then Some (n - 48)
  else if (97 <=? n) && (n <=? 102) then Some (n - 87)
  else if (65 <=? n) && (n <=? 70) then Some (n - 55)
  else None.

Fixpoint hex_loop (fuel : nat) (z : Z) (acc : string) : string :=
  match fuel with
  | O => acc
  | S fuel =>
      let acc := String (hex_char (z mod 16)) acc in
      if z <? 16 then acc else hex_loop fuel (z / 16) acc
  end.
Definition hex_string (z : Z) : string := hex_loop 16 z EmptyString.

(** [setw( 2 )] with [setfill( '0' )]. *)
Definition hex_byte (b : Z) : string :=
  let s := hex_string b in if (String.length s <? 2)%nat then "0" +:+ s else s.

Fixpoint read_hex_digits (acc : Z) (s : string) : Z :=
  match s with
  | String a s' => match hex_digit_of a with Some d => read_hex_digits (16 * acc + d) s' | None => acc end
  | EmptyString => acc
  end.

(** [stream >> x] with [std::hex] for an unsigned [x] below [2^w]: a sign and the
    prefix 0x are accepted, no digits give 0, too large a number saturates. *)
Definition hex_extract (w : Z) (s : string) : Z :=
  let '(neg, s1) := read_sign (skip_spaces s) in
  let s2 := match s1 with
            | String "0" (String "x" s') | String "0" (String "X" s') => s'
            | _ => s1
            end in
  let v := read_hex_digits 0 s2 in
  if 2 ^ w - 1 <? v then 2 ^ w - 1 else if neg then wrap w (- v) else v.

(** [uint32_t] stored through [htonl]: the most significant byte comes first. *)
Definition be_bytes (v : Z) : list Z := [u8 (Z.shiftr v 24); u8 (Z.shiftr v 16); u8 (Z.shiftr v 8); u8 v].

(** [std::to_string] of a signed number. *)
Definition signed_decimal (z : Z) : string := if z <? 0 then "-" +:+ decimal (- z) else decimal z.

(** ** Trace lines *)

Module Trace.
(*| NVmain/traceReader/TraceLine.h 60-66 TraceLine *)
Record TraceLine := mkTraceLine {
  address : NVMAddress;
  operation : OpType;
  cycle : Z;
  data : NVMDataBlock;
  oldData : NVMDataBlock;
  threadId : Z
}.
#[global] Instance eta_TraceLine : Settable TraceLine := fields! mkTraceLine
  < address; operation; cycle; data; oldData; threadId >.

(** [bit0]: the constructor of the address leaves [bit] uninitialised. *)
(*| NVmain/traceReader/TraceLine.cpp 38-48 TraceLine::TraceLine *)
Definition TraceLine_new (bit0 : Z) : TraceLine :=
  mkTraceLine (SetPhysicalAddress 0xDEADC0DE0BADC0DE (NVMAddress_new bit0)) NOP 0 NVMDataBlock_new NVMDataBlock_new 0.

(*| NVmain/traceReader/TraceLine.cpp 56-64 TraceLine::SetLine *)
Definition SetLine (addr : NVMAddress) (op : OpType) (cy : Z) (d od : NVMDataBlock) (tid : Z) (l : TraceLine) : res TraceLine :=
  d ← NVMDataBlock_assign (data l) d;
  od ← NVMDataBlock_assign (oldData l) od;
  Ok (l <| address := NVMAddress_assign (address l) addr |> <| operation := op |> <| cycle := cy |>
        <| data := d |> <| oldData := od |> <| threadId := tid |>).

(*| NVmain/traceReader/TraceLine.cpp 67-70 TraceLine::GetAddress *)
Definition GetAddress (l : TraceLine) : NVMAddress := address l.
(*| NVmain/traceReader/TraceLine.cpp 73-76 TraceLine::GetOperation *)
Definition GetOperation (l : TraceLine) : OpType := operation l.
(*| NVmain/traceReader/TraceLine.cpp 78-81 TraceLine::GetCycle *)
Definition GetCycle (l : TraceLine) : Z := cycle l.
(*| NVmain/traceReader/TraceLine.cpp 83-86 TraceLine::GetData *)
Definition GetData (l : TraceLine) : NVMDataBlock := data l.
(*| NVmain/traceReader/TraceLine.cpp 88-91 TraceLine::GetOldData *)
Definition GetOldData (l : TraceLine) : NVMDataBlock := oldData l.
(*| NVmain/traceReader/TraceLine.cpp 93-96 TraceLine::GetThreadId *)
Definition GetThreadId (l : TraceLine) : Z := threadId l.

(** ** The writer *)

(** [NVMDataBlock::Print]: reads [size] bytes of the allocation. *)
Fixpoint print_bytes (l : list Z) : string :=
  match l with [] => EmptyString | b :: l => hex_byte b +:+ print_bytes l end.
(*| NVmain/include/NVMDataBlock.cpp 102-110 NVMDataBlock::Print *)
Definition Print (d : NVMDataBlock) : res string :=
  if size d =? 0 then Ok EmptyString
  else match rawData d with
       | None => Err NullDeref
       | Some l => if bool_decide (Z.to_nat (size d) ≤ length l)%nat then Ok (print_bytes (take (Z.to_nat (size d)) l))
                   else Err OutOfBounds
       end.

Definition newline : string := String (Ascii.ascii_of_nat 10) EmptyString.

(*| NVmain/traceWriter/NVMainTrace/NVMainTraceWriter.cpp 91-121 NVMainTraceWriter::WriteTraceLine *)
Definition WriteTraceLine (line : TraceLine) : res string :=
  let op := GetOperation line in
  if bool_decide (op ≠ READ ∧ op ≠ WRITE) then Ok EmptyString
  else
    d ← Print (GetData line);
    od ← Print (GetOldData line);
    Ok (decimal (GetCycle line) +:+ " " +:+ (if decide (op = READ) then "R " else "W ") +:+
        "0x" +:+ hex_string (GetPhysicalAddress (GetAddress line)) +:+ " " +:+
        d +:+ " " +:+ od +:+ " " +:+ signed_decimal (GetThreadId line) +:+ newline).

(** [out] is the content of the open file; output that cannot be written is not
    modelled. [echoed] is what went to the standard output. *)
(*| NVmain/traceWriter/NVMainTrace/NVMainTraceWriter.h 58-59 NVMainTraceWriter *)
Record NVMainTraceWriter := mkNVMainTraceWriter {
  traceFile : string;
  out : option string;
  echo_on : bool;
  perChannel : bool;
  perRank : bool;
  echoed : string
}.
#[global] Instance eta_NVMainTraceWriter : Settable NVMainTraceWriter := fields! mkNVMainTraceWriter
  < traceFile; out; echo_on; perChannel; perRank; echoed >.
(*| NVmain/traceWriter/GenericTraceWriter.cpp 42-45 GenericTraceWriter::GenericTraceWriter *)
Definition NVMainTraceWriter_new : NVMainTraceWriter := mkNVMainTraceWriter EmptyString None false false false EmptyString.
(*| NVmain/traceWriter/GenericTraceWriter.cpp 57-60 GenericTraceWriter::SetEcho *)
Definition SetEcho (b : bool) (w : NVMainTraceWriter) : NVMainTraceWriter := w <| echo_on := b |>.
(*| NVmain/traceWriter/GenericTraceWriter.cpp 62-65 GenericTraceWriter::GetEcho *)
Definition GetEcho (w : NVMainTraceWriter) : bool := echo_on w.

(** [opens]: whether the file can be opened. *)
(*| NVmain/traceWriter/NVMainTrace/NVMainTraceWriter.cpp 48-65 NVMainTraceWriter::SetTraceFile *)
Definition SetTraceFile (file : string) (opens : bool) (w : NVMainTraceWriter) : NVMainTraceWriter :=
  w <| traceFile := file |> <| out := if opens then Some ("NVMV1" +:+ newline) else None |>.
(*| NVmain/traceWriter/NVMainTrace/NVMainTraceWriter.cpp 72-89 NVMainTraceWriter::SetNextAccess *)
Definition SetNextAccess (l : TraceLine) (w : NVMainTraceWriter) : res (bool * NVMainTraceWriter) :=
  '(rv, w) ← match out w with
             | Some f => s ← WriteTraceLine l; Ok (true, w <| out := Some (f +:+ s) |>)
             | None => Ok (false, w)
             end;
  if GetEcho w then s ← WriteTraceLine l; Ok (true, w <| echoed ::= λ e, e +:+ s |>) else Ok (rv, w).

(** [nextAccesses->at( lineIdx )] throws past the end. *)
Fixpoint SetNextNAccesses_loop (l : list nat) (ls : list TraceLine) (numWritten : Z) (w : NVMainTraceWriter) :
    res (Z * NVMainTraceWriter) :=
  match l with
  | [] => Ok (numWritten, w)
  | i :: l =>
      x ← deref OutOfBounds (ls !! i);
      '(b, w) ← SetNextAccess x w;
      SetNextNAccesses_loop l ls (if (b : bool) then numWritten + 1 else numWritten) w
  end.
(*| NVmain/traceWriter/GenericTraceWriter.cpp 87-98 GenericTraceWriter::SetNextNAccesses *)
Definition SetNextNAccesses (N : nat) (ls : list TraceLine) (w : NVMainTraceWriter) : res (Z * NVMainTraceWriter) :=
  SetNextNAccesses_loop (seq 0 N) ls 0 w.

(** ** The reader *)

(** An open input stream: what is left of it, and whether reading ran into the
    end. *)
Record Stream := mkStream { rest : string; eof : bool }.
Fixpoint take_line (s : string) : string * string * bool :=
  match s with
  | EmptyString => (EmptyString, EmptyString, true)
  | String a s =>
      if Ascii.eqb a (Ascii.ascii_of_nat 10) then (EmptyString, s, false)
      else let '(l, r, e) := take_line s in (String a l, r, e)
  end.
(** [getline]: nothing is read once the end was reached. *)
Definition getline (t : Stream) : string * Stream :=
  if eof t then (EmptyString, t) else let '(l, r, e) := take_line (rest t) in (l, mkStream r e).

(*| NVmain/traceReader/NVMainTrace/NVMainTraceReader.h 58-61 NVMainTraceReader *)
Record NVMainTraceReader := mkNVMainTraceReader {
  r_traceFile : string;
  trace : option Stream;
  traceVersion : Z;
  readVersion : bool
}.
#[global] Instance eta_NVMainTraceReader : Settable NVMainTraceReader := fields! mkNVMainTraceReader
  < r_traceFile; trace; traceVersion; readVersion >.
(*| NVmain/traceReader/NVMainTrace/NVMainTraceReader.cpp 43-49 NVMainTraceReader::NVMainTraceReader *)
Definition NVMainTraceReader_new : NVMainTraceReader := mkNVMainTraceReader EmptyString None 0 false.
(*| NVmain/traceReader/NVMainTrace/NVMainTraceReader.cpp 57-60 NVMainTraceReader::SetTraceFile *)
Definition Reader_SetTraceFile (file : string) (r : NVMainTraceReader) : NVMainTraceReader := r <| r_traceFile := file |>.

(** The values a line fills in. *)
Record Fields := mkFields {
  f_cycle : Z;
  f_operation : OpType;
  f_address : Z;
  f_data : NVMDataBlock;
  f_oldData : NVMDataBlock;
  f_threadId : Z;
  fieldId : Z
}.
#[global] Instance eta_Fields : Settable Fields := fields! mkFields
  < f_cycle; f_operation; f_address; f_data; f_oldData; f_threadId; fieldId >.

(** Sixteen words of eight digits. *)
Definition words_of (field : string) : list Z :=
  seq 0 16 ≫= λ byte, be_bytes (hex_extract 32 (String.substring (8 * byte) 8 field)).
Definition read_block (field : string) (d : NVMDataBlock) : res NVMDataBlock :=
  cassert (bool_decide (String.length field = 128%nat));;
  d ← SetSize 64 (λ _, 0) d;
  Ok (d <| rawData := Some (words_of field) |>).

(** One field that is not empty; an unknown operation only warns. *)
(*| NVmain/traceReader/NVMainTrace/NVMainTraceReader.cpp 135-231 NVMainTraceReader::GetNextAccess *)
Definition read_field (version : Z) (field : string) (x : Fields) : res Fields :=
  let i := fieldId x in
  x ← (if i =? 0 then Ok (x <| f_cycle := u32 (atoi field) |>)
       else if i =? 1 then
         Ok (if String.eqb field "R" then x <| f_operation := READ |>
             else if String.eqb field "W" then x <| f_operation := WRITE |> else x)
       else if i =? 2 then Ok (x <| f_address := hex_extract 64 field |>)
       else if i =? 3 then d ← read_block field (f_data x); Ok (x <| f_data := d |>)
       else if i =? 4 then
         if version =? 0 then
           d ← SetSize 64 (λ _, 0) (f_oldData x);
           Ok (x <| f_threadId := u32 (atoi field) |> <| f_oldData := d |>)
         else d ← read_block field (f_oldData x); Ok (x <| f_oldData := d |>)
       else if i =? 5 then
         cassert (negb (version =? 0));; Ok (x <| f_threadId := u32 (atoi field) |>)
       else Ok x);
  Ok (x <| fieldId ::= λ i, u8 (i + 1) |>).

(** The pieces [getline( lineStream, field, ' ' )] gives, empty ones skipped. *)
Definition fields_of (line : string) : list string := strtok (λ a, Ascii.eqb a " ") line.

(** The first line of a file may name the version of the format; the line after
    it is read in its place. *)
(*| NVmain/traceReader/NVMainTrace/NVMainTraceReader.cpp 113-123 NVMainTraceReader::GetNextAccess *)
Definition read_version (fullLine : string) (t : Stream) (r : NVMainTraceReader) : string * Stream * NVMainTraceReader :=
  if readVersion r then (fullLine, t, r)
  else
    let r := if String.eqb (String.substring 0 4 fullLine) "NVMV"
             then r <| traceVersion := u32 (atoi (String.substring 4 (String.length fullLine) fullLine)) |> else r in
    let '(fullLine, t) := getline t in
    (fullLine, t, r <| readVersion := true |>).

(** [files]: the content of the files that can be opened. [address0] and [bit0]:
    what the local variable and the address hold before they are set. *)
(*| NVmain/traceReader/NVMainTrace/NVMainTraceReader.cpp 72-252 NVMainTraceReader::GetNextAccess *)
Definition GetNextAccess (files : string → option string) (address0 bit0 : Z) (l : TraceLine) (r : NVMainTraceReader) :
    res (bool * TraceLine * NVMainTraceReader) :=
  if String.eqb (r_traceFile r) EmptyString then Ok (false, l, r)
  else
    match (match trace r with Some t => Some t | None => (λ c, mkStream c false) <$> files (c_str (r_traceFile r)) end) with
    | None => Ok (false, l, r)
    | Some t =>
        let '(fullLine, t) := getline t in
        if eof t then
          l ← SetLine (SetPhysicalAddress 0xDEADC0DEDEADBEEF (NVMAddress_new bit0)) NOP 0 NVMDataBlock_new NVMDataBlock_new 0 l;
          Ok (false, l, r <| trace := Some t |>)
        else
          let '(fullLine, t, r) := read_version fullLine t r in
          x ← foldM (λ x f, read_field (traceVersion r) f x)
                (mkFields 0 READ address0 NVMDataBlock_new NVMDataBlock_new 0 0) (fields_of fullLine);
          l ← SetLine (SetPhysicalAddress (f_address x) (NVMAddress_new bit0)) (f_operation x) (f_cycle x) (f_data x)
                (f_oldData x) (f_threadId x) l;
          Ok (true, l, r <| trace := Some t |>)
    end.

(*| NVmain/traceReader/NVMainTrace/NVMainTraceReader.cpp 258-284 NVMainTraceReader::GetNextNAccesses *)
Fixpoint GetNextNAccesses (files : string → option string) (address0 bit0 : Z) (N : nat) (r : NVMainTraceReader) :
    res (list TraceLine * NVMainTraceReader) :=
  match N with
  | O => Ok ([], r)
  | S N =>
      '(ok, l, r) ← GetNextAccess files address0 bit0 (TraceLine_new bit0) r;
      '(ls, r) ← GetNextNAccesses files address0 bit0 N r;
      Ok ((if (ok : bool) then [l] else []) ++ ls, r)
  end.
End Trace.
Import Trace.


(** ** Numbers, written and read *)


Lemma below {P : Z → bool} n z : forallb P (seqZ 0 n) = true → 0 ≤ z < n → P z = true.
Proof. rewrite forallb_forall. intros Hf Hz. apply Hf, list_elem_of_In, elem_of_seqZ. lia. Qed.

Definition word_char (a : Ascii.ascii) : bool := match hex_digit_of a with Some _ => true | None => false end.
Lemma hex_char_digit d : 0 ≤ d < 16 → hex_digit_of (hex_char d) = Some d.
Proof.
  intros Hd. apply (bool_decide_eq_true _).
  exact (below (P := λ d, bool_decide (hex_digit_of (hex_char d) = Some d)) 16 d eq_refl Hd).
Qed.
Lemma word_char_spec a : word_char a = true → negb (Ascii.eqb a " ") = true ∧ negb (Ascii.eqb a (Ascii.ascii_of_nat 10)) = true.
Proof.
  unfold word_char. destruct (Ascii.eqb_spec a " ") as [->|]; [done|].
  destruct (Ascii.eqb_spec a (Ascii.ascii_of_nat 10)) as [->|]; done.
Qed.

Lemma hex_loop_read fuel z acc :
  0 ≤ z < 16 ^ Z.of_nat fuel → (0 < fuel)%nat →
  ∃ d s k, hex_loop fuel z acc = String d s ∧ word_char d = true ∧
    ∀ a, read_hex_digits a (hex_loop fuel z acc) = read_hex_digits (a * 16 ^ Z.of_nat k + z) acc.
Proof.
  revert z acc. induction fuel as [|fuel IH]; intros z acc Hz Hf; [lia|].
  cbn [hex_loop]. pose proof (Z.mod_pos_bound z 16 ltac:(lia)) as Hm. pose proof (hex_char_digit (z mod 16) ltac:(lia)) as Hd.
  assert (word_char (hex_char (z mod 16)) = true) as Hw by (unfold word_char; by rewrite Hd).
  destruct (Z.ltb_spec z 16) as [Hlt|Hge].
  - eexists _, acc, 1%nat. split_and!; [done|done|]. intros a. cbn [read_hex_digits]. rewrite Hd.
    rewrite Z.mod_small by lia. f_equal. change (16 ^ Z.of_nat 1) with 16. lia.
  - rewrite Nat2Z.inj_succ, Z.pow_succ_r in Hz by lia.
    destruct (IH (z / 16) (String (hex_char (z mod 16)) acc)) as (d & s & k & E & Ed & Er).
    + split; [apply Z.div_pos; lia|]. apply Z.div_lt_upper_bound; lia.
    + destruct fuel; [cbn in Hz; lia|lia].
    + exists d, s, (S k). split_and!; [done|done|]. intros a. rewrite Er. cbn [read_hex_digits]. rewrite Hd.
      f_equal. rewrite Nat2Z.inj_succ, Z.pow_succ_r by lia. pose proof (Z.div_mod z 16). lia.
Qed.
Lemma hex_loop_chars fuel z acc : 0 ≤ z → all_chars word_char acc = true → all_chars word_char (hex_loop fuel z acc) = true.
Proof.
  revert z acc. induction fuel as [|fuel IH]; intros z acc Hz Ha; [done|]. cbn [hex_loop].
  assert (all_chars word_char (String (hex_char (z mod 16)) acc) = true) as Hs.
  { cbn. rewrite Ha, andb_true_r. unfold word_char. rewrite hex_char_digit; [done|apply Z.mod_pos_bound; lia]. }
  destruct (z <? 16); [done|]. apply IH; [by apply Z.div_pos|done].
Qed.

Lemma hex_extract_hex z : is_u64 z → hex_extract 64 ("0x" +:+ hex_string z) = z.
Proof.
  intros Hz. unfold is_u64 in Hz. unfold hex_extract.
  change (skip_spaces ("0x" +:+ hex_string z)) with (String "0" (String "x" (hex_string z))).
  change (read_sign (String "0" (String "x" (hex_string z)))) with (false, String "0" (String "x" (hex_string z))).
  cbv beta iota zeta. unfold hex_string.
  destruct (hex_loop_read 16 z EmptyString) as (d & s & k & _ & _ & Er);
    [change (16 ^ Z.of_nat 16) with 18446744073709551616; lia|lia|].
  rewrite Er. cbn [read_hex_digits]. rewrite Z.mul_0_l, Z.add_0_l. rewrite (proj2 (Z.ltb_ge _ _)) by lia. done.
Qed.

(** The two characters of a byte. *)
Definition byte_shape (b : Z) : bool :=
  match hex_byte b with
  | String c1 (String c2 EmptyString) =>
      match hex_digit_of c1, hex_digit_of c2 with Some d1, Some d2 => 16 * d1 + d2 =? b | _, _ => false end
  | _ => false
  end.
Lemma hex_byte_shape b : is_u8 b → ∃ c1 c2 d1 d2, hex_byte b = String c1 (String c2 EmptyString) ∧
  hex_digit_of c1 = Some d1 ∧ hex_digit_of c2 = Some d2 ∧ 16 * d1 + d2 = b.
Proof.
  intros Hb. pose proof (below (P := byte_shape) 256 b ltac:(vm_compute; reflexivity) Hb) as Hs. unfold byte_shape in Hs.
  destruct (hex_byte b) as [|c1 [|c2 []]]; try done. destruct (hex_digit_of c1) as [d1|] eqn:E1; [|done].
  destruct (hex_digit_of c2) as [d2|] eqn:E2; [|done]. b2p. by exists c1, c2, d1, d2.
Qed.

Lemma two_app c1 c2 s : String c1 (String c2 EmptyString) +:+ s = String c1 (String c2 s).
Proof. done. Qed.
Lemma print_bytes_app l1 l2 : print_bytes (l1 ++ l2) = print_bytes l1 +:+ print_bytes l2.
Proof. induction l1 as [|b l1 IH]; cbn; [done|]. by rewrite IH, string_app_assoc. Qed.
Lemma print_bytes_length l : Forall is_u8 l → String.length (print_bytes l) = (2 * length l)%nat.
Proof.
  induction 1 as [|b l Hb Hl IH]; cbn; [done|]. destruct (hex_byte_shape b Hb) as (c1 & c2 & d1 & d2 & -> & _). rewrite two_app. cbn. lia.
Qed.
Lemma print_bytes_chars l : Forall is_u8 l → all_chars word_char (print_bytes l) = true.
Proof.
  induction 1 as [|b l Hb Hl IH]; cbn; [done|]. destruct (hex_byte_shape b Hb) as (c1 & c2 & d1 & d2 & -> & E1 & E2 & _).
  rewrite two_app. cbn. unfold word_char at 1 2. by rewrite E1, E2, IH.
Qed.
Lemma read_hex_bytes l a : Forall is_u8 l → read_hex_digits a (print_bytes l) = fold_left (λ a b, 256 * a + b) l a.
Proof.
  intros Hl. revert a. induction Hl as [|b l Hb Hl IH]; intros a; cbn; [done|].
  destruct (hex_byte_shape b Hb) as (c1 & c2 & d1 & d2 & -> & E1 & E2 & E). rewrite two_app. cbn. rewrite E1, E2, IH. f_equal. lia.
Qed.

(** A word that starts with a digit, without a prefix, is read as its digits. *)
Lemma hex_extract_digits w c1 c2 s d1 d2 :
  hex_digit_of c1 = Some d1 → hex_digit_of c2 = Some d2 → read_hex_digits 0 (String c1 (String c2 s)) ≤ 2 ^ w - 1 →
  hex_extract w (String c1 (String c2 s)) = read_hex_digits 0 (String c1 (String c2 s)).
Proof.
  intros E1 E2 Hv. unfold hex_extract.
  assert (skip_spaces (String c1 (String c2 s)) = String c1 (String c2 s)) as ->.
  { cbn. destruct (is_space c1) eqn:Es; [|done]. exfalso. revert E1. unfold hex_digit_of, is_space in *.
    set (n := Z.of_nat _) in *. repeat case_match; intros; b2p; try done; apply orb_true_iff in Es; destruct Es; b2p; lia. }
  assert (read_sign (String c1 (String c2 s)) = (false, String c1 (String c2 s))) as ->.
  { destruct c1 as [[] [] [] [] [] [] [] []]; try reflexivity; done. }
  assert (match String c1 (String c2 s) with String "0" (String "x" s') | String "0" (String "X" s') => s'
    | _ => String c1 (String c2 s) end = String c1 (String c2 s)) as Hp.
  { destruct c1 as [[] [] [] [] [] [] [] []]; try reflexivity.
    destruct c2 as [[] [] [] [] [] [] [] []]; try reflexivity; done. }
  cbv zeta. rewrite Hp. by rewrite (proj2 (Z.ltb_ge _ _)).
Qed.

Lemma be_bytes_word a b c d : is_u8 a → is_u8 b → is_u8 c → is_u8 d →
  be_bytes (256 * (256 * (256 * a + b) + c) + d) = [a; b; c; d].
Proof.
  unfold is_u8, be_bytes, u8. intros Ha Hb Hc Hd. rewrite !Z.shiftr_div_pow2 by lia.
  change (2 ^ 24) with 16777216. change (2 ^ 16) with 65536. change (2 ^ 8) with 256.
  repeat f_equal; Z.div_mod_to_equations; lia.
Qed.
Lemma read_word a b c d : is_u8 a → is_u8 b → is_u8 c → is_u8 d →
  be_bytes (hex_extract 32 (print_bytes [a; b; c; d])) = [a; b; c; d].
Proof.
  intros Ha Hb Hc Hd. assert (Forall is_u8 [a; b; c; d]) as Hl by by rewrite !Forall_cons.
  pose proof (read_hex_bytes _ 0 Hl) as Hr. cbn [fold_left] in Hr. cbn [print_bytes] in *.
  destruct (hex_byte_shape a Ha) as (c1 & c2 & d1 & d2 & Ea & E1 & E2 & _). rewrite Ea in *.
  rewrite !two_app in *.
  rewrite (hex_extract_digits 32 c1 c2 _ d1 d2 E1 E2).
  - rewrite Hr. replace (256 * 0 + a) with a by lia. by apply be_bytes_word.
  - rewrite Hr. unfold is_u8 in *. change (2 ^ 32 - 1) with 4294967295. lia.
Qed.

Lemma substring_prefix s1 s2 : String.substring 0 (String.length s1) (s1 +:+ s2) = s1.
Proof. induction s1 as [|a s1 IH]; [by destruct s2|]. rewrite string_app_cons. cbn. by rewrite IH. Qed.
Lemma substring_skip s1 s2 n : String.substring (String.length s1) n (s1 +:+ s2) = String.substring 0 n s2.
Proof. induction s1 as [|a s1 IH]; [done|]. rewrite string_app_cons. cbn. by rewrite IH. Qed.

Lemma words_of_print pre l n k : Forall is_u8 pre → Forall is_u8 l → length pre = (4 * k)%nat → length l = (4 * n)%nat →
  (seq k n ≫= λ byte, be_bytes (hex_extract 32 (String.substring (8 * byte) 8 (print_bytes (pre ++ l))))) = l.
Proof.
  revert pre l k. induction n as [|n IH]; intros pre l k Hpre Hl Ep El.
  { by destruct l. }
  destruct l as [|a [|b [|c [|d l]]]]; cbn in El; try lia. change (a :: b :: c :: d :: l) with ([a; b; c; d] ++ l) in *.
  apply Forall_app in Hl as [Hw Hl]. cbn [seq mbind list_bind]. rewrite print_bytes_app, print_bytes_app.
  assert (8 * k = String.length (print_bytes pre))%nat as -> by (rewrite print_bytes_length by done; lia).
  rewrite substring_skip.
  assert (8 = String.length (print_bytes [a; b; c; d]))%nat as E8 by by rewrite print_bytes_length.
  rewrite E8 at 1. rewrite substring_prefix. f_equal.
  - inversion_clear Hw as [|? ? Ha Hw1]. inversion_clear Hw1 as [|? ? Hb Hw2]. inversion_clear Hw2 as [|? ? Hc Hw3].
    inversion_clear Hw3 as [|? ? Hd _]. by apply read_word.
  - rewrite <- !print_bytes_app, app_assoc. apply IH; [by apply Forall_app|done|rewrite length_app; cbn; lia|lia].
Qed.

Lemma decimal_digits n : is_u64 n → ∃ k, read_digits 0 0 (decimal n) = (n, k, EmptyString).
Proof.
  intros Hn. unfold is_u64 in Hn. unfold decimal. destruct (digits_loop_read 20 n EmptyString) as (d & s & k & E & Ed & Er).
  { change (10 ^ Z.of_nat 20) with 100000000000000000000. lia. } { lia. }
  exists (0 + k)%nat. rewrite Er. cbn [read_digits]. by rewrite Z.mul_0_l, Z.add_0_l.
Qed.
Lemma decimal_sign n : is_u64 n → read_sign (skip_spaces (decimal n)) = (false, decimal n).
Proof.
  intros Hn. unfold is_u64 in Hn. unfold decimal. destruct (digits_loop_read 20 n EmptyString) as (d & s & k & E & Ed & Er).
  { change (10 ^ Z.of_nat 20) with 100000000000000000000. lia. } { lia. }
  assert (skip_spaces (String d s) = String d s) as Hsp.
  { cbn. unfold is_space, digit_of in *. set (c := Z.of_nat _) in *.
    destruct (Z.eqb_spec c 32), (Z.leb_spec 9 c), (Z.leb_spec c 13); cbn; try done;
      destruct (Z.leb_spec 48 c); cbn in Ed; try done; lia. }
  assert (read_sign (String d s) = (false, String d s)) as Hsg.
  { destruct d as [[] [] [] [] [] [] [] []]; try reflexivity; by destruct Ed. }
  by rewrite E, Hsp, Hsg.
Qed.

(** [atoi] into an [unsigned int]: cut to a [long], and then to 32 bits. *)
Definition as_unsigned (n : Z) : Z := Z.min n 9223372036854775807 mod 4294967296.
Lemma u32_s32 z : u32 (s32 z) = z mod 4294967296.
Proof. unfold u32, s32. case_match; Z.to_euclidean_division_equations; lia. Qed.
Lemma atoi_decimal n : is_u64 n → u32 (atoi (decimal n)) = as_unsigned n.
Proof.
  intros Hn. unfold atoi. rewrite decimal_sign by done. destruct (decimal_digits n Hn) as [k ->]. by rewrite u32_s32.
Qed.
Lemma atoi_signed n : - 9223372036854775808 ≤ n < 9223372036854775808 → u32 (atoi (signed_decimal n)) = as_unsigned n.
Proof.
  intros Hn. unfold signed_decimal. destruct (Z.ltb_spec n 0); [|apply atoi_decimal; unfold is_u64; lia].
  unfold atoi. change (read_sign (skip_spaces ("-" +:+ decimal (- n)))) with (true, decimal (- n)). cbv iota beta.
  destruct (decimal_digits (- n)) as [k ->]; [unfold is_u64; lia|]. rewrite u32_s32. unfold as_unsigned. f_equal. lia.
Qed.

(** ** Lines *)

(** A text that is a field: not empty, no blanks, no ends of line. *)
Definition field_char (a : Ascii.ascii) : bool := negb (Ascii.eqb a " ") && negb (Ascii.eqb a (Ascii.ascii_of_nat 10)).
Definition is_field (s : string) : Prop := s ≠ EmptyString ∧ all_chars field_char s = true.

Lemma plain_field s : plain s → is_field s.
Proof.
  intros [Hne Hs]. split; [done|]. eapply all_chars_impl; [|exact Hs]. intros a Ha. unfold field_char.
  destruct (Ascii.eqb_spec a " ") as [->|]; [done|]. by destruct (Ascii.eqb_spec a (Ascii.ascii_of_nat 10)) as [->|].
Qed.
Lemma words_field s : all_chars word_char s = true → all_chars field_char s = true.
Proof. apply all_chars_impl. intros a Ha. unfold field_char. by apply word_char_spec in Ha as [-> ->]. Qed.

Lemma fields_cons s rest : is_field s → fields_of (s +:+ (" " +:+ rest)) = s :: fields_of rest.
Proof.
  intros [Hne Hs]. unfold fields_of, strtok. rewrite (tokens_from_word EmptyString); [done| |done].
  eapply all_chars_impl; [|exact Hs]. unfold field_char. by intros a [Ha _]%andb_prop.
Qed.
Lemma fields_last s : is_field s → fields_of s = [s].
Proof.
  intros [Hne Hs]. unfold fields_of, strtok. rewrite (tokens_from_last EmptyString); [done| |done].
  eapply all_chars_impl; [|exact Hs]. unfold field_char. by intros a [Ha _]%andb_prop.
Qed.

Definition no_newline (a : Ascii.ascii) : bool := negb (Ascii.eqb a (Ascii.ascii_of_nat 10)).
Lemma field_line s : all_chars field_char s = true → all_chars no_newline s = true.
Proof. apply all_chars_impl. unfold field_char. by intros a [_ Ha]%andb_prop. Qed.
Lemma take_line_app s rest : all_chars no_newline s = true → take_line (s +:+ (newline +:+ rest)) = (s, rest, false).
Proof.
  induction s as [|a s IH]; intros Hs; [done|]. rewrite string_app_cons. cbn [take_line all_chars] in *. b2p.
  unfold no_newline in *. b2p. destruct (Ascii.eqb a (Ascii.ascii_of_nat 10)); [done|]. by rewrite IH.
Qed.

(** ** What a trace keeps *)

(** A line the format can hold: a read or a write of a whole word of 64 bytes. The
    other values are of their types, [uint64_t] and [int64_t]. *)
Record access_ok (l : TraceLine) : Prop := {
  ac_operation : operation l = READ ∨ operation l = WRITE;
  ac_cycle : is_u64 (cycle l);
  ac_thread : - 9223372036854775808 ≤ threadId l < 9223372036854775808;
  ac_address : is_u64 (GetPhysicalAddress (address l));
  ac_data : block_wf (data l) ∧ size (data l) = 64;
  ac_oldData : block_wf (oldData l) ∧ size (oldData l) = 64
}.

(** What comes back: everything but the translation of the address and the high
    bits of cycle and thread, which the reader takes for an [unsigned int]. *)
Definition as_read (bit0 : Z) (l : TraceLine) : TraceLine :=
  l <| address := SetPhysicalAddress (GetPhysicalAddress (address l)) (NVMAddress_new bit0) |>
    <| cycle ::= as_unsigned |> <| threadId ::= as_unsigned |>.

(** The text of a line. *)
Definition line_text (l : TraceLine) : string :=
  decimal (cycle l) +:+ (" " +:+ ((if decide (operation l = READ) then "R" else "W") +:+ (" " +:+
    (("0x" +:+ hex_string (GetPhysicalAddress (address l))) +:+ (" " +:+ (print_bytes (bytes (data l)) +:+ (" " +:+
      (print_bytes (bytes (oldData l)) +:+ (" " +:+ signed_decimal (threadId l)))))))))).

Lemma block64 d : block_wf d → size d = 64 → ∃ l, d = blk l ∧ length l = 64%nat ∧ Forall is_u8 l.
Proof. intros (l & -> & Hl)%block_blk Hs. exists l. cbn in Hs. split_and!; [done|lia|done]. Qed.
Lemma Print_block d : block_wf d → Print d = Ok (print_bytes (bytes d)).
Proof.
  intros (l & -> & Hl)%block_blk. unfold Print, blk. cbn [size rawData bytes].
  destruct (Z.eqb_spec (Z.of_nat (length l)) 0) as [E|E]; [by destruct l|].
  rewrite Nat2Z.id, bool_decide_true by lia. by rewrite firstn_all.
Qed.

Lemma WriteTraceLine_text l : access_ok l → WriteTraceLine l = Ok (line_text l +:+ newline).
Proof.
  intros [Ho Hc Ht Ha [Hd _] [Hod _]]. unfold WriteTraceLine, GetOperation. rewrite bool_decide_false by tauto.
  unfold GetData, GetOldData. rewrite !Print_block by done. cbn [mbind res_bind]. f_equal.
  unfold line_text, GetThreadId. rewrite !string_app_assoc. by destruct (decide (operation l = READ)).
Qed.

Lemma signed_field n : - 9223372036854775808 ≤ n < 9223372036854775808 → is_field (signed_decimal n).
Proof.
  intros Hn. unfold signed_decimal. destruct (Z.ltb_spec n 0); [|apply plain_field, decimal_plain; unfold is_u64; lia].
  destruct (plain_field (decimal (- n))) as [_ Hf]; [apply decimal_plain; unfold is_u64; lia|]. split; [done|].
  rewrite all_chars_app. by rewrite Hf.
Qed.
Lemma hex_string_chars z : 0 ≤ z → all_chars word_char (hex_string z) = true.
Proof. intros Hz. by apply hex_loop_chars. Qed.
Lemma print_field l n : Forall is_u8 l → length l = S n → is_field (print_bytes l).
Proof.
  intros Hl El. split; [|by apply words_field, print_bytes_chars]. intros E. apply print_bytes_length in Hl.
  rewrite E in Hl. cbn in Hl. lia.
Qed.

Lemma line_fields l : access_ok l → fields_of (line_text l) =
  [decimal (cycle l); if decide (operation l = READ) then "R" else "W"; "0x" +:+ hex_string (GetPhysicalAddress (address l));
   print_bytes (bytes (data l)); print_bytes (bytes (oldData l)); signed_decimal (threadId l)].
Proof.
  intros [Ho Hc Ht Ha [Hd Sd] [Hod Sod]]. unfold line_text.
  destruct (block64 _ Hd Sd) as (b1 & -> & L1 & B1). destruct (block64 _ Hod Sod) as (b2 & -> & L2 & B2).
  rewrite fields_cons by by apply plain_field, decimal_plain.
  rewrite fields_cons by (case_decide; by split).
  rewrite fields_cons. 2: { split; [done|]. rewrite all_chars_app. cbn [all_chars]. by apply words_field, hex_string_chars, Ha. }
  rewrite !fields_cons by (by eapply print_field).
  rewrite fields_last; [done|]. by apply signed_field.
Qed.

Lemma line_no_newline l : access_ok l → all_chars no_newline (line_text l) = true.
Proof.
  intros [Ho Hc Ht Ha [Hd Sd] [Hod Sod]]. unfold line_text.
  destruct (block64 _ Hd Sd) as (b1 & -> & L1 & B1). destruct (block64 _ Hod Sod) as (b2 & -> & L2 & B2).
  assert (∀ n, is_u64 n → all_chars no_newline (decimal n) = true) as Hdec.
  { intros n Hn. apply field_line, plain_field, decimal_plain, Hn. }
  assert (∀ s, all_chars word_char s = true → all_chars no_newline s = true) as Hw by (intros s Hs; by apply field_line, words_field).
  cbn [bytes rawData blk]. rewrite !all_chars_app, Hdec by done. rewrite (field_line _ (proj2 (signed_field _ Ht))).
  rewrite (Hw _ (print_bytes_chars _ B1)), (Hw _ (print_bytes_chars _ B2)), (Hw _ (hex_string_chars _ (proj1 Ha))).
  by case_decide.
Qed.

Lemma assign_blank l : NVMDataBlock_assign NVMDataBlock_new (blk l) = Ok (blk l).
Proof.
  unfold NVMDataBlock_assign, blk. cbn. rewrite Nat2Z.id, length_replicate, !bool_decide_true by lia.
  cbn. rewrite firstn_all, skipn_all2, app_nil_r by (rewrite length_replicate; lia). done.
Qed.
Lemma read_block_print b : Forall is_u8 b → length b = 64%nat →
  read_block (print_bytes b) NVMDataBlock_new = Ok (blk b).
Proof.
  intros Hb El. unfold read_block. rewrite print_bytes_length, El by done.
  assert (words_of (print_bytes b) = b) as -> by exact (words_of_print [] b 16 0 ltac:(constructor) Hb eq_refl El).
  unfold blk. by rewrite El.
Qed.

Section Fields.
Context (v c a t : Z) (o : OpType) (d od : NVMDataBlock).
Hypothesis Hv : v ≠ 0.

Lemma field_cycle n : is_u64 n →
  read_field v (decimal n) (mkFields c o a d od t 0) = Ok (mkFields (as_unsigned n) o a d od t 1).
Proof using.
  intros Hn. pose proof (atoi_decimal n Hn) as E. unfold read_field. cbv beta zeta. rewrite E. reflexivity.
Qed.
Lemma field_operation op : op = READ ∨ op = WRITE →
  read_field v (if decide (op = READ) then "R" else "W") (mkFields c o a d od t 1) = Ok (mkFields c op a d od t 2).
Proof using. by intros [-> | ->]. Qed.
Lemma field_address n : is_u64 n →
  read_field v ("0x" +:+ hex_string n) (mkFields c o a d od t 2) = Ok (mkFields c o n d od t 3).
Proof using. intros Hn. unfold read_field. cbv beta zeta. rewrite (hex_extract_hex n Hn). reflexivity. Qed.
Lemma field_data b : Forall is_u8 b → length b = 64%nat →
  read_field v (print_bytes b) (mkFields c o a NVMDataBlock_new od t 3) = Ok (mkFields c o a (blk b) od t 4).
Proof using.
  intros Hb El. unfold read_field. cbv beta zeta.
  change (f_data (mkFields c o a NVMDataBlock_new od t 3)) with NVMDataBlock_new.
  rewrite (read_block_print b Hb El). reflexivity.
Qed.
Lemma field_oldData b : Forall is_u8 b → length b = 64%nat →
  read_field v (print_bytes b) (mkFields c o a d NVMDataBlock_new t 4) = Ok (mkFields c o a d (blk b) t 5).
Proof using Hv.
  intros Hb El. unfold read_field. cbv beta zeta. rewrite (proj2 (Z.eqb_neq _ _) Hv).
  change (f_oldData (mkFields c o a d NVMDataBlock_new t 4)) with NVMDataBlock_new.
  rewrite (read_block_print b Hb El). reflexivity.
Qed.
Lemma field_thread n : - 9223372036854775808 ≤ n < 9223372036854775808 →
  read_field v (signed_decimal n) (mkFields c o a d od t 5) = Ok (mkFields c o a d od (as_unsigned n) 6).
Proof using Hv.
  intros Hn. unfold read_field. cbv beta zeta. rewrite (proj2 (Z.eqb_neq _ _) Hv), (atoi_signed n Hn). reflexivity.
Qed.
End Fields.

Lemma read_fields version a0 l : access_ok l → version ≠ 0 →
  foldM (λ x f, read_field version f x) (mkFields 0 READ a0 NVMDataBlock_new NVMDataBlock_new 0 0) (fields_of (line_text l)) =
  Ok (mkFields (as_unsigned (cycle l)) (operation l) (GetPhysicalAddress (address l)) (data l) (oldData l) (as_unsigned (threadId l)) 6).
Proof.
  intros Hl Hv. rewrite (line_fields l Hl). destruct Hl as [Ho Hc Ht Ha [Hd Sd] [Hod Sod]].
  destruct (block64 _ Hd Sd) as (b1 & E1 & L1 & B1). destruct (block64 _ Hod Sod) as (b2 & E2 & L2 & B2). rewrite E1, E2.
  cbn [foldM bytes rawData blk].
  rewrite field_cycle by done. cbn [mbind res_bind]. rewrite field_operation by done. cbn [mbind res_bind].
  rewrite field_address by done. cbn [mbind res_bind]. rewrite field_data by done. cbn [mbind res_bind].
  rewrite field_oldData by done. cbn [mbind res_bind]. by rewrite field_thread.
Qed.

(** ** The round trip *)

Fixpoint texts (ls : list TraceLine) : string :=
  match ls with [] => EmptyString | l :: ls => line_text l +:+ (newline +:+ texts ls) end.

Lemma texts_app ls l : texts (ls ++ [l]) = texts ls +:+ (line_text l +:+ newline).
Proof. induction ls as [|x ls IH]; [done|]. cbn [app texts]. by rewrite IH, !string_app_assoc. Qed.

Lemma write_all pre ls w : Forall access_ok ls → out w = Some ("NVMV1" +:+ (newline +:+ texts pre)) → echo_on w = false →
  ∀ n, SetNextNAccesses_loop (seq (length pre) (length ls)) (pre ++ ls) n w =
    Ok (n + Z.of_nat (length ls), w <| out := Some ("NVMV1" +:+ (newline +:+ texts (pre ++ ls))) |>).
Proof.
  intros Hls. revert pre w. induction Hls as [|l ls Hl Hls IH]; intros pre w Ho He n; cbn [length seq SetNextNAccesses_loop].
  - rewrite app_nil_r, <- Ho, Z.add_0_r. by destruct w.
  - rewrite list_lookup_middle by done. cbn [deref mbind res_bind]. unfold SetNextAccess, GetEcho. rewrite Ho.
    rewrite (WriteTraceLine_text l Hl). cbn [mbind res_bind]. fields. rewrite He.
    specialize (IH (pre ++ [l]) (w <| out := Some (("NVMV1" +:+ (newline +:+ texts pre)) +:+ (line_text l +:+ newline)) |>)).
    rewrite length_app, Nat.add_1_r, <- app_assoc in IH. cbn [app] in IH. cbn [mbind res_bind]. rewrite IH.
    + f_equal. f_equal. lia.
    + fields. by rewrite texts_app, !string_app_assoc.
    + by fields.
Qed.

Section Reading.
Context (files : string → option string) (address0 bit0 : Z).
#[local] Abbreviation next := (GetNextAccess files address0 bit0).

Lemma SetLine_new l : access_ok l →
  SetLine (SetPhysicalAddress (GetPhysicalAddress (address l)) (NVMAddress_new bit0)) (operation l) (as_unsigned (cycle l))
    (data l) (oldData l) (as_unsigned (threadId l)) (TraceLine_new bit0) = Ok (as_read bit0 l).
Proof.
  intros [_ _ _ _ [Hd _] [Hod _]]. destruct (block_blk _ Hd) as (b1 & E1 & _). destruct (block_blk _ Hod) as (b2 & E2 & _).
  unfold SetLine. rewrite E1, E2. cbn [data oldData TraceLine_new]. rewrite !assign_blank. cbn [mbind res_bind].
  destruct l. cbn in *. by subst.
Qed.

(** The stream the reader works on. *)
Definition input (r : NVMainTraceReader) : option Stream :=
  match trace r with Some t => Some t | None => (λ c, mkStream c false) <$> files (c_str (r_traceFile r)) end.

Lemma next_line r l more : input r = Some (mkStream (line_text l +:+ (newline +:+ more)) false) → r_traceFile r ≠ EmptyString →
  readVersion r = true → traceVersion r ≠ 0 → access_ok l →
  next (TraceLine_new bit0) r = Ok (true, as_read bit0 l, r <| trace := Some (mkStream more false) |>).
Proof.
  intros Et Hf Hr Hv Hl. unfold GetNextAccess. destruct (String.eqb_spec (r_traceFile r) EmptyString); [done|].
  fold (input r). rewrite Et. unfold getline. cbn [eof rest]. rewrite take_line_app by by apply line_no_newline. cbn [eof].
  unfold read_version. rewrite Hr. rewrite (read_fields _ _ _ Hl Hv). cbn [mbind res_bind f_address f_operation f_cycle f_data f_oldData f_threadId].
  by rewrite (SetLine_new _ Hl).
Qed.

Lemma next_first r l more : input r = Some (mkStream ("NVMV1" +:+ (newline +:+ (line_text l +:+ (newline +:+ more)))) false) →
  r_traceFile r ≠ EmptyString → readVersion r = false → access_ok l →
  next (TraceLine_new bit0) r = Ok (true, as_read bit0 l,
    r <| traceVersion := 1 |> <| readVersion := true |> <| trace := Some (mkStream more false) |>).
Proof.
  intros Et Hf Hr Hl. unfold GetNextAccess. destruct (String.eqb_spec (r_traceFile r) EmptyString); [done|].
  fold (input r). rewrite Et. unfold getline. cbn [eof rest]. rewrite (take_line_app "NVMV1") by done. cbn [eof].
  unfold read_version. rewrite Hr.
  change (String.eqb (String.substring 0 4 "NVMV1") "NVMV") with true.
  change (u32 (atoi (String.substring 4 (String.length "NVMV1") "NVMV1"))) with 1. cbv iota.
  unfold getline. cbn [eof rest]. rewrite take_line_app by by apply line_no_newline.
  fields. rewrite (read_fields 1 _ _ Hl) by done. cbn [mbind res_bind f_address f_operation f_cycle f_data f_oldData f_threadId].
  by rewrite (SetLine_new _ Hl).
Qed.

Lemma next_end r l : input r = Some (mkStream EmptyString false) → r_traceFile r ≠ EmptyString →
  ∃ l' r', next l r = Ok (false, l', r').
Proof.
  intros Et Hf. unfold GetNextAccess. destruct (String.eqb_spec (r_traceFile r) EmptyString); [done|].
  fold (input r). rewrite Et. cbn. eauto.
Qed.

Lemma read_all ls r : Forall access_ok ls → input r = Some (mkStream (texts ls) false) → r_traceFile r ≠ EmptyString →
  readVersion r = true → traceVersion r ≠ 0 →
  ∃ r', GetNextNAccesses files address0 bit0 (length ls) r = Ok (as_read bit0 <$> ls, r') ∧
    input r' = Some (mkStream EmptyString false) ∧ r_traceFile r' ≠ EmptyString.
Proof.
  intros Hls. revert r. induction Hls as [|l ls Hl Hls IH]; intros r Et Hf Hr Hv; cbn [length GetNextNAccesses].
  - by exists r.
  - cbn [texts] in Et. rewrite (next_line _ _ _ Et Hf Hr Hv Hl). cbn [mbind res_bind].
    destruct (IH (r <| trace := Some (mkStream (texts ls) false) |>)) as (r' & -> & Hr'); [by unfold input; fields|by fields..|].
    cbn [mbind res_bind]. by exists r'.
Qed.
End Reading.

(** C39. Round trip of traces: a trace of reads and writes of whole words of 64
    bytes, with any 64-bit cycles, addresses and thread ids, written line by line,
    is read back line by line, in order, with the operation, the physical address
    and the data of the line, and then the reader reports the end. The cycle and
    the thread id come back modulo 2^32 only (a cycle from 2^63 on as 2^32 - 1):
    the reader keeps them in an [unsigned int] where the trace has 64-bit values,
    so that exactly those below 2^32 are preserved. *)
Theorem trace_roundtrip f ls :
  ls ≠ [] → Forall access_ok ls → f ≠ EmptyString → c_str f = f →
  ∃ w, SetNextNAccesses (length ls) ls (SetTraceFile f true NVMainTraceWriter_new) = Ok (Z.of_nat (length ls), w) ∧
  ∀ files address0 bit0, files f = out w →
    ∃ r, GetNextNAccesses files address0 bit0 (length ls) (Reader_SetTraceFile f NVMainTraceReader_new) =
           Ok (as_read bit0 <$> ls, r) ∧
      ∀ l, ∃ l' r', GetNextAccess files address0 bit0 l r = Ok (false, l', r').
Proof.
  intros Hne Hls Hf Hz.
  pose proof (write_all [] ls (SetTraceFile f true NVMainTraceWriter_new) Hls eq_refl eq_refl 0) as Hw.
  eexists. split; [exact Hw|]. intros files a0 b0 Hfiles. cbn [app] in Hfiles. revert Hfiles. fields. intros Hfiles.
  destruct ls as [|l ls]; [done|]. apply Forall_cons in Hls as [Hl Hls]. cbn [length GetNextNAccesses].
  rewrite (next_first files a0 b0 _ l (texts ls)); [|by unfold input, Reader_SetTraceFile; fields; cbn [trace NVMainTraceReader_new]; rewrite Hz, Hfiles|by unfold Reader_SetTraceFile; fields|done|done].
  cbn [mbind res_bind].
  match goal with |- context [GetNextNAccesses _ _ _ _ ?r] =>
    destruct (read_all files a0 b0 ls r Hls) as (r' & -> & Hi & Hf'); [by unfold input; fields|by fields|by fields|by fields|] end.
  eexists. split; [done|]. intros l0. by apply next_end.
Qed.

(** The line after the version is not checked for the end of the file: a trace
    without accesses yields a read of an address that was never set. *)
Lemma empty_trace_reads f files address0 bit0 :
  f ≠ EmptyString → files (c_str f) = Some ("NVMV1" +:+ newline) →
  ∃ l r, GetNextAccess files address0 bit0 (TraceLine_new bit0) (Reader_SetTraceFile f NVMainTraceReader_new) = Ok (true, l, r) ∧
    operation l = READ ∧ GetPhysicalAddress (address l) = address0.
Proof.
  intros Hf Hs. unfold GetNextAccess, Reader_SetTraceFile. fields. cbn [trace NVMainTraceReader_new].
  destruct (String.eqb_spec f EmptyString); [done|]. rewrite Hs. eexists _, _. split; [reflexivity|]. by split.
Qed.

(** A file without a version line loses its first access: the first line is
    taken for the version, and reading goes on with the second one. *)
Lemma headerless_loses_first f files address0 bit0 l first second more :
  f ≠ EmptyString → files (c_str f) = Some (first +:+ (newline +:+ (second +:+ (newline +:+ more)))) →
  all_chars no_newline first = true → all_chars no_newline second = true → String.substring 0 4 first ≠ "NVMV" →
  let r := Reader_SetTraceFile f NVMainTraceReader_new in
  GetNextAccess files address0 bit0 l r =
  GetNextAccess files address0 bit0 l (r <| readVersion := true |> <| trace := Some (mkStream (second +:+ (newline +:+ more)) false) |>).
Proof.
  intros Hf Hs H1 H2 Hv. unfold GetNextAccess, Reader_SetTraceFile. cbv zeta. fields. cbn [trace NVMainTraceReader_new].
  destruct (String.eqb_spec f EmptyString); [done|]. rewrite Hs. unfold getline, read_version. cbn [fmap option_fmap option_map eof rest].
  rewrite (take_line_app first), (take_line_app second) by done. cbn [eof rest]. fields. cbn [readVersion NVMainTraceReader_new].
  destruct (String.eqb_spec (String.substring 0 4 first) "NVMV"); [done|]. unfold getline. cbn [eof rest].
  rewrite take_line_app by done. reflexivity.
Qed.

(** What is preserved, and a late cycle that is not. *)
Lemma as_unsigned_small n : 0 ≤ n < 4294967296 → as_unsigned n = n.
Proof. intros Hn. unfold as_unsigned. rewrite Z.min_l by lia. by apply Z.mod_small. Qed.
Example late_cycle bit0 l : cycle (as_read bit0 (l <| cycle := 4294967301 |>)) = 5.
Proof. reflexivity. Qed.

Definition some_line : TraceLine :=
  mkTraceLine (SetPhysicalAddress 0xabc0 (NVMAddress_new 0)) WRITE 123 (blk (replicate 64 171)) (blk (seqZ 0 64)) 3.
Definition some_lines : list TraceLine := [some_line; some_line <| operation := READ |> <| cycle := 5000000000 |>].
Lemma some_lines_ok : Forall access_ok some_lines.
Proof.
  assert (∀ l, Forall is_u8 l → length l = 64%nat → block_wf (blk l) ∧ size (blk l) = 64) as Hb.
  { intros l Hl El. split; [by apply blk_block|]. cbn. lia. }
  assert (Forall is_u8 (seqZ 0 64)) as Hs. { apply Forall_forall. intros z Hz%elem_of_seqZ. unfold is_u8. lia. }
  assert (Forall is_u8 (replicate 64 171)) as Hr by by apply Forall_replicate.
  assert (block_wf (data some_line) ∧ size (data some_line) = 64) as Hd by (by apply Hb).
  assert (block_wf (oldData some_line) ∧ size (oldData some_line) = 64) as Ho by (by apply Hb).
  apply Forall_cons. split; [|apply Forall_cons; split; [|done]]; split; fields; try exact Hd; try exact Ho.
  all: first [by left | by right | unfold is_u64; cbn; lia | change (is_u64 43968); unfold is_u64; lia].
Qed.

Lemma trace_roundtrip_witness :
  ∃ w, SetNextNAccesses 2 some_lines (SetTraceFile "trace.nvt" true NVMainTraceWriter_new) = Ok (2, w) ∧
  ∀ files address0 bit0, files "trace.nvt" = out w →
    ∃ r, GetNextNAccesses files address0 bit0 2 (Reader_SetTraceFile "trace.nvt" NVMainTraceReader_new) =
           Ok (as_read bit0 <$> some_lines, r) ∧
      ∀ l, ∃ l' r', GetNextAccess files address0 bit0 l r = Ok (false, l', r').
Proof. apply (trace_roundtrip "trace.nvt" some_lines); [discriminate|apply some_lines_ok|discriminate|reflexivity]. Defined.
