(* ===== verification/Prefetchers.v ===== *)
(** * Prefetchers

    Prefetchers/: what the top level asks of a prefetcher ([PrefetchOps]), the
    prefetcher that does nothing, the one that takes the next lines, and the
    pattern tables of STeMS. *)

From S2P Require Import Prelude NVMTypes.

(** A prefetcher with its state: whether to prefetch, and what. *)
Class PrefetchOps (P : Type) := {
  pf_NotifyAccess : NVMainRequest → P → res (bool * list NVMAddress * P);
  pf_DoPrefetch : NVMainRequest → P → res (bool * list NVMAddress * P)
}.

Module Prefetch.
(** ** The base class and the next lines *)

(*| NVmain/src/Prefetcher.cpp 38-42 Prefetcher::NotifyAccess *)
Definition Prefetcher_NotifyAccess (accessOp : NVMainRequest) : bool * list NVMAddress := (false, []).
(*| NVmain/src/Prefetcher.cpp 45-49 Prefetcher::DoPrefetch *)
Definition Prefetcher_DoPrefetch (triggerOp : NVMainRequest) : bool * list NVMAddress := (false, []).

(** The addresses are copies of the trigger's, translation included. *)
(*| NVmain/Prefetchers/NaivePrefetcher/NaivePrefetcher.cpp 38-55 NaivePrefetcher::DoPrefetch *)
Definition NaivePrefetcher_DoPrefetch (triggerOp : NVMainRequest) : bool * list NVMAddress :=
  (true, (λ i, SetPhysicalAddress (GetPhysicalAddress (address triggerOp) ⊕ 64 * i) (address triggerOp)) <$> seqZ 1 3).

(** ** STeMS *)

(*| NVmain/Prefetchers/STeMS/STeMS.h 42-52 PatternSequence *)
Record PatternSequence := mkPatternSequence {
  size : Z;
  ps_address : Z;
  offset : list Z;
  delta : list Z;
  fetched : list bool;
  used : list bool;
  useCount : Z;
  startedPrefetch : bool
}.
#[global] Instance eta_PatternSequence : Settable PatternSequence := fields! mkPatternSequence
  < size; ps_address; offset; delta; fetched; used; useCount; startedPrefetch >.

(** Arrays: [a[ i ]]. *)
Definition arr {A} (a : list A) (i : Z) : res A := if 0 <=? i then deref OutOfBounds (a !! Z.to_nat i) else Err OutOfBounds.
Definition arr_set {A} (a : list A) (i : Z) (x : A) : res (list A) :=
  if (0 <=? i) && (i <? Z.of_nat (length a)) then Ok (<[Z.to_nat i := x]> a) else Err OutOfBounds.

(** A pattern off the heap: [new] leaves everything unset. *)
Record Garbage := mkGarbage { g_offset : list Z; g_delta : list Z; g_fetched : list bool; g_used : list bool; g_count : Z; g_started : bool }.
Definition garbage_ok (g : Garbage) : Prop :=
  length (g_offset g) = 16%nat ∧ length (g_delta g) = 16%nat ∧ length (g_fetched g) = 16%nat ∧ length (g_used g) = 16%nat.

(** The last [count] of the unfetched offsets at the end of the pattern, going
    down: the window is shifted for each of them. *)
Fixpoint scan_unfetched (rps : PatternSequence) (l : list Z) (win : list (option Z)) : res (list (option Z)) :=
  match l with
  | [] => Ok win
  | i :: l =>
      f ← arr (fetched rps) i;
      if (f : bool) then Ok win
      else o ← arr (offset rps) i; scan_unfetched rps l (tail win ++ [Some o])
  end.
(** Mark the offset as fetched. *)
Definition mark_fetched (o : Z) (rps : PatternSequence) : res PatternSequence :=
  foldM (λ rps j, x ← arr (offset rps) j;
                  if x =? o then f ← arr_set (fetched rps) j true; Ok (rps <| fetched := f |>) else Ok rps)
    rps (seqZ 0 (size rps)).
(*| NVmain/Prefetchers/STeMS/STeMS.cpp 39-94 STeMS::FetchNextUnused *)
Definition FetchNextUnused (bit0 : Z) (count : nat) (rps : PatternSequence) (prefetchList : list NVMAddress) :
    res (PatternSequence * list NVMAddress) :=
  win ← scan_unfetched rps (rev (seqZ 0 (size rps))) (replicate count None);
  foldM (λ '(rps, pl) x,
    match x with
    | None => Ok (rps, pl)
    | Some o =>
        rps ← mark_fetched o (rps <| startedPrefetch := true |>);
        Ok (rps, pl ++ [SetPhysicalAddress (ps_address rps ⊕ o) (NVMAddress_new bit0)])
    end) (rps, prefetchList) win.

(** Pattern sequence table, active generation table, reconstruction buffers, by
    program counter. *)
(*| NVmain/Prefetchers/STeMS/STeMS.h 74-76 STeMS *)
Record STeMS := mkSTeMS {
  PST : gmap Z PatternSequence;
  AGT : gmap Z PatternSequence;
  ReconBuf : gmap Z PatternSequence
}.
#[global] Instance eta_STeMS : Settable STeMS := fields! mkSTeMS < PST; AGT; ReconBuf >.
Definition STeMS_new : STeMS := mkSTeMS ∅ ∅ ∅.

(** The successes an access counts for: every offset it names that was fetched
    and not used yet. *)
(*| NVmain/Prefetchers/STeMS/STeMS.cpp 122-142 STeMS::NotifyAccess *)
Definition notify_offset (bit0 addr : Z) (st : bool * PatternSequence * list NVMAddress) (i : Z) :
    res (bool * PatternSequence * list NVMAddress) :=
  let '(successful, rps, pl) := st in
  o ← arr (offset rps) i;
  if addr =? ps_address rps ⊕ o then
    f ← arr (fetched rps) i; u ← arr (used rps) i;
    if (f : bool) && negb u then
      '(rps, pl) ← FetchNextUnused bit0 4 rps pl;
      us ← arr_set (used rps) i true;
      Ok (true, rps <| used := us |>, pl)
    else Ok st
  else Ok st.

Definition count_true (a : list bool) (n : Z) : res Z :=
  foldM (λ k i, b ← arr a i; Ok (if (b : bool) then k + 1 else k)) 0 (seqZ 0 n).

(** [0.6f]. *)
Definition f06 : double := f_of_d (dlit 6 10).

(** An access that was no success ends the buffer, and may extend the pattern. *)
(*| NVmain/Prefetchers/STeMS/STeMS.cpp 144-179 STeMS::NotifyAccess *)
Definition notify_failed (pc addr : Z) (rps : PatternSequence) (s : STeMS) : res STeMS :=
  numSuccess ← count_true (used rps) (size rps);
  s ← (if SFleb f06 (ddiv (d_of_Z numSuccess) (d_of_Z (size rps))) then
         match PST s !! pc with
         | Some ps =>
             if size ps <? 16 then
               o ← arr_set (offset ps) (size ps) (addr ⊖ ps_address rps);
               d ← arr_set (delta ps) (size ps) 0;
               Ok (s <| PST ::= <[pc := ps <| offset := o |> <| delta := d |> <| size ::= λ n, n ⊕ 1 |>]> |>)
             else Ok s
         | None => Ok s
         end
       else Ok s);
  Ok (s <| ReconBuf ::= delete pc |>).

(*| NVmain/Prefetchers/STeMS/STeMS.cpp 96-183 STeMS::NotifyAccess *)
Definition STeMS_NotifyAccess (bit0 : Z) (accessOp : NVMainRequest) (s : STeMS) : res (bool * list NVMAddress * STeMS) :=
  let pc := programCounter accessOp in
  match ReconBuf s !! pc with
  | None => Ok (false, [], s)
  | Some rps =>
      let addr := GetPhysicalAddress (address accessOp) in
      if negb (startedPrefetch rps) then Ok (false, [], s)
      else
        '(successful, rps, pl) ← foldM (notify_offset bit0 addr) (false, rps, []) (seqZ 0 (size rps));
        let s := s <| ReconBuf ::= <[pc := rps]> |> in
        if (successful : bool) then Ok (true, pl, s)
        else s ← notify_failed pc addr rps s; Ok (false, pl, s)
  end.

(** A buffer that is being built: the access is marked, and counted. *)
(*| NVmain/Prefetchers/STeMS/STeMS.cpp 197-228 STeMS::DoPrefetch *)
Definition extend_buffer (bit0 addr : Z) (rps : PatternSequence) : res (PatternSequence * list NVMAddress) :=
  '(rps, numUsed) ← foldM (λ '(rps, numUsed) i,
      o ← arr (offset rps) i;
      rps ← (if ps_address rps ⊕ o =? addr then
               u ← arr_set (used rps) i true; f ← arr_set (fetched rps) i true;
               Ok (rps <| used := u |> <| fetched := f |>)
             else Ok rps);
      u ← arr (used rps) i;
      Ok (rps, if (u : bool) then numUsed + 1 else numUsed)) (rps, 0) (seqZ 0 (size rps));
  if 2 <=? numUsed then FetchNextUnused bit0 4 rps [] else Ok (rps, []).

(** A new buffer: a copy of the pattern, with the trigger fetched and used. *)
(*| NVmain/Prefetchers/STeMS/STeMS.cpp 230-256 STeMS::DoPrefetch *)
Definition new_buffer (g : Garbage) (addr : Z) (ps : PatternSequence) : res PatternSequence :=
  rps ← foldM (λ rps i,
      o ← arr (offset ps) i; d ← arr (delta ps) i;
      offset' ← arr_set (offset rps) i o; delta' ← arr_set (delta rps) i d;
      used' ← arr_set (used rps) i false; fetched' ← arr_set (fetched rps) i false;
      Ok (rps <| offset := offset' |> <| delta := delta' |> <| used := used' |> <| fetched := fetched' |>))
    (mkPatternSequence (size ps) addr (g_offset g) (g_delta g) (g_fetched g) (g_used g) (g_count g) (g_started g))
    (seqZ 0 (size ps));
  u ← arr_set (used rps) 0 true; f ← arr_set (fetched rps) 0 true;
  Ok (rps <| useCount := 1 |> <| startedPrefetch := false |> <| used := u |> <| fetched := f |>).

(** Watch the misses of this program counter: eight of them make a pattern. *)
(*| NVmain/Prefetchers/STeMS/STeMS.cpp 277-336 STeMS::DoPrefetch *)
Definition record_miss (g : Garbage) (pc addr : Z) (s : STeMS) : res STeMS :=
  match AGT s !! pc with
  | Some ps =>
      let addressDiff := if addr >? ps_address ps then addr ⊖ ps_address ps else ps_address ps ⊖ addr in
      if addressDiff / 64 <? 256 then
        o ← arr_set (offset ps) (size ps) (addr ⊖ ps_address ps);
        d ← arr_set (delta ps) (size ps) 0;
        let ps := ps <| offset := o |> <| delta := d |> <| size ::= λ n, n ⊕ 1 |> in
        Ok (if 8 <=? size ps then s <| PST ::= <[pc := ps]> |> <| AGT ::= delete pc |> else s <| AGT ::= <[pc := ps]> |>)
      else Ok s
  | None =>
      o ← arr_set (g_offset g) 0 0; d ← arr_set (g_delta g) 0 0;
      Ok (s <| AGT ::= <[pc := mkPatternSequence 1 addr o d (g_fetched g) (g_used g) (g_count g) (g_started g)]> |>)
  end.

(** The answer is always [false]: the list that was filled is not used. *)
(*| NVmain/Prefetchers/STeMS/STeMS.cpp 185-339 STeMS::DoPrefetch *)
Definition STeMS_DoPrefetch (bit0 : Z) (g : Garbage) (triggerOp : NVMainRequest) (s : STeMS) :
    res (bool * list NVMAddress * STeMS) :=
  let pc := programCounter triggerOp in
  let addr := GetPhysicalAddress (address triggerOp) in
  match PST s !! pc with
  | Some ps =>
      match ReconBuf s !! pc with
      | Some rps => '(rps, pl) ← extend_buffer bit0 addr rps; Ok (false, pl, s <| ReconBuf ::= <[pc := rps]> |>)
      | None => rps ← new_buffer g addr ps; Ok (false, [], s <| ReconBuf ::= <[pc := rps]> |>)
      end
  | None => s ← record_miss g pc addr s; Ok (false, [], s)
  end.
End Prefetch.
Import Prefetch.

(** ** The prefetchers of the factory *)

#[export] Instance no_prefetch : PrefetchOps unit := {|
  pf_NotifyAccess r p := Ok (Prefetcher_NotifyAccess r, p);
  pf_DoPrefetch r p := Ok (Prefetcher_DoPrefetch r, p)
|}.
(** Only [DoPrefetch] is overridden. *)
Definition naive_prefetch : PrefetchOps unit := {|
  pf_NotifyAccess r p := Ok (Prefetcher_NotifyAccess r, p);
  pf_DoPrefetch r p := Ok (NaivePrefetcher_DoPrefetch r, p)
|}.
Definition stems_prefetch (bit0 : Z) (g : Garbage) : PrefetchOps STeMS := {|
  pf_NotifyAccess := STeMS_NotifyAccess bit0;
  pf_DoPrefetch := STeMS_DoPrefetch bit0 g
|}.

(** ** The tables stay within their arrays *)

Record seq_ok (n : Z) (ps : PatternSequence) : Prop := {
  sq_size : 1 ≤ size ps ≤ n ∧ n ≤ 16;
  sq_offset : length (offset ps) = 16%nat;
  sq_delta : length (delta ps) = 16%nat;
  sq_fetched : length (fetched ps) = 16%nat;
  sq_used : length (used ps) = 16%nat
}.
Record tables_ok (s : STeMS) : Prop := {
  tb_PST : map_Forall (λ _, seq_ok 16) (PST s);
  tb_AGT : map_Forall (λ _, seq_ok 7) (AGT s);
  tb_ReconBuf : map_Forall (λ _, seq_ok 16) (ReconBuf s)
}.

Lemma arr_ok {A} (a : list A) i : 0 ≤ i < Z.of_nat (length a) → ∃ x, arr a i = Ok x ∧ a !! Z.to_nat i = Some x.
Proof.
  intros Hi. destruct (lookup_lt_is_Some_2 a (Z.to_nat i) ltac:(lia)) as [x Hx]. exists x. unfold arr.
  rewrite (proj2 (Z.leb_le _ _)) by lia. by rewrite Hx.
Qed.
Lemma arr_set_ok {A} (a : list A) i x : 0 ≤ i < Z.of_nat (length a) → arr_set a i x = Ok (<[Z.to_nat i := x]> a).
Proof. intros Hi. unfold arr_set. by rewrite (proj2 (Z.leb_le _ _)), (proj2 (Z.ltb_lt _ _)) by lia. Qed.

(** Run the next array access of the goal. *)
Ltac in_array := first [lia | fields; rewrite ?length_insert; lia].
Ltac get_at a i x Hx :=
  let E := fresh in destruct (arr_ok a i ltac:(in_array)) as (x & E & Hx); rewrite E; clear E; cbn [mbind res_bind].
Ltac get_arr x Hx :=
  match goal with
  | |- ∃ _, (arr ?a ?i ≫= _) = _ ∧ _ => get_at a i x Hx
  | |- context [arr ?a ?i] => get_at a i x Hx
  end.
Ltac set_arr :=
  match goal with |- context [arr_set ?a ?i ?x] =>
    rewrite (arr_set_ok a i x) by in_array; cbn [mbind res_bind] end.
Ltac seq_tac := cbv beta in *; match goal with H : seq_ok _ _ |- _ =>
  let a := fresh in let b := fresh in let c := fresh in let d := fresh in let e := fresh in destruct H as [a b c d e] end;
  split; fields; rewrite ?length_insert; first [lia | assumption | rewrite u64_small by (unfold is_u64; lia); lia].

(** The same pattern but for what was fetched and used. *)
Record same_pattern (ps ps' : PatternSequence) : Prop := {
  sp_size : size ps' = size ps;
  sp_address : ps_address ps' = ps_address ps;
  sp_offset : offset ps' = offset ps
}.
#[export] Instance same_pattern_preorder : PreOrder same_pattern.
Proof. split; [by split|]. intros ? ? ? [] []. split; congruence. Qed.

(** ** What is fetched next

    The offsets at the end of the pattern that were not fetched. *)
Fixpoint until_fetched (l : list (Z * bool)) : list Z :=
  match l with (o, false) :: l => o :: until_fetched l | _ => [] end.
Definition pattern_run (ps : PatternSequence) : list Z :=
  rev (until_fetched (rev (take (Z.to_nat (size ps)) (zip (offset ps) (fetched ps))))).

(** [ps'] is [ps] with the offsets [os] marked. *)
Definition marks (os : list Z) (ps ps' : PatternSequence) : Prop :=
  ∀ j o f, Z.of_nat j < size ps → offset ps !! j = Some o → fetched ps !! j = Some f →
    fetched ps' !! j = Some (f || bool_decide (o ∈ os)).
Lemma marks_app os1 os2 ps ps1 ps2 : same_pattern ps ps1 → marks os1 ps ps1 → marks os2 ps1 ps2 → marks (os1 ++ os2) ps ps2.
Proof.
  intros [E1 _ E3] H1 H2 j o f Hj Ho Hf. rewrite (H2 j o (f || bool_decide (o ∈ os1))); [|congruence|congruence|by apply H1].
  f_equal. rewrite <- orb_assoc, <- bool_decide_or. f_equal. apply bool_decide_ext. by rewrite elem_of_app.
Qed.

Lemma mark_fetched_ok n o ps : seq_ok n ps →
  ∃ ps', mark_fetched o ps = Ok ps' ∧ seq_ok n ps' ∧ same_pattern ps ps' ∧ used ps' = used ps ∧ marks [o] ps ps'.
Proof.
  intros Hps. unfold mark_fetched.
  destruct (foldM_seqZ (λ ps j, x ← arr (offset ps) j;
      if x =? o then f ← arr_set (fetched ps) j true; Ok (ps <| fetched := f |>) else Ok ps)
    (λ i ps', seq_ok n ps' ∧ same_pattern ps ps' ∧ used ps' = used ps ∧
      ∀ j o' f, offset ps !! j = Some o' → fetched ps !! j = Some f →
        fetched ps' !! j = Some (if Z.of_nat j <? i then f || (o' =? o) else f)) 0 (size ps) ps) as (ps' & E & H1 & H2 & H3 & H4).
  - destruct Hps. lia.
  - split_and!; [done|done|done|]. intros j o' f _ Hf. by rewrite (proj2 (Z.ltb_ge _ _)) by lia.
  - intros i ps1 Hi (H1 & H2 & H3 & H4). pose proof H1 as [Hs1 Ho1 Hd1 Hf1 Hu1]. pose proof H2 as [E1 E2 E3].
    get_arr x Hx. rewrite E3 in Hx. destruct (Z.eqb_spec x o) as [->|Hne].
    + set_arr. eexists. split; [done|]. split_and!; [seq_tac|by split; fields|by fields|]. fields. intros j o' f Ho Hf.
      destruct (decide (j = Z.to_nat i)) as [->|Hj].
      * rewrite list_lookup_insert_eq by lia. rewrite Hx in Ho. injection Ho as <-.
        rewrite (proj2 (Z.ltb_lt _ _)), Z.eqb_refl by lia. by rewrite orb_true_r.
      * rewrite list_lookup_insert_ne by done. rewrite (H4 j o' f Ho Hf). f_equal.
        assert (Z.of_nat j < i + 1 ↔ Z.of_nat j < i) as Hiff by lia.
        destruct (Z.ltb_spec (Z.of_nat j) i), (Z.ltb_spec (Z.of_nat j) (i + 1)); first [done | lia].
    + exists ps1. split; [done|]. split_and!; [done..|]. intros j o' f Ho Hf. rewrite (H4 j o' f Ho Hf). f_equal.
      destruct (Z.ltb_spec (Z.of_nat j) i), (Z.ltb_spec (Z.of_nat j) (i + 1)); try done; [lia|].
      assert (j = Z.to_nat i) as -> by lia. rewrite Hx in Ho. injection Ho as <-.
      rewrite (proj2 (Z.eqb_neq _ _)) by done. by rewrite orb_false_r.
  - exists ps'. split_and!; [done..|]. intros j o' f Hj Ho Hf. rewrite (H4 j o' f Ho Hf), (proj2 (Z.ltb_lt _ _)) by lia.
    do 2 f_equal. destruct (Z.eqb_spec o' o) as [->|Hne]; [by rewrite bool_decide_true by by left|].
    rewrite bool_decide_false; [done|]. by rewrite list_elem_of_singleton.
Qed.

Lemma scan_spec n ps m : seq_ok n ps → (m ≤ 16)%nat → ∀ win, win ≠ [] →
  let ds := until_fetched (rev (take m (zip (offset ps) (fetched ps)))) in
  scan_unfetched ps (rev (seqZ 0 (Z.of_nat m))) win = Ok (drop (length ds) (win ++ (Some <$> ds))).
Proof.
  intros [Hs Ho Hd Hf Hu]. induction m as [|m IH]; intros Hm win Hw; cbv zeta; [by rewrite app_nil_r|].
  rewrite Nat2Z.inj_succ, <- Z.add_1_r, seqZ_app by lia. rewrite rev_app_distr. cbn [rev app].
  replace (seqZ (0 + Z.of_nat m) 1) with [Z.of_nat m] by done. cbn [rev app scan_unfetched].
  get_arr o Ho'. get_arr f Hf'. rewrite Nat2Z.id in *.
  assert (zip (offset ps) (fetched ps) !! m = Some (o, f)) as Hz by by apply lookup_zip_Some.
  rewrite (take_S_r _ _ _ Hz), rev_app_distr. cbn [rev app until_fetched]. destruct f; [by rewrite app_nil_r|].
  rewrite IH by (try lia; by destruct (tail win)). cbv zeta. set (ds := until_fetched _).
  destruct win as [|w win]; [done|]. cbn [tail length app drop fmap list_fmap]. by rewrite <- app_assoc.
Qed.

Lemma issue_marked bit0 n os : ∀ ps pl, seq_ok n ps →
  ∃ ps', foldM (λ '(rps, pl) x,
    match x with
    | None => Ok (rps, pl)
    | Some o =>
        rps ← mark_fetched o (rps <| startedPrefetch := true |>);
        Ok (rps, pl ++ [SetPhysicalAddress (ps_address rps ⊕ o) (NVMAddress_new bit0)])
    end) (ps, pl) (Some <$> os) =
    Ok (ps', pl ++ ((λ o, SetPhysicalAddress (ps_address ps ⊕ o) (NVMAddress_new bit0)) <$> os)) ∧
  seq_ok n ps' ∧ same_pattern ps ps' ∧ used ps' = used ps ∧ marks os ps ps'.
Proof.
  induction os as [|o os IH]; intros ps pl Hps; cbn [fmap list_fmap foldM].
  - exists ps. rewrite app_nil_r. split_and!; [done..|]. intros j o f _ _ ->. f_equal. by rewrite orb_false_r.
  - destruct (mark_fetched_ok n o (ps <| startedPrefetch := true |>)) as (ps1 & E & H1 & H2 & H3 & H4); [seq_tac|].
    rewrite E. cbn [mbind res_bind]. destruct (IH ps1 (pl ++ [SetPhysicalAddress (ps_address ps1 ⊕ o) (NVMAddress_new bit0)]) H1)
      as (ps' & -> & H1' & H2' & H3' & H4').
    assert (same_pattern ps ps1) as Hsp by (destruct H2; split; assumption).
    exists ps'. split; [|split_and!; [done|by etransitivity|by rewrite H3'|]].
    + destruct Hsp as [_ -> _]. by rewrite <- app_assoc.
    + change (o :: os) with ([o] ++ os). eapply marks_app; [exact Hsp|exact H4|exact H4'].
Qed.

Lemma FetchNextUnused_ok n bit0 count ps pl : seq_ok n ps → (0 < count)%nat →
  let os := rev (take count (pattern_run ps)) in
  ∃ ps', FetchNextUnused bit0 count ps pl =
    Ok (ps', pl ++ ((λ o, SetPhysicalAddress (ps_address ps ⊕ o) (NVMAddress_new bit0)) <$> os)) ∧
  seq_ok n ps' ∧ same_pattern ps ps' ∧ used ps' = used ps ∧ marks os ps ps'.
Proof.
  intros Hps Hc. cbv zeta. unfold FetchNextUnused. pose proof Hps as [Hs _ _ _ _].
  rewrite <- (Z2Nat.id (size ps)) by lia. rewrite (scan_spec n) by first [done | lia | destruct count; [lia|done]].
  cbn [mbind res_bind]. unfold pattern_run. set (ds := until_fetched _).
  assert (drop (length ds) (replicate count None ++ (Some <$> ds)) =
    replicate (count - length ds) None ++ (Some <$> rev (take count (rev ds)))) as ->.
  { rewrite drop_app, length_replicate, drop_replicate, <- fmap_drop. do 2 f_equal.
    rewrite <- (rev_involutive ds) at 2. rewrite skipn_rev, length_rev. f_equal.
    destruct (decide (count ≤ length ds)%nat); [f_equal; lia|]. rewrite !take_ge; rewrite ?length_rev; lia || done. }
  rewrite foldM_app. assert (∀ k st, foldM (λ '(rps, pl) x,
    match x with
    | None => Ok (rps, pl)
    | Some o =>
        rps ← mark_fetched o (rps <| startedPrefetch := true |>);
        Ok (rps, pl ++ [SetPhysicalAddress (ps_address rps ⊕ o) (NVMAddress_new bit0)])
    end) st (replicate k None) = Ok st) as ->.
  { induction k as [|k IH]; intros [? ?]; [done|]. cbn [replicate foldM mbind res_bind]. apply IH. }
  cbn [mbind res_bind]. by apply issue_marked.
Qed.

(** ** No call fails *)

Lemma count_true_ok a n : 0 ≤ n ≤ Z.of_nat (length a) → ∃ k, count_true a n = Ok k.
Proof.
  intros Hn. unfold count_true.
  destruct (foldM_seqZ (λ k i, b ← arr a i; Ok (if (b : bool) then k + 1 else k)) (λ _ _, True) 0 n 0) as (k & -> & _);
    [lia|done| |by exists k].
  intros i k Hi _. get_arr b Hb. eauto.
Qed.

Lemma notify_offsets_ok bit0 addr ps : seq_ok 16 ps →
  ∃ b ps' pl, foldM (notify_offset bit0 addr) (false, ps, []) (seqZ 0 (size ps)) = Ok (b, ps', pl) ∧
    seq_ok 16 ps' ∧ same_pattern ps ps'.
Proof.
  intros Hps.
  destruct (foldM_seqZ (notify_offset bit0 addr) (λ _ st, seq_ok 16 st.1.2 ∧ same_pattern ps st.1.2) 0 (size ps) (false, ps, []))
    as ([[b ps'] pl] & E & H1 & H2); [destruct Hps; lia|done| |by exists b, ps', pl].
  intros i [[b ps1] pl] Hi [H1 H2]. cbn [fst snd] in H1, H2. unfold notify_offset.
  pose proof H1 as [Hs Ho Hd Hf Hu]. pose proof H2 as [E1 _ _].
  get_arr o Ho'. destruct (_ =? _); [|by eexists]. get_arr f Hf'. get_arr u Hu'.
  destruct (f && negb u); [|by eexists].
  destruct (FetchNextUnused_ok 16 bit0 4 ps1 pl H1 ltac:(lia)) as (ps2 & -> & H1' & H2' & Eu & _).
  cbn [mbind res_bind]. pose proof H1' as [_ _ _ _ Hu2]. set_arr. eexists. split; [done|]. cbn [fst snd]. split; [seq_tac|].
  etransitivity; [exact H2|]. destruct H2'. by split; fields.
Qed.

Lemma notify_failed_ok pc addr ps s : tables_ok s → seq_ok 16 ps → ∃ s', notify_failed pc addr ps s = Ok s' ∧ tables_ok s'.
Proof.
  intros [HP HA HR] [Hs Ho Hd Hf Hu]. unfold notify_failed.
  destruct (count_true_ok (used ps) (size ps)) as [k ->]; [lia|]. cbn [mbind res_bind].
  assert (∀ s1, tables_ok s1 → tables_ok (s1 <| ReconBuf ::= delete pc |>)) as Hdel.
  { intros s1 [? ? ?]. split; fields; [done|done|]. by apply map_Forall_delete. }
  destruct (SFleb _ _); [|eexists; split; [done|by apply Hdel]].
  destruct (PST s !! pc) as [p|] eqn:Ep; [|eexists; split; [done|by apply Hdel]].
  pose proof (HP pc p Ep) as Hp. destruct (Z.ltb_spec (size p) 16); [|eexists; split; [done|by apply Hdel]].
  pose proof Hp as [Hs' Ho' Hd' _ _]. do 2 set_arr. eexists. split; [done|]. apply Hdel. split; fields; [|done|done].
  apply map_Forall_insert_2; [|done]. seq_tac.
Qed.

Lemma NotifyAccess_ok bit0 r s : tables_ok s → ∃ b pl s', STeMS_NotifyAccess bit0 r s = Ok (b, pl, s') ∧ tables_ok s'.
Proof.
  intros Hs. pose proof Hs as [HP HA HR]. unfold STeMS_NotifyAccess. cbv zeta. destruct (ReconBuf s !! _) as [ps|] eqn:Eb; [|by eexists _, _, s].
  destruct (startedPrefetch ps); [|by eexists _, _, s]. cbn [negb]. pose proof (HR _ _ Eb) as Hps.
  destruct (notify_offsets_ok bit0 (GetPhysicalAddress (address r)) ps Hps) as (b & ps' & pl & -> & Hps' & _).
  cbn [mbind res_bind].
  assert (tables_ok (s <| ReconBuf ::= <[programCounter r := ps']> |>)) as Hs'.
  { split; fields; [done|done|]. by apply map_Forall_insert_2. }
  destruct b; [by eexists _, _, _|].
  destruct (notify_failed_ok (programCounter r) (GetPhysicalAddress (address r)) ps' _ Hs' Hps') as (s2 & -> & Hs2).
  by eexists _, _, _.
Qed.

Lemma extend_buffer_ok bit0 addr ps : seq_ok 16 ps → ∃ ps' pl, extend_buffer bit0 addr ps = Ok (ps', pl) ∧ seq_ok 16 ps'.
Proof.
  intros Hps. unfold extend_buffer.
  match goal with |- context [foldM ?f (ps, 0) _] =>
    destruct (foldM_seqZ f (λ _ st, seq_ok 16 st.1 ∧ size st.1 = size ps) 0 (size ps) (ps, 0)) as ([ps' k] & -> & H1 & H2) end.
  - destruct Hps. lia.
  - done.
  - intros i [ps1 k] Hi [H1 H2]. cbn [fst] in H1, H2. pose proof H1 as [Hs Ho Hd Hf Hu]. get_arr o Ho'.
    destruct (_ =? _).
    + do 2 set_arr. get_arr u Hu'. eexists. split; [done|]. cbn [fst]. split; [seq_tac|by fields].
    + cbn [mbind res_bind]. get_arr u Hu'. by eexists.
  - cbn [mbind res_bind fst] in *. destruct (2 <=? k); [|by eexists _, _].
    destruct (FetchNextUnused_ok 16 bit0 4 ps' [] H1 ltac:(lia)) as (ps2 & -> & H1' & _). by eexists _, _.
Qed.

Lemma new_buffer_ok g addr ps : garbage_ok g → seq_ok 16 ps → ∃ ps', new_buffer g addr ps = Ok ps' ∧ seq_ok 16 ps'.
Proof.
  intros (G1 & G2 & G3 & G4) Hps. unfold new_buffer. pose proof Hps as [Hs Ho Hd _ _].
  match goal with |- context [foldM ?f ?a _] =>
    destruct (foldM_seqZ f (λ _ st, seq_ok 16 st) 0 (size ps) a) as (ps' & -> & H1) end.
  - lia.
  - by split.
  - intros i ps1 Hi H1. pose proof H1 as [Hs1 Ho1 Hd1 Hf1 Hu1]. get_arr o Ho'. get_arr d Hd'. do 4 set_arr.
    eexists. split; [done|]. seq_tac.
  - cbn [mbind res_bind]. pose proof H1 as [Hs1 Ho1 Hd1 Hf1 Hu1]. do 2 set_arr. eexists. split; [done|]. seq_tac.
Qed.

Lemma record_miss_ok g pc addr s : garbage_ok g → tables_ok s → ∃ s', record_miss g pc addr s = Ok s' ∧ tables_ok s'.
Proof.
  intros (G1 & G2 & G3 & G4) Hs. pose proof Hs as [HP HA HR]. unfold record_miss. destruct (AGT s !! pc) as [ps|] eqn:Ea.
  - pose proof (HA _ _ Ea) as Hps. pose proof Hps as [Hsz Ho Hd Hf Hu]. cbv zeta. destruct (_ <? 256); [|by eexists].
    do 2 set_arr. eexists. split; [done|]. fields. rewrite u64_small by (unfold is_u64; lia).
    destruct (Z.leb_spec 8 (size ps + 1)); split; fields; try done.
    + apply map_Forall_insert_2; [|done]. seq_tac.
    + by apply map_Forall_delete.
    + apply map_Forall_insert_2; [|done]. seq_tac.
  - do 2 set_arr. eexists. split; [done|]. split; fields; [done| |done]. apply map_Forall_insert_2; [|done].
    split; cbn [size offset delta fetched used]; rewrite ?length_insert; (lia || done).
Qed.

Lemma DoPrefetch_ok bit0 g r s : garbage_ok g → tables_ok s →
  ∃ pl s', STeMS_DoPrefetch bit0 g r s = Ok (false, pl, s') ∧ tables_ok s'.
Proof.
  intros Hg Hs. pose proof Hs as [HP HA HR]. unfold STeMS_DoPrefetch. cbv zeta. destruct (PST s !! _) as [ps|] eqn:Ep.
  - destruct (ReconBuf s !! _) as [rps|] eqn:Er.
    + destruct (extend_buffer_ok bit0 (GetPhysicalAddress (address r)) rps (HR _ _ Er)) as (ps' & pl & -> & Hps').
      eexists _, _. split; [done|]. split; fields; [done|done|]. by apply map_Forall_insert_2.
    + destruct (new_buffer_ok g (GetPhysicalAddress (address r)) ps Hg (HP _ _ Ep)) as (ps' & -> & Hps').
      eexists _, _. split; [done|]. split; fields; [done|done|]. by apply map_Forall_insert_2.
  - destruct (record_miss_ok g (programCounter r) (GetPhysicalAddress (address r)) s Hg Hs) as (s' & -> & Hs'). by eexists _, _.
Qed.

(** A call of the prefetcher: a notification, or a request with what [new] left
    in the memory it may allocate. *)
Inductive stems_call := CallNotify (r : NVMainRequest) | CallDo (g : Garbage) (r : NVMainRequest).
Definition stems_exec (bit0 : Z) (c : stems_call) (s : STeMS) : res (bool * list NVMAddress * STeMS) :=
  match c with CallNotify r => STeMS_NotifyAccess bit0 r s | CallDo g r => STeMS_DoPrefetch bit0 g r s end.
Fixpoint stems_run (bit0 : Z) (cs : list stems_call) (s : STeMS) : res (list bool * STeMS) :=
  match cs with
  | [] => Ok ([], s)
  | c :: cs => '(b, _, s) ← stems_exec bit0 c s; '(bs, s) ← stems_run bit0 cs s; Ok (b :: bs, s)
  end.

Lemma stems_run_ok bit0 cs : ∀ s, tables_ok s → Forall (λ c, match c with CallDo g _ => garbage_ok g | _ => True end) cs →
  ∃ bs s', stems_run bit0 cs s = Ok (bs, s') ∧ tables_ok s'.
Proof.
  induction cs as [|c cs IH]; intros s Hs Hc; cbn [stems_run]; [by exists [], s|]. apply Forall_cons in Hc as [Hc Hcs].
  assert (∃ b pl s1, stems_exec bit0 c s = Ok (b, pl, s1) ∧ tables_ok s1) as (b & pl & s1 & -> & Hs1).
  { destruct c as [r|g r]; [by apply NotifyAccess_ok|]. destruct (DoPrefetch_ok bit0 g r s Hc Hs) as (pl & s1 & H & Hs1).
    by exists false, pl, s1. }
  cbn [mbind res_bind]. destruct (IH s1 Hs1 Hcs) as (bs & s' & -> & Hs'). by eexists _, _.
Qed.

(** C40. The tables of the STeMS prefetcher stay within their arrays of sixteen:
    whatever the requests and whatever [new] returns, no call of it accesses an
    array out of bounds; patterns being learned have less than eight offsets,
    learned ones and buffers at most sixteen, and never none. *)
Theorem STeMS_in_bounds bit0 cs :
  Forall (λ c, match c with CallDo g _ => garbage_ok g | _ => True end) cs →
  ∃ bs s, stems_run bit0 cs STeMS_new = Ok (bs, s) ∧ tables_ok s.
Proof. apply stems_run_ok. split; apply map_Forall_empty. Qed.

(** What STeMS prefetches next: the first [count] of the offsets at the end of
    the pattern that were not fetched, the last of them first; they are marked
    as fetched, with all offsets equal to them, and nothing else is. *)
Theorem FetchNextUnused_fetches n bit0 count ps pl : seq_ok n ps → (0 < count)%nat →
  let os := rev (take count (pattern_run ps)) in
  ∃ ps', FetchNextUnused bit0 count ps pl =
    Ok (ps', pl ++ ((λ o, SetPhysicalAddress (ps_address ps ⊕ o) (NVMAddress_new bit0)) <$> os)) ∧
  seq_ok n ps' ∧ same_pattern ps ps' ∧ used ps' = used ps ∧ marks os ps ps'.
Proof. apply FetchNextUnused_ok. Qed.

Definition some_garbage : Garbage :=
  mkGarbage (replicate 16 7) (replicate 16 7) (replicate 16 true) (replicate 16 false) 9 true.
Definition miss (a : Z) : NVMainRequest :=
  (NVMainRequest_new MEM_REQUEST_INCOMPLETE UNKNOWN_ACCESS 0) <| address := SetPhysicalAddress a (NVMAddress_new 0) |>
    <| programCounter := 400 |>.
(** Eight misses make a pattern, the ninth a buffer, and two more fill it. *)
Definition some_calls : list stems_call := (λ i, CallDo some_garbage (miss (4096 + 64 * i))) <$> seqZ 0 11.
Lemma some_garbage_ok : garbage_ok some_garbage.
Proof. by split_and!. Qed.

Lemma STeMS_in_bounds_witness : ∃ bs s, stems_run 0 some_calls STeMS_new = Ok (bs, s) ∧ tables_ok s.
Proof. apply STeMS_in_bounds. repeat (apply Forall_cons; split; [apply some_garbage_ok|]). constructor. Defined.

Definition some_pattern : PatternSequence :=
  mkPatternSequence 6 4096 (map (Z.mul 64) (seqZ 0 16)) (replicate 16 0)
    ([true; true; false; true] ++ replicate 12 false) (replicate 16 false) 1 true.
Lemma FetchNextUnused_fetches_witness :
  ∃ ps', FetchNextUnused 0 4 some_pattern [] =
    Ok (ps', (λ o, SetPhysicalAddress (4096 ⊕ o) (NVMAddress_new 0)) <$> [320; 256]) ∧ seq_ok 6 ps' ∧
    same_pattern some_pattern ps' ∧ used ps' = used some_pattern ∧ marks [320; 256] some_pattern ps'.
Proof. apply (FetchNextUnused_fetches 6 0 4 some_pattern []); [split; (lia || (split; [cbn; lia|lia]) || done)|lia]. Defined.
