(* ===== verification/NVMainTop.v ===== *)
(** * The top level

    NVM/nvmain.cpp: the whole memory. A request gets its address translated, may
    be answered from the prefetch buffer, may be redirected by the tag cache
    (channel 0 is DRAM and caches channel 1, the NVRAM), and goes to the memory
    controller of its channel; completed requests end here. *)

From S2P Require Import Prelude NVMTypes Translation Config Params SimInterface Heap EventQueue Frame Tree.
From S2P Require Import Traces TagPolicy Prefetchers.

(** What the top level asks of a memory controller besides [ChildOps]. *)
Class AtomicOps (C : Type) := { ch_IssueAtomic : ReqPtr → ST (Sim C) bool }.
(** A trace writer with its state. *)
Class WriterOps (W : Type) := {
  wr_SetTraceFile : string → W → W;
  wr_SetEcho : bool → W → W;
  wr_SetNextAccess : Trace.TraceLine → W → res (bool * W)
}.
(** [opens]: the files that can be written. *)
Definition NVMainTrace_writer (opens : string → bool) : WriterOps Trace.NVMainTraceWriter := {|
  wr_SetTraceFile f := Trace.SetTraceFile f (opens f);
  wr_SetEcho := Trace.SetEcho;
  wr_SetNextAccess := Trace.SetNextAccess
|}.

Module Main.
(** The counters that are only reported. *)
Record Counters := mkCounters {
  totalReqs : Z; reqsHit : Z; reqsMiss : Z; notIssuableTag : Z; tagReplacements : Z;
  RDHit : Z; RDMiss : Z; WRHit : Z; WRMiss : Z;
  RD_Replc : Z; RD_Clean : Z; RD_Present : Z;
  readsOps : Z; readsNotDRAM : Z
}.
#[global] Instance eta_Counters : Settable Counters := fields! mkCounters
  < totalReqs; reqsHit; reqsMiss; notIssuableTag; tagReplacements; RDHit; RDMiss; WRHit; WRMiss;
    RD_Replc; RD_Clean; RD_Present; readsOps; readsNotDRAM >.

(** The request stubs and vectors that no function uses are left out. *)
(*| NVmain/NVM/nvmain.h 89-151 NVMain *)
Record NVMain (P W : Type) := mkNVMain {
  p : Params;
  configured : bool;
  translator : AddressTranslator;
  totalReadRequests : Z;
  totalWriteRequests : Z;
  successfulPrefetches : Z;
  unsuccessfulPrefetches : Z;
  numChannels : Z;
  prefetcher : option P;
  prefetchBuffer : list ReqPtr;
  pendingMemoryRequests : list ReqPtr;
  preTracer : option W;
  useTagCache : bool;
  replacementPolicy : LRU.LRU;
  inverseMap : gmap Z Z;
  tagLines : Z;
  tmpAddr : Z;
  waitingDRAMWrite : list ReqPtr;
  DRAMReadSize : Z;
  DRAMWriteSize : Z;
  NVRAMWriteSize : Z;
  NVWtoDRW : gmap Z Z;
  counters : Counters
}.
Arguments mkNVMain {P W}.
Arguments p {P W}. Arguments configured {P W}. Arguments translator {P W}. Arguments totalReadRequests {P W}.
Arguments totalWriteRequests {P W}. Arguments successfulPrefetches {P W}. Arguments unsuccessfulPrefetches {P W}.
Arguments numChannels {P W}. Arguments prefetcher {P W}. Arguments prefetchBuffer {P W}.
Arguments pendingMemoryRequests {P W}. Arguments preTracer {P W}. Arguments useTagCache {P W}.
Arguments replacementPolicy {P W}. Arguments inverseMap {P W}. Arguments tagLines {P W}. Arguments tmpAddr {P W}.
Arguments waitingDRAMWrite {P W}. Arguments DRAMReadSize {P W}. Arguments DRAMWriteSize {P W}.
Arguments NVRAMWriteSize {P W}. Arguments NVWtoDRW {P W}. Arguments counters {P W}.
#[global] Instance eta_NVMain P W : Settable (NVMain P W) := fields! mkNVMain
  < p; configured; translator; totalReadRequests; totalWriteRequests; successfulPrefetches; unsuccessfulPrefetches;
    numChannels; prefetcher; prefetchBuffer; pendingMemoryRequests; preTracer; useTagCache; replacementPolicy;
    inverseMap; tagLines; tmpAddr; waitingDRAMWrite; DRAMReadSize; DRAMWriteSize; NVRAMWriteSize; NVWtoDRW; counters >.
#[global] Instance NVMain_decodes P W : Decodes (NVMain P W) := {| at_of := translator; set_at t b := b <| translator := t |> |}.
#[global] Instance NVMain_decodes_laws P W : DecodesLaws (NVMain P W).
Proof. by split. Qed.

(** The policy pointer and the number of channels are set by [SetConfig] only. *)
(*| NVmain/NVM/nvmain.cpp 54-78 NVMain::NVMain *)
Definition NVMain_new {P W} (p0 : Params) (at0 : AddressTranslator) (policy0 : LRU.LRU) (numChannels0 tagLines0 : Z) : NVMain P W :=
  mkNVMain p0 false at0 0 0 0 0 numChannels0 None [] [] None false policy0 ∅ tagLines0 0 [] 0 0 0 ∅
    (mkCounters 0 0 0 0 0 0 0 0 0 0 0 0 0 0).

Section Operations.
Context {P W C : Type} `{PrefetchOps P} `{WriterOps W} `{ChildOps C} `{AtomicOps C}.
Variable this : ObjPtr.
Variable out : six.
(** What a new request, a new trace line and a new block leave unset. *)
Variable status0 : MemRequestStatus.
Variable access0 : NVMAccessType.
Variable bit0 : Z.
Variable fresh : nat → Z.
Variable parent_RequestComplete : ReqPtr → ST (Sim (Node (NVMain P W) C)) bool.
Abbreviation st := (Sim (Node (NVMain P W) C)) (only parsing).
Abbreviation mainST := (ST (Sim (Node (NVMain P W) C))) (only parsing).

Definition set_main (f : NVMain P W → NVMain P W) : mainST unit := set_me f.
Definition inc (n : Z) : Z := n ⊕ 1.
Definition bump_counters (f : Counters → Counters) : mainST unit := set_main (λ b, b <| counters ::= f |>).

(** [GetDecoder( )->Translate( address, &row, ... )]. *)
Definition translate_addr (a : Z) : mainST six :=
  b ← me; '(v, t) ← lift (Translate a out (translator b)); set_main (set_at t);; mret v.
Definition reverse_addr (v : six) : mainST Z :=
  b ← me; '(a, t) ← lift (ReverseTranslate v (translator b)); set_main (set_at t);; mret a.
Definition with_channel (c : Z) (v : six) : six := mkSix (s_row v) (s_col v) (s_bank v) (s_rank v) c (s_subarray v).
Definition translated_as (v : six) : NVMAddress → NVMAddress :=
  SetTranslatedAddress (s_row v) (s_col v) (s_bank v) (s_rank v) (s_channel v) (s_subarray v).
(** [SetTranslatedAddress] and then [SetPhysicalAddress( ReverseTranslate( ... ) )]. *)
Definition redirect (q : ReqPtr) (v : six) : mainST unit :=
  a ← reverse_addr v; r ← load_req q;
  store_req q (r <| address ::= λ x, SetPhysicalAddress a (translated_as v x) |>).

(** ** Requests *)

(** [memoryControllers[ channel ]]. *)
(*| NVmain/NVM/nvmain.cpp 269-282 NVMain::IsIssuable *)
Definition IsIssuable (q : ReqPtr) : mainST (bool * option FailReasons) :=
  r ← load_req q; v ← translate_addr (GetPhysicalAddress (address r));
  on_child (Z.to_nat (s_channel v)) (ch_IsIssuable q).

(** One prefetch. The trigger's address is translated, not the prefetch's. *)
Definition prefetch_one (q : ReqPtr) (a : NVMAddress) : mainST unit :=
  r ← load_req q;
  pf ← lift (NVMainRequest_assign (NVMainRequest_new status0 access0 bit0) r);
  pfRequest ← new_req (pf <| address ::= λ x, NVMAddress_assign x a |> <| isPrefetch := true |> <| owner := Some this |>);
  v ← translate_addr (GetPhysicalAddress (address r));
  store_req q (r <| address ::= translated_as v |> <| bulkCmd := CMD_NOP |>);;
  to_child out pfRequest;;
  mret ().
(*| NVmain/NVM/nvmain.cpp 284-310 NVMain::GeneratePrefetches *)
Fixpoint GeneratePrefetches (q : ReqPtr) (prefetchList : list NVMAddress) : mainST unit :=
  match prefetchList with
  | [] => mret ()
  | a :: l => prefetch_one q a;; GeneratePrefetches q l
  end.

(*| NVmain/NVM/nvmain.cpp 312-326 NVMain::IssuePrefetch *)
Definition IssuePrefetch (q : ReqPtr) : mainST unit :=
  r ← load_req q; b ← me;
  match prefetcher b with
  | Some pf =>
      if bool_decide (type r = READ) && negb (isPrefetch r) then
        '(go, l, pf) ← lift (pf_DoPrefetch r pf);
        set_main (λ b, b <| prefetcher := Some pf |>);;
        if (go : bool) then GeneratePrefetches q l else mret ()
      else mret ()
  | None => mret ()
  end.

(** The first buffered prefetch of the same address. *)
Fixpoint find_prefetch (a : Z) (l : list ReqPtr) : mainST (option ReqPtr) :=
  match l with
  | [] => mret None
  | pf :: l => r ← load_req pf;
      if GetPhysicalAddress (address r) =? a then mret (Some pf) else find_prefetch a l
  end.
(*| NVmain/NVM/nvmain.cpp 328-361 NVMain::CheckPrefetch *)
Definition CheckPrefetch (q : ReqPtr) : mainST bool :=
  r ← load_req q; b ← me;
  found ← find_prefetch (GetPhysicalAddress (address r)) (prefetchBuffer b);
  match found with
  | None => mret false
  | Some pfRequest =>
      pf ← lift (deref NullDeref (prefetcher b));
      '(more, l, pf) ← lift (pf_NotifyAccess r pf);
      set_main (λ b, b <| prefetcher := Some pf |>);;
      (if (more : bool) then GeneratePrefetches q l else mret ());;
      set_main (λ b, b <| successfulPrefetches ::= inc |>);;
      delete_req pfRequest;;
      set_main (λ b, b <| prefetchBuffer ::= filter (λ x, x ≠ pfRequest) |>);;
      mret true
  end.

(*| NVmain/NVM/nvmain.cpp 363-381 NVMain::PrintPreTrace *)
Definition PrintPreTrace (q : ReqPtr) : mainST unit :=
  b ← me;
  if Params.PrintPreTrace (p b) || EchoPreTrace (p b) then
    r ← load_req q; n ← now;
    tl ← lift (Trace.SetLine (address r) (type r) n (data r) (oldData r) (threadId r) (Trace.TraceLine_new bit0));
    w ← lift (deref NullDeref (preTracer b));
    '(_, w) ← lift (wr_SetNextAccess tl w);
    set_main (λ b, b <| preTracer := Some w |>)
  else mret ().

(** ** The tag cache

    A request that the tag cache makes: for the address [a] with fields [v]. *)
Definition tag_request (t : OpType) (a : Z) (v : six) (d : NVMDataBlock) (fl : Z) : mainST ReqPtr :=
  let r := NVMainRequest_new status0 access0 bit0 in
  d ← lift (NVMDataBlock_assign (data r) d);
  new_req (r <| access := UNKNOWN_ACCESS |> <| address ::= λ x, translated_as v (SetPhysicalAddress a x) |>
             <| status := MEM_REQUEST_INCOMPLETE |> <| type := t |> <| owner := Some this |> <| data := d |> <| flags := fl |>).
Definition EVICT : Z := flag_mask FLAG_EVICT.
Definition EVICT_SKIP : Z := set_flag (flag_mask FLAG_EVICT) (flag_mask FLAG_SKIP_TAG).
(** The sizes stop at 19. *)
Definition bump_size (n : Z) : Z := if n + 1 =? 20 then n else n + 1.

Definition policy_get (a : Z) : mainST (option Z) :=
  b ← me; '(x, c) ← lift (LRU.get a (replacementPolicy b)); set_main (λ b, b <| replacementPolicy := c |>);; mret x.
Definition policy_put (a d : Z) : mainST unit :=
  b ← me; c ← lift (LRU.put a d (replacementPolicy b)); set_main (λ b, b <| replacementPolicy := c |>).
Definition policy_remove : mainST Z :=
  b ← me; '(d, c) ← lift (LRU.removeLRU (replacementPolicy b)); set_main (λ b, b <| replacementPolicy := c |>);; mret d.

(** The cache is full: the line of the least recently used block is taken over.
    The data waits for its read; the read is the result. *)
(*| NVmain/NVM/nvmain.cpp 444-486 NVMain::IssueCommand *)
Definition replace_line (q : ReqPtr) : mainST ReqPtr :=
  freeAddr ← policy_remove;
  r ← load_req q;
  policy_put (GetPhysicalAddress (address r)) freeAddr;;
  set_main (λ b, b <| inverseMap ::= <[freeAddr := GetPhysicalAddress (address r)]> |>);;
  v ← translate_addr freeAddr;
  w ← tag_request WRITE freeAddr v (data r) EVICT_SKIP;
  set_main (λ b, b <| waitingDRAMWrite ::= λ l, l ++ [w] |> <| DRAMWriteSize ::= bump_size |>);;
  block ← lift (SetSize 64 fresh NVMDataBlock_new);
  rd ← tag_request READ freeAddr v block EVICT;
  set_main (λ b, b <| DRAMReadSize ::= bump_size |>);;
  mret rd.

(** One look at [tmpAddr], in channel 0: the address if it is not a key of the
    policy; else [tmpAddr] moves on. *)
(*| NVmain/NVM/nvmain.cpp 494-506 NVMain::IssueCommand *)
Definition free_round : mainST (option (Z * six)) :=
  b ← me; v ← translate_addr (tmpAddr b);
  let v := with_channel 0 v in
  a ← reverse_addr v; b ← me;
  if LRU.has a (replacementPolicy b) then set_main (λ b, b <| tmpAddr ::= λ x, x ⊕ 64 |>);; mret None
  else mret (Some (a, v)).
(** The loop, up to [2 ^ n] rounds of it. *)
(*| NVmain/NVM/nvmain.cpp 494-506 NVMain::IssueCommand *)
Fixpoint free_rounds (n : nat) : mainST (option (Z * six)) :=
  match n with
  | O => free_round
  | S n => o ← free_rounds n; match o with Some x => mret (Some x) | None => free_rounds n end
  end.
(** [tmpAddr] is a 64-bit number and advances by 64: after [2 ^ 58] rounds the loop
    is where it began, so that the error stands for a loop that never ends. *)
(*| NVmain/NVM/nvmain.cpp 494-506 NVMain::IssueCommand *)
Definition find_free : mainST (Z * six) :=
  o ← free_rounds 58;
  match o with Some x => mret x | None => fail OutOfFuel end.
(** A line for the block: the address and its fields. *)
(*| NVmain/NVM/nvmain.cpp 494-515 NVMain::IssueCommand *)
Definition allocate_line (q : ReqPtr) : mainST (Z * six) :=
  '(a, v) ← find_free;
  set_main (λ b, b <| tmpAddr ::= λ x, x ⊕ 64 |>);;
  r ← load_req q;
  policy_put (GetPhysicalAddress (address r)) a;;
  set_main (λ b, b <| inverseMap ::= λ m, match m !! a with Some _ => m | None => <[a := GetPhysicalAddress (address r)]> m end |>);;
  mret (a, v).

(** A block that is in the DRAM. *)
(*| NVmain/NVM/nvmain.cpp 530-546 NVMain::IssueCommand *)
Definition tag_hit (q : ReqPtr) (d : Z) : mainST (option Z) :=
  bump_counters (λ c, c <| reqsHit ::= inc |>);;
  v ← translate_addr d;
  r ← load_req q;
  bump_counters (λ c, if decide (type r = READ) then c <| RDHit ::= inc |>
                      else if decide (type r = WRITE) then c <| WRHit ::= inc |> else c);;
  redirect q v;;
  mret (Some (s_channel v)).
(** A block that is not. Its fields are [v]; [again] issues a request. *)
(*| NVmain/NVM/nvmain.cpp 433-529 NVMain::IssueCommand *)
Definition tag_miss (again : ReqPtr → mainST bool) (q : ReqPtr) (v : six) : mainST (option Z) :=
  bump_counters (λ c, c <| reqsMiss ::= inc |>);;
  r ← load_req q;
  if decide (type r = WRITE) then
    bump_counters (λ c, c <| WRMiss ::= inc |>);;
    b ← me;
    if LRU.isFull (replacementPolicy b) then
      bump_counters (λ c, c <| tagReplacements ::= inc |>);;
      rd ← replace_line q;
      again rd;;
      mret None
    else
      '(_, v) ← allocate_line q;
      redirect q v;;
      mret (Some (s_channel v))
  else
    bump_counters (λ c, c <| RDMiss ::= inc |>);;
    redirect q v;;
    mret (Some (s_channel v)).
(** Where a request goes: [None] when it is dropped. *)
(*| NVmain/NVM/nvmain.cpp 426-546 NVMain::IssueCommand *)
Definition tag_lookup (again : ReqPtr → mainST bool) (q : ReqPtr) (v : six) : mainST (option Z) :=
  bump_counters (λ c, c <| totalReqs ::= inc |>);;
  let v := with_channel 1 v in
  a ← reverse_addr v; r ← load_req q;
  store_req q (r <| address ::= λ x, translated_as v (SetPhysicalAddress a x) |>);;
  cached ← policy_get a;
  translate_addr (default 0 cached);;
  match cached with
  | None => tag_miss again q v
  | Some d => tag_hit q d
  end.

(** ** Issuing *)

(** [assert( GetChild( request )->GetTrampoline( ) == memoryControllers[channel] )]. *)
(*| NVmain/NVM/nvmain.cpp 549-567 NVMain::IssueCommand *)
Definition issue_to (channel : Z) (q : ReqPtr) : mainST bool :=
  i ← child_of out q;
  lift (cassert (bool_decide (i = Z.to_nat channel)));;
  mc_rv ← to_child out q;
  if (mc_rv : bool) then
    IssuePrefetch q;;
    r ← load_req q;
    set_main (λ b, if decide (type r = READ) then b <| totalReadRequests ::= inc |> else b <| totalWriteRequests ::= inc |>);;
    PrintPreTrace q;;
    mret true
  else mret false.

Definition place (q : ReqPtr) : mainST six :=
  r ← load_req q; v ← translate_addr (GetPhysicalAddress (address r));
  store_req q (r <| address ::= translated_as v |> <| bulkCmd := CMD_NOP |>);;
  mret v.

(** The tag cache issues requests of its own, which it does not look up again:
    [depth] bounds the nesting. *)
(*| NVmain/NVM/nvmain.cpp 383-568 NVMain::IssueCommand *)
Fixpoint issue (depth : nat) (q : ReqPtr) : mainST bool :=
  match depth with
  | O => fail OutOfFuel
  | S depth =>
      b ← me;
      if negb (configured b) then mret false
      else
        v ← place q;
        hit ← CheckPrefetch q;
        if (hit : bool) then
          n ← now; InsertEvent_obj EventResponse this (Some q) (n ⊕ 1) 0 0;; mret true
        else
          r ← load_req q; b ← me;
          channel ← (if negb (has_flag (flags r) EVICT_SKIP) && useTagCache b then tag_lookup (issue depth) q v
                     else mret (Some (s_channel v)));
          match channel with
          | None => mret true
          | Some channel => issue_to channel q
          end
  end.
Definition IssueCommand (q : ReqPtr) : mainST bool := issue 2 q.

(*| NVmain/NVM/nvmain.cpp 570-611 NVMain::IssueAtomic *)
Definition IssueAtomic (q : ReqPtr) : mainST bool :=
  b ← me;
  if negb (configured b) then mret false
  else
    v ← place q;
    hit ← CheckPrefetch q;
    if (hit : bool) then mret true
    else
      mc_rv ← on_child (Z.to_nat (s_channel v)) (ch_IssueAtomic q);
      if (mc_rv : bool) then
        IssuePrefetch q;;
        r ← load_req q;
        set_main (λ b, if decide (type r = READ) then b <| totalReadRequests ::= inc |> else b <| totalWriteRequests ::= inc |>);;
        PrintPreTrace q;;
        mret true
      else mret false.

(** ** Completion *)

(** A read that came from the NVRAM is written to the cache. *)
(*| NVmain/NVM/nvmain.cpp 620-755 NVMain::RequestComplete *)
Definition fill_from_read (q : ReqPtr) : mainST unit :=
  bump_counters (λ c, c <| readsOps ::= inc |>);;
  r ← load_req q; v ← translate_addr (GetPhysicalAddress (address r));
  if s_channel v =? 0 then mret ()
  else
    bump_counters (λ c, c <| readsNotDRAM ::= inc |>);;
    a ← reverse_addr v;
    store_req q (r <| address ::= SetPhysicalAddress a |>);;
    cached ← policy_get a;
    translate_addr (default 0 cached);;
    match cached with
    | None =>
        b ← me;
        if LRU.isFull (replacementPolicy b) then
          bump_counters (λ c, c <| RD_Replc ::= inc |>);;
          rd ← replace_line q;
          IssueCommand rd;;
          mret ()
        else
          bump_counters (λ c, c <| RD_Clean ::= inc |>);;
          '(a, v) ← allocate_line q;
          w ← tag_request WRITE a v (data r) EVICT_SKIP;
          set_main (λ b, b <| DRAMWriteSize ::= bump_size |>);;
          IssueCommand w;;
          mret ()
    | Some d =>
        bump_counters (λ c, c <| RD_Present ::= inc |>);;
        v ← translate_addr d;
        a ← reverse_addr v;
        w ← tag_request WRITE a v (data r) EVICT_SKIP;
        set_main (λ b, b <| DRAMWriteSize ::= bump_size |>);;
        IssueCommand w;;
        mret ()
    end.

(** The first waiting write of the address, and its place. *)
Fixpoint find_waiting (a : Z) (i : nat) (l : list ReqPtr) : mainST (option (nat * ReqPtr)) :=
  match l with
  | [] => mret None
  | w :: l => r ← load_req w;
      if GetPhysicalAddress (address r) =? a then mret (Some (i, w)) else find_waiting a (S i) l
  end.
(** The old line was read from the DRAM: the new data is written over it, and the
    old data goes to the NVRAM. *)
(*| NVmain/NVM/nvmain.cpp 792-830 NVMain::RequestComplete *)
Definition write_back (q : ReqPtr) : mainST unit :=
  r ← load_req q; b ← me;
  let a := GetPhysicalAddress (address r) in
  found ← find_waiting a 0 (waitingDRAMWrite b);
  match found with
  | None => mret ()
  | Some (i, w) =>
      IssueCommand w;;
      set_main (λ b, b <| waitingDRAMWrite ::= delete i |>);;
      b ← me;
      let targetAddr := default 0 (inverseMap b !! a) in
      set_main (λ b, b <| inverseMap ::= <[a := targetAddr]> |>);;
      v ← translate_addr targetAddr;
      let v := with_channel 1 v in
      targetAddr ← reverse_addr v;
      r ← load_req q;
      nv ← tag_request WRITE targetAddr v (data r) EVICT_SKIP;
      set_main (λ b, b <| NVWtoDRW ::= <[targetAddr := a]> |> <| NVRAMWriteSize ::= bump_size |>);;
      IssueCommand nv;;
      mret ()
  end.

(** A prefetch comes back to the buffer; the oldest one leaves a full buffer. *)
(*| NVmain/NVM/nvmain.cpp 767-778 NVMain::RequestComplete *)
Definition buffer_prefetch (q : ReqPtr) : mainST unit :=
  b ← me;
  (if PrefetchBufferSize (p b) <=? Z.of_nat (length (prefetchBuffer b)) then
     set_main (λ b, b <| unsuccessfulPrefetches ::= inc |>);;
     oldest ← lift (deref OutOfBounds (head (prefetchBuffer b)));
     delete_req oldest;;
     set_main (λ b, b <| prefetchBuffer ::= tail |>)
   else mret ());;
  set_main (λ b, b <| prefetchBuffer ::= λ l, l ++ [q] |>).

(** Requests that could not be issued are tried again. *)
(*| NVmain/NVM/nvmain.cpp 849-857 NVMain::RequestComplete *)
Definition retry_pending : mainST unit :=
  b ← me;
  match pendingMemoryRequests b with
  | [] => mret ()
  | staleMemReq :: _ =>
      '(ok, _) ← IsIssuable staleMemReq;
      if (ok : bool) then IssueCommand staleMemReq;; set_main (λ b, b <| pendingMemoryRequests ::= tail |>)
      else mret ()
  end.

(*| NVmain/NVM/nvmain.cpp 613-860 NVMain::RequestComplete *)
Definition RequestComplete (q : ReqPtr) : mainST bool :=
  r ← load_req q; b ← me;
  (if bool_decide (type r = READ) && useTagCache b && negb (has_flag (flags r) EVICT_SKIP) && negb (isPrefetch r)
   then fill_from_read q else mret ());;
  r ← load_req q; b ← me;
  rv ← (if decide (owner r = Some this) then
          (if isPrefetch r then buffer_prefetch q
           else
             (if useTagCache b && req_has FLAG_EVICT r && negb (req_has FLAG_SKIP_TAG r) && bool_decide (type r = READ)
              then write_back q else mret ());;
             delete_req q);;
          mret true
        else parent_RequestComplete q);
  retry_pending;;
  mret rv.

(*| NVmain/NVM/nvmain.cpp 862-864 NVMain::Cycle *)
Definition Cycle (steps : Z) : mainST unit := mret ().
(*| NVmain/NVM/nvmain.cpp 897-900 NVMain::EnqueuePendingMemoryRequests *)
Definition EnqueuePendingMemoryRequests (req : ReqPtr) : mainST unit :=
  set_main (λ b, b <| pendingMemoryRequests ::= λ l, l ++ [req] |>).

(** ** Configuration *)

(** The part of a path up to its last separator. *)
Fixpoint file_path (seen : string) (s : string) : string :=
  match s with
  | EmptyString => EmptyString
  | String a s =>
      let seen := seen +:+ String a EmptyString in
      if Ascii.eqb a "/" || Ascii.eqb a "\" then seen +:+ file_path EmptyString s else file_path seen s
  end.
(*| NVmain/include/NVMHelpers.cpp 54-61 GetFilePath *)
Definition GetFilePath (file : string) : string := file_path EmptyString file.
(** [f[0] != '/']: an empty string starts with a NUL. *)
Definition relative (f : string) : bool := match f with String a _ => negb (Ascii.eqb a "/") | EmptyString => true end.

(** The translation method of the memory; the counts go through [int]. *)
(*| NVmain/NVM/nvmain.cpp 134-172 NVMain::SetConfig *)
Definition main_method (m : TranslationMethod) (p : Params) (hasMATHeight : bool) : res TranslationMethod :=
  '(rows, subarrays) ← (if hasMATHeight then
      if MATHeight p =? 0 then Err DivideByZero else Ok (s32 (MATHeight p), s32 (ROWS p / MATHeight p))
    else Ok (s32 (ROWS p), 1));
  let cols := s32 (COLS p) in let banks := s32 (BANKS p) in let ranks := s32 (RANKS p) in let channels := s32 (CHANNELS p) in
  r ← mlog2 rows; c ← mlog2 cols; b ← mlog2 banks; k ← mlog2 ranks; h ← mlog2 channels; t ← mlog2 subarrays;
  SetAddressMappingScheme (AddressMappingScheme p)
    (SetCount (u64 rows) (u64 cols) (u64 banks) (u64 ranks) (u64 channels) (u64 subarrays) (SetBitWidths r c b k h t m)).

(** The configuration of channel [i]: that of the memory, or read from a file,
    next to the file of the memory unless its path is absolute. *)
(*| NVmain/NVM/nvmain.cpp 186-208 NVMain::SetConfig *)
Definition channel_config (files : string → option string) (opens : string → bool) (debug0 : bool) (c : Config) (i : Z) : res (Config * Config) :=
  let key := "CONFIG_CHANNEL" +:+ decimal i in
  '(f, c) ← GetString key c;
  cc ← Config_copy opens debug0 c;
  if String.eqb f EmptyString then Ok (c, cc)
  else
    let f := if relative f then GetFilePath (fileName c) +:+ f else f in
    cc ← Read opens f (files f) cc;
    Ok (c, cc).

(** The controllers, with the configurations of their channels. *)
(*| NVmain/NVM/nvmain.cpp 179-228 NVMain::SetConfig *)
Definition create_controllers (files : string → option string) (opens : string → bool) (debug0 : bool) (c : Config) (channels : Z)
    (new_controller : string → Z → Config → res (Config * C)) (kids0 : list C) : res (list C * list Config * Config) :=
  foldM (λ '(kids, configs, c) i,
    '(c, cc) ← channel_config files opens debug0 c i;
    '(t, cc) ← GetString "MEM_CTL" cc;
    '(cc, k) ← new_controller t i cc;
    Ok (kids ++ [k], configs ++ [cc], c)) (kids0, [], c) (seqZ 0 channels).

(** With a relative name, and also without a name, the path of the configuration
    is put before what the configuration says. *)
(*| NVmain/NVM/nvmain.cpp 240-264 NVMain::SetConfig *)
Definition open_pretrace (new_writer : string → W) (p : Params) (c : Config) : res (option W * Config) :=
  if Params.PrintPreTrace p || EchoPreTrace p then
    '(f, c) ← GetString "PreTraceFile" c;
    let name := if String.eqb f EmptyString then "trace.nvt" else f in
    let name := if relative name then GetFilePath (fileName c) +:+ f else name in
    '(t, c) ← GetString "PreTraceWriter" c;
    let w := new_writer (if String.eqb t EmptyString then "NVMainTrace" else t) in
    let w := if Params.PrintPreTrace p then wr_SetTraceFile name w else w in
    Ok (Some (if EchoPreTrace p then wr_SetEcho true w else w), c)
  else Ok (None, c).

(** The factories and the file system are arguments. *)
(*| NVmain/NVM/nvmain.cpp 115-267 NVMain::SetConfig *)
Definition SetConfig (files : string → option string) (opens : string → bool) (debug0 : bool) (c : Config) (createChildren : bool) (uninit : Z * Z * Z)
    (fresh_method : TranslationMethod) (CreateNewDecoder : string → AddressTranslator)
    (new_controller : string → Z → Config → res (Config * C)) (CreateNewPrefetcher : string → option P)
    (new_writer : string → W) (s : Node (NVMain P W) C) : res (Config * list Config * Node (NVMain P W) C) :=
  let '(u1, u2, u3) := uninit in
  '(_, (c, pr)) ← SetParams (c, Params_new u1 u2 u3);
  let b := (node s) <| p := pr |> <| configured := true |> in
  '(b, ks, configs, c) ← (if createChildren then
      let b := b <| useTagCache := Params.useTagCache pr |> in
      let b := if Params.useTagCache pr then b <| tagLines := 1048576 |> <| replacementPolicy := LRU.LRU_new 1048576 |> else b in
      '(d, c) ← (if KeyExists "Decoder" c then '(d, c) ← GetString "Decoder" c; Ok (CreateNewDecoder d, c)
                 else Ok (AddressTranslator_new, c));
      m ← main_method fresh_method pr (KeyExists "MATHeight" c);
      let b := b <| translator := SetDefaultField CHANNEL_FIELD (SetTranslationMethod m d) |> in
      '(ks, configs, c) ← create_controllers files opens debug0 c (s32 (CHANNELS pr)) new_controller (kids s);
      Ok (b, ks, configs, c)
    else Ok (b, kids s, [], c));
  let b := if String.eqb (MemoryPrefetcher pr) "none" then b
           else b <| prefetcher := CreateNewPrefetcher (MemoryPrefetcher pr) |> in
  '(w, c) ← open_pretrace new_writer pr c;
  Ok (c, configs, mkNode (b <| numChannels := u32 (CHANNELS pr) |>
    <| preTracer := match w with Some w => Some w | None => preTracer b end |>) ks).
End Operations.
End Main.
