(* ===== verification/TopLevel.v ===== *)
(** * What the top level does

    Requests are routed to the controller of their channel, unless a prefetch
    answers them; with the tag cache, to the DRAM line of their block or to the
    NVRAM. The tag cache stays in order: every lookup, the search for a line
    included, succeeds. The requests it makes are not looked up again, so issuing
    ends. *)

From S2P Require Import Prelude NVMTypes Translation Config Params SimInterface Heap EventQueue Frame Tree.
From S2P Require Import Traces TagPolicy Prefetchers NVMainTop.
Import Main.

(** ** The translation does not depend on what the decoder remembers *)

Definition retune (x : Z) (t : AddressTranslator) : AddressTranslator := t <| lowColBits := x |>.

Lemma Translate_retune a out t x : match Translate a out t, Translate a out (retune x t) with
  | Ok (v, t1), Ok (w, t2) => v = w ∧ (∃ y, t1 = retune y t) ∧ ∃ y, t2 = retune y t
  | Err e, Err e' => e = e'
  | _, _ => False
  end.
Proof.
  unfold Translate, retune. fields. destruct (method t) as [m|].
  2: { split_and!; [done|exists (lowColBits t); by destruct t|by exists x]. }
  change (low_bits (t <| lowColBits := x |>)) with (low_bits t).
  destruct (low_bits t) as [[o low]|]; [|done]. cbn [mbind res_bind].
  destruct (shr64 _ o); [|done]. cbn [mbind res_bind]. destruct (shr64 _ low); [|done]. cbn [mbind res_bind].
  destruct (foldM _ _ _); [|done]. cbn [mbind res_bind]. split_and!; [done|by exists low|]. exists low. by destruct t.
Qed.
Lemma ReverseTranslate_retune v t x : match ReverseTranslate v t, ReverseTranslate v (retune x t) with
  | Ok (a, t1), Ok (b, t2) => a = b ∧ (∃ y, t1 = retune y t) ∧ ∃ y, t2 = retune y t
  | Err e, Err e' => e = e'
  | _, _ => False
  end.
Proof.
  unfold ReverseTranslate, retune. fields. destruct (method t) as [m|]; [|done]. cbn [mbind res_bind deref].
  change (low_bits (t <| lowColBits := x |>)) with (low_bits t).
  destruct (low_bits t) as [[o low]|]; [|done]. cbn [mbind res_bind].
  destruct (shl64 1 o); [|done]. cbn [mbind res_bind]. destruct (shl64 _ low); [|done]. cbn [mbind res_bind].
  destruct (foldM _ _ _); [|done]. cbn [mbind res_bind]. split_and!; [done|by exists low|]. exists low. by destruct t.
Qed.

Lemma bind_congr {S A B} (m : ST S A) (f g : A → ST S B) (x : S) :
  (∀ a y, m x = Ok (a, y) → f a y = g a y) → (m ≫= f) x = (m ≫= g) x.
Proof. intros Hfg. rewrite !bind_eq. destruct (m x) as [[a y]|] eqn:E; [by apply Hfg|done]. Qed.

Section Proofs.
Context {P W C : Type} `{PrefetchOps P} `{WriterOps W} `{ChildOps C} `{AtomicOps C}.
Variable this : ObjPtr.
Variable out : six.
Variable status0 : MemRequestStatus.
Variable access0 : NVMAccessType.
Variable bit0 : Z.
Variable fresh : nat → Z.
Variable parent_RequestComplete : ReqPtr → ST (Sim (Node (NVMain P W) C)) bool.
Implicit Types (s : Sim (Node (NVMain P W) C)) (b : NVMain P W).

(** The fields of an address, and the address of fields. *)
Definition fields_at b (a : Z) : option six :=
  match Translate a out (translator b) with Ok (v, _) => Some v | Err _ => None end.
Definition addr_at b (v : six) : option Z :=
  match ReverseTranslate v (translator b) with Ok (a, _) => Some a | Err _ => None end.

(** The same state but for what the decoder remembers. *)
Definition retuned b b' : Prop := ∃ x, b' = b <| translator ::= retune x |>.
#[local] Instance retuned_preorder : PreOrder retuned.
Proof using.
  split.
  - intros b. exists (lowColBits (translator b)). by destruct b as [? ? []].
  - intros b1 b2 b3 [x ->] [y ->]. exists y. by destruct b1 as [? ? []].
Qed.

Lemma fields_retuned b b' a : retuned b b' → fields_at b' a = fields_at b a.
Proof using.
  intros [x ->]. unfold fields_at. fields. pose proof (Translate_retune a out (translator b) x) as Ht.
  destruct (Translate _ _ (translator b)) as [[v t]|], (Translate _ _ (retune _ _)) as [[w t']|]; try done.
  by destruct Ht as [-> _].
Qed.
Lemma addr_retuned b b' v : retuned b b' → addr_at b' v = addr_at b v.
Proof using.
  intros [x ->]. unfold addr_at. fields. pose proof (ReverseTranslate_retune v (translator b) x) as Ht.
  destruct (ReverseTranslate _ (translator b)) as [[a t]|], (ReverseTranslate _ (retune _ _)) as [[a' t']|]; try done.
  by destruct Ht as [-> _].
Qed.
Lemma field_retuned {A} (f : NVMain P W → A) b b' : (∀ b g, f (b <| translator ::= g |>) = f b) → retuned b b' → f b' = f b.
Proof using. intros Hf [x ->]. apply Hf. Qed.

Lemma field_map b b' : retuned b b' → ∃ x, translator b' = retune x (translator b).
Proof using. intros [x ->]. by exists x. Qed.

(** Only the decoder was asked. *)
Record asked s s' : Prop := {
  as_heap : heap s' = heap s;
  as_queue : queue s' = queue s;
  as_kids : kids (obj s') = kids (obj s);
  as_node : retuned (node (obj s)) (node (obj s'))
}.
#[local] Instance asked_preorder : PreOrder asked.
Proof using.
  split; [intros s; by split|]. intros s1 s2 s3 [? ? ? ?] [? ? ? ?]. split; [congruence..|by etransitivity].
Qed.

Lemma translate_addr_inv a s v s' : translate_addr out a s = Ok (v, s') → fields_at (node (obj s)) a = Some v ∧ asked s s'.
Proof using.
  unfold translate_addr, me, set_main, set_me. intros Hr. autorewrite with run in Hr. next Hr. destruct r as [w t].
  apply lift_inv in E as [E ->]. autorewrite with run in Hr. injection Hr as <- <-. unfold fields_at. rewrite E. split; [done|].
  split; fields; [done..|]. pose proof (Translate_retune a out (translator (node (obj s))) 0) as Ht. rewrite E in Ht.
  destruct (Translate _ _ (retune 0 _)) as [[? ?]|]; [|done]. destruct Ht as (_ & [y ->] & _). exists y. by destruct (node (obj s)).
Qed.
Lemma reverse_addr_inv v s a s' : reverse_addr v s = Ok (a, s') → addr_at (node (obj s)) v = Some a ∧ asked s s'.
Proof using.
  unfold reverse_addr, me, set_main, set_me. intros Hr. autorewrite with run in Hr. next Hr. destruct r as [w t].
  apply lift_inv in E as [E ->]. autorewrite with run in Hr. injection Hr as <- <-. unfold addr_at. rewrite E. split; [done|].
  split; fields; [done..|]. pose proof (ReverseTranslate_retune v (translator (node (obj s))) 0) as Ht. rewrite E in Ht.
  destruct (ReverseTranslate _ (retune 0 _)) as [[? ?]|]; [|done]. destruct Ht as (_ & [y ->] & _). exists y. by destruct (node (obj s)).
Qed.

Lemma translate_addr_ok a s v : fields_at (node (obj s)) a = Some v → ∃ s', translate_addr out a s = Ok (v, s') ∧ asked s s'.
Proof using.
  intros Hv. assert (∃ y, translate_addr out a s = Ok y) as [[w s'] E].
  { unfold translate_addr, me, set_main, set_me. autorewrite with run. rewrite bind_eq. unfold lift, fields_at in *.
    destruct (Translate a out _) as [[w t]|]; [|done]. by eexists. }
  pose proof E as [Hw Ha]%translate_addr_inv. rewrite Hv in Hw. injection Hw as <-. by exists s'.
Qed.
Lemma reverse_addr_ok v s a : addr_at (node (obj s)) v = Some a → ∃ s', reverse_addr v s = Ok (a, s') ∧ asked s s'.
Proof using.
  intros Ha. assert (∃ y, reverse_addr v s = Ok y) as [[w s'] E].
  { unfold reverse_addr, me, set_main, set_me. autorewrite with run. rewrite bind_eq. unfold lift, addr_at in *.
    destruct (ReverseTranslate v _) as [[w t]|]; [|done]. by eexists. }
  pose proof E as [Hw Hk]%reverse_addr_inv. rewrite Ha in Hw. injection Hw as <-. by exists s'.
Qed.

#[local] Abbreviation place := (place (C := C) out).
#[local] Abbreviation translate_addr := (translate_addr (C := C) out).
#[local] Abbreviation CheckPrefetch := (CheckPrefetch this out status0 access0 bit0).
#[local] Abbreviation issue_to := (issue_to this out status0 access0 bit0).
#[local] Abbreviation tag_request := (tag_request (P := P) (W := W) (C := C) this status0 access0 bit0).
#[local] Abbreviation replace_line := (replace_line (P := P) (W := W) (C := C) this out status0 access0 bit0 fresh).
#[local] Abbreviation allocate_line := (allocate_line (P := P) (W := W) (C := C) out).
#[local] Abbreviation tag_lookup := (tag_lookup (P := P) (W := W) (C := C) this out status0 access0 bit0 fresh).
#[local] Abbreviation issue := (issue (P := P) (W := W) (C := C) this out status0 access0 bit0 fresh).
#[local] Abbreviation IssueCommand := (IssueCommand (P := P) (W := W) (C := C) this out status0 access0 bit0 fresh).

(** ** Requests in place *)

Lemma store_inv q r s u s' : store_req q r s = Ok (u, s') →
  heap s' = (heap s) <| h_reqs ::= <[q := r]> |> ∧ queue s' = queue s ∧ obj s' = obj s ∧ is_Some (h_reqs (heap s) !! q).
Proof using. unfold store_req. destruct (_ !! q) eqn:E; [|done]. intros [= _ <-]. by fields. Qed.

(** Request [q] is now [r]; otherwise only the decoder was asked. *)
Record settled (q : ReqPtr) (r : NVMainRequest) s s' : Prop := {
  se_heap : heap s' = (heap s) <| h_reqs ::= <[q := r]> |>;
  se_queue : queue s' = queue s;
  se_kids : kids (obj s') = kids (obj s);
  se_node : retuned (node (obj s)) (node (obj s'))
}.
Lemma settled_req q r s s' : settled q r s s' → h_reqs (heap s') !! q = Some r.
Proof using. intros [-> _ _ _]. fields. apply lookup_insert_eq. Qed.

Definition placed (v : six) (r : NVMainRequest) : NVMainRequest := r <| address ::= translated_as v |> <| bulkCmd := CMD_NOP |>.

Lemma place_inv q s v s' : place q s = Ok (v, s') →
  ∃ r, h_reqs (heap s) !! q = Some r ∧ fields_at (node (obj s)) (GetPhysicalAddress (address r)) = Some v ∧ settled q (placed v r) s s'.
Proof using.
  intros Hr. unfold Main.place in Hr. load Hr. exists r. next Hr. apply translate_addr_inv in E0 as [Hv [A1 A2 A3 A4]].
  next Hr. apply store_inv in E0 as (B1 & B2 & B3 & _). autorewrite with run in Hr. injection Hr as <- <-.
  split_and!; [done..|]. split; [by rewrite B1, A1|congruence|by rewrite B3|by rewrite B3].
Qed.

Lemma place_ok q s r v : h_reqs (heap s) !! q = Some r → fields_at (node (obj s)) (GetPhysicalAddress (address r)) = Some v →
  ∃ s1, place q s = Ok (v, s1) ∧ settled q (placed v r) s s1.
Proof using.
  intros Hq Hv. assert (∃ y, place q s = Ok y) as [[w s1] E].
  { unfold Main.place. rewrite (bind_load_req _ _ _ _ Hq). destruct (translate_addr_ok _ _ _ Hv) as (s2 & E & [A _ _ _]).
    rewrite bind_eq, E, bind_eq. unfold store_req. rewrite A, Hq. by eexists. }
  pose proof E as (r' & Hr' & Hw & Hs)%place_inv. rewrite Hq in Hr'. injection Hr' as <-. rewrite Hv in Hw. injection Hw as <-.
  by exists s1.
Qed.

(** ** Prefetches

    The first buffered prefetch of an address; the buffer holds live requests. *)
Fixpoint buffered (h : Heap) (a : Z) (l : list ReqPtr) : option ReqPtr :=
  match l with
  | [] => None
  | pf :: l =>
      match h_reqs h !! pf with
      | Some r => if GetPhysicalAddress (address r) =? a then Some pf else buffered h a l
      | None => buffered h a l
      end
  end.
Definition live (h : Heap) (l : list ReqPtr) : Prop := Forall (λ pf, is_Some (h_reqs h !! pf)) l.
(** The prefetch that answers request [r]. *)
Definition prefetch_of s (r : NVMainRequest) : option ReqPtr :=
  buffered (heap s) (GetPhysicalAddress (address r)) (prefetchBuffer (node (obj s))).

Lemma find_prefetch_ok a l s : live (heap s) l → find_prefetch (P := P) (W := W) (C := C) a l s = Ok (buffered (heap s) a l, s).
Proof using.
  induction 1 as [|pf l [r Hr] Hl IH]; cbn [find_prefetch buffered]; [done|]. rewrite (bind_load_req _ _ _ _ Hr), Hr.
  by destruct (_ =? a).
Qed.
Lemma find_prefetch_inv a l : ∀ s o s', find_prefetch (P := P) (W := W) (C := C) a l s = Ok (o, s') → s' = s.
Proof using.
  induction l as [|q l IH]; intros s o s' Hr; cbn [find_prefetch] in Hr; [by injection Hr|].
  load Hr. destruct (_ =? a); [by injection Hr|by eapply IH].
Qed.
Lemma settled_buffer q r s s1 : settled q r s s1 → prefetchBuffer (node (obj s1)) = prefetchBuffer (node (obj s)).
Proof using. intros [_ _ _ Hn]. by apply (field_retuned prefetchBuffer). Qed.

(** Placing the request changes neither its address nor the buffer. *)
Lemma placed_live q r v s s1 l : settled q (placed v r) s s1 → live (heap s) l → live (heap s1) l.
Proof using.
  intros [-> _ _ _] Hl. eapply Forall_impl; [exact Hl|]. intros pf Hpf. cbn in Hpf. fields.
  destruct (decide (pf = q)) as [->|Hne]; [by rewrite lookup_insert_eq|by rewrite lookup_insert_ne].
Qed.
Lemma placed_buffered q r v s s1 a l : h_reqs (heap s) !! q = Some r → settled q (placed v r) s s1 →
  buffered (heap s1) a l = buffered (heap s) a l.
Proof using.
  intros Hq [-> _ _ _]. induction l as [|pf l IH]; cbn [buffered]; [done|]. fields. rewrite IH.
  destruct (decide (pf = q)) as [->|Hne]; [by rewrite lookup_insert_eq, Hq|by rewrite lookup_insert_ne].
Qed.
Lemma placed_prefetch q r v s s1 : h_reqs (heap s) !! q = Some r → settled q (placed v r) s s1 →
  prefetch_of s1 (placed v r) = prefetch_of s r.
Proof using. intros Hq Hs. unfold prefetch_of. by rewrite (placed_buffered q r v s s1), (settled_buffer _ _ _ _ Hs). Qed.

Lemma CheckPrefetch_missed q s s' : CheckPrefetch q s = Ok (false, s') → s' = s.
Proof using.
  intros Hr. unfold Main.CheckPrefetch, me in Hr. load Hr. autorewrite with run in Hr. next Hr. apply find_prefetch_inv in E0 as ->.
  destruct r0 as [pf|]; [|by injection Hr]. exfalso. next Hr. next Hr. destruct r1 as [[? ?] ?].
  do 5 (next Hr). by injection Hr.
Qed.
Lemma CheckPrefetch_miss q s r : h_reqs (heap s) !! q = Some r → live (heap s) (prefetchBuffer (node (obj s))) →
  prefetch_of s r = None → CheckPrefetch q s = Ok (false, s).
Proof using.
  intros Hq Hl Hn. unfold Main.CheckPrefetch, me. rewrite (bind_load_req _ _ _ _ Hq). autorewrite with run.
  unfold prefetch_of in Hn. by rewrite bind_eq, find_prefetch_ok, Hn.
Qed.

Definition same_buffer b b' : Prop := prefetchBuffer b' = prefetchBuffer b.
#[local] Instance same_buffer_preorder : PreOrder same_buffer.
Proof using. unfold same_buffer. split; [done|]. intros ? ? ? ? ?. congruence. Qed.
Lemma buffer_translate a : pres (on_node same_buffer) (translate_addr a).
Proof using. intros s v s' [_ [_ _ _ Hn]]%translate_addr_inv. by apply (field_retuned prefetchBuffer). Qed.
#[local] Hint Resolve buffer_translate : pres.
Lemma buffer_set_main f : (∀ b, same_buffer b (f b)) → pres (on_node same_buffer) (set_main (C := C) f).
Proof using. intros Hf. apply pres_set_me; [apply _|done]. Qed.
Ltac buffer_tac := repeat first [reflexivity | node_step | apply buffer_set_main; intros].
Lemma buffer_GeneratePrefetches q l : pres (on_node same_buffer) (GeneratePrefetches (C := C) this out status0 access0 bit0 q l).
Proof using. induction l; cbn [GeneratePrefetches]; unfold prefetch_one, to_child, child_of; buffer_tac. Qed.
#[local] Hint Resolve buffer_GeneratePrefetches : pres.

(** A prefetch answers the request: it is freed and leaves the buffer. *)
Lemma CheckPrefetch_hit q s r pf hit s' : h_reqs (heap s) !! q = Some r → live (heap s) (prefetchBuffer (node (obj s))) →
  prefetch_of s r = Some pf → CheckPrefetch q s = Ok (hit, s') →
  hit = true ∧ h_reqs (heap s') !! pf = None ∧
  prefetchBuffer (node (obj s')) = filter (λ x, x ≠ pf) (prefetchBuffer (node (obj s))).
Proof using.
  intros Hq Hl Hp Hr. unfold Main.CheckPrefetch, me in Hr. rewrite (bind_load_req _ _ _ _ Hq) in Hr. autorewrite with run in Hr.
  unfold prefetch_of in Hp. rewrite bind_eq, find_prefetch_ok, Hp in Hr by done. next Hr. apply lift_inv in E as [_ ->].
  next Hr. apply lift_inv in E as [_ ->]. destruct r1 as [[more l] p1].
  next Hr. next Hr. next Hr. next Hr. next Hr. injection Hr as <- <-.
  injection E as _ <-. injection E1 as _ <-. injection E3 as _ <-.
  assert (prefetchBuffer (node (obj x0)) = prefetchBuffer (node (obj s))) as Eb.
  { destruct more; [|by injection E0 as _ <-]. by apply buffer_GeneratePrefetches in E0. }
  unfold delete_req in E2. destruct (_ !! pf); [|done]. injection E2 as _ <-. fields. rewrite lookup_delete_eq, Eb. done.
Qed.

(** ** Requests that are not looked up *)

Definition flagged r : bool := has_flag (flags r) EVICT_SKIP.

(** Issuing without the tag cache. *)
Definition issue_straight (q : ReqPtr) : ST (Sim (Node (NVMain P W) C)) bool :=
  b ← me;
  if negb (configured b) then mret false
  else
    v ← place q;
    hit ← CheckPrefetch q;
    if (hit : bool) then n ← now; InsertEvent_obj EventResponse this (Some q) (n ⊕ 1) 0 0;; mret true
    else issue_to (s_channel v) q.

Lemma issue_flagged n q s r : h_reqs (heap s) !! q = Some r → flagged r || negb (useTagCache (node (obj s))) = true →
  issue (S n) q s = issue_straight q s.
Proof using.
  intros Hq Hf. cbn [Main.issue]. unfold issue_straight. apply bind_congr. intros b s1 E. injection E as <- <-.
  destruct (configured (node (obj s))); cbn [negb]; [|done]. apply bind_congr. intros v s2 Ep.
  apply place_inv in Ep as (r' & Hr' & _ & Hs). rewrite Hq in Hr'. injection Hr' as <-.
  apply bind_congr. intros hit s3 Ec. destruct hit; [done|]. apply CheckPrefetch_missed in Ec as ->.
  rewrite bind_eq. unfold load_req. rewrite (settled_req _ _ _ _ Hs). unfold me. autorewrite with run.
  rewrite (field_retuned useTagCache _ _ ltac:(done) (se_node _ _ _ _ Hs)).
  change (flags (placed v r)) with (flags r). unfold flagged in Hf.
  destruct (has_flag (flags r) EVICT_SKIP); cbn [negb andb orb] in *; [by autorewrite with run|].
  destruct (useTagCache (node (obj s))); [done|]. by autorewrite with run.
Qed.

(** ** Issuing to a controller *)

(** Request [q], now [r], is issued to controller [i], which answers [ok]. *)
Definition sent (q : ReqPtr) (r : NVMainRequest) (i : nat) (ok : bool) s (c : C) (sc : Sim C) : Prop :=
  kids (obj s) !! i = Some c ∧ ch_IssueCommand q (mkSim ((heap s) <| h_reqs ::= <[q := r]> |>) (queue s) c) = Ok (ok, sc).

Lemma heap_reinsert q (r r' : NVMainRequest) (h : Heap) :
  (h <| h_reqs ::= <[q := r]> |>) <| h_reqs ::= <[q := r']> |> = h <| h_reqs ::= <[q := r']> |>.
Proof using. destruct h. unfold upd. cbn. by rewrite insert_insert_eq. Qed.
Lemma heap_present q (r : NVMainRequest) (h : Heap) : h_reqs h !! q = Some r → h <| h_reqs ::= <[q := r]> |> = h.
Proof using. destruct h. unfold upd. cbn. intros Hq. by rewrite insert_id. Qed.

Lemma sent_settled q r r' i ok s s1 c sc : settled q r s s1 → sent q r' i ok s1 c sc → sent q r' i ok s c sc.
Proof using.
  intros [E1 E2 E3 _] [Hk Hc]. split; [congruence|]. by rewrite E1, E2, heap_reinsert in Hc.
Qed.

Lemma issue_to_sends q r channel ok s s' : h_reqs (heap s) !! q = Some r → issue_to channel q s = Ok (ok, s') →
  ∃ c sc, sent q r (Z.to_nat channel) ok s c sc.
Proof using.
  intros Hq Hr. unfold Main.issue_to in Hr. next Hr. destruct (child_of_target _ _ _ _ _ _ Hq E) as (Ht & Eh & Eq & Ek & Hm).
  next Hr. unfold lift, cassert in E0. case_bool_decide as Hi; [|done]. injection E0 as <- <-.
  next Hr. unfold to_child in E0. next E0. rewrite <- Eh in Hq.
  destruct (child_of_target _ _ _ _ _ _ Hq E1) as (Ht' & Eh' & Eq' & Ek' & _).
  rewrite (target_map _ _ _ _ Hm), Ht in Ht'. injection Ht' as <-.
  unfold on_child in E0. rewrite Ek', Ek in E0. destruct (kids (obj s) !! _) as [c|] eqn:Ec; [|done].
  rewrite Eh', Eh, Eq', Eq in E0. destruct (ch_IssueCommand q _) as [[ok' sc]|] eqn:Ei; [|done]. injection E0 as <- <-.
  exists c, sc. split; [by rewrite <- Hi|]. rewrite heap_present by by rewrite <- Eh. rewrite Ei. f_equal. f_equal.
  destruct ok'; [|by injection Hr]. do 2 (next Hr). do 2 (next Hr). by injection Hr.
Qed.

(** ** What issuing leaves of the tag cache *)

Definition tags b := (replacementPolicy b, inverseMap b, waitingDRAMWrite b, useTagCache b).
Definition same_tags b b' : Prop := tags b' = tags b.
#[local] Instance same_tags_preorder : PreOrder same_tags.
Proof using. unfold same_tags. split; [done|]. intros ? ? ? ? ?. congruence. Qed.
Lemma retuned_tags b b' : retuned b b' → same_tags b b'.
Proof using. by intros [x ->]. Qed.

Lemma tags_set_main f : (∀ b, same_tags b (f b)) → pres (on_node same_tags) (set_main (C := C) f).
Proof using. intros Hf. apply pres_set_me; [apply _|done]. Qed.
Lemma tags_translate a : pres (on_node same_tags) (translate_addr a).
Proof using. intros s v s' [_ [_ _ _ Hn]]%translate_addr_inv. by apply retuned_tags. Qed.
#[local] Hint Resolve tags_translate : pres.
Ltac tags_tac := repeat first [reflexivity | node_step | apply tags_set_main; intros].
Lemma tags_child_of q : pres (on_node same_tags) (child_of (C := C) out q).
Proof using. unfold child_of. tags_tac. Qed.
#[local] Hint Resolve tags_child_of : pres.
Lemma tags_to_child q : pres (on_node same_tags) (to_child out q).
Proof using. unfold to_child. tags_tac. Qed.
#[local] Hint Resolve tags_to_child : pres.
Lemma tags_GeneratePrefetches q l : pres (on_node same_tags) (GeneratePrefetches (C := C) this out status0 access0 bit0 q l).
Proof using. induction l; cbn [GeneratePrefetches]; unfold prefetch_one; tags_tac. Qed.
#[local] Hint Resolve tags_GeneratePrefetches : pres.
Lemma tags_issue_to i q : pres (on_node same_tags) (issue_to i q).
Proof using. unfold Main.issue_to, IssuePrefetch, PrintPreTrace. tags_tac. Qed.
Lemma tags_find_prefetch a l : pres (on_node same_tags) (find_prefetch (P := P) (W := W) (C := C) a l).
Proof using. intros s o s' ->%find_prefetch_inv. done. Qed.
#[local] Hint Resolve tags_issue_to tags_find_prefetch : pres.
Lemma tags_CheckPrefetch q : pres (on_node same_tags) (CheckPrefetch q).
Proof using. unfold Main.CheckPrefetch. tags_tac. Qed.
#[local] Hint Resolve tags_CheckPrefetch : pres.
Lemma tags_issue_straight q : pres (on_node same_tags) (issue_straight q).
Proof using. unfold issue_straight, Main.place. tags_tac. Qed.

(** ** Without the tag cache *)

(** The request is answered from prefetch [pf]: the prefetch is freed and leaves the
    buffer, and the response is queued for the next cycle. *)
Definition prefetched (q pf : ReqPtr) s s' : Prop := ∃ s2,
  h_reqs (heap s2) !! pf = None ∧
  prefetchBuffer (node (obj s2)) = filter (λ x, x ≠ pf) (prefetchBuffer (node (obj s))) ∧
  InsertEvent_obj EventResponse this (Some q) (currentCycle (queue s2) ⊕ 1) 0 0 s2 = Ok ((), s').

(** Issuing, up to the question whether the tag cache is asked. *)
Lemma issue_start n q s r v : h_reqs (heap s) !! q = Some r → configured (node (obj s)) = true →
  live (heap s) (prefetchBuffer (node (obj s))) → fields_at (node (obj s)) (GetPhysicalAddress (address r)) = Some v →
  match prefetch_of s r with
  | Some pf => ∀ ok s', issue (S n) q s = Ok (ok, s') → ok = true ∧ prefetched q pf s s'
  | None => ∃ s1, settled q (placed v r) s s1 ∧
      issue (S n) q s =
        (channel ← (if negb (flagged r) && useTagCache (node (obj s)) then tag_lookup (issue n) q v else mret (Some (s_channel v)));
         match channel with None => mret true | Some channel => issue_to channel q end) s1
  end.
Proof using.
  intros Hq Hc Hl Hv. destruct (place_ok _ _ _ _ Hq Hv) as (s1 & Ep & Hs). pose proof (settled_req _ _ _ _ Hs) as Hq1.
  assert (live (heap s1) (prefetchBuffer (node (obj s1)))) as Hl1 by (rewrite (settled_buffer _ _ _ _ Hs); by eapply placed_live).
  pose proof (placed_prefetch _ _ _ _ _ Hq Hs) as Epf. cbn [Main.issue]. unfold me. autorewrite with run. rewrite Hc. cbn [negb].
  rewrite bind_eq, Ep. destruct (prefetch_of s r) as [pf|].
  - intros ok s' Hr. next Hr. destruct (CheckPrefetch_hit _ _ _ _ _ _ Hq1 Hl1 Epf E) as (-> & Hf & Hb).
    autorewrite with run in Hr. next Hr. injection Hr as <- <-. destruct r0. split; [done|]. exists x.
    split_and!; [done|by rewrite Hb, (settled_buffer _ _ _ _ Hs)|done].
  - exists s1. split; [done|]. rewrite bind_eq, (CheckPrefetch_miss _ _ _ Hq1 Hl1 Epf), (bind_load_req _ _ _ _ Hq1).
    autorewrite with run. by rewrite (field_retuned useTagCache _ _ ltac:(done) (se_node _ _ _ _ Hs)).
Qed.

(** C31. Without the tag cache, a request goes where its address says: it is given
    its translated fields, nothing else in the heap nor the event queue or the
    controllers is touched, and issuing is then exactly issuing to the controller
    of its channel, whose answer is the answer. Only when the buffer holds a
    prefetch of the address no controller gets the request: the answer is true,
    the prefetch is used up, and the response comes in the next cycle; this holds
    with the tag cache, too. *)
Theorem issue_routes q s r v : h_reqs (heap s) !! q = Some r → configured (node (obj s)) = true →
  live (heap s) (prefetchBuffer (node (obj s))) → fields_at (node (obj s)) (GetPhysicalAddress (address r)) = Some v →
  match prefetch_of s r with
  | Some pf => ∀ ok s', IssueCommand q s = Ok (ok, s') → ok = true ∧ prefetched q pf s s'
  | None => useTagCache (node (obj s)) = false →
      ∃ s1, settled q (placed v r) s s1 ∧ IssueCommand q s = issue_to (s_channel v) q s1 ∧
      ∀ ok s', IssueCommand q s = Ok (ok, s') → ∃ c sc, sent q (placed v r) (Z.to_nat (s_channel v)) ok s c sc
  end.
Proof using.
  intros Hq Hc Hl Hv. pose proof (issue_start 1 q s r v Hq Hc Hl Hv) as Hi. unfold Main.IssueCommand.
  destruct (prefetch_of s r); [done|]. intros Ht. destruct Hi as (s1 & Hs & E). rewrite Ht, andb_false_r in E.
  autorewrite with run in E. exists s1. split; [done|]. split; [done|]. intros ok s' Hr. rewrite E in Hr.
  apply (issue_to_sends _ _ _ _ _ _ (settled_req _ _ _ _ Hs)) in Hr as (c & sc & Hx). exists c, sc. by eapply sent_settled.
Qed.

(** ** With the tag cache *)

Definition redirected (v : six) (a : Z) (r : NVMainRequest) : NVMainRequest :=
  r <| address ::= λ x, SetPhysicalAddress a (translated_as v x) |>.

Lemma redirect_inv q v s u s' r : h_reqs (heap s) !! q = Some r → redirect q v s = Ok (u, s') →
  ∃ a, addr_at (node (obj s)) v = Some a ∧ settled q (redirected v a r) s s'.
Proof using.
  intros Hq Hr. unfold redirect in Hr. next Hr. apply reverse_addr_inv in E as [Ha [A1 A2 A3 A4]]. rewrite <- A1 in Hq.
  rewrite (bind_load_req _ _ _ _ Hq) in Hr. apply store_inv in Hr as (B1 & B2 & B3 & _). eexists. split; [exact Ha|].
  split; [by rewrite B1, A1|congruence|by rewrite B3|by rewrite B3].
Qed.

(** Nothing outside the top level changes, and it decodes as before. *)
Record quietly s s' : Prop := {
  qu_heap : heap s' = heap s;
  qu_queue : queue s' = queue s;
  qu_kids : kids (obj s') = kids (obj s);
  qu_map : ∃ x, translator (node (obj s')) = retune x (translator (node (obj s)))
}.
Lemma retune_self t : t = retune (lowColBits t) t.
Proof using. by destruct t. Qed.
Lemma quietly_set_node (f : NVMain P W → NVMain P W) s : (∀ b, translator (f b) = translator b) →
  quietly s (s <| obj ::= λ n, n <| node ::= f |> |>).
Proof using. intros Hf. split; fields; [done..|]. rewrite Hf. eexists. apply retune_self. Qed.
#[local] Instance quietly_preorder : PreOrder quietly.
Proof using.
  split; [intros s; split; [done..|eexists; apply retune_self]|].
  intros s1 s2 s3 [? ? ? [x Ex]] [? ? ? [y Ey]]. split; [congruence..|]. exists y. rewrite Ey, Ex. by destruct (translator _).
Qed.
Lemma asked_quietly s s' : asked s s' → quietly s s'.
Proof using. intros [? ? ? [x E]]. split; [done..|]. exists x. by rewrite E. Qed.
Lemma asked_tags s s' : asked s s' → tags (node (obj s')) = tags (node (obj s)).
Proof using. intros [? ? ? Hn]. by apply retuned_tags. Qed.

Lemma retune_translator b b' x : translator b' = retune x (translator b) → retuned b (b <| translator := translator b' |>).
Proof using. intros ->. by exists x. Qed.
Lemma fields_quietly s s' a : quietly s s' → fields_at (node (obj s')) a = fields_at (node (obj s)) a.
Proof using. intros [_ _ _ [x E%retune_translator]]. by rewrite <- (fields_retuned _ _ a E). Qed.
Lemma addr_quietly s s' v : quietly s s' → addr_at (node (obj s')) v = addr_at (node (obj s)) v.
Proof using. intros [_ _ _ [x E%retune_translator]]. by rewrite <- (addr_retuned _ _ v E). Qed.

(** Request [q] is now [r]; the top level decodes as before. *)
Record moved (q : ReqPtr) (r : NVMainRequest) s s' : Prop := {
  mv_heap : heap s' = (heap s) <| h_reqs ::= <[q := r]> |>;
  mv_queue : queue s' = queue s;
  mv_kids : kids (obj s') = kids (obj s);
  mv_map : ∃ x, translator (node (obj s')) = retune x (translator (node (obj s)))
}.
Lemma settled_moved q r s s' : settled q r s s' → moved q r s s'.
Proof using. intros [? ? ? [x E]]. split; [done..|]. exists x. by rewrite E. Qed.
Lemma moved_req q r s s' : moved q r s s' → h_reqs (heap s') !! q = Some r.
Proof using. intros [-> _ _ _]. fields. apply lookup_insert_eq. Qed.
Lemma retune_trans t1 t2 t3 : (∃ x, t2 = retune x t1) → (∃ x, t3 = retune x t2) → ∃ x, t3 = retune x t1.
Proof using. intros [x ->] [y ->]. exists y. by destruct t1. Qed.
Lemma moved_quietly q r s s1 s' : moved q r s s1 → quietly s1 s' → moved q r s s'.
Proof using. intros [? ? ? E1] [? ? ? E2]. split; [congruence..|]. by eapply retune_trans. Qed.
Lemma moved_moved q r r' s s1 s' : moved q r s s1 → moved q r' s1 s' → moved q r' s s'.
Proof using.
  intros [Eh ? ? E1] [Eh' ? ? E2]. split; [|congruence..|by eapply retune_trans]. by rewrite Eh', Eh, heap_reinsert.
Qed.
Lemma quietly_moved q r s s1 s' : quietly s s1 → moved q r s1 s' → moved q r s s'.
Proof using. intros [Eh ? ? E1] [Eh' ? ? E2]. split; [|congruence..|by eapply retune_trans]. by rewrite Eh', Eh. Qed.
Lemma sent_moved q r r' i ok s s1 c sc : moved q r s s1 → sent q r' i ok s1 c sc → sent q r' i ok s c sc.
Proof using. intros [E1 E2 E3 _] [Hk Hc]. split; [congruence|]. by rewrite E1, E2, heap_reinsert in Hc. Qed.
Lemma moved_fields q r s s' a : moved q r s s' → fields_at (node (obj s')) a = fields_at (node (obj s)) a.
Proof using. intros [_ _ _ [x E%retune_translator]]. by rewrite <- (fields_retuned _ _ a E). Qed.
Lemma moved_addr q r s s' v : moved q r s s' → addr_at (node (obj s')) v = addr_at (node (obj s)) v.
Proof using. intros [_ _ _ [x E%retune_translator]]. by rewrite <- (addr_retuned _ _ v E). Qed.

(** ** The operations of the policy *)

Definition set_policy (c : LRU.LRU) s : Sim (Node (NVMain P W) C) := s <| obj ::= λ n, n <| node ::= λ b, b <| replacementPolicy := c |> |> |>.
Definition policy s : LRU.LRU := replacementPolicy (node (obj s)).

Lemma policy_put_inv a d s u s' : policy_put a d s = Ok (u, s') → ∃ c, LRU.put a d (policy s) = Ok c ∧ s' = set_policy c s.
Proof using.
  intros Hr. unfold policy_put, me in Hr. autorewrite with run in Hr. next Hr. apply lift_inv in E as [E ->].
  exists r. by injection Hr as <-.
Qed.
Lemma policy_remove_inv s d s' : policy_remove s = Ok (d, s') → ∃ c, LRU.removeLRU (policy s) = Ok (d, c) ∧ s' = set_policy c s.
Proof using.
  intros Hr. unfold policy_remove, me in Hr. autorewrite with run in Hr. next Hr. destruct r as [o' c]. apply lift_inv in E as [E ->].
  exists c. by injection Hr as <- <-.
Qed.
Lemma set_policy_quietly c s : quietly s (set_policy c s).
Proof using. by apply (quietly_set_node (λ b, b <| replacementPolicy := c |>)). Qed.
Lemma set_main_eq (f : NVMain P W → NVMain P W) s (D : Type) (k : unit → ST _ D) :
  (set_main (C := C) f ≫= k) s = k () (s <| obj ::= λ n, n <| node ::= f |> |>).
Proof using. done. Qed.

(** ** A tag cache in order

    The decoder knows every address, has an address for the fields it finds and for
    their places in channels 0 and 1, and finds those fields there again. *)
Definition decodes b : Prop := ∀ a, is_u64 a → ∃ v, fields_at b a = Some v ∧
  ∀ c, c = s_channel v ∨ c = 0 ∨ c = 1 →
    ∃ x, addr_at b (with_channel c v) = Some x ∧ is_u64 x ∧ fields_at b x = Some (with_channel c v).
(** A block is an address of channel 1, its line an address of channel 0. *)
Definition in_channel b (c a : Z) : Prop := ∃ w, fields_at b a = Some w ∧ s_channel w = c.
Definition line_ok b (a d : Z) : Prop := is_u64 d ∧ in_channel b 0 d ∧ in_channel b 1 a.
Record tags_ok (cap : nat) s : Prop := {
  tk_decodes : decodes (node (obj s));
  tk_policy : lru_ok cap (policy s);
  tk_lines : map_Forall (line_ok (node (obj s))) (LRU.m (policy s));
  tk_tmp : is_u64 (tmpAddr (node (obj s)))
}.

(** A decoder with a method whose layout fits, and with a bit for the channel,
    knows every address. *)
Lemma configured_decodes b m busBits low : method (translator b) = Some m → method_ok m →
  low_bits (translator b) = Ok (busBits, low) → 0 ≤ busBits → 0 ≤ low → busBits + low < 64 →
  busBits + low + widths m (layout m) ≤ 64 → 1 ≤ digit (bitWidths m) MEM_CHANNEL → decodes b.
Proof using.
  intros K1 K2 K3 K4 K5 K6 Hsum Hch a Ha. destruct (Translate_fits _ m busBits low K1 K2 K3 K4 K5 K6 a out Ha) as (v & Ev & Hv & _).
  exists v. unfold fields_at. rewrite Ev. split; [done|]. intros c Hc. pose proof (proj2 (proj2 K2)) as Hws.
  assert (2 ^ 1 ≤ 2 ^ digit (bitWidths m) MEM_CHANNEL) as Hp by (apply Z.pow_le_mono_r; lia).
  assert (fields_fit m (with_channel c v)) as Hfit.
  { unfold fields_fit in *. rewrite Forall_forall in *. intros p Hin. specialize (Hv p Hin). destruct p; try exact Hv.
    destruct Hc as [-> | [-> | ->]]; [exact Hv|unfold digit at 1 2; cbn [six_get with_channel s_channel]; lia..]. }
  unfold addr_at. rewrite (ReverseTranslate_encode _ m busBits low) by done. eexists. split; [done|].
  assert (0 < 2 ^ (busBits + low)) as Hpos by (apply Z.pow_pos_nonneg; lia). split.
  - destruct (encode_bound m (with_channel c v) (layout m)) as [Hlo Hhi].
    { intros p Hin. unfold fields_fit in Hfit. rewrite Forall_forall in Hfit, Hws. split; [by apply (layout_width m K2)|].
      by apply Hfit, (layout_known m K2). }
    assert (2 ^ (busBits + low + widths m (layout m)) ≤ 2 ^ 64) as Hle by (apply Z.pow_le_mono_r; lia).
    rewrite Z.pow_add_r in Hle; [|lia|apply widths_nonneg; intros p Hin; by apply (layout_width m K2)].
    unfold is_u64. nia.
  - pose proof (Translate_encode _ m busBits low K1 K2 K3 K4 K5 K6 (with_channel c v) 0 0 out Hfit ltac:(lia)) as E.
    rewrite Z.mul_0_l, !Z.add_0_r in E. by rewrite E.
Qed.

Lemma with_own_channel v : with_channel (s_channel v) v = v.
Proof using. by destruct v. Qed.
(** It stays in order when the decoder and the policy do. *)
Lemma tags_ok_same cap s s' : (∃ x, translator (node (obj s')) = retune x (translator (node (obj s)))) →
  lru_ok cap (policy s') → map_Forall (line_ok (node (obj s))) (LRU.m (policy s')) → is_u64 (tmpAddr (node (obj s'))) →
  tags_ok cap s → tags_ok cap s'.
Proof using.
  intros [x E%retune_translator] Hp Hl Ht [Hd _ _ _].
  assert (∀ a, fields_at (node (obj s')) a = fields_at (node (obj s)) a) as Ef by (intros a; by rewrite <- (fields_retuned _ _ a E)).
  assert (∀ v, addr_at (node (obj s')) v = addr_at (node (obj s)) v) as Ea by (intros v; by rewrite <- (addr_retuned _ _ v E)).
  split; [|done| |done].
  - intros a Ha. destruct (Hd a Ha) as (v & Hv & Hc). exists v. rewrite Ef. split; [done|]. intros c Hcv.
    destruct (Hc c Hcv) as (y & Hy & Hu & Hf). exists y. by rewrite Ea, Ef.
  - intros a d Had. unfold line_ok, in_channel. setoid_rewrite Ef. by apply Hl.
Qed.

(** Quiet steps that leave the tag cache alone. *)
Record calm s s' : Prop := {
  ca_quietly : quietly s s';
  ca_tags : tags (node (obj s')) = tags (node (obj s));
  ca_tmp : tmpAddr (node (obj s')) = tmpAddr (node (obj s))
}.
#[local] Instance calm_preorder : PreOrder calm.
Proof using. split; [by intros s; split|]. intros s1 s2 s3 [? ? ?] [? ? ?]. split; [by etransitivity|congruence..]. Qed.
Lemma calm_policy s s' : calm s s' → policy s' = policy s.
Proof using. intros [_ E _]. unfold policy, tags in *. congruence. Qed.
Lemma tags_ok_calm cap s s' : calm s s' → tags_ok cap s → tags_ok cap s'.
Proof using.
  intros Hc Hs. pose proof (calm_policy _ _ Hc) as Ep. destruct Hc as [[_ _ _ Hm] _ Et].
  apply (tags_ok_same cap s); [done|rewrite Ep; apply Hs|rewrite Ep; apply Hs|rewrite Et; apply Hs|done].
Qed.
Lemma asked_calm s s' : asked s s' → calm s s'.
Proof using.
  intros Ha. split; [by apply asked_quietly|by apply asked_tags|]. destruct Ha as [_ _ _ Hn]. by apply (field_retuned tmpAddr).
Qed.
Lemma bump_ok f s (D : Type) (k : unit → ST _ D) : ∃ s1, calm s s1 ∧ (bump_counters (C := C) f ≫= k) s = k () s1.
Proof using.
  unfold bump_counters. eexists. split; [|apply set_main_eq]. split; [by apply quietly_set_node|done|done].
Qed.

Ltac calm_step s1 C1 :=
  match goal with |- context [(bump_counters (C := C) ?f ≫= ?k) ?s] =>
    destruct (bump_ok f s _ k) as (s1 & C1 & ->) end.

(** ** The search for a line

    It ends at once: an address of channel 0 is no block. *)
Lemma line_is_new cap s a v : tags_ok cap s → fields_at (node (obj s)) a = Some v → s_channel v = 0 → LRU.has a (policy s) = false.
Proof using.
  intros Hs Hv Hch. unfold LRU.has. apply bool_decide_false. intros [d Hd]. destruct (tk_lines _ _ Hs a d Hd) as (_ & _ & w & Hw & Hch').
  rewrite Hv in Hw. injection Hw as <-. lia.
Qed.
Lemma free_rounds_ok cap n s : tags_ok cap s → ∃ a v s', free_rounds (P := P) (W := W) (C := C) out n s = Ok (Some (a, v), s') ∧
  calm s s' ∧ addr_at (node (obj s)) v = Some a ∧ is_u64 a ∧ fields_at (node (obj s)) a = Some v ∧
  s_channel v = 0 ∧ LRU.has a (policy s) = false.
Proof using.
  intros Hs. induction n as [|n IH]; cbn [free_rounds].
  - destruct (tk_decodes _ _ Hs (tmpAddr (node (obj s)))) as (v & Hv & Hc); [apply Hs|].
    destruct (Hc 0 (or_intror (or_introl eq_refl))) as (a & Ha & Hu & Hf). exists a, (with_channel 0 v).
    destruct (translate_addr_ok _ _ _ Hv) as (s1 & E1 & A1). rewrite <- (addr_quietly _ _ _ (asked_quietly _ _ A1)) in Ha.
    destruct (reverse_addr_ok _ _ _ Ha) as (s2 & E2 & A2). exists s2. assert (calm s s2) as Hcalm by (etransitivity; by apply asked_calm).
    assert (LRU.has a (policy s) = false) as Hh by (by eapply line_is_new).
    rewrite (addr_quietly _ _ _ (asked_quietly _ _ A1)) in Ha. split; [|by split_and!].
    unfold free_round, me. autorewrite with run. rewrite bind_eq, E1, bind_eq, E2. autorewrite with run.
    fold (policy s2). by rewrite (calm_policy _ _ Hcalm), Hh.
  - destruct IH as (a & v & s' & E & Hr). exists a, v, s'. by rewrite bind_eq, E.
Qed.

(** ** What the policy does to the lines *)

Lemma put_lines (Q : Z → Z → Prop) a d c c' : LRU.put a d c = Ok c' → map_Forall Q (LRU.m c) → Q a d → map_Forall Q (LRU.m c').
Proof using.
  unfold LRU.put. intros Hr Hc Had. rnext Hr. injection Hr as <-. fields. apply map_Forall_insert_2; [done|].
  destruct (LRU.m c !! a).
  - rnext E. injection E as <-. fields. by apply map_Forall_delete.
  - destruct (LRU.isFull c); [|by injection E as <-]. destruct (LRU.dq_pop _) as [[k l]|]; [|done]. injection E as <-. fields. by apply map_Forall_delete.
Qed.
Lemma remove_full (Q : Z → Z → Prop) cap c : lru_ok cap c → LRU.isFull c = true → map_Forall Q (LRU.m c) →
  ∃ k d c1, LRU.removeLRU c = Ok (d, c1) ∧ LRU.m c !! k = Some d ∧ lru_ok cap c1 ∧ map_Forall Q (LRU.m c1).
Proof using.
  intros Hc Hf Hq. rewrite (isFull_spec _ _ Hc), bool_decide_eq_true in Hf. pose proof (lo_room _ _ Hc) as [Hcap _].
  destruct (last (LRU.dq c)) as [k|] eqn:Ek; [|apply last_None in Ek; rewrite Ek in Hf; cbn in Hf; lia].
  destruct (pop_ok _ _ _ Hc Ek) as (d & Hd & _ & Hc' & _). exists k, d. unfold LRU.removeLRU. rewrite (dq_pop_spec _ _ Ek). cbn.
  rewrite Hd. eexists. split; [done|]. split_and!; [done..|]. fields. by apply map_Forall_delete.
Qed.
Lemma get_same cap a c : lru_ok cap c → ∃ c', LRU.get a c = Ok (LRU.m c !! a, c') ∧ lru_ok cap c' ∧ LRU.m c' = LRU.m c.
Proof using.
  intros Hc. destruct (LRU.m c !! a) as [d|] eqn:Ed.
  - destruct (get_ok _ _ _ _ Hc Ed) as (c' & E & Hc' & _). exists c'. split_and!; [done..|]. unfold LRU.get in E. rewrite Ed in E.
    rnext E. injection E as <-. by fields.
  - exists c. unfold LRU.get. by rewrite Ed.
Qed.
Lemma policy_get_ok a s o c : LRU.get a (policy s) = Ok (o, c) → policy_get a s = Ok (o, set_policy c s).
Proof using. intros E. unfold policy_get, me. autorewrite with run. unfold policy in E. rewrite bind_eq. unfold lift. by rewrite E. Qed.
Lemma policy_put_ok a d s c : LRU.put a d (policy s) = Ok c → policy_put a d s = Ok ((), set_policy c s).
Proof using. intros E. unfold policy_put, me. autorewrite with run. unfold policy in E. rewrite bind_eq. unfold lift. by rewrite E. Qed.
Lemma policy_remove_ok s d c : LRU.removeLRU (policy s) = Ok (d, c) → policy_remove s = Ok (d, set_policy c s).
Proof using. intros E. unfold policy_remove, me. autorewrite with run. unfold policy in E. rewrite bind_eq. unfold lift. by rewrite E. Qed.

(** A request that the tag cache made. *)
Record made (t : OpType) (a : Z) (fl : Z) (r : NVMainRequest) : Prop := {
  md_type : type r = t;
  md_address : GetPhysicalAddress (address r) = a;
  md_flags : flags r = fl;
  md_owner : owner r = Some this
}.
Lemma tag_request_inv t a v d fl s q s' : tag_request t a v d fl s = Ok (q, s') →
  ∃ r, made t a fl r ∧ q = h_next (heap s) ∧ obj s' = obj s ∧ queue s' = queue s ∧
    heap s' = (heap s) <| h_reqs ::= <[q := r]> |> <| h_next ::= Pos.succ |>.
Proof using.
  intros Hr. unfold Main.tag_request in Hr. next Hr. apply lift_inv in E as [_ ->]. injection Hr as <- <-.
  eexists. split; [|split_and!; reflexivity]. by split.
Qed.
(** The data can be copied into a new request. *)
Definition copyable (d : NVMDataBlock) : Prop := ∃ d', NVMDataBlock_assign NVMDataBlock_new d = Ok d'.
Lemma tag_request_ok t a v d fl s : copyable d → ∃ q s', tag_request t a v d fl s = Ok (q, s').
Proof using. intros [d' E]. unfold Main.tag_request. rewrite bind_eq. unfold lift. change (data (NVMainRequest_new status0 access0 bit0)) with NVMDataBlock_new. rewrite E. by do 2 eexists. Qed.

(** The least recently used block loses its line to the block of the request. *)
Record replaced (r : NVMainRequest) s s' (rd : ReqPtr) : Prop := mk_replaced {
  rp_policy : ∃ d c1, LRU.removeLRU (policy s) = Ok (d, c1) ∧
    LRU.put (GetPhysicalAddress (address r)) d c1 = Ok (policy s') ∧
    inverseMap (node (obj s')) = <[d := GetPhysicalAddress (address r)]> (inverseMap (node (obj s))) ∧
    (∃ w rw, waitingDRAMWrite (node (obj s')) = waitingDRAMWrite (node (obj s)) ++ [w] ∧
       h_reqs (heap s') !! w = Some rw ∧ made WRITE d EVICT_SKIP rw) ∧
    ∃ rr, h_reqs (heap s') !! rd = Some rr ∧ made READ d EVICT rr;
  rp_queue : queue s' = queue s;
  rp_kids : kids (obj s') = kids (obj s);
  rp_map : ∃ x, translator (node (obj s')) = retune x (translator (node (obj s)));
  rp_tmp : tmpAddr (node (obj s')) = tmpAddr (node (obj s))
}.
Lemma replace_line_inv q s rd s' r : h_reqs (heap s) !! q = Some r → replace_line q s = Ok (rd, s') → replaced r s s' rd.
Proof using.
  intros Hq Hr. unfold Main.replace_line in Hr. next Hr. apply policy_remove_inv in E as (c1 & E1 & ->).
  rewrite (bind_load_req _ r) in Hr by done. next Hr. apply policy_put_inv in E as (c2 & E2 & ->).
  rewrite set_main_eq in Hr. next Hr. apply translate_addr_inv in E as [_ Ha]. next Hr.
  apply tag_request_inv in E as (rw & Hw & Ew & Ow & Qw & Hh). rewrite set_main_eq in Hr. next Hr. apply lift_inv in E as [_ ->].
  next Hr. apply tag_request_inv in E as (rr & Hrr & Err & Orr & Qrr & Hh'). rewrite set_main_eq in Hr. injection Hr as <- <-.
  pose proof (asked_tags _ _ Ha) as Ht. unfold tags in Ht. injection Ht as T1 T2 T3 _.
  pose proof (ca_tmp _ _ (asked_calm _ _ Ha)) as Tt. destruct Ha as [_ Aq Ak An]. destruct (field_map _ _ An) as [y Ey].
  cbn in Ow, Hh, Orr, Hh', Ew, Err, Qw, Qrr. split.
  2-5: fields; rewrite ?Qrr, ?Orr; fields; rewrite ?Qw, ?Ow.
  2: exact Aq. 2: exact Ak. 2: by exists y. 2: exact Tt.
  exists r0, c1. unfold policy. fields. rewrite Orr. fields. rewrite Ow.
  split_and!; [exact E1|by rewrite T1|by rewrite T2| |].
  all: change (heap (x0 <| obj ::= _ |>)) with (heap x0) in Err, Hh'.
  - exists r3, rw. split; [by rewrite T3|]. split; [|done]. rewrite Hh'. fields. rewrite lookup_insert_ne; [|rewrite Err, Hh; fields; lia].
    rewrite Hh. fields. apply lookup_insert_eq.
  - exists rr. split; [|done]. rewrite Hh'. fields. apply lookup_insert_eq.
Qed.

Lemma fresh_copyable l : copyable (blk l).
Proof using. exists (blk l). apply assign_blank. Qed.
(** It succeeds when the cache is full, and leaves the tag cache in order. *)
Lemma replace_line_ok cap q s r : h_reqs (heap s) !! q = Some r → tags_ok cap s → LRU.isFull (policy s) = true →
  in_channel (node (obj s)) 1 (GetPhysicalAddress (address r)) → copyable (data r) →
  ∃ rd s', replace_line q s = Ok (rd, s') ∧ replaced r s s' rd ∧ tags_ok cap s'.
Proof using.
  intros Hq Ht Hf Hch Hcp. destruct (remove_full _ _ _ (tk_policy _ _ Ht) Hf (tk_lines _ _ Ht)) as (k & d & c1 & E1 & Hk & Ok1 & L1).
  destruct (tk_lines _ _ Ht _ _ Hk) as (Hd & Hd0 & _). pose proof Hd0 as (w & Hw & _).
  destruct (put_ok cap c1 (GetPhysicalAddress (address r)) d Ok1) as (c2 & E2 & Ok2 & _).
  assert (∃ y, replace_line q s = Ok y) as [[rd s'] E].
  { unfold Main.replace_line. rewrite bind_eq, (policy_remove_ok _ _ _ E1), (bind_load_req _ r) by done.
    rewrite bind_eq, (policy_put_ok _ _ (set_policy c1 s) c2 E2), set_main_eq.
    edestruct (translate_addr_ok d) as (s2 & E3 & _); [|rewrite bind_eq, E3]; [exact Hw|].
    destruct (tag_request_ok WRITE d w (data r) EVICT_SKIP s2 Hcp) as (q2 & s3 & E4). rewrite bind_eq, E4, set_main_eq.
    rewrite bind_eq. unfold lift. cbn [SetSize rawData NVMDataBlock_new]. 
    match goal with |- context [(tag_request READ d w ?b EVICT ≫= _) ?s4] =>
      destruct (tag_request_ok READ d w b EVICT s4 (fresh_copyable (fresh <$> seq 0 64))) as (q3 & s5 & E5) end.
    rewrite bind_eq, E5, set_main_eq. by eexists. }
  pose proof (replace_line_inv _ _ _ _ _ Hq E) as Hr. exists rd, s'. split_and!; [done..|].
  pose proof Hr as [(d' & c1' & F1 & F2 & _) _ _ Hm Hu]. rewrite E1 in F1. injection F1 as <- <-. rewrite E2 in F2. injection F2 as F2.
  apply (tags_ok_same cap s); [done|by rewrite <- F2| |rewrite Hu; apply Ht|done]. rewrite <- F2. by eapply put_lines.
Qed.

(** ** Looking a block up *)

Lemma address_again w x v a y :
  SetPhysicalAddress x (translated_as w (SetPhysicalAddress a (translated_as v y))) = SetPhysicalAddress x (translated_as w y).
Proof using. by destruct y. Qed.
Lemma address_order v a y : translated_as v (SetPhysicalAddress a y) = SetPhysicalAddress a (translated_as v y).
Proof using. by destruct y. Qed.
Lemma redirected_again w x v a r : redirected w x (redirected v a r) = redirected w x r.
Proof using. unfold redirected. destruct r. unfold upd. cbn. by rewrite address_again. Qed.

Lemma redirect_ok q v s r a : h_reqs (heap s) !! q = Some r → addr_at (node (obj s)) v = Some a →
  ∃ s', redirect q v s = Ok ((), s') ∧ settled q (redirected v a r) s s'.
Proof using.
  intros Hq Ha. assert (∃ y, redirect q v s = Ok y) as [[[] s'] E].
  { unfold redirect. destruct (reverse_addr_ok _ _ _ Ha) as (s1 & E & [A _ _ _]). rewrite bind_eq, E, <- A in *.
    rewrite (bind_load_req _ _ _ _ Hq). unfold store_req. rewrite Hq. by eexists. }
  exists s'. split; [done|]. apply (redirect_inv _ _ _ _ _ _ Hq) in E as (a' & Ha' & Hs). congruence.
Qed.

(** Request [q] is now [r], and the tag cache is in order. *)
Definition routed (cap : nat) (q : ReqPtr) (r : NVMainRequest) s s' : Prop := moved q r s s' ∧ tags_ok cap s'.
Lemma routed_calm cap q r s s1 s' : calm s s1 → routed cap q r s1 s' → routed cap q r s s'.
Proof using. intros [Hq _ _] [Hm Ht]. split; [by eapply quietly_moved|done]. Qed.
Lemma routed_routed cap q r r' s s1 s' : routed cap q r s s1 → routed cap q r' s1 s' → routed cap q r' s s'.
Proof using. intros [Hm _] [Hm' Ht]. split; [by eapply moved_moved|done]. Qed.
Lemma settled_tmp q r s s' : settled q r s s' → tmpAddr (node (obj s')) = tmpAddr (node (obj s)).
Proof using. intros [_ _ _ Hn]. by apply (field_retuned tmpAddr). Qed.
Lemma settled_tags q r s s' : settled q r s s' → tags (node (obj s')) = tags (node (obj s)).
Proof using. intros [_ _ _ Hn]. by apply retuned_tags. Qed.
Lemma settled_policy q r s s' : settled q r s s' → policy s' = policy s.
Proof using. intros Hs%settled_tags. unfold policy, tags in *. congruence. Qed.
Lemma settled_routed cap q r s s' : settled q r s s' → tags_ok cap s → routed cap q r s s'.
Proof using.
  intros Hs Ht. pose proof (settled_moved _ _ _ _ Hs) as Hm. split; [done|]. pose proof (settled_policy _ _ _ _ Hs) as Ep.
  apply (tags_ok_same cap s); [apply Hm|rewrite Ep; apply Ht|rewrite Ep; apply Ht|rewrite (settled_tmp _ _ _ _ Hs); apply Ht|done].
Qed.
Lemma calm_req s s' q r : calm s s' → h_reqs (heap s) !! q = Some r → h_reqs (heap s') !! q = Some r.
Proof using. intros [[-> _ _ _] _ _]. done. Qed.

(** The start of a lookup: the request has the block's address in the NVRAM, and
    the policy was asked for it. *)
Lemma tag_lookup_start cap again q v s r a : h_reqs (heap s) !! q = Some r → tags_ok cap s →
  addr_at (node (obj s)) (with_channel 1 v) = Some a →
  ∃ s1, routed cap q (redirected (with_channel 1 v) a r) s s1 ∧
    tags (node (obj s1)) = tags ((node (obj s)) <| replacementPolicy := policy s1 |>) ∧ tmpAddr (node (obj s1)) = tmpAddr (node (obj s)) ∧
    LRU.get a (policy s) = Ok (LRU.m (policy s) !! a, policy s1) ∧
    tag_lookup again q v s =
      match LRU.m (policy s) !! a with
      | Some d => tag_hit out q d
      | None => tag_miss this out status0 access0 bit0 fresh again q (with_channel 1 v)
      end s1.
Proof using.
  intros Hq Ht Ha. unfold Main.tag_lookup. destruct (bump_ok (λ c, c <| totalReqs ::= inc |>) s _
    (λ _, a0 ← reverse_addr (with_channel 1 v); r0 ← load_req q;
      store_req q (r0 <| address ::= λ x, translated_as (with_channel 1 v) (SetPhysicalAddress a0 x) |>);;
      cached ← policy_get a0; translate_addr (default 0 cached);;
      match cached with None => tag_miss this out status0 access0 bit0 fresh again q (with_channel 1 v) | Some d => tag_hit out q d end))
    as (s1 & C1 & E1). rewrite E1. clear E1.
  rewrite <- (addr_quietly _ _ _ (ca_quietly _ _ C1)) in Ha. destruct (reverse_addr_ok _ _ _ Ha) as (s2 & E2 & C2%asked_calm).
  rewrite bind_eq, E2. assert (calm s s2) as Cs by by etransitivity. pose proof (calm_req _ _ _ _ Cs Hq) as Hq2.
  rewrite (bind_load_req _ _ _ _ Hq2). set (r' := r <| address ::= _ |>).
  assert (r' = redirected (with_channel 1 v) a r) as Er by (subst r'; unfold redirected, upd; destruct r; cbn; by rewrite address_order).
  rewrite bind_eq. unfold store_req. rewrite Hq2. rewrite Er. clear r' Er. set (s3 := s2 <| heap ::= _ |>).
  assert (settled q (redirected (with_channel 1 v) a r) s2 s3) as Hs by by split.
  apply (settled_routed cap) in Hs as R3; [|by eapply tags_ok_calm]. apply settled_policy in Hs as Ep. rewrite (calm_policy _ _ Cs) in Ep.
  pose proof (settled_tags _ _ _ _ Hs) as Tg. rewrite (ca_tags _ _ Cs) in Tg. pose proof (settled_tmp _ _ _ _ Hs) as Tm. rewrite (ca_tmp _ _ Cs) in Tm.
  clearbody s3. destruct (get_same cap a (policy s)) as (c & Eg & Hc & Em); [apply Ht|].
  rewrite bind_eq, (policy_get_ok a s3 (LRU.m (policy s) !! a) c) by by rewrite Ep.
  assert (routed cap q (redirected (with_channel 1 v) a r) s (set_policy c s3)) as R4.
  { eapply routed_calm; [exact Cs|]. destruct R3 as [M3 T3]. split; [by eapply moved_quietly, set_policy_quietly|].
    apply (tags_ok_same cap s3); [by eexists; apply retune_self|done| |apply T3|done].
    unfold policy at 1, set_policy. fields. rewrite Em, <- Ep. apply T3. }
  destruct (tk_decodes _ _ (proj2 R4) (default 0 (LRU.m (policy s) !! a))) as (w & Hw & _).
  { destruct (LRU.m (policy s) !! a) as [d|] eqn:Ed; [by apply (tk_lines _ _ Ht _ _ Ed)|]. cbn. unfold is_u64. lia. }
  destruct (translate_addr_ok _ _ _ Hw) as (s5 & E5 & C5%asked_calm). rewrite bind_eq, E5. exists s5.
  assert (policy s5 = c) as Ep5 by (rewrite (calm_policy _ _ C5); unfold policy, set_policy; by fields). rewrite Ep5.
  split_and!; [| | |done|by destruct (LRU.m (policy s) !! a)].
  2: { rewrite (ca_tags _ _ C5). unfold tags in *. injection Tg as _ E6 E7 E8. unfold set_policy. fields. by rewrite E6, E7, E8. }
  2: by rewrite (ca_tmp _ _ C5).
  destruct R4 as [M4 T4]. split; [by eapply moved_quietly, C5|by eapply tags_ok_calm].
Qed.

#[local] Abbreviation tag_miss := (tag_miss this out status0 access0 bit0 fresh).

(** What was replaced since a state with the same tag cache. *)
Lemma replaced_since r s0 s s' rd : tags (node (obj s)) = tags (node (obj s0)) → tmpAddr (node (obj s)) = tmpAddr (node (obj s0)) →
  queue s = queue s0 → kids (obj s) = kids (obj s0) → (∃ x, translator (node (obj s)) = retune x (translator (node (obj s0)))) →
  replaced r s s' rd → replaced r s0 s' rd.
Proof using.
  unfold tags. intros E Et Eq Ek Em [Hr Hq Hk Hm Hu]. injection E as E1 E2 E3 _.
  split; [|congruence..|by eapply retune_trans|congruence]. unfold policy in *. by rewrite <- E1, <- E2, <- E3.
Qed.
Lemma replaced_calm r s0 s s' rd : calm s0 s → replaced r s s' rd → replaced r s0 s' rd.
Proof using. intros [[_ ? ? ?] ? ?]. by apply replaced_since. Qed.

(** The end of a lookup. *)
Lemma redirected_ok cap q v s s1 r a : calm s s1 → h_reqs (heap s) !! q = Some r → tags_ok cap s → addr_at (node (obj s)) v = Some a →
  ∃ s', (redirect q v;; mret (Some (s_channel v))) s1 = Ok (Some (s_channel v), s') ∧ routed cap q (redirected v a r) s s' ∧
    tags (node (obj s')) = tags (node (obj s)).
Proof using.
  intros Hs Hq Ht Ha. rewrite <- (addr_quietly _ _ _ (ca_quietly _ _ Hs)) in Ha.
  destruct (redirect_ok _ _ _ _ _ (calm_req _ _ _ _ Hs Hq) Ha) as (s' & E & Hs'). exists s'. rewrite bind_eq, E. split; [done|]. split.
  - eapply routed_calm; [exact Hs|]. apply (settled_routed cap) in Hs'; [done|by eapply tags_ok_calm].
  - rewrite (settled_tags _ _ _ _ Hs'). apply Hs.
Qed.

(** A block in the DRAM: its line. *)
Lemma tag_hit_ok cap q d s r w x : h_reqs (heap s) !! q = Some r → tags_ok cap s →
  fields_at (node (obj s)) d = Some w → addr_at (node (obj s)) w = Some x →
  ∃ s', tag_hit out q d s = Ok (Some (s_channel w), s') ∧ routed cap q (redirected w x r) s s' ∧
    tags (node (obj s')) = tags (node (obj s)).
Proof using.
  intros Hq Ht Hw Hx. unfold Main.tag_hit. calm_step s1 C1. rewrite <- (fields_quietly _ _ _ (ca_quietly _ _ C1)) in Hw.
  destruct (translate_addr_ok _ _ _ Hw) as (s2 & E2 & C2%asked_calm). rewrite bind_eq, E2.
  assert (calm s s2) as Cs by by etransitivity. rewrite (bind_load_req _ _ _ _ (calm_req _ _ _ _ Cs Hq)). calm_step s3 C3.
  apply redirected_ok; [by etransitivity|done..].
Qed.
(** Anything else that is not a write: the NVRAM. *)
Lemma tag_miss_other_ok cap again q v s r a : h_reqs (heap s) !! q = Some r → tags_ok cap s → type r ≠ WRITE →
  addr_at (node (obj s)) v = Some a →
  ∃ s', tag_miss again q v s = Ok (Some (s_channel v), s') ∧ routed cap q (redirected v a r) s s' ∧
    tags (node (obj s')) = tags (node (obj s)).
Proof using.
  intros Hq Ht Hw Ha. unfold Main.tag_miss. calm_step s1 C1. rewrite (bind_load_req _ _ _ _ (calm_req _ _ _ _ C1 Hq)).
  rewrite decide_False by done. calm_step s2 C2. apply redirected_ok; [by etransitivity|done..].
Qed.

(** A line for a block: it is no block yet, and the tag cache stays in order. *)
Lemma allocate_line_ok cap q s r : h_reqs (heap s) !! q = Some r → tags_ok cap s →
  in_channel (node (obj s)) 1 (GetPhysicalAddress (address r)) →
  ∃ d w s', allocate_line q s = Ok ((d, w), s') ∧ addr_at (node (obj s)) w = Some d ∧ s_channel w = 0 ∧
    LRU.has d (policy s) = false ∧ LRU.put (GetPhysicalAddress (address r)) d (policy s) = Ok (policy s') ∧
    quietly s s' ∧ tags_ok cap s'.
Proof using.
  intros Hq Ht Hch. unfold Main.allocate_line, find_free.
  destruct (free_rounds_ok cap 58 s Ht) as (d & w & s1 & E1 & C1 & Ha & Hd & Hw & Hc & Hh).
  rewrite bind_assoc, bind_eq, E1, bind_ret, set_main_eq.
  destruct (put_ok cap (policy s) (GetPhysicalAddress (address r)) d (tk_policy _ _ Ht)) as (c & E2 & Hok & _).
  exists d, w. eexists. rewrite bind_load_req with (r := r) by by apply (calm_req _ _ _ _ C1).
  rewrite bind_eq, (policy_put_ok _ d _ c), set_main_eq by (rewrite <- E2; f_equal; by rewrite <- (calm_policy _ _ C1)).
  match goal with |- mret _ ?x = _ ∧ _ => set (s' := x) end. assert (quietly s s') as Hqu.
  { etransitivity; [apply C1|]. split; [done..|]. eexists. apply retune_self. }
  split; [done|]. split_and!; [done..|]. apply (tags_ok_same cap s); [apply Hqu|exact Hok| |exact (u64_range _)|done].
  eapply put_lines; [exact E2|apply Ht|]. split_and!; [done|by exists w|done].
Qed.
(** A write with room for its block: its new line. *)
Lemma tag_miss_room_ok cap again q v s r : h_reqs (heap s) !! q = Some r → tags_ok cap s → type r = WRITE →
  LRU.isFull (policy s) = false → in_channel (node (obj s)) 1 (GetPhysicalAddress (address r)) →
  ∃ d w s', tag_miss again q v s = Ok (Some 0, s') ∧ addr_at (node (obj s)) w = Some d ∧ s_channel w = 0 ∧
    LRU.has d (policy s) = false ∧ routed cap q (redirected w d r) s s' ∧
    LRU.put (GetPhysicalAddress (address r)) d (policy s) = Ok (policy s').
Proof using.
  intros Hq Ht Hw Hf Hch. unfold Main.tag_miss. calm_step s1 C1. rewrite (bind_load_req _ _ _ _ (calm_req _ _ _ _ C1 Hq)).
  rewrite decide_True by done. calm_step s2 C2. assert (calm s s2) as Cs by by etransitivity. pose proof (calm_req _ _ _ _ Cs Hq) as Hq2.
  pose proof (calm_policy _ _ Cs) as Ep. unfold me. autorewrite with run. fold (policy s2). rewrite Ep, Hf.
  destruct (allocate_line_ok cap q s2 r Hq2) as (d & w & s3 & E & Ha & Hc & Hh & Hp & Q3 & T3); [by eapply tags_ok_calm| |].
  { unfold in_channel. by setoid_rewrite (fields_quietly _ _ _ (ca_quietly _ _ Cs)). }
  rewrite bind_eq, E. rewrite (addr_quietly _ _ _ (ca_quietly _ _ Cs)) in Ha. rewrite Ep in Hh, Hp.
  assert (quietly s s3) as Q by (etransitivity; [apply Cs|done]). pose proof Ha as Ha3. rewrite <- (addr_quietly _ _ _ Q) in Ha3.
  destruct (redirected_ok cap q w s3 s3 r d) as (s' & E' & [M' T'] & Et'); [done|by rewrite (qu_heap _ _ Q)|done..|].
  exists d, w, s'. rewrite E', Hc. split_and!; [done..| |].
  - split; [by eapply quietly_moved|done].
  - rewrite Hp. f_equal. unfold policy, tags in *. congruence.
Qed.
(** A write that finds the cache full takes the oldest line; the request itself
    goes nowhere, but the old line is read. *)
Lemma tag_miss_full_ok cap again q v s r : h_reqs (heap s) !! q = Some r → tags_ok cap s → type r = WRITE →
  LRU.isFull (policy s) = true → in_channel (node (obj s)) 1 (GetPhysicalAddress (address r)) → copyable (data r) →
  ∃ rd s', tag_miss again q v s = (again rd;; mret None) s' ∧ replaced r s s' rd ∧ tags_ok cap s'.
Proof using.
  intros Hq Ht Hw Hf Hch Hcp. unfold Main.tag_miss. calm_step s1 C1. rewrite (bind_load_req _ _ _ _ (calm_req _ _ _ _ C1 Hq)).
  rewrite decide_True by done. calm_step s2 C2. assert (calm s s2) as Cs by by etransitivity.
  unfold me. autorewrite with run. fold (policy s2). rewrite (calm_policy _ _ Cs), Hf. calm_step s3 C3.
  assert (calm s s3) as Cs3 by by etransitivity. pose proof (calm_req _ _ _ _ Cs3 Hq) as Hq3.
  destruct (replace_line_ok cap q s3 r Hq3) as (rd & s' & E & Hr & T'); [by eapply tags_ok_calm|by rewrite (calm_policy _ _ Cs3)| |done|].
  { unfold in_channel. by setoid_rewrite (fields_quietly _ _ _ (ca_quietly _ _ Cs3)). }
  exists rd, s'. rewrite bind_eq, E. split; [done|]. split; [|done]. by eapply replaced_calm.
Qed.


(** ** Issuing ends *)

Lemma made_flagged t a fl r : made t a fl r → has_flag fl EVICT_SKIP = true → flagged r = true.
Proof using. intros [_ _ E _] Hf. unfold flagged. by rewrite E. Qed.

(** The tag cache issues nothing that it would look up again. *)
Lemma tag_lookup_again again again' q v s :
  (∀ rd s1 r, h_reqs (heap s1) !! rd = Some r → flagged r = true → again rd s1 = again' rd s1) →
  tag_lookup again q v s = tag_lookup again' q v s.
Proof using.
  intros Ha. unfold Main.tag_lookup. do 6 (apply bind_congr; intros ? ? _). destruct a3 as [d|]; [done|].
  unfold Main.tag_miss. apply bind_congr; intros _ s1 _. apply bind_congr; intros r s2 [-> Hq]%load_req_inv.
  case_decide; [|done]. apply bind_congr; intros _ s3 [= <-]. apply bind_congr; intros b s4 [= <- <-].
  destruct (LRU.isFull _); [|done]. apply bind_congr; intros _ s5 [= <-].
  apply bind_congr; intros rd s6 Er. subst. eapply replace_line_inv in Er as [(d & c1 & _ & _ & _ & _ & rr & Hrr & Hm)]; [|exact Hq].
  rewrite !bind_eq. by rewrite (Ha rd s6 rr Hrr (made_flagged _ _ _ _ Hm eq_refl)).
Qed.

Lemma issue_two n q s : issue (2 + n) q s = IssueCommand q s.
Proof using.
  unfold Main.IssueCommand. change (2 + n)%nat with (S (S n)). remember (S n) as m eqn:Em. remember 1%nat as k eqn:Ek.
  cbn [Main.issue]. apply bind_congr; intros b s1 _. destruct (negb _); [done|]. apply bind_congr; intros v s2 _.
  apply bind_congr; intros hit s3 _. destruct hit; [done|]. apply bind_congr; intros r s4 _. apply bind_congr; intros b' s5 _.
  rewrite !bind_eq. destruct (negb _ && _); [|done]. rewrite (tag_lookup_again _ (issue k)); [done|].
  intros rd s6 rr Hrr Hf. subst m k. by rewrite !(issue_flagged _ _ _ _ Hrr) by by rewrite Hf.
Qed.

(** Issuing a request ends: the requests that the tag cache issues while it
    replaces a line are not looked up again, so a nesting of two is all there
    ever is, and a request that is not looked up is issued straight away. *)
Theorem issue_depth n q s r : h_reqs (heap s) !! q = Some r →
  issue (2 + n) q s = IssueCommand q s ∧
  (flagged r = true → issue (1 + n) q s = issue_straight q s).
Proof using.
  intros Hq. split; [apply issue_two|]. intros Hf. apply (issue_flagged _ _ _ _ Hq). by rewrite Hf.
Qed.

(** ** Where a request goes *)


(** ** Where a request goes *)

(** Request [q], now with the fields [w] and the address [x], is issued to the
    controller of the channel of [w], with the tag cache in order; every answer is
    that controller's, and the tag cache stays as it is. *)
Record goes (cap : nat) (q : ReqPtr) (r : NVMainRequest) (w : six) (x : Z) s s1 : Prop := mk_goes {
  go_routed : routed cap q (redirected w x r) s s1;
  go_issued : IssueCommand q s = issue_to (s_channel w) q s1;
  go_answer ok s' : IssueCommand q s = Ok (ok, s') → tags (node (obj s')) = tags (node (obj s1)) ∧
    ∃ c sc, sent q (redirected w x r) (Z.to_nat (s_channel w)) ok s c sc
}.
Lemma goes_issued cap q r w x s s1 : routed cap q (redirected w x r) s s1 → IssueCommand q s = issue_to (s_channel w) q s1 →
  goes cap q r w x s s1.
Proof using.
  intros Hr E. split; [done..|]. intros ok s' Ei. rewrite E in Ei. destruct Hr as [Hm _]. split; [by apply tags_issue_to in Ei|].
  apply (issue_to_sends _ _ _ _ _ _ (moved_req _ _ _ _ Hm)) in Ei as (c & sc & Hs). exists c, sc. by eapply sent_moved.
Qed.

(** Up to the block of the request: it has its address in the NVRAM, and the
    policy was asked. *)
Lemma issue_block cap q s r : h_reqs (heap s) !! q = Some r → is_u64 (GetPhysicalAddress (address r)) → flagged r = false →
  useTagCache (node (obj s)) = true → configured (node (obj s)) = true → live (heap s) (prefetchBuffer (node (obj s))) →
  prefetch_of s r = None → tags_ok cap s →
  ∃ v a s1, fields_at (node (obj s)) (GetPhysicalAddress (address r)) = Some v ∧
    addr_at (node (obj s)) (with_channel 1 v) = Some a ∧ fields_at (node (obj s)) a = Some (with_channel 1 v) ∧
    routed cap q (redirected (with_channel 1 v) a (placed v r)) s s1 ∧
    tags (node (obj s1)) = tags ((node (obj s)) <| replacementPolicy := policy s1 |>) ∧ tmpAddr (node (obj s1)) = tmpAddr (node (obj s)) ∧
    LRU.get a (policy s) = Ok (LRU.m (policy s) !! a, policy s1) ∧
    IssueCommand q s =
      (channel ← match LRU.m (policy s) !! a with
                 | Some d => tag_hit out q d
                 | None => tag_miss (issue 1) q (with_channel 1 v)
                 end;
       match channel with None => mret true | Some channel => issue_to channel q end) s1.
Proof using.
  intros Hq Hu Hf Ht Hc Hl Hp Hok. destruct (tk_decodes _ _ Hok _ Hu) as (v & Hv & Hd).
  destruct (Hd 1 (or_intror (or_intror eq_refl))) as (a & Ha & _ & Hfa).
  pose proof (issue_start 1 q s r v Hq Hc Hl Hv) as Hi. rewrite Hp, Hf, Ht in Hi. destruct Hi as (s1 & Hs & Ei).
  apply (settled_routed cap) in Hs as R1; [|done]. pose proof R1 as [M1 T1]. pose proof Ha as Ha1. rewrite <- (moved_addr _ _ _ _ _ M1) in Ha1.
  destruct (tag_lookup_start cap (issue 1) q v s1 _ a (moved_req _ _ _ _ M1) T1 Ha1) as (s2 & R2 & Tg & Tm & Eg & El).
  rewrite (settled_policy _ _ _ _ Hs) in Eg, El. pose proof (settled_tags _ _ _ _ Hs) as Tg1. unfold tags in Tg1. injection Tg1 as _ I1 W1 U1.
  exists v, a, s2. split_and!; [done..|by eapply routed_routed| |by rewrite Tm; apply (settled_tmp _ _ _ _ Hs)|done|].
  - rewrite Tg. unfold tags. fields. by rewrite I1, W1, U1.
  - unfold Main.IssueCommand. rewrite Ei. cbn [negb andb]. rewrite bind_eq, El. by rewrite <- bind_eq.
Qed.

End Proofs.

(** ** Examples *)

Module TopBench.
(** Controllers that take everything, no prefetcher and no trace. *)
Inductive Taker := taker.
#[export] Instance Taker_child : ChildOps Taker := {|
  ch_IsIssuable q := mret (true, None); ch_IssueCommand q := mret true; ch_NextIssuable q := mret 0;
  ch_Idle := mret true; ch_Cycle n := mret ()
|}.
#[export] Instance Taker_atomic : AtomicOps Taker := {| ch_IssueAtomic q := mret true |}.
Inductive Nothing := nothing.
#[export] Instance Nothing_prefetch : PrefetchOps Nothing := {|
  pf_NotifyAccess r x := Ok (false, [], x); pf_DoPrefetch r x := Ok (false, [], x)
|}.
#[export] Instance Nothing_writes : WriterOps Nothing := {|
  wr_SetTraceFile f x := x; wr_SetEcho e x := x; wr_SetNextAccess t x := Ok (true, x)
|}.

(** Two channels of one rank, two banks, four rows. *)
Definition method0 : TranslationMethod := SetBitWidths 2 3 1 0 1 0 (TranslationMethod_new (mkSix 4 8 2 1 2 1)).
Definition at0 : AddressTranslator := SetDefaultField CHANNEL_FIELD (SetTranslationMethod method0 AddressTranslator_new).
Definition out0 : six := mkSix 0 0 0 0 0 0.
Definition request (t : OpType) (a : Z) : NVMainRequest :=
  (NVMainRequest_new MEM_REQUEST_INCOMPLETE UNKNOWN_ACCESS 0) <| type := t |> <| address ::= SetPhysicalAddress a |>.
(** A memory with room for [cap] lines in its tag cache. *)
Definition top0 (tags : bool) (cap : Z) : NVMain Nothing Nothing :=
  (NVMain_new (Params_new 0 0 0) at0 (LRU.LRU_new cap) 2 cap) <| configured := true |> <| useTagCache := tags |>.
Definition heap0 (r : NVMainRequest) : Heap := mkHeap ∅ {[ 1%positive := r ]} ∅ 20 None.
Definition sim0 (tags : bool) (cap : Z) (r : NVMainRequest) : Sim (Node (NVMain Nothing Nothing) Taker) :=
  mkSim (heap0 r) (EventQueue_new dzero) (mkNode (top0 tags cap) [taker; taker]).
Definition issue0 s : res (bool * Sim (Node (NVMain Nothing Nothing) Taker)) :=
  Main.IssueCommand 9 out0 MEM_REQUEST_INCOMPLETE UNKNOWN_ACCESS 0 (λ _, 0) 1%positive s.
End TopBench.
Import TopBench.

(** A write of channel 0, and a read for which prefetch 2 is buffered. *)
Definition objects0 : gmap positive NVMObject :=
  {[ 8%positive := mkNVMObject None None [mkHook 7 9] [] [] [] NVMHOOK_NONE NVMHOOK_NONE;
     9%positive := mkNVMObject (Some (mkHook 6 8)) None [] [] [] [] NVMHOOK_NONE NVMHOOK_NONE ]}.
Definition prefetched_sim : Sim (Node (NVMain Nothing Nothing) Taker) :=
  mkSim (mkHeap objects0 {[ 1%positive := request READ 64; 2%positive := request READ 64 ]} ∅ 20 None) (EventQueue_new dzero)
    (mkNode ((top0 false 2) <| prefetcher := Some nothing |> <| prefetchBuffer := [2%positive] |>) [taker; taker]).
Lemma issue_routes_witness :
  (∃ v s1, fields_at out0 (top0 false 2) 64 = Some v ∧
    settled 1%positive (placed v (request WRITE 64)) (sim0 false 2 (request WRITE 64)) s1 ∧
    issue0 (sim0 false 2 (request WRITE 64)) = Main.issue_to 9 out0 MEM_REQUEST_INCOMPLETE UNKNOWN_ACCESS 0 (s_channel v) 1%positive s1) ∧
  ∃ s', issue0 prefetched_sim = Ok (true, s') ∧ prefetched 9 1%positive 2%positive prefetched_sim s'.
Proof.
  split.
  - destruct (fields_at out0 (top0 false 2) 64) as [v|] eqn:Hv; [|by vm_compute in Hv].
    destruct (issue_routes 9 out0 MEM_REQUEST_INCOMPLETE UNKNOWN_ACCESS 0 (λ _, 0) 1%positive (sim0 false 2 (request WRITE 64)) (request WRITE 64) v
      eq_refl eq_refl (Forall_nil_2 _) Hv eq_refl) as (s1 & Hs & E & _).
    exists v, s1. split; [done|]. split; [exact Hs|exact E].
  - destruct (issue0 prefetched_sim) as [[ok s']|e] eqn:E; [|by vm_compute in E].
    destruct (fields_at out0 (node (obj prefetched_sim)) 64) as [v|] eqn:Hv; [|by vm_compute in Hv].
    assert (live (heap prefetched_sim) (prefetchBuffer (node (obj prefetched_sim)))) as Hl.
    { apply Forall_singleton. by eexists. }
    destruct (issue_routes 9 out0 MEM_REQUEST_INCOMPLETE UNKNOWN_ACCESS 0 (λ _, 0) 1%positive prefetched_sim (request READ 64) v
      eq_refl eq_refl Hl Hv ok s' E) as [-> Hp].
    by exists s'.
Defined.

Lemma issue_depth_witness :
  let r := (request READ 64) <| flags := EVICT |> in
  issue0 (sim0 true 2 r) = Main.issue 9 out0 MEM_REQUEST_INCOMPLETE UNKNOWN_ACCESS 0 (λ _, 0) 5 1%positive (sim0 true 2 r) ∧
  Main.issue 9 out0 MEM_REQUEST_INCOMPLETE UNKNOWN_ACCESS 0 (λ _, 0) 4 1%positive (sim0 true 2 r) =
    issue_straight 9 out0 MEM_REQUEST_INCOMPLETE UNKNOWN_ACCESS 0 1%positive (sim0 true 2 r).
Proof.
  intros r. destruct (issue_depth 9 out0 MEM_REQUEST_INCOMPLETE UNKNOWN_ACCESS 0 (λ _, 0) 3 1%positive (sim0 true 2 r) r eq_refl)
    as [E1 E2]. split; [symmetry; exact E1|apply E2; reflexivity].
Defined.

Lemma sim0_in_order r : tags_ok out0 2 (sim0 true 2 r).
Proof.
  split.
  - apply (configured_decodes out0 _ method0 3 3); [done|by_decide|by vm_compute|..]; vm_compute; congruence.
  - apply (lru_ok_new 2); lia.
  - apply map_Forall_empty.
  - done.
Qed.

(** ** Two blocks in one line

    The line of a block is an address of channel 0 that is no key of the policy,
    but the keys are addresses of channel 1. When low bits of the address choose
    the channel, two consecutive lines are the same line. *)

Definition shared_top : NVMain Nothing Nothing :=
  (top0 true 4) <| translator := SetDefaultField CHANNEL_FIELD
    (SetTranslationMethod (SetOrder 4 2 3 5 1 6 method0) AddressTranslator_new) |>.
Definition shared_sim : Sim (Node (NVMain Nothing Nothing) Taker) :=
  mkSim (mkHeap ∅ {[ 1%positive := request WRITE 0; 2%positive := request WRITE 128 ]} ∅ 20 None)
    (EventQueue_new dzero) (mkNode shared_top [taker; taker]).
(** The blocks of the policy with their lines, after two writes. *)
Definition two_writes : option (list (Z * Z)) :=
  let issue_one q s := Main.IssueCommand (P := Nothing) (W := Nothing) (C := Taker) 9 out0 MEM_REQUEST_INCOMPLETE UNKNOWN_ACCESS 0 (λ _, 0) q s in
  match issue_one 1%positive shared_sim with
  | Ok (_, s) => match issue_one 2%positive s with Ok (_, s) => Some (entries (policy s)) | Err _ => None end
  | Err _ => None
  end.
Lemma tag_lines_shared : two_writes = Some [(192, 0); (64, 0)].
Proof. by vm_compute. Qed.
