(* ===== verification/Rounding.v ===== *)
(** * Bounds of the double arithmetic

    What the clock ratios need of IEEE binary64: a product or a quotient is
    rounded, but it does not fall below an integer that the exact value reaches,
    and it does not exceed a power of two that the exact value does not. *)

From S2P Require Import Prelude.

(** ** Shifting right *)

Lemma shr_1_half r : 0 ≤ shr_m r → shr_m (shr_1 r) = shr_m r / 2.
Proof.
  destruct r as [[|[p|p|]|p] b c]; intros Hr; cbn in Hr |- *; try done; try lia.
  - rewrite Pos2Z.inj_xI. apply (Z.div_unique _ _ _ 1); lia.
  - rewrite Pos2Z.inj_xO. apply (Z.div_unique _ _ _ 0); lia.
Qed.

(** Nothing was lost: the remainder bits are clear. *)
Definition exact (r : shr_record) : Prop := loc_of_shr_record r = loc_Exact.
Lemma exact_bits r : exact r ↔ shr_r r = false ∧ shr_s r = false.
Proof. unfold exact. destruct r as [m [] []]; cbn; intuition congruence. Qed.
Lemma shr_1_even r : 0 ≤ shr_m r → exact (shr_1 r) ↔ exact r ∧ Z.even (shr_m r) = true.
Proof.
  intros Hr. rewrite (exact_bits (shr_1 r)), (exact_bits r).
  destruct r as [[|[p|p|]|p] [] []]; cbn in *; (lia || intuition congruence).
Qed.
Lemma even_half m : Z.even m = true ↔ m = 2 * (m / 2).
Proof.
  pose proof (Z.div_mod m 2 ltac:(lia)). pose proof (Z.mod_pos_bound m 2 ltac:(lia)). rewrite Zeven_mod.
  destruct (Z.eqb_spec (m mod 2) 0); split; intros; (done || lia).
Qed.
Lemma shr_1_exact r : 0 ≤ shr_m r → exact (shr_1 r) ↔ exact r ∧ shr_m r = 2 * (shr_m r / 2).
Proof. intros Hr. by rewrite (shr_1_even r Hr), even_half. Qed.

Lemma iter_pos_iter {A} (f : A → A) p x : iter_pos f p x = Nat.iter (Pos.to_nat p) f x.
Proof.
  revert x. induction p as [p IH|p IH|]; intros x; cbn [iter_pos].
  - rewrite !IH, <- Nat.iter_add, Pos2Nat.inj_xI, Nat.iter_succ_r. f_equal. lia.
  - rewrite !IH, <- Nat.iter_add, Pos2Nat.inj_xO. f_equal. lia.
  - done.
Qed.

Lemma iter_shr_spec n r : 0 ≤ shr_m r →
  shr_m (Nat.iter n shr_1 r) = shr_m r / 2 ^ Z.of_nat n ∧
  (exact (Nat.iter n shr_1 r) ↔ exact r ∧ shr_m r = 2 ^ Z.of_nat n * (shr_m r / 2 ^ Z.of_nat n)).
Proof.
  intros Hr. induction n as [|n [IHm IHe]].
  { cbn. rewrite Z.div_1_r. change (Z.pow_pos 2 1) with 2. split; [done|]. split; [|tauto]. intros. split; [done|lia]. }
  assert (0 < 2 ^ Z.of_nat n) as Hp by (apply Z.pow_pos_nonneg; lia).
  assert (0 ≤ shr_m (Nat.iter n shr_1 r)) as Hn by (rewrite IHm; apply Z.div_pos; lia).
  change (Nat.iter (S n) shr_1 r) with (shr_1 (Nat.iter n shr_1 r)).
  rewrite Nat2Z.inj_succ, Z.pow_succ_r, (Z.mul_comm 2) by lia. rewrite <- Z.div_div by lia. split.
  - by rewrite shr_1_half, IHm.
  - rewrite (shr_1_exact _ Hn), IHe, IHm. set (q := shr_m r / 2 ^ Z.of_nat n).
    assert (2 * (q / 2) ≤ q) by (pose proof (Z.div_mod q 2); pose proof (Z.mod_pos_bound q 2); lia).
    assert (2 ^ Z.of_nat n * q ≤ shr_m r) by (apply Z.mul_div_le; lia). split; [intros [[? E1] E2]|intros [? E]].
    + split; [done|]. rewrite E1 at 1. nia.
    + assert (q = 2 * (q / 2)) by nia. split_and!; [done|nia|done].
Qed.

(** ** Digits and exponents *)

Lemma digits2_bounds p : 2 ^ (Z.pos (digits2_pos p) - 1) ≤ Z.pos p < 2 ^ Z.pos (digits2_pos p).
Proof.
  assert (∀ d, 0 < d → 2 ^ (Z.succ d - 1) = 2 * 2 ^ (d - 1) ∧ 2 ^ Z.succ d = 2 * 2 ^ d) as Hd.
  { intros d ?. rewrite <- !Z.pow_succ_r by lia. split; [f_equal; lia|done]. }
  induction p as [p IH|p IH|]; cbn [digits2_pos]; [| |done].
  all: rewrite (Pos2Z.inj_succ (digits2_pos p) : Z.pos (PosDef.Pos.succ (digits2_pos p)) = Z.succ _).
  all: destruct (Hd (Z.pos (digits2_pos p)) ltac:(lia)) as [-> ->]; lia.
Qed.

(** The shift of a mantissa [m] at exponent [e], and the exponent after it. *)
Definition expo (m e : Z) : Z := Z.max e (fexp 53 1024 (Zdigits2 m + e)).

Lemma shr_record_m m l : shr_m (shr_record_of_loc m l) = m.
Proof. by destruct l as [|[]]. Qed.
Lemma shr_record_exact m l : exact (shr_record_of_loc m l) ↔ l = loc_Exact.
Proof. rewrite exact_bits. by destruct l as [|[]]; cbn; intuition congruence. Qed.

Lemma shr_fexp_spec m e l : 0 ≤ m → ∃ r, shr_fexp 53 1024 m e l = (r, expo m e) ∧ shr_m r = m / 2 ^ (expo m e - e) ∧
  (exact r ↔ l = loc_Exact ∧ m = 2 ^ (expo m e - e) * (m / 2 ^ (expo m e - e))).
Proof.
  intros Hm. unfold shr_fexp, expo. set (k := fexp 53 1024 (Zdigits2 m + e) - e).
  replace (Z.max e _ - e) with (Z.max 0 k) by lia. unfold shr. destruct k as [|p|p] eqn:Ek.
  - exists (shr_record_of_loc m l). cbn [Z.max Z.compare]. rewrite shr_record_m, shr_record_exact, Z.pow_0_r, Z.div_1_r, Z.mul_1_l.
    split; [f_equal; lia|]. split; [done|tauto].
  - eexists. split; [f_equal; lia|]. rewrite iter_pos_iter.
    destruct (iter_shr_spec (Pos.to_nat p) (shr_record_of_loc m l)) as [E1 E2]; [by rewrite shr_record_m|].
    rewrite positive_nat_Z, shr_record_m, shr_record_exact in *. change (Z.max 0 (Z.pos p)) with (Z.pos p). done.
  - exists (shr_record_of_loc m l). change (Z.max 0 (Z.neg p)) with 0.
    rewrite shr_record_m, shr_record_exact, Z.pow_0_r, Z.div_1_r, Z.mul_1_l. split; [f_equal; lia|]. split; [done|tauto].
Qed.

Lemma expo_cases m e : 0 < m → e ≤ expo m e ∧
  (expo m e = e ∨ expo m e = -1074 ∨ (expo m e = Zdigits2 m + e - 53 ∧ 2 ^ 52 * 2 ^ (expo m e - e) ≤ m)).
Proof.
  intros Hm. unfold expo, fexp, emin. split; [lia|]. destruct m as [|p|]; try lia. cbn [Zdigits2] in *.
  destruct (Z.max_spec (Z.pos (digits2_pos p) + e - 53) (3 - 1024 - 53)) as [[? E]|[? E]]; rewrite E; [lia|].
  destruct (Z.max_spec e (Z.pos (digits2_pos p) + e - 53)) as [[? E']|[? E']]; rewrite E'; [|lia]. right. right. split; [done|].
  rewrite <- Z.pow_add_r by lia. etransitivity; [|apply digits2_bounds]. apply Z.pow_le_mono_r; lia.
Qed.

(** ** The value of a mantissa and an exponent *)

(** At least the integer [n]; at most the power [2 ^ u]. *)
Definition reaches (n m e : Z) : Prop := n * 2 ^ Z.max 0 (- e) ≤ m * 2 ^ Z.max 0 e.
Definition within (u m e : Z) : Prop := m ≤ 2 ^ (u - e) ∧ e ≤ u.

Lemma reaches_mono n m m' e : reaches n m e → m ≤ m' → reaches n m' e.
Proof. unfold reaches. intros. assert (0 < 2 ^ Z.max 0 e) by (apply Z.pow_pos_nonneg; lia). nia. Qed.
Lemma reaches_pos n m e : 0 < n → reaches n m e → 0 < m.
Proof.
  unfold reaches. intros. assert (0 < 2 ^ Z.max 0 e) by (apply Z.pow_pos_nonneg; lia).
  assert (0 < 2 ^ Z.max 0 (- e)) by (apply Z.pow_pos_nonneg; lia). nia.
Qed.

Lemma pow_split a b : 0 ≤ a → 0 ≤ b → 2 ^ (a + b) = 2 ^ a * 2 ^ b.
Proof. intros. by apply Z.pow_add_r. Qed.

(** Dropping the low digits keeps an integer of 53 digits below. *)
Lemma reaches_shift n m e : 0 < n ≤ 2 ^ 53 → reaches n m e → reaches n (m / 2 ^ (expo m e - e)) (expo m e).
Proof.
  intros Hn Hr. pose proof (reaches_pos n m e ltac:(lia) Hr) as Hm. destruct (expo_cases m e Hm) as [Hle Hc].
  set (x := expo m e) in *. set (k := x - e) in *. assert (0 < 2 ^ k) as Hk by (apply Z.pow_pos_nonneg; lia).
  unfold reaches in *. destruct (decide (x ≤ 0)) as [Hx|Hx].
  - rewrite (Z.max_l 0 x), (Z.max_r 0 (- x)), Z.pow_0_r, Z.mul_1_r by lia.
    rewrite (Z.max_l 0 e), (Z.max_r 0 (- e)), Z.pow_0_r, Z.mul_1_r in Hr by lia.
    replace (- e) with (- x + k) in Hr by lia. rewrite pow_split in Hr by lia. apply Z.div_le_lower_bound; [done|]. nia.
  - rewrite (Z.max_r 0 x), (Z.max_l 0 (- x)), Z.pow_0_r, Z.mul_1_r by lia. destruct Hc as [E|[E|[E Hd]]]; [| lia|].
    + assert (k = 0) as -> by lia. rewrite Z.pow_0_r, Z.div_1_r. rewrite <- E in Hr.
      rewrite (Z.max_r 0 x), (Z.max_l 0 (- x)), Z.pow_0_r, Z.mul_1_r in Hr by lia. done.
    + assert (2 ^ 52 ≤ m / 2 ^ k) by (apply Z.div_le_lower_bound; [done|lia]).
      assert (2 ^ 1 ≤ 2 ^ x) by (apply Z.pow_le_mono_r; lia). change (2 ^ 53) with (2 ^ 52 * 2 ^ 1) in Hn. nia.
Qed.

Lemma div_pow_le m k u : 0 ≤ k → 0 ≤ u - k → m ≤ 2 ^ u → m / 2 ^ k ≤ 2 ^ (u - k).
Proof.
  intros Hk Hu Hm. rewrite <- (Z.div_mul (2 ^ (u - k)) (2 ^ k)) by (apply Z.pow_nonzero; lia).
  apply Z.div_le_mono; [apply Z.pow_pos_nonneg; lia|]. rewrite <- Z.pow_add_r by lia. by replace (u - k + k) with u by lia.
Qed.
Lemma within_expo u m e : 0 < m → 0 ≤ u → within u m e → expo m e ≤ u.
Proof.
  intros Hm Hu [Hw He]. unfold expo, fexp, emin. destruct m as [|p|]; try lia. cbn [Zdigits2] in *.
  pose proof (digits2_bounds p) as [Hd _].
  assert (Z.pos (digits2_pos p) - 1 ≤ u - e). { apply (Z.pow_le_mono_r_iff 2); lia. }
  lia.
Qed.
(** Dropping the low digits, and what then is added to the last digit, does not
    cross a power of two. *)
Lemma within_shift u m e : 0 < m → 0 ≤ u → within u m e → within u (m / 2 ^ (expo m e - e)) (expo m e).
Proof.
  intros Hm Hu Hw. pose proof (within_expo u m e Hm Hu Hw). destruct (expo_cases m e Hm) as [Hle _]. destruct Hw as [Hw He].
  split; [|done]. replace (u - expo m e) with (u - e - (expo m e - e)) by lia. apply div_pow_le; lia.
Qed.
Lemma within_bump u m e : 0 < m → 0 ≤ u → within u m e → m < 2 ^ (u - e) ∨ m ≠ 2 ^ (expo m e - e) * (m / 2 ^ (expo m e - e)) →
  within u (m / 2 ^ (expo m e - e) + 1) (expo m e).
Proof.
  intros Hm Hu Hw Hlt. pose proof (within_expo u m e Hm Hu Hw). destruct (expo_cases m e Hm) as [Hle _]. destruct Hw as [Hw He].
  split; [|done]. set (k := expo m e - e) in *. assert (0 < 2 ^ k) as Hk by (apply Z.pow_pos_nonneg; lia).
  assert (2 ^ (u - e) = 2 ^ k * 2 ^ (u - expo m e)) as E. { rewrite <- Z.pow_add_r by lia. f_equal. lia. }
  pose proof (Z.mul_div_le m (2 ^ k) Hk). rewrite E in *. assert (m / 2 ^ k < 2 ^ (u - expo m e)) by nia. lia.
Qed.

Lemma nearest_bounds q l : q ≤ round_nearest_even q l ≤ q + 1 ∧ (l = loc_Exact → round_nearest_even q l = q).
Proof. destruct l as [|[]]; cbn; try lia; [|split; [lia|done]]. destruct (Z.even q); split; (done || lia). Qed.

(** ** Rounding *)

(** A rounded value is zero or finite, and within the same power of two. *)
Lemma round_within u m e l : 0 < m → 0 ≤ u ≤ 971 → within u m e → (l ≠ loc_Exact → m < 2 ^ (u - e)) →
  (binary_round_aux 53 1024 false m e l = S754_zero false ∧ ∀ n, 0 < n ≤ 2 ^ 53 → ¬ reaches n m e) ∨
  ∃ m' e', binary_round_aux 53 1024 false m e l = S754_finite false m' e' ∧ within u (Z.pos m') e' ∧
    ∀ n, 0 < n ≤ 2 ^ 53 → reaches n m e → reaches n (Z.pos m') e'.
Proof.
  intros Hm Hu Hw Hl. unfold binary_round_aux. destruct (shr_fexp_spec m e l ltac:(lia)) as (r & -> & Er & Hex).
  set (m1 := round_nearest_even _ _). destruct (nearest_bounds (shr_m r) (loc_of_shr_record r)) as [Hb Hb'].
  fold m1 in Hb, Hb'. assert (0 ≤ shr_m r) as H0. { rewrite Er. apply Z.div_pos; [lia|]. apply Z.pow_pos_nonneg; [lia|]. unfold expo. lia. }
  assert (within u m1 (expo m e)) as Hw1.
  { destruct (loc_of_shr_record r) eqn:El.
    - rewrite (Hb' eq_refl), Er. apply within_shift; (done || lia).
    - assert (within u (shr_m r + 1) (expo m e)) as [Hq He]; [|split; [lia|done]]. rewrite Er. apply within_bump; try (done || lia).
      destruct l as [|c']; [right|left; by apply Hl]. intros Ediv. assert (exact r) as Hc by (by apply Hex). unfold exact in Hc. congruence. }
  assert (∀ n, 0 < n ≤ 2 ^ 53 → reaches n m e → reaches n m1 (expo m e)) as Hr1.
  { intros n Hn Hr. apply (reaches_shift n m e Hn) in Hr. rewrite <- Er in Hr. apply (reaches_mono _ _ _ _ Hr). lia. }
  destruct (decide (m1 = 0)) as [E0|Hne].
  { left. split; [|intros n Hn Hr%(Hr1 n Hn)%reaches_pos; lia]. rewrite E0.
    destruct (shr_fexp_spec 0 (expo m e) loc_Exact ltac:(lia)) as (r2 & -> & Er2 & _).
    by rewrite Er2, Z.div_0_l by (apply Z.pow_nonzero; unfold expo; lia). }
  destruct (shr_fexp_spec m1 (expo m e) loc_Exact ltac:(lia)) as (r2 & -> & -> & _).
  pose proof (within_shift u m1 _ ltac:(lia) ltac:(lia) Hw1) as Hw2. set (x2 := expo m1 (expo m e)) in *.
  assert (∀ n, 0 < n ≤ 2 ^ 53 → reaches n m e → reaches n (m1 / 2 ^ (x2 - expo m e)) x2) as Hr2.
  { intros n Hn Hr%(Hr1 n Hn). by apply (reaches_shift n m1 _ Hn). }
  assert (0 ≤ m1 / 2 ^ (x2 - expo m e)) as H2. { apply Z.div_pos; [lia|]. apply Z.pow_pos_nonneg; [lia|]. unfold x2, expo. lia. }
  destruct (m1 / 2 ^ (x2 - expo m e)) as [|p|p]; [|right|lia].
  { left. split; [done|]. intros n Hn Hr%(Hr2 n Hn)%reaches_pos; lia. }
  rewrite (proj2 (Z.leb_le x2 (1024 - 53))) by (destruct Hw2; lia). by exists p, x2.
Qed.

(** ** Integers, products and quotients *)

Lemma reaches_scale n m e k : 0 ≤ k → 0 ≤ e + k → reaches n m e ↔ n * 2 ^ k ≤ m * 2 ^ (e + k).
Proof.
  intros Hk Hek. unfold reaches. set (a := Z.max 0 (- e)) in *. set (b := Z.max 0 e) in *.
  replace k with (a + (k - a)) by lia. replace (e + (a + (k - a))) with (b + (k - a)) by lia.
  rewrite !pow_split by lia. assert (0 < 2 ^ (k - a)) by (apply Z.pow_pos_nonneg; lia). split; nia.
Qed.
Lemma reaches_align n m e e' : e' ≤ e → reaches n m e → reaches n (m * 2 ^ (e - e')) e'.
Proof.
  intros He Hr. set (k := Z.max 0 (- e')). apply (reaches_scale n _ e' k); [lia|lia|].
  apply (reaches_scale n m e k) in Hr; [|lia|lia]. rewrite <- Z.mul_assoc, <- pow_split by lia.
  by replace (e - e' + (e' + k)) with (e + k) by lia.
Qed.
Lemma within_align u m e e' : e' ≤ e → within u m e → within u (m * 2 ^ (e - e')) e'.
Proof.
  intros He [Hw ?]. split; [|lia]. replace (u - e') with (u - e + (e - e')) by lia. rewrite pow_split by lia.
  assert (0 < 2 ^ (e - e')) by (apply Z.pow_pos_nonneg; lia). nia.
Qed.
Lemma reaches_mul n m e m' e' : 0 < n → reaches n m e → reaches 1 m' e' → reaches n (m * m') (e + e').
Proof.
  intros Hn H1 H2. set (k := Z.max 0 (- e)). set (k' := Z.max 0 (- e')).
  apply (reaches_scale _ _ _ k) in H1; [|lia|lia]. apply (reaches_scale _ _ _ k') in H2; [|lia|lia].
  apply (reaches_scale _ _ _ (k + k')); [lia|lia|]. replace (e + e' + (k + k')) with ((e + k) + (e' + k')) by lia.
  rewrite !pow_split by lia. assert (0 < 2 ^ k) by (apply Z.pow_pos_nonneg; lia).
  assert (0 < 2 ^ k') by (apply Z.pow_pos_nonneg; lia). nia.
Qed.
Lemma within_mul u v m e m' e' : 0 ≤ m → 0 ≤ m' → within u m e → within v m' e' → within (u + v) (m * m') (e + e').
Proof.
  intros ? ? [Hu ?] [Hv ?]. split; [|lia]. replace (u + v - (e + e')) with ((u - e) + (v - e')) by lia.
  rewrite pow_split by lia. nia.
Qed.

(** A positive double with bounds. *)
Definition bounded_by (n u : Z) (d : double) : Prop :=
  match d with S754_finite false m e => reaches n (Z.pos m) e ∧ within u (Z.pos m) e | _ => False end.

Lemma iter_xO k p : Z.pos (Pos.iter xO p k) = Z.pos p * 2 ^ Z.pos k.
Proof.
  induction k as [|k IH] using Pos.peano_ind; [cbn; lia|].
  rewrite Pos.iter_succ, Pos2Z.inj_xO, IH, Pos2Z.inj_succ, Z.pow_succ_r by lia. lia.
Qed.
Lemma shl_align_spec p e e' : ∃ p' e1, shl_align p e e' = (p', e1) ∧ e1 ≤ e ∧ Z.pos p' = Z.pos p * 2 ^ (e - e1).
Proof.
  assert (Z.pos p = Z.pos p * 2 ^ (e - e)) as Ep by (rewrite Z.sub_diag; lia).
  unfold shl_align. destruct (e' - e) as [|d|d] eqn:Ed.
  - exists p, e'. replace e' with e by lia. done.
  - by exists p, e.
  - exists (Pos.iter xO p d), e'. split; [done|]. split; [lia|]. rewrite iter_xO. do 2 f_equal. lia.
Qed.

Lemma d_of_Z_bounds n : 0 < n ≤ 2 ^ 53 → bounded_by n 53 (d_of_Z n).
Proof.
  intros Hn. unfold d_of_Z, binary_normalize. destruct n as [|p|p]; try lia. unfold binary_round.
  destruct (shl_align_spec p 0 (fexp 53 1024 (Z.pos (digits2_pos p) + 0))) as (p' & e & -> & He & Ep).
  assert (reaches (Z.pos p) (Z.pos p') e) as Hr. { rewrite Ep. apply reaches_align; [done|]. unfold reaches. change (Z.max 0 (- 0)) with 0. change (Z.max 0 0) with 0. lia. }
  assert (within 53 (Z.pos p') e) as Hw. { rewrite Ep. apply within_align; [done|]. split; [|lia]. cbn. lia. }
  destruct (round_within 53 (Z.pos p') e loc_Exact) as [[_ Hno]|(m' & e' & -> & Hw' & Hr')]; try (done || lia).
  - by destruct (Hno _ Hn Hr).
  - split; [|done]. by apply Hr'.
Qed.

Lemma dmul_bounds n u v x y : 0 < n ≤ 2 ^ 53 → 0 ≤ u + v ≤ 971 → bounded_by n u x → bounded_by 1 v y →
  bounded_by n (u + v) (dmul x y).
Proof.
  intros Hn Hu Hx Hy. destruct x as [| | |[] mx ex], y as [| | |[] my ey]; try done. destruct Hx as [Rx Wx], Hy as [Ry Wy].
  unfold dmul, SFmul. cbn [xorb]. rewrite Pos2Z.inj_mul. set (m := Z.pos mx * Z.pos my).
  assert (reaches n m (ex + ey)) as Hr by (apply reaches_mul; (done || lia)).
  assert (within (u + v) m (ex + ey)) as Hw by (apply within_mul; (done || lia)).
  destruct (round_within (u + v) m (ex + ey) loc_Exact) as [[_ Hno]|(m' & e' & -> & Hw' & Hr')]; try (done || lia).
  - by destruct (Hno _ Hn Hr).
  - split; [|done]. by apply Hr'.
Qed.

(** Zero, or a positive double of at most [2 ^ u]. *)
Definition below (u : Z) (d : double) : Prop :=
  match d with S754_zero _ => True | S754_finite false m e => within u (Z.pos m) e | _ => False end.

Lemma digits_reach p e : reaches 1 (Z.pos p) e → 1 ≤ Z.pos (digits2_pos p) + e.
Proof.
  intros Hr. pose proof (digits2_bounds p) as [_ Hd]. destruct (decide (0 ≤ e)) as [He|He]; [lia|].
  unfold reaches in Hr. rewrite Z.max_r, (Z.max_l 0 e), Z.pow_0_r in Hr by lia.
  assert (2 ^ (- e) < 2 ^ Z.pos (digits2_pos p)) as Hlt%Z.pow_lt_mono_r_iff by lia; lia.
Qed.
Lemma digits_within u p e : 0 ≤ u → within u (Z.pos p) e → Z.pos (digits2_pos p) + e ≤ u + 1.
Proof.
  intros Hu [Hw ?]. pose proof (digits2_bounds p) as [Hd _].
  assert (Z.pos (digits2_pos p) - 1 ≤ u - e) by (apply (Z.pow_le_mono_r_iff 2); lia). lia.
Qed.

(** The integer quotient of the mantissas, with enough digits. *)
Lemma div_core u v mx ex my ey : 0 ≤ u → 0 ≤ v ≤ 900 → reaches 1 (Z.pos mx) ex → within u (Z.pos mx) ex →
  reaches 1 (Z.pos my) ey → within v (Z.pos my) ey →
  ∃ q e l, SFdiv_core_binary 53 1024 (Z.pos mx) ex (Z.pos my) ey = (q, e, l) ∧ 0 < q ∧ within u q e ∧ (l ≠ loc_Exact → q < 2 ^ (u - e)).
Proof.
  intros Hu Hv Rx Wx Ry Wy. unfold SFdiv_core_binary. cbn [Zdigits2].
  pose proof (digits_reach _ _ Rx). pose proof (digits_reach _ _ Ry). pose proof (digits_within _ _ _ Hu Wx).
  pose proof (digits_within _ _ _ (proj1 Hv) Wy). pose proof (digits2_bounds mx) as [Dx _]. pose proof (digits2_bounds my) as [_ Dy].
  set (e := Z.min _ (ex - ey)). set (s := ex - ey - e).
  assert (0 ≤ s ∧ e ≤ u ∧ 53 + Z.pos (digits2_pos my) - Z.pos (digits2_pos mx) ≤ s) as (Hs & He & Hs') by (unfold s, e, fexp, emin; lia).
  replace (match s with Z.neg _ => 0 | 0 => Z.pos mx | Z.pos _ => Z.shiftl (Z.pos mx) s end) with (Z.pos mx * 2 ^ s).
  2: { destruct s; [by rewrite Z.pow_0_r, Z.mul_1_r|by rewrite Z.shiftl_mul_pow2|lia]. }
  pose proof (Z_div_mod (Z.pos mx * 2 ^ s) (Z.pos my) ltac:(lia)) as Hq. destruct (Z.div_eucl _ _) as [q r]. destruct Hq as [Eq Hr].
  exists q, e, (new_location (Z.pos my) r). split; [done|]. clearbody e.
  assert (2 ^ Z.pos (digits2_pos my) ≤ Z.pos mx * 2 ^ s) as Hbig.
  { transitivity (2 ^ (Z.pos (digits2_pos mx) - 1) * 2 ^ s); [|apply Z.mul_le_mono_nonneg_r; [lia|done]].
    rewrite <- Z.pow_add_r by lia. apply Z.pow_le_mono_r; lia. }
  assert (Z.pos mx * 2 ^ s ≤ Z.pos my * 2 ^ (u - e)) as Hsmall.
  { destruct Wx as [Wx Hex]. transitivity (2 ^ (u - ex) * 2 ^ s); [apply Z.mul_le_mono_nonneg_r; lia|].
    rewrite <- Z.pow_add_r by lia. destruct (decide (0 ≤ ey)).
    - transitivity (2 ^ (u - e)); [apply Z.pow_le_mono_r; lia|]. assert (0 < 2 ^ (u - e)) by (apply Z.pow_pos_nonneg; lia). nia.
    - unfold reaches in Ry. rewrite Z.max_r, (Z.max_l 0 ey), Z.pow_0_r, Z.mul_1_r, Z.mul_1_l in Ry by lia.
      replace (u - ex + s) with (- ey + (u - e)) by lia. rewrite pow_split by lia. apply Z.mul_le_mono_nonneg_r; lia. }
  split_and!; [nia|split; [nia|done]|]. intros Hne. assert (r ≠ 0) by (intros ->; apply Hne; unfold new_location, new_location_even, new_location_odd; by destruct (Z.even _)). nia.
Qed.

Lemma ddiv_bounds u v x y : 0 ≤ u ≤ 971 → 0 ≤ v ≤ 900 → bounded_by 1 u x → bounded_by 1 v y → below u (ddiv x y).
Proof.
  intros Hu Hv Hx Hy. destruct x as [| | |[] mx ex], y as [| | |[] my ey]; try done. destruct Hx as [Rx Wx], Hy as [Ry Wy].
  destruct (div_core u v mx ex my ey ltac:(lia) Hv Rx Wx Ry Wy) as (q & e & l & Eq & Hq & Hw & Hl).
  unfold ddiv, SFdiv. rewrite Eq. cbn [xorb].
  destruct (round_within u q e l Hq Hu Hw Hl) as [[-> _]|(m' & e' & -> & Hw' & _)]; done.
Qed.

(** ** [static_cast< uint64_t >( double )] *)

Lemma trunc_bounds n u m e : 0 ≤ u → reaches n (Z.pos m) e → within u (Z.pos m) e →
  n ≤ d_trunc (S754_finite false m e) ≤ 2 ^ u.
Proof.
  intros Hu Hr [Hw He]. unfold d_trunc. cbv zeta. unfold reaches in Hr. destruct (decide (0 ≤ e)) as [H0|H0].
  - rewrite Z.shiftl_mul_pow2 by done. rewrite Z.max_l, Z.max_r, Z.pow_0_r, Z.mul_1_r in Hr by lia. split; [done|].
    replace u with (u - e + e) by lia. rewrite pow_split by lia. apply Z.mul_le_mono_nonneg_r; lia.
  - rewrite <- (Z.opp_involutive e), <- Z.shiftr_opp_r, Z.opp_involutive, Z.shiftr_div_pow2 by lia.
    assert (0 < 2 ^ (- e)) by (apply Z.pow_pos_nonneg; lia).
    rewrite Z.max_r, (Z.max_l 0 e), Z.pow_0_r, Z.mul_1_r in Hr by lia. split; [apply Z.div_le_lower_bound; lia|].
    apply Z.div_le_upper_bound; [done|]. rewrite Z.mul_comm, <- pow_split by lia. by replace (u + - e) with (u - e) by lia.
Qed.
Lemma d_to_u64_bounded n u d : 0 ≤ n → 0 ≤ u < 64 → bounded_by n u d → ∃ t, d_to_u64 d = Ok t ∧ n ≤ t ≤ 2 ^ u.
Proof.
  intros Hn Hu Hd. destruct d as [| | |[] m e]; try done. destruct Hd as [Hr Hw].
  pose proof (trunc_bounds n u m e ltac:(lia) Hr Hw). assert (2 ^ u < 2 ^ 64) by (apply Z.pow_lt_mono_r; lia).
  unfold d_to_u64. rewrite (proj2 (Z.leb_le _ _)), (proj2 (Z.ltb_lt _ _)) by lia. by eexists.
Qed.
Lemma d_to_u64_below u d : 0 ≤ u < 64 → below u d → ∃ t, d_to_u64 d = Ok t ∧ 0 ≤ t ≤ 2 ^ u.
Proof.
  intros Hu Hd. destruct d as [s| | |[] m e]; try done.
  - exists 0. split; [done|]. split; [done|]. apply Z.pow_nonneg. lia.
  - apply (d_to_u64_bounded 0 u); [lia|done|]. split; [|done]. unfold reaches.
    assert (0 < 2 ^ Z.max 0 e) by (apply Z.pow_pos_nonneg; lia). lia.
Qed.
