(* ===== verification/GlobalEventQueue.v ===== *)
(** * The global event queue

    EventQueue.cpp: several memories, each with its own event queue and clock,
    below one faster clock. A queue is behind the interface [LocalQueue]; the
    event queue of a memory is an instance. Time advances exactly, every local
    clock follows, and no event that is due is left behind. *)

From S2P Require Import Prelude Rounding NVMTypes Config Heap EventQueue.

(** What the global queue asks of a local one. The fuel bounds the event loop. *)
Class LocalQueue (L : Type) := {
  lq_GetNextEvent : L → Z;
  lq_GetCurrentCycle : L → Z;
  lq_SetFrequency : double → L → L;
  lq_Loop : nat → Z → L → res L
}.

Module Global.
(** The map from queues to frequencies, in the order of the queues' addresses.
    The constructor leaves the frequency unset. *)
(*| NVmain/src/EventQueue.h 152-155 GlobalEventQueue *)
Record GlobalEventQueue (L : Type) := mkGlobalEventQueue {
  currentCycle : Z;
  frequency : double;
  eventQueues : list (positive * (L * double))
}.
Arguments mkGlobalEventQueue {L}.
Arguments currentCycle {L}.
Arguments frequency {L}.
Arguments eventQueues {L}.
#[global] Instance eta_GlobalEventQueue L : Settable (GlobalEventQueue L) := fields! mkGlobalEventQueue
  < currentCycle; frequency; eventQueues >.

(*| NVmain/src/EventQueue.cpp 446-449 GlobalEventQueue::GlobalEventQueue *)
Definition GlobalEventQueue_new {L} (frequency0 : double) : GlobalEventQueue L := mkGlobalEventQueue 0 frequency0 [].

Section Operations.
Context {L : Type} `{LocalQueue L}.
Implicit Types (s : GlobalEventQueue L).

(** [eventQueues.insert]: a queue that is there already keeps its frequency in
    the map, though not in the queue. *)
Fixpoint add_queue (key : positive) (q : L) (f : double) (l : list (positive * (L * double))) : list (positive * (L * double)) :=
  match l with
  | [] => [(key, (q, f))]
  | (k, (q', f')) :: l' =>
      if (key =? k)%positive then (k, (q, f')) :: l'
      else if (key <? k)%positive then (key, (q, f)) :: l
      else (k, (q', f')) :: add_queue key q f l'
  end.
(*| NVmain/src/EventQueue.cpp 456-474 GlobalEventQueue::AddSystem *)
Definition AddSystem (key : positive) (queue : L) (c : Config) s : res (GlobalEventQueue L * Config) :=
  '(clk, c) ← GetEnergy "CLK" c;
  let subSystemFrequency := dmul clk (d_of_Z 1000000) in
  cassert (SFleb subSystemFrequency (frequency s));;
  Ok (s <| eventQueues ::= add_queue key (lq_SetFrequency subSystemFrequency queue) subSystemFrequency |>, c).

(*| NVmain/src/EventQueue.cpp 510-513 GlobalEventQueue::SetFrequency *)
Definition SetFrequency (freq : double) s : GlobalEventQueue L := s <| frequency := freq |>.
(*| NVmain/src/EventQueue.cpp 515-518 GlobalEventQueue::GetFrequency *)
Definition GetFrequency s : double := frequency s.
(*| NVmain/src/EventQueue.cpp 551-554 GlobalEventQueue::GetCurrentCycle *)
Definition GetCurrentCycle s : Z := currentCycle s.

(** The global cycle of cycle [n] of a queue of frequency [f], and the cycle of
    such a queue at global cycle [c]. *)
Definition global_cycle (freq f : double) (n : Z) : res Z := d_to_u64 (dmul (d_of_Z n) (ddiv freq f)).
Definition local_cycle (freq f : double) (c : Z) : res Z := d_to_u64 (ddiv (d_of_Z c) (ddiv freq f)).

(** The loop over the queues from number [i], with the earliest event so far. *)
Fixpoint next_event (freq : double) (l : list (positive * (L * double))) (i : nat) (best : Z * option nat) : res (Z * option nat) :=
  match l with
  | [] => Ok best
  | (_, (q, f)) :: l =>
      if lq_GetNextEvent q =? u64_max then next_event freq l (S i) best
      else t ← global_cycle freq f (lq_GetNextEvent q);
           next_event freq l (S i) (if t <? best.1 then (t, Some i) else best)
  end.
(*| NVmain/src/EventQueue.cpp 520-549 GlobalEventQueue::GetNextEvent *)
Definition GetNextEvent s : res (Z * option nat) := next_event (frequency s) (eventQueues s) 0 (u64_max, None).

(** One queue catches up with the global cycle [c]. *)
Definition sync_queue (lfuel : nat) (freq : double) (c : Z) (x : positive * (L * double)) : res (positive * (L * double)) :=
  let '(k, (q, f)) := x in
  setCycle ← local_cycle freq f c;
  q ← (if setCycle >? lq_GetCurrentCycle q then lq_Loop lfuel (setCycle ⊖ lq_GetCurrentCycle q) q else Ok q);
  Ok (k, (q, f)).
Fixpoint sync_queues (lfuel : nat) (freq : double) (c : Z) (l : list (positive * (L * double))) : res (list (positive * (L * double))) :=
  match l with
  | [] => Ok []
  | x :: l => x ← sync_queue lfuel freq c x; l ← sync_queues lfuel freq c l; Ok (x :: l)
  end.
(*| NVmain/src/EventQueue.cpp 556-570 GlobalEventQueue::Sync *)
Definition Sync (lfuel : nat) s : res (GlobalEventQueue L) :=
  l ← sync_queues lfuel (frequency s) (currentCycle s) (eventQueues s); Ok (s <| eventQueues := l |>).

(** [nextEventQueue->Loop( nextEventQueue->GetNextEvent( ) - nextEventQueue->GetCurrentCycle( ) )]. *)
Definition run_next (lfuel : nat) (i : option nat) s : res (GlobalEventQueue L) :=
  i ← deref NullDeref i;
  '(k, (q, f)) ← deref NullDeref (eventQueues s !! i);
  q ← lq_Loop lfuel (lq_GetNextEvent q ⊖ lq_GetCurrentCycle q) q;
  Ok (s <| eventQueues ::= <[i := (k, (q, f))]> |>).

(** The [while] of [Cycle]. *)
(*| NVmain/src/EventQueue.cpp 481-506 GlobalEventQueue::Cycle *)
Fixpoint cycle_while (fuel lfuel : nat) (steps iterationSteps : Z) s : res (GlobalEventQueue L) :=
  match fuel with
  | O => Err OutOfFuel
  | S fuel =>
      if iterationSteps <=? steps then
        '(nextEvent, nextEventQueue) ← GetNextEvent s;
        let globalQueueSteps := if nextEvent >? currentCycle s then nextEvent ⊖ currentCycle s else 0 in
        if globalQueueSteps >? steps ⊖ iterationSteps then
          Sync lfuel (s <| currentCycle ::= λ c, c ⊕ (steps ⊖ iterationSteps) |>)
        else
          s ← run_next lfuel nextEventQueue s;
          s ← Sync lfuel (s <| currentCycle ::= λ c, c ⊕ globalQueueSteps |>);
          cycle_while fuel lfuel steps (iterationSteps ⊕ globalQueueSteps) s
      else Ok s
  end.
(*| NVmain/src/EventQueue.cpp 476-507 GlobalEventQueue::Cycle *)
Definition Cycle (fuel lfuel : nat) (steps : Z) s : res (GlobalEventQueue L) := cycle_while fuel lfuel steps 0 s.
End Operations.
End Global.

Import Global.

(** What a local queue promises: running it for [n] cycles ends, moves its time by
    exactly [n], runs what is due, and never brings an event forward. Events lie
    in the range in which doubles are exact. *)
Definition horizon : Z := 2 ^ 53.
Class LocalQueueLaws (L : Type) `{LocalQueue L} (ok : L → Prop) := {
  ll_range : ∀ q, ok q → 0 ≤ lq_GetCurrentCycle q ≤ lq_GetNextEvent q ∧
    (lq_GetNextEvent q = u64_max ∨ lq_GetNextEvent q ≤ horizon);
  ll_Loop : ∀ q n, ok q → 0 ≤ n → lq_GetCurrentCycle q + n ≤ horizon → ∃ N q',
    (∀ fuel, (N ≤ fuel)%nat → lq_Loop fuel n q = Ok q') ∧ ok q' ∧
    lq_GetCurrentCycle q' = lq_GetCurrentCycle q + n ∧ lq_GetCurrentCycle q' < lq_GetNextEvent q' ∧
    lq_GetNextEvent q ≤ lq_GetNextEvent q'
}.

(** ** The clock ratios *)

(** The global clock is at least as fast as the local one, and not more than a
    thousand times faster. *)
Definition ratio_ok (freq f : double) : Prop := bounded_by 1 10 (ddiv freq f).

Lemma global_cycle_bounds freq f n : ratio_ok freq f → 0 ≤ n ≤ horizon →
  ∃ t, global_cycle freq f n = Ok t ∧ n ≤ t < u64_max.
Proof.
  intros Hf Hn. unfold global_cycle. assert (2 ^ 63 < u64_max) by done. destruct (decide (n = 0)) as [->|Hne].
  - exists 0. split; [|done]. unfold ratio_ok in Hf. by destruct (ddiv freq f) as [| | |[] m e].
  - destruct (d_to_u64_bounded n 63 (dmul (d_of_Z n) (ddiv freq f))) as (t & -> & ?); [lia|lia| |exists t; split; [done|lia]].
    apply (dmul_bounds n 53 10); [unfold horizon in Hn; lia|lia|apply d_of_Z_bounds; unfold horizon in Hn; lia|done].
Qed.
Lemma bounded_by_weaken n n' u d : n ≤ n' → bounded_by n' u d → bounded_by n u d.
Proof.
  intros Hn. destruct d as [| | |[] m e]; try done. intros [Hr Hw]. split; [|done]. unfold reaches in *.
  assert (0 < 2 ^ Z.max 0 (- e)) by (apply Z.pow_pos_nonneg; lia). nia.
Qed.
Lemma local_cycle_bounds freq f c : ratio_ok freq f → 0 ≤ c ≤ horizon → ∃ t, local_cycle freq f c = Ok t ∧ 0 ≤ t ≤ horizon.
Proof.
  intros Hf Hc. unfold local_cycle. apply (d_to_u64_below 53); [lia|]. destruct (decide (c = 0)) as [->|Hne].
  - unfold ratio_ok in Hf. by destruct (ddiv freq f) as [| | |[] m e].
  - apply (ddiv_bounds 53 10); [lia|lia| |done]. apply (bounded_by_weaken 1 c); [lia|]. apply d_of_Z_bounds.
    unfold horizon in Hc. lia.
Qed.

Section Theory.
Context {L : Type} {ok : L → Prop} `{LocalQueueLaws L ok}.
Implicit Types (s : GlobalEventQueue L) (x y : positive * (L * double)).

Definition q_of x : L := x.2.1.
Definition f_of x : double := x.2.2.
Definition now_of x : Z := lq_GetCurrentCycle (q_of x).
Definition next x : Z := lq_GetNextEvent (q_of x).
(** A queue of the map, under a clock of frequency [freq]. *)
Definition queue_ok (freq : double) x : Prop := ok (q_of x) ∧ ratio_ok freq (f_of x) ∧ now_of x ≤ horizon.
Definition geq_ok s : Prop := 0 ≤ currentCycle s ≤ horizon ∧ Forall (queue_ok (frequency s)) (eventQueues s).

(** A queue after some time. *)
Record later x y : Prop := {
  la_key : y.1 = x.1;
  la_freq : f_of y = f_of x;
  la_now : now_of x ≤ now_of y;
  la_next : next x ≤ next y
}.
#[local] Instance later_preorder : PreOrder later.
Proof using. split; [intros x; by split|]. intros x y z [? ? ? ?] [? ? ? ?]. split; (congruence || lia). Qed.

Lemma queue_next_range freq x : queue_ok freq x → 0 ≤ now_of x ≤ next x ∧ (next x = u64_max ∨ next x ≤ horizon).
Proof using All. intros (Hq & _ & _). by apply ll_range. Qed.

(** ** The earliest event *)

(** The global cycle of the next event of a queue, when there is one. *)
Definition due (freq : double) x (t : Z) : Prop := next x ≠ u64_max ∧ global_cycle freq (f_of x) (next x) = Ok t.

Lemma next_event_earliest freq l : Forall (queue_ok freq) l → ∀ i b o, ∃ t o', next_event freq l i (b, o) = Ok (t, o') ∧ t ≤ b ∧
  (o' = o ∧ t = b ∨ ∃ j x, l !! j = Some x ∧ o' = Some (i + j)%nat ∧ due freq x t ∧ next x ≤ t) ∧
  ∀ x u, x ∈ l → due freq x u → t ≤ u.
Proof using All.
  induction 1 as [|[k [q f]] l Hq Hl IH]; intros i b o; cbn [next_event].
  { exists b, o. split_and!; [done|lia|by left|]. intros x u Hx. by apply elem_of_nil in Hx. }
  pose proof (queue_next_range _ _ Hq) as [Hr1 Hr2]. destruct Hq as (_ & Hf & _). cbn in Hr1, Hr2, Hf.
  destruct (Z.eqb_spec (lq_GetNextEvent q) u64_max) as [E|Hne].
  - destruct (IH (S i) b o) as (t & o' & -> & Hle & Hc & Hm). exists t, o'. split_and!; [done|done| |].
    + destruct Hc as [?|(j & x & Hx & -> & Hd)]; [by left|]. right. exists (S j), x. split_and!; [done|f_equal; lia|apply Hd..].
    + intros x u [->|Hx]%elem_of_cons; [intros [Hd _]; done|by apply Hm].
  - destruct (global_cycle_bounds freq f (lq_GetNextEvent q) Hf) as (u & Eu & Hu); [unfold next, now_of in *; cbn in *; lia|].
    rewrite Eu. cbn [mbind res_bind fst]. assert (due freq (k, (q, f)) u) as Hdu by done.
    destruct (IH (S i) (if u <? b then u else b) (if u <? b then Some i else o)) as (t & o' & Et & Hle & Hc & Hm).
    replace (if u <? b then (u, Some i) else (b, o)) with ((if u <? b then u else b), (if u <? b then Some i else o)) by (by destruct (u <? b)).
    exists t, o'. split_and!; [done|destruct (Z.ltb_spec u b); lia| |].
    + destruct Hc as [[-> ->]|(j & x & Hx & -> & Hd)].
      * destruct (u <? b); [right|by left]. exists 0%nat, (k, (q, f)). split_and!; [done|f_equal; lia|apply Hdu..|unfold next, q_of; cbn; lia].
      * right. exists (S j), x. split_and!; [done|f_equal; lia|apply Hd..].
    + intros x v [->|Hx]%elem_of_cons; [|by apply Hm]. intros [_ Ev]. unfold next, q_of, f_of in Ev. cbn in Ev. rewrite Eu in Ev.
      injection Ev as <-. destruct (Z.ltb_spec u b); lia.
Qed.

(** ** Catching up *)

(** After the global clock has reached [c]: the local clock has, too; and if the
    queue ran for it, what was due by then has been run. *)
Definition synced (freq : double) (c : Z) x y : Prop :=
  ∃ t, local_cycle freq (f_of y) c = Ok t ∧ t ≤ now_of y ∧ (y = x ∨ now_of y = t ∧ now_of y < next y).

Lemma run_queue k q f freq n : queue_ok freq (k, (q, f)) → 0 ≤ n → lq_GetCurrentCycle q + n ≤ horizon → ∃ N q',
  (∀ fuel, (N ≤ fuel)%nat → lq_Loop fuel n q = Ok q') ∧ queue_ok freq (k, (q', f)) ∧ later (k, (q, f)) (k, (q', f)) ∧
  lq_GetCurrentCycle q' = lq_GetCurrentCycle q + n ∧ lq_GetCurrentCycle q' < lq_GetNextEvent q'.
Proof using All.
  intros (Hq & Hf & Hn) H0n Hh. destruct (ll_Loop q n Hq H0n Hh) as (N & q' & E & Hq' & En & Hlt & Hle). exists N, q'.
  split_and!; [done|split; [done|split; [done|]]| |done..]; unfold now_of, next, q_of; cbn; [lia|].
  split; [done|done|unfold now_of, q_of; cbn; lia|done].
Qed.

Lemma sync_queue_ok freq c x : 0 ≤ c ≤ horizon → queue_ok freq x → ∃ N y,
  (∀ lfuel, (N ≤ lfuel)%nat → sync_queue lfuel freq c x = Ok y) ∧ queue_ok freq y ∧ later x y ∧ synced freq c x y.
Proof using All.
  intros Hc Hx. pose proof (queue_next_range _ _ Hx) as [Hr _]. destruct x as [k [q f]]. pose proof Hx as (_ & Hf & Hn).
  destruct (local_cycle_bounds freq f c Hf Hc) as (t & Et & Ht). unfold sync_queue. rewrite Et. cbn [mbind res_bind].
  unfold now_of, next, q_of in Hr, Hn. cbn in Hr, Hn. destruct (Z.gtb_spec t (lq_GetCurrentCycle q)) as [Hgt|Hle].
  - assert (t ⊖ lq_GetCurrentCycle q = t - lq_GetCurrentCycle q) as -> by (apply u64_small; unfold is_u64, horizon in *; lia).
    destruct (run_queue k q f freq (t - lq_GetCurrentCycle q) Hx) as (N & q' & E & Hy & Hla & En & Hlt); [lia|lia|].
    exists N, (k, (q', f)). split_and!; [|done|done|].
    + intros lfuel Hl. by rewrite (E lfuel Hl).
    + exists t. unfold now_of, next, q_of. cbn. split_and!; [done|lia|right; lia].
  - exists 0%nat, (k, (q, f)). split_and!; [done|done|done|]. exists t. split_and!; [done|unfold now_of, q_of; cbn; lia|by left].
Qed.
Lemma sync_queues_ok freq c l : 0 ≤ c ≤ horizon → Forall (queue_ok freq) l → ∃ N l',
  (∀ lfuel, (N ≤ lfuel)%nat → sync_queues lfuel freq c l = Ok l') ∧ Forall (queue_ok freq) l' ∧ Forall2 later l l' ∧
  Forall2 (synced freq c) l l'.
Proof using All.
  intros Hc. induction 1 as [|x l Hx _ (N2 & l' & E2 & A & B & D)]; [by exists 0%nat, []|].
  destruct (sync_queue_ok freq c x Hc Hx) as (N1 & y & E1 & ? & ? & ?). exists (N1 `max` N2)%nat, (y :: l').
  split_and!; [|by constructor..]. intros lfuel Hl. cbn [sync_queues]. rewrite E1 by lia. cbn [mbind res_bind]. by rewrite E2 by lia.
Qed.

(** ** Running the earliest event *)

(** How far the next events are from the global cycle [T]. *)
Definition ahead (T : Z) (l : list (positive * (L * double))) : nat := sum_list_with (λ x, Z.to_nat (T + 1 - next x)) l.
Lemma ahead_later T l l' : Forall2 later l l' → (ahead T l' ≤ ahead T l)%nat.
Proof using.
  unfold ahead. induction 1 as [|x y l l' Hxy _ IH]; [done|]. cbn [sum_list_with].
  pose proof (la_next _ _ Hxy). lia.
Qed.
Lemma ahead_run T l i x y : l !! i = Some x → next x ≤ T → next x < next y → (ahead T (<[i := y]> l) < ahead T l)%nat.
Proof using.
  unfold ahead. revert i. induction l as [|z l IH]; intros [|i] Hi HT Hlt; try done; cbn in Hi.
  - injection Hi as ->. change (<[0%nat := y]> (x :: l)) with (y :: l). cbn [sum_list_with]. lia.
  - change (<[S i := y]> (z :: l)) with (z :: <[i := y]> l). cbn [sum_list_with]. specialize (IH i Hi HT Hlt). lia.
Qed.
Lemma later_insert l i x y : l !! i = Some x → later x y → Forall2 later l (<[i := y]> l).
Proof using.
  intros Hi Hxy. rewrite <- (list_insert_id l i x Hi) at 1. apply Forall2_insert; [|done]. by apply Forall_Forall2_diag, Forall_true.
Qed.

Lemma run_next_ok s i x : Forall (queue_ok (frequency s)) (eventQueues s) → eventQueues s !! i = Some x → next x ≤ horizon →
  ∃ N y, (∀ lfuel, (N ≤ lfuel)%nat → run_next lfuel (Some i) s = Ok (s <| eventQueues ::= <[i := y]> |>)) ∧
    queue_ok (frequency s) y ∧ later x y ∧ next x < next y.
Proof using All.
  intros Hs Hi Hh. pose proof (proj1 (Forall_lookup _ _) Hs i x Hi) as Hx. pose proof (queue_next_range _ _ Hx) as [Hr _].
  destruct x as [k [q f]]. unfold now_of, next, q_of in *. cbn in Hr, Hh.
  destruct (run_queue k q f _ (lq_GetNextEvent q - lq_GetCurrentCycle q) Hx) as (N & q' & E & Hy & Hla & En & Hlt); [lia|lia|].
  exists N, (k, (q', f)). split_and!; [|done|done|cbn; lia]. intros lfuel Hl. unfold run_next. cbn [deref mbind res_bind]. rewrite Hi.
  cbn [deref mbind res_bind]. assert (lq_GetNextEvent q ⊖ lq_GetCurrentCycle q = lq_GetNextEvent q - lq_GetCurrentCycle q) as ->
    by (apply u64_small; unfold is_u64, horizon in *; lia). by rewrite E by done.
Qed.

(** ** Cycling *)

(** Where a queue stands at the global cycle [T]: its clock has reached it, and
    its next event is later, on the global clock or on its own. *)
Definition caught_up (freq : double) (T : Z) y : Prop := ∃ t, local_cycle freq (f_of y) T = Ok t ∧ t ≤ now_of y ∧
  ((∀ u, due freq y u → T < u) ∨ now_of y = t ∧ now_of y < next y).

Lemma Sync_ok s : geq_ok s → ∃ N s', (∀ lfuel, (N ≤ lfuel)%nat → Sync lfuel s = Ok s') ∧ geq_ok s' ∧
  currentCycle s' = currentCycle s ∧ frequency s' = frequency s ∧ Forall2 later (eventQueues s) (eventQueues s') ∧
  Forall2 (synced (frequency s) (currentCycle s)) (eventQueues s) (eventQueues s').
Proof using All.
  intros [Hc Hs]. destruct (sync_queues_ok (frequency s) (currentCycle s) (eventQueues s) Hc Hs) as (N & l & E & Hl & Hla & Hsy).
  exists N, (s <| eventQueues := l |>). split_and!; [|by split|done..]. intros lfuel Hf. unfold Sync. by rewrite E.
Qed.

Lemma caught_up_synced freq T l l' : (∀ x u, x ∈ l → due freq x u → T < u) → Forall2 (synced freq T) l l' → Forall (caught_up freq T) l'.
Proof using.
  intros Hd Hs. apply Forall_lookup. intros i y Hy. destruct (Forall2_lookup_r _ _ _ _ _ Hs Hy) as (x & Hx & t & Et & Ht & Hc).
  exists t. split_and!; [done|done|]. destruct Hc as [->|[? ?]]; [left|by right]. intros u. apply Hd. by eapply list_elem_of_lookup_2.
Qed.

Lemma cycle_while_ends steps T n : ∀ s it, geq_ok s → 0 ≤ it ≤ steps → steps ≤ horizon → T = currentCycle s + (steps - it) →
  T ≤ horizon → (ahead T (eventQueues s) < n)%nat → ∃ N s',
  (∀ fuel lfuel, (n ≤ fuel)%nat → (N ≤ lfuel)%nat → cycle_while fuel lfuel steps it s = Ok s') ∧ geq_ok s' ∧
  currentCycle s' = T ∧ frequency s' = frequency s ∧ Forall2 later (eventQueues s) (eventQueues s') ∧
  Forall (caught_up (frequency s) T) (eventQueues s').
Proof using All.
  induction n as [|n IH]; [lia|]. intros s it Hs Hit Hst ET HT Hn. pose proof Hs as [Hc Hq].
  destruct (next_event_earliest (frequency s) (eventQueues s) Hq 0 u64_max None) as (t & o & Et & Hle & Hcase & Hmin).
  assert (horizon < u64_max) as Hbig by done. assert (u64_max < 2 ^ 64) as Hbig' by done.
  set (g := if t >? currentCycle s then t ⊖ currentCycle s else 0).
  assert (0 ≤ t) as Ht0. { destruct Hcase as [[_ ->]|(j & x & Hx & _ & _ & Hnx)]; [done|].
    pose proof (queue_next_range _ _ (proj1 (Forall_lookup _ _) Hq j x Hx)). lia. }
  assert (g = Z.max 0 (t - currentCycle s)) as Eg.
  { unfold g. destruct (Z.gtb_spec t (currentCycle s)); [|lia]. rewrite u64_small by (unfold is_u64; lia). lia. }
  assert (steps ⊖ it = steps - it) as Esub by (apply u64_small; unfold is_u64; lia).
  assert (∀ fuel lfuel, cycle_while (S fuel) lfuel steps it s =
    if g >? steps - it then Sync lfuel (s <| currentCycle ::= λ c, c ⊕ (steps - it) |>)
    else s ← run_next lfuel o s; s ← Sync lfuel (s <| currentCycle ::= λ c, c ⊕ g |>);
         cycle_while fuel lfuel steps (it ⊕ g) s) as Estep.
  { intros fuel lfuel. cbn [cycle_while]. rewrite (proj2 (Z.leb_le _ _)) by lia. unfold GetNextEvent. rewrite Et. cbn [mbind res_bind].
    fold g. by rewrite Esub. }
  destruct (Z.gtb_spec g (steps - it)) as [Hgt|Hge].
  - assert (currentCycle s ⊕ (steps - it) = T) as EcT by (rewrite u64_small by (unfold is_u64; lia); lia).
    set (s1 := s <| currentCycle ::= λ c, c ⊕ (steps - it) |>). assert (currentCycle s1 = T) as Ec1 by exact EcT.
    destruct (Sync_ok s1) as (N & s' & E & Hs' & Ec & Ef & Hla & Hsy); [split; [lia|done]|].
    rewrite Ec1 in *. exists N, s'. split_and!; try done.
    + intros [|fuel] lfuel Hf Hl; [lia|]. rewrite Estep. by apply E.
    + eapply caught_up_synced; [|exact Hsy]. intros x u Hx Hd. specialize (Hmin x u Hx Hd). lia.
  - destruct Hcase as [[_ ->]|(j & x & Hx & -> & Hd & Hnx)]; [unfold u64_max in *; unfold horizon in *; lia|].
    change (0 + j)%nat with j in Estep.
    destruct (run_next_ok s j x Hq Hx) as (N1 & y & E1 & Hy & Hla1 & Hlt); [lia|].
    assert (currentCycle s ⊕ g = currentCycle s + g) as Ecg by (apply u64_small; unfold is_u64; lia).
    set (s1 := s <| eventQueues ::= <[j := y]> |> <| currentCycle ::= λ c, c ⊕ g |>).
    assert (geq_ok s1) as Hs1. { split; unfold s1; fields; [rewrite Ecg; lia|by apply Forall_insert]. }
    destruct (Sync_ok s1 Hs1) as (N2 & s2 & E2 & Hs2 & Ec2 & Ef2 & Hla2 & _).
    assert (Forall2 later (eventQueues s) (eventQueues s1)) as Hla1'. { unfold s1. fields. by eapply later_insert. }
    destruct (IH s2 (it + g)) as (N3 & s' & E3 & Hs' & Ec3 & Ef3 & Hla3 & Hcu); [done|lia|lia| |done| |].
    { rewrite Ec2. unfold s1. fields. rewrite Ecg. lia. }
    { pose proof (ahead_later T _ _ Hla2). enough ((ahead T (eventQueues s1) < ahead T (eventQueues s))%nat) by lia.
      unfold s1. fields. apply (ahead_run T _ j x y Hx); lia. }
    assert (frequency s2 = frequency s) as Ef by (rewrite Ef2; done).
    exists ((N1 `max` N2) `max` N3)%nat, s'. rewrite Ef in *. split_and!; try done.
    + intros [|fuel] lfuel Hf Hl; [lia|]. rewrite Estep, E1 by lia. cbn [mbind res_bind]. fold s1. rewrite E2 by lia.
      assert (it ⊕ g = it + g) as -> by (apply u64_small; unfold is_u64; lia). apply E3; lia.
    + etransitivity; [exact Hla1'|]. by etransitivity.
Qed.

(** C32. Time under the global clock: from queues in order ([geq_ok]: the global
    frequency is 1 to 2^10 times each queue's, clocks and events are within 2^53
    cycles), with an end within 2^53 cycles, [Cycle] ends, and its
    fuel need not exceed one more than the cycles all next events are before
    the end. The global clock has advanced by exactly the given steps, every
    local clock has reached the local time of that, and no queue has an event
    left that was due by then. *)
Theorem Cycle_reaches steps s : geq_ok s → 0 ≤ steps → currentCycle s + steps ≤ horizon → ∃ N s',
  (∀ fuel lfuel, (ahead (currentCycle s + steps) (eventQueues s) < fuel)%nat → (N ≤ lfuel)%nat → Cycle fuel lfuel steps s = Ok s') ∧
  geq_ok s' ∧ currentCycle s' = currentCycle s + steps ∧ Forall2 later (eventQueues s) (eventQueues s') ∧
  Forall (caught_up (frequency s) (currentCycle s + steps)) (eventQueues s').
Proof using All.
  intros Hs Hst Hh. pose proof Hs as [Hc _].
  destruct (cycle_while_ends steps (currentCycle s + steps) (S (ahead (currentCycle s + steps) (eventQueues s))) s 0)
    as (N & s' & E & Hs' & Ec & _ & Hla & Hcu); [done|lia..|].
  exists N, s'. split_and!; try done.
Qed.
End Theory.

(** ** The event queue of a memory *)

#[export] Instance sim_queue {O} `{Recipient O} : LocalQueue (Sim O) := {|
  lq_GetNextEvent s := nextEventCycle (queue s);
  lq_GetCurrentCycle s := Heap.currentCycle (queue s);
  lq_SetFrequency d s := s <| queue ::= λ q, q <| Heap.frequency := d |> |>;
  lq_Loop fuel n s := '(_, s) ← Loop fuel fuel n s; Ok s
|}.

(** Objects that do not look at the frequency and whose events are in range. *)
Class NearFuture {O} `{Recipient O} (I : Sim O → Prop) := {
  nf_future : FutureRecipient I;
  nf_near : ∀ s, I s → eq_wf s → nextEventCycle (queue s) = u64_max ∨ nextEventCycle (queue s) ≤ horizon
}.
#[export] Existing Instance nf_future.

Definition sim_ok {O} (I : Sim O → Prop) (s : Sim O) : Prop :=
  I s ∧ eq_wf s ∧ 0 ≤ Heap.currentCycle (queue s) ≤ nextEventCycle (queue s).

#[export] Instance sim_queue_laws {O} `{Recipient O} (I : Sim O → Prop) `{!NearFuture I} : LocalQueueLaws (Sim O) (sim_ok I).
Proof.
  split.
  - intros s (HI & Hw & Hc). split; [done|]. by apply nf_near.
  - intros s n (HI & Hw & Hc) Hn Hh. cbn in Hh.
    destruct (Loop_advance s n) as (N & s' & E & HI' & Hw' & Ec & Hlt & Ha); [done|done|done|done|unfold horizon, u64_max in *; lia|].
    exists (N `max` (Z.to_nat n + 2))%nat, s'. cbn. split_and!; [|split; [done|split; [done|lia]]|done|done|].
    + intros fuel Hf. by rewrite E by lia.
    + destruct (Z.le_gt_cases (nextEventCycle (queue s)) (Heap.currentCycle (queue s) + n)); [lia|].
      inversion Ha; subst; [done|lia].
Qed.

(** *** Objects that are only called *)

Module Silent.
#[global] Instance recipient : Recipient unit := {|
  rc_Cycle h n := mret (); rc_RequestComplete h q := mret true; rc_Callback p k x := mret ()
|}.
Definition ok (s : Sim unit) : Prop :=
  map_Forall (λ _ ev, is_Some (ev_recipient ev)) (h_events (heap s)) ∧ 0 ≤ Heap.currentCycle (queue s) ∧
  ∀ j, is_Some (eventMap (queue s) !! j) → j ≤ horizon.

Lemma dispatch_silent (s : Sim unit) ev : is_Some (ev_recipient ev) → dispatch ev s = Ok ((), s).
Proof. intros [hk E]. unfold dispatch. rewrite E. by destruct (ev_type ev). Qed.
#[global] Instance future : FutureRecipient ok.
Proof.
  split.
  - intros s e ev l (Hok & H0 & Hn) Hm El Hin He Hc Hnx.
    exists (freed s e). unfold handle. rewrite (bind_load_event _ _ _ _ He), (bind_ok _ _ _ _ _ (dispatch_silent s ev (Hok e ev He))).
    split_and!; [unfold delete_event; by rewrite He| |by eapply free_step].
    split_and!; [unfold freed; fields; by apply map_Forall_delete|done|done].
  - intros s (Hok & H0 & Hn). split; [done|]. unfold finish. fields. split; [done|].
    intros j [l Hl]. apply Hn. rewrite lookup_delete_Some in Hl. exists l. apply Hl.
  - intros s c (Hok & H0 & Hn) Hc. split; [done|]. fields. split; [lia|done].
Qed.
#[global] Instance near : NearFuture ok.
Proof.
  split; [apply _|]. intros s (_ & _ & Hn) Hw. rewrite (wf_next _ Hw).
  destruct (proj1 (next_of_spec (eventMap (queue s)) _ ltac:(intros j Hj; apply (wf_keys _ Hw), Hj)) eq_refl) as [[-> _]|[Hk _]];
    [by left|right; by apply Hn].
Qed.
End Silent.

(** ** An example

    Two memories, one at half the frequency of the other, with an event each. *)

Module GlobalBench.
Definition hook : Hook := mkHook 1 2.
Definition event_at (c : Z) : Event :=
  (Event_new 0) <| ev_type := EventCycle |> <| ev_recipient := Some hook |> <| ev_cycle := c |>.
Definition one_event (c : Z) : Sim unit :=
  mkSim (mkHeap ∅ ∅ {[ 3%positive := event_at c ]} 7 None)
    ((EventQueue_new dzero) <| eventMap := {[ c := [3%positive] ]} |> <| nextEventCycle := c |>) ().
Definition start : GlobalEventQueue (Sim unit) :=
  mkGlobalEventQueue 0 (d_of_Z 2) [(1%positive, (one_event 5, d_of_Z 1)); (2%positive, (one_event 3, d_of_Z 2))].

Lemma one_event_ok c : 0 ≤ c ≤ 1000 → sim_ok Silent.ok (one_event c).
Proof.
  intros Hc. split; [split; [|split; [done|]]|split; [split|change (0 ≤ 0 ≤ c); lia]].
  - intros x ev Hx. apply (proj1 (lookup_singleton_Some 3%positive x (event_at c) ev)) in Hx as [_ <-]. by exists hook.
  - intros j [l Hl]. apply (proj1 (lookup_singleton_Some c j [3%positive] l)) in Hl as [<- _]. unfold horizon. lia.
  - change (c = next_of ({[ c := [3%positive] ]} : gmap Z (list positive))). unfold next_of, first_key. by rewrite map_to_list_singleton.
  - intros k l Hl. apply (proj1 (lookup_singleton_Some c k [3%positive] l)) in Hl as [<- <-]. split_and!; [done|apply NoDup_singleton|].
    intros x ->%list_elem_of_singleton. by exists (event_at c).
  - intros k [l Hl]. apply (proj1 (lookup_singleton_Some c k [3%positive] l)) in Hl as [<- _]. unfold u64_max. lia.
  - intros x Hx. cbn in *. split; [done|]. apply lookup_singleton_ne. lia.
Qed.
Lemma ratio_one : ratio_ok (d_of_Z 2) (d_of_Z 1) ∧ ratio_ok (d_of_Z 2) (d_of_Z 2).
Proof. split; split; try split; vm_compute; congruence. Qed.
Lemma two_clocks_ok : geq_ok (ok := sim_ok Silent.ok) start.
Proof.
  split; [done|]. apply Forall_cons. split; [|apply Forall_cons; split; [|done]].
  all: refine (conj _ (conj _ _)); [apply one_event_ok; lia| |change (0 ≤ horizon); unfold horizon; lia].
  - exact (proj1 ratio_one).
  - exact (proj2 ratio_one).
Qed.
End GlobalBench.
Import GlobalBench.

Lemma Cycle_reaches_witness : ∃ lfuel (s' : GlobalEventQueue (Sim unit)), Cycle 20 lfuel 12 start = Ok s' ∧ currentCycle s' = 12 ∧
  Forall (caught_up (d_of_Z 2) 12) (eventQueues s').
Proof.
  destruct (Cycle_reaches (ok := sim_ok Silent.ok) 12 start two_clocks_ok ltac:(lia) ltac:(unfold horizon; cbn; lia))
    as (N & s' & E & _ & Ec & _ & Hcu).
  exists N, s'. split; [|split; [exact Ec|exact Hcu]]. apply E; [|done]. apply (proj1 (Nat.ltb_lt _ _)). vm_compute. reflexivity.
Defined.
