(* ===== verification/Migrator.v ===== *)
(** * The migrating decoder

    NVmain/Decoders/Migrator: an address translator that remembers which pages
    were moved to another channel. A migration exchanges two pages; it is
    announced ([StartMigration]), followed page by page ([SetMigrationState]),
    and redirects the pages when it is done ([Translate]). *)

From S2P Require Import Prelude NVMTypes Translation Config.

(*| NVmain/Decoders/Migrator/Migrator.h 45-52 MigratorState *)
Inductive MigratorState :=
  | MIGRATION_UNKNOWN | MIGRATION_READING | MIGRATION_BUFFERED | MIGRATION_WRITING | MIGRATION_DONE.
#[export] Instance MigratorState_eq_dec : EqDecision MigratorState.
Proof. solve_decision. Defined.

Module Mig.
(** [base] is the part inherited from AddressTranslator. *)
(*| NVmain/Decoders/Migrator/Migrator.h 78-90 Migrator *)
Record Migrator := mkMigrator {
  base : AddressTranslator;
  migrationMap : gmap Z Z;
  migrationState : gmap Z MigratorState;
  numChannels : Z;
  numBanks : Z;
  numRanks : Z;
  numSubarrays : Z;
  migrating : bool;
  inputPage : Z;
  outputPage : Z;
  migratedAccesses : Z
}.
#[export] Instance eta_Migrator : Settable Migrator := fields! mkMigrator
  < base; migrationMap; migrationState; numChannels; numBanks; numRanks; numSubarrays; migrating; inputPage; outputPage;
    migratedAccesses >.

(** The constructor does not write the four numbers: [u]. *)
(*| NVmain/Decoders/Migrator/Migrator.cpp 42-52 Migrator::Migrator *)
Definition Migrator_new (at_ : AddressTranslator) (u : Z * Z * Z * Z) : Migrator :=
  let '(u1, u2, u3, u4) := u in mkMigrator at_ ∅ ∅ u1 u2 u3 u4 false 0 0 0.

(*| NVmain/Decoders/Migrator/Migrator.cpp 61-72 Migrator::SetConfig *)
Definition SetConfig (c : Config) (m : Migrator) : res (Config * Migrator) :=
  '(ch, c) ← GetValue "CHANNELS" c;
  '(bk, c) ← GetValue "BANKS" c;
  '(rk, c) ← GetValue "RANKS" c;
  '(rows, c) ← GetValue "ROWS" c;
  '(height, c) ← GetValue "MATHeight" c;
  if height =? 0 then Err DivideByZero else
  Ok (c, m <| numChannels := u64 ch |> <| numBanks := u64 bk |> <| numRanks := u64 rk |>
           <| numSubarrays := u64 (Z.quot rows height) |>).

(*| NVmain/Decoders/Migrator/Migrator.cpp 85-99 Migrator::GetAddressKey *)
Definition GetAddressKey (m : Migrator) (address : NVMAddress) : Z :=
  let '(row, _, bank, rank, channel, subarray) := GetTranslatedAddress address in
  row ⊗ numBanks m ⊗ numRanks m ⊗ numSubarrays m ⊗ numChannels m
  ⊕ bank ⊗ numRanks m ⊗ numSubarrays m ⊗ numChannels m
  ⊕ rank ⊗ numSubarrays m ⊗ numChannels m
  ⊕ subarray ⊗ numChannels m
  ⊕ channel.

(*| NVmain/Decoders/Migrator/Migrator.cpp 102-138 Migrator::StartMigration *)
Definition StartMigration (promotee demotee : NVMAddress) (m : Migrator) : res Migrator :=
  let demoChannel := GetChannel promotee in
  let promoChannel := GetChannel demotee in
  let promokey := GetAddressKey m promotee in
  let demokey := GetAddressKey m demotee in
  cassert (negb (migrating m));;
  Ok (m <| migrationMap ::= λ x, <[demokey := demoChannel]> (<[promokey := promoChannel]> x) |>
        <| migrationState ::= λ x, <[demokey := MIGRATION_READING]> (<[promokey := MIGRATION_READING]> x) |>
        <| migrating := true |> <| inputPage := promokey |> <| outputPage := demokey |>).

(** [migrationState[key]] inserts the first state if there is none. *)
Definition state_at (key : Z) (x : gmap Z MigratorState) : MigratorState * gmap Z MigratorState :=
  match x !! key with Some s => (s, x) | None => (MIGRATION_UNKNOWN, <[key := MIGRATION_UNKNOWN]> x) end.

(*| NVmain/Decoders/Migrator/Migrator.cpp 140-156 Migrator::SetMigrationState *)
Definition SetMigrationState (address : NVMAddress) (newState : MigratorState) (m : Migrator) : res Migrator :=
  let key := GetAddressKey m address in
  old ← deref AssertFail (migrationState m !! key);
  cassert (negb (bool_decide (old = newState)));;
  let x := <[key := newState]> (migrationState m) in
  let '(s1, x) := state_at (inputPage m) x in
  let '(done, x) :=
    if bool_decide (s1 = MIGRATION_DONE) then
      let '(s2, x) := state_at (outputPage m) x in (bool_decide (s2 = MIGRATION_DONE), x)
    else (false, x) in
  let m := m <| migrationState := x |> in
  Ok (if (done : bool) then m <| migrating := false |> else m).

(*| NVmain/Decoders/Migrator/Migrator.cpp 159-162 Migrator::Migrating *)
Definition Migrating (m : Migrator) : bool := migrating m.

(** The state of a page the two maps know. *)
Definition known_state (m : Migrator) (address : NVMAddress) : option MigratorState :=
  let key := GetAddressKey m address in
  match migrationMap m !! key with Some _ => migrationState m !! key | None => None end.
(*| NVmain/Decoders/Migrator/Migrator.cpp 169-181 Migrator::IsMigrated *)
Definition IsMigrated (m : Migrator) (address : NVMAddress) : bool :=
  match known_state m address with Some MIGRATION_DONE => true | _ => false end.
(*| NVmain/Decoders/Migrator/Migrator.cpp 189-201 Migrator::IsBuffered *)
Definition IsBuffered (m : Migrator) (address : NVMAddress) : bool :=
  match known_state m address with Some (MIGRATION_BUFFERED | MIGRATION_WRITING) => true | _ => false end.

(** [out]: what the result pointers hold before the call; the bit address of a new
    [NVMAddress] is not looked at. *)
(*| NVmain/Decoders/Migrator/Migrator.cpp 204-227 Migrator::Translate *)
Definition Translate (address : Z) (out : six) (m : Migrator) : res (six * Migrator) :=
  '(v, t) ← Translation.Translate address out (base m);
  let m := m <| base := t |> in
  let keyAddress := SetPhysicalAddress address
    (SetTranslatedAddress (s_row v) (s_col v) (s_bank v) (s_rank v) (s_channel v) (s_subarray v) (NVMAddress_new 0)) in
  let key := GetAddressKey m keyAddress in
  match migrationMap m !! key with
  | None => Ok (v, m)
  | Some ch =>
      let '(s, x) := state_at key (migrationState m) in
      let m := m <| migrationState := x |> in
      if bool_decide (s = MIGRATION_DONE) then
        v ← six_set MEM_CHANNEL ch v; Ok (v, m <| migratedAccesses ::= λ n, n ⊕ 1 |>)
      else Ok (v, m)
  end.

(** ** Checkpoints *)

(** The bytes of a 64-bit integer in memory. *)
Definition bytes64 (v : Z) : list Z := (λ i, (v / 256 ^ i) mod 256) <$> seqZ 0 8.
Definition of_bytes64 (l : list Z) : Z := foldr (λ b acc, b + 256 * acc) 0 l.

(** The entries of the map in the order of its keys. *)
Definition key_le : relation (Z * Z) := λ a b, a.1 ≤ b.1.
#[export] Instance key_le_dec a b : Decision (key_le a b).
Proof. unfold key_le. apply _. Defined.
Definition entries (x : gmap Z Z) : list (Z * Z) := merge_sort key_le (map_to_list x).

(** What the file holds afterwards, if it could be opened. *)
(*| NVmain/Decoders/Migrator/Migrator.cpp 230-280 Migrator::CreateCheckpoint *)
Definition CreateCheckpoint (can_open : bool) (m : Migrator) : option (list Z) :=
  if can_open then Some (concat ((λ e, bytes64 e.1 ++ bytes64 e.2) <$> entries (migrationMap m))) else None.

(** [insert] keeps a mapping that is there. *)
Definition add_mapping (address channel : Z) (x : gmap Z Z) : gmap Z Z :=
  match x !! address with Some _ => x | None => <[address := channel]> x end.
(** The [n] mappings of the file. *)
Fixpoint restore_loop (n : nat) (bytes : list Z) (x : gmap Z Z) : gmap Z Z :=
  match n with
  | O => x
  | S n =>
      let address := of_bytes64 (take 8 bytes) in
      let channel := of_bytes64 (take 8 (drop 8 bytes)) in
      restore_loop n (drop 16 bytes) (add_mapping address channel x)
  end.
(*| NVmain/Decoders/Migrator/Migrator.cpp 283-329 Migrator::RestoreCheckpoint *)
Definition RestoreCheckpoint (file : option (list Z)) (m : Migrator) : Migrator :=
  match file with
  | None => m
  | Some bytes => m <| migrationMap ::= restore_loop (length bytes / 16) bytes |>
  end.
End Mig.
Import Mig.

(** ** Keys *)

(** The addresses whose fields are in range: their key is a number in mixed
    radix that fits into 64 bits. *)
Definition key_number (m : Migrator) (a : NVMAddress) : Z :=
  (((row a * numBanks m + bank a) * numRanks m + rank a) * numSubarrays m + subarray a) * numChannels m + channel a.
Record fits (m : Migrator) (a : NVMAddress) : Prop := {
  fits_row : 0 ≤ row a;
  fits_bank : 0 ≤ bank a < numBanks m;
  fits_rank : 0 ≤ rank a < numRanks m;
  fits_subarray : 0 ≤ subarray a < numSubarrays m;
  fits_channel : 0 ≤ channel a < numChannels m;
  fits_key : key_number m a < 2 ^ 64
}.
(** The row of a bank, whatever the column. *)
Definition page (a : NVMAddress) : Z * Z * Z * Z * Z := (row a, bank a, rank a, subarray a, channel a).

Lemma u64_add_nested a b : u64 (u64 a + u64 b) = u64 (a + b).
Proof. unfold u64. by rewrite <- Zplus_mod. Qed.
Lemma u64_mul3 a b c : a ⊗ b ⊗ c = u64 (a * b * c).
Proof. apply u64_mul_l. Qed.
Lemma u64_mul4 a b c d : a ⊗ b ⊗ c ⊗ d = u64 (a * b * c * d).
Proof. rewrite (u64_mul3 a b c). apply u64_mul_l. Qed.
Lemma u64_mul5 a b c d e : a ⊗ b ⊗ c ⊗ d ⊗ e = u64 (a * b * c * d * e).
Proof. rewrite (u64_mul4 a b c d). apply u64_mul_l. Qed.
Lemma key_u64 m a : GetAddressKey m a = u64 (key_number m a).
Proof.
  unfold GetAddressKey, GetTranslatedAddress, key_number. rewrite u64_mul5, u64_mul4, u64_mul3.
  match goal with |- u64 (u64 (u64 (u64 (u64 ?a1 + u64 ?a2) + u64 ?a3) + u64 ?a4) + _) = _ =>
    rewrite (u64_add_nested a1 a2), (u64_add_nested (a1 + a2) a3), (u64_add_nested (a1 + a2 + a3) a4) end.
  rewrite u64_add_l. f_equal. ring.
Qed.
Lemma key_fits m a : fits m a → GetAddressKey m a = key_number m a.
Proof.
  intros [H1 H2 H3 H4 H5 H6]. rewrite key_u64, u64_small; [done|]. split; [|exact H6].
  assert (∀ x n y, 0 ≤ x → 0 ≤ y < n → 0 ≤ x * n + y) as Hs by (intros; nia). unfold key_number. auto.
Qed.

Lemma radix_inj n a b x y : 0 ≤ x < n → 0 ≤ y < n → a * n + x = b * n + y → a = b ∧ x = y.
Proof. intros Hx Hy E. assert (a = b) by nia. subst b. split; [done|lia]. Qed.

(** A page has its own key. *)
Lemma key_inj m a b : fits m a → fits m b → GetAddressKey m a = GetAddressKey m b → page a = page b.
Proof.
  intros Ha Hb. rewrite !key_fits by done. destruct Ha, Hb. unfold key_number, page. intros E.
  apply radix_inj in E as [E ->]; [|done..]. apply radix_inj in E as [E ->]; [|done..].
  apply radix_inj in E as [E ->]; [|done..]. by apply radix_inj in E as [-> ->].
Qed.

(** ** What translation does *)

(** A translated address; its other members do not matter. *)
Definition addr_of (v : six) : NVMAddress :=
  SetTranslatedAddress (s_row v) (s_col v) (s_bank v) (s_rank v) (s_channel v) (s_subarray v) (NVMAddress_new 0).
Definition with_channel (c : Z) (a : NVMAddress) : NVMAddress := a <| channel := c |>.
Definition set_channel (c : Z) (v : six) : six := mkSix (s_row v) (s_col v) (s_bank v) (s_rank v) c (s_subarray v).

(** Where the page of [v] is now. *)
Definition redirect (m : Migrator) (v : six) : six :=
  match migrationMap m !! GetAddressKey m (addr_of v), known_state m (addr_of v) with
  | Some c, Some MIGRATION_DONE => set_channel c v
  | _, _ => v
  end.

Definition same_size (m m' : Migrator) : Prop :=
  numChannels m' = numChannels m ∧ numBanks m' = numBanks m ∧ numRanks m' = numRanks m ∧ numSubarrays m' = numSubarrays m.
Lemma same_size_key m m' a : same_size m m' → GetAddressKey m' a = GetAddressKey m a.
Proof. intros (E1 & E2 & E3 & E4). unfold GetAddressKey. by rewrite E1, E2, E3, E4. Qed.
Lemma same_size_fits m m' a : same_size m m' → fits m' a ↔ fits m a.
Proof.
  intros (E1 & E2 & E3 & E4). split; intros [H1 H2 H3 H4 H5 H6]; (split; revert H1 H2 H3 H4 H5 H6; unfold key_number;
    rewrite ?E1, ?E2, ?E3, ?E4; done).
Qed.

Lemma Translate_redirects address out m v' m' :
  Translate address out m = Ok (v', m') →
  ∃ v t, Translation.Translate address out (base m) = Ok (v, t) ∧ v' = redirect m v ∧
    same_size m m' ∧ migrationMap m' = migrationMap m ∧ migrating m' = migrating m ∧
    inputPage m' = inputPage m ∧ outputPage m' = outputPage m ∧
    ((∀ k, is_Some (migrationMap m !! k) → is_Some (migrationState m !! k)) → migrationState m' = migrationState m).
Proof.
  intros Hr. unfold Translate in Hr. destruct (Translation.Translate address out (base m)) as [[v t]|]; [|done].
  cbn [mbind res_bind] in Hr. exists v, t. split; [done|].
  match type of Hr with context [migrationMap _ !! ?k] => change k with (GetAddressKey m (addr_of v)) in Hr end.
  set (key := GetAddressKey m (addr_of v)) in *. change (migrationMap (m <|base := t|>)) with (migrationMap m) in Hr.
  unfold redirect, known_state. fold key. cbv zeta.
  destruct (migrationMap m !! key) as [c|] eqn:Ec; [|injection Hr as <- <-; split_and!; done].
  change (migrationState (m <|base := t|>)) with (migrationState m) in Hr. unfold state_at in Hr.
  destruct (migrationState m !! key) as [s|] eqn:Es.
  - case_bool_decide as Ed.
    + destruct v. cbn in Hr. injection Hr as <- <-. subst s. by split_and!.
    + injection Hr as <- <-. destruct s; by split_and!.
  - rewrite bool_decide_false in Hr by done. injection Hr as <- <-. split_and!; try done.
    intros Hs. exfalso. destruct (Hs key) as [s Hk]; [by eexists|]. congruence.
Qed.

(** ** The protocol of a migration *)

(** The pages that are exchanged differ in the channel only. *)
Definition partner (p d : NVMAddress) : Prop :=
  row d = row p ∧ bank d = bank p ∧ rank d = rank p ∧ subarray d = subarray p ∧ channel d ≠ channel p.

(** Pages that never moved are exchanged one pair at a time; while a migration is
    in progress its two pages advance, until they are done. *)
Inductive mig_step (m : Migrator) : Migrator → Prop :=
  | step_start p d m' : fits m p → fits m d → partner p d → IsMigrated m p = false → IsMigrated m d = false →
      StartMigration p d m = Ok m' → mig_step m m'
  | step_set a s m' : Migrating m = true → (GetAddressKey m a = inputPage m ∨ GetAddressKey m a = outputPage m) →
      IsMigrated m a = false → SetMigrationState a s m = Ok m' → mig_step m m'
  | step_translate address out v m' : Translate address out m = Ok (v, m') → mig_step m m'.

(** Two pages that were exchanged point to each other. *)
Definition paired (m : Migrator) (x : gmap Z Z) : Prop := ∀ a c, fits m a → x !! GetAddressKey m a = Some c →
  fits m (with_channel c a) ∧ x !! GetAddressKey m (with_channel c a) = Some (channel a).
Lemma paired_size m m' x : same_size m m' → paired m x → paired m' x.
Proof.
  intros Hs Hp a c Ha Hc. rewrite (same_size_key _ _ _ Hs) in Hc. apply (same_size_fits _ _ _ Hs) in Ha.
  destruct (Hp a c Ha Hc) as [Hf Hc']. split; [by apply (same_size_fits _ _ _ Hs)|by rewrite (same_size_key _ _ _ Hs)].
Qed.

Record mig_ok (m : Migrator) : Prop := {
  ok_dom : ∀ k, is_Some (migrationMap m !! k) ↔ is_Some (migrationState m !! k);
  ok_done : ∀ k s, migrationState m !! k = Some s →
    s = MIGRATION_DONE ∨ migrating m = true ∧ (k = inputPage m ∨ k = outputPage m);
  ok_pages : migrating m = true → inputPage m ≠ outputPage m ∧ is_Some (migrationState m !! inputPage m) ∧
    is_Some (migrationState m !! outputPage m) ∧
    ¬ (migrationState m !! inputPage m = Some MIGRATION_DONE ∧ migrationState m !! outputPage m = Some MIGRATION_DONE);
  ok_pair : paired m (migrationMap m)
}.

Lemma mig_ok_new at_ u : mig_ok (Migrator_new at_ u).
Proof.
  destruct u as [[[u1 u2] u3] u4]. split; cbn.
  - intros k. by rewrite !lookup_empty.
  - intros k s. by rewrite lookup_empty.
  - done.
  - intros a c _. by rewrite lookup_empty.
Qed.

(** Nothing is in flight: a page that never moved is in no map. *)
Lemma idle_fresh m a : mig_ok m → migrating m = false → IsMigrated m a = false → migrationMap m !! GetAddressKey m a = None.
Proof.
  intros [Hd Hs _ _] Hm Ha. destruct (migrationMap m !! GetAddressKey m a) as [c|] eqn:Ec; [|done]. exfalso.
  destruct (proj1 (Hd (GetAddressKey m a))) as [s Es]; [by eexists|].
  unfold IsMigrated, known_state in Ha. cbv zeta in Ha. rewrite Ec, Es in Ha.
  destruct (Hs _ _ Es) as [->|[? _]]; [done|congruence].
Qed.

Lemma key_page m a b : page a = page b → GetAddressKey m a = GetAddressKey m b.
Proof. unfold page, GetAddressKey, GetTranslatedAddress. by intros [= -> -> -> -> ->]. Qed.
Lemma fits_page m a b : page a = page b → fits m a → fits m b.
Proof.
  intros E [H1 H2 H3 H4 H5 H6]. injection E as E1 E2 E3 E4 E5. unfold key_number in H6. rewrite E1, E2, E3, E4, E5 in *.
  by split.
Qed.
Lemma partner_pages p d a : partner p d →
  (page a = page p → page (with_channel (channel d) a) = page d) ∧
  (page a = page d → page (with_channel (channel p) a) = page p).
Proof.
  intros (E1 & E2 & E3 & E4 & _). unfold page, with_channel. split; intros [= F1 F2 F3 F4 F5]; fields; congruence.
Qed.

Lemma paired_insert m x p d :
  fits m p → fits m d → partner p d → x !! GetAddressKey m p = None → x !! GetAddressKey m d = None → paired m x →
  GetAddressKey m p ≠ GetAddressKey m d ∧
  paired m (<[GetAddressKey m d := channel p]> (<[GetAddressKey m p := channel d]> x)).
Proof.
  intros Hp Hd Hpd Np Nd Hx. destruct (partner_pages p d p Hpd) as [Epd _]. specialize (Epd eq_refl).
  assert (GetAddressKey m p ≠ GetAddressKey m d) as Hne.
  { intros Ek%key_inj; [|done..]. destruct Hpd as (_ & _ & _ & _ & Hc). injection Ek as _ _ _ _ E'. congruence. }
  split; [done|]. intros a c Ha Hc. destruct (partner_pages p d a Hpd) as [Ep Ed].
  apply lookup_insert_Some in Hc as [[Ek <-]|[Hn Hc]].
  - apply eq_sym, key_inj in Ek; [|done..]. specialize (Ed Ek). rewrite (key_page _ _ _ Ed). split; [by eapply fits_page|].
    rewrite lookup_insert_ne by done. rewrite lookup_insert_eq. by injection Ek as _ _ _ _ ->.
  - apply lookup_insert_Some in Hc as [[Ek <-]|[Hn' Hc]].
    + apply eq_sym, key_inj in Ek; [|done..]. specialize (Ep Ek). rewrite (key_page _ _ _ Ep). split; [by eapply fits_page|].
      rewrite lookup_insert_eq. by injection Ek as _ _ _ _ ->.
    + destruct (Hx a c Ha Hc) as [Hf Hc']. split; [done|]. rewrite !lookup_insert_ne; [done|..]; intros E; congruence.
Qed.

Lemma mig_ok_start p d m m' :
  mig_ok m → fits m p → fits m d → partner p d → IsMigrated m p = false → IsMigrated m d = false →
  StartMigration p d m = Ok m' → mig_ok m' ∧ same_size m m'.
Proof.
  intros Hok Hp Hd Hpd Ip Id Hr. unfold StartMigration in Hr. cbv zeta in Hr. rnext Hr. injection Hr as <-.
  apply cassert_true in E as Hm. apply negb_true_iff in Hm.
  pose proof (idle_fresh _ _ Hok Hm Ip) as Fp. pose proof (idle_fresh _ _ Hok Hm Id) as Fd. destruct Hok as [Hdom Hs _ Hpair].
  destruct (paired_insert m (migrationMap m) p d) as [Hne Hpair']; [done..|].
  split; [|by split_and!]. split; fields.
  - intros k. rewrite !lookup_insert_is_Some'. by rewrite (Hdom k).
  - intros k s [[-> _]|[? [[-> _]|[? Hk]]%lookup_insert_Some]]%lookup_insert_Some; [by right; auto..|].
    destruct (Hs _ _ Hk) as [->|[? _]]; [by left|congruence].
  - intros _. split; [done|]. rewrite lookup_insert_ne, !lookup_insert_eq by done. split; [by eexists|].
    split; [by eexists|]. by intros [? _].
  - eapply paired_size; [|exact Hpair']. by split_and!.
Qed.

Lemma mig_ok_set a s m m' :
  mig_ok m → migrating m = true → (GetAddressKey m a = inputPage m ∨ GetAddressKey m a = outputPage m) →
  SetMigrationState a s m = Ok m' → mig_ok m' ∧ same_size m m'.
Proof.
  intros [Hdom Hs Hpages Hpair] Hm Hk Hr. unfold SetMigrationState in Hr. cbv zeta in Hr. set (k := GetAddressKey m a) in *.
  destruct (migrationState m !! k) as [old|] eqn:Eo; [|done]. cbn [deref mbind res_bind] in Hr. rnext Hr. clear E.
  destruct (Hpages Hm) as (Hne & [si Ei] & [so Eo'] & Hnd).
  assert (∀ j, is_Some (<[k := s]> (migrationState m) !! j) ↔ is_Some (migrationState m !! j)) as Hdom'.
  { intros j. rewrite lookup_insert_is_Some'. split; [|by right]. intros [<-|?]; [by eexists|done]. }
  assert (∃ s1, <[k := s]> (migrationState m) !! inputPage m = Some s1) as [s1 E1] by (apply Hdom'; by eexists).
  assert (∃ s2, <[k := s]> (migrationState m) !! outputPage m = Some s2) as [s2 E2] by (apply Hdom'; by eexists).
  unfold state_at in Hr. rewrite E1, E2 in Hr.
  assert (m' = (if bool_decide (s1 = MIGRATION_DONE ∧ s2 = MIGRATION_DONE)
    then m <| migrationState := <[k := s]> (migrationState m) |> <| migrating := false |>
    else m <| migrationState := <[k := s]> (migrationState m) |>)) as ->.
  { repeat case_bool_decide; try tauto; by injection Hr as <-. }
  assert (∀ j t, <[k := s]> (migrationState m) !! j = Some t → t = MIGRATION_DONE ∨ j = inputPage m ∨ j = outputPage m) as Hall.
  { intros j t [[<- _]|[_ Hj]]%lookup_insert_Some; [by right|]. destruct (Hs _ _ Hj) as [?|[_ ?]]; auto. }
  clear Hr. case_bool_decide as Ed; (split; [|unfold same_size; by fields]); split; fields.
  - intros j. by rewrite Hdom, Hdom'.
  - intros j t Hj. left. destruct (Hall _ _ Hj) as [?|[->| ->]]; [done|..]; destruct Ed; congruence.
  - done.
  - eapply paired_size; [|exact Hpair]. by split_and!.
  - intros j. by rewrite Hdom, Hdom'.
  - intros j t Hj. destruct (Hall _ _ Hj) as [?|?]; auto.
  - intros _. rewrite E1, E2. split; [done|]. split; [by eexists|]. split; [by eexists|]. intros [[= ->] [= ->]]. by apply Ed.
  - eapply paired_size; [|exact Hpair]. by split_and!.
Qed.

Lemma mig_ok_translate x out v m m' : mig_ok m → Translate x out m = Ok (v, m') → mig_ok m' ∧ same_size m m'.
Proof.
  intros [Hdom Hs Hpages Hpair] (w & t & _ & _ & Hz & E1 & E2 & E3 & E4 & E5)%Translate_redirects.
  specialize (E5 (λ k, proj1 (Hdom k))). split; [|done]. split; rewrite ?E1, ?E2, ?E3, ?E4, ?E5; [done..|].
  eapply paired_size; [exact Hz|done].
Qed.

Lemma mig_ok_step m m' : mig_ok m → mig_step m m' → mig_ok m' ∧ same_size m m'.
Proof.
  intros Hok [p d ? Hp Hd Hpd Ip Id Hr|a s ? Hm Hk _ Hr|x out v ? Hr].
  - exact (mig_ok_start _ _ _ _ Hok Hp Hd Hpd Ip Id Hr).
  - exact (mig_ok_set _ _ _ _ Hok Hm Hk Hr).
  - by eapply mig_ok_translate.
Qed.
Lemma mig_ok_steps m m' : mig_ok m → rtc mig_step m m' → mig_ok m' ∧ same_size m m'.
Proof.
  intros Hok Hs. induction Hs as [|m1 m2 m3 H12 _ IH]; [by split; [|split_and!]|].
  destruct (mig_ok_step _ _ Hok H12) as [Hok2 Z2]. destruct (IH Hok2) as [Hok3 Z3]. split; [done|].
  unfold same_size in *. intuition congruence.
Qed.

(** ** The pages stay apart *)

Lemma redirect_involutive m v : mig_ok m → migrating m = false → fits m (addr_of v) →
  redirect m (redirect m v) = v ∧ fits m (addr_of (redirect m v)).
Proof.
  intros Hok Hm Hv. pose proof Hok as [Hdom Hs _ Hpair].
  assert (∀ w, redirect m w = match migrationMap m !! GetAddressKey m (addr_of w) with Some c => set_channel c w | None => w end) as Hre.
  { intros w. unfold redirect, known_state. cbv zeta. set (k := GetAddressKey m (addr_of w)).
    destruct (migrationMap m !! k) as [c|] eqn:Ec; [|done]. destruct (proj1 (Hdom k)) as [s Es]; [by eexists|]. rewrite Es.
    destruct (Hs _ _ Es) as [->|[? _]]; [done|congruence]. }
  rewrite (Hre v). destruct (migrationMap m !! GetAddressKey m (addr_of v)) as [c|] eqn:Ec; [|by rewrite Hre, Ec].
  destruct (Hpair _ _ Hv Ec) as [Hf Hc]. change (with_channel c (addr_of v)) with (addr_of (set_channel c v)) in Hf, Hc.
  rewrite Hre, Hc. split; [by destruct v|done].
Qed.

(** C33. Migrations keep pages apart, if the pages that are exchanged are partners:
    pages of two channels that agree in row, bank, rank and subarray ([partner]).
    From a fresh decoder, after any sequence of such exchanges (each page once, one
    exchange at a time) and of translations, when no migration is in progress,
    two addresses are translated to the same place only if they are at the same
    place without migrations. The decoder does not check that pages are partners,
    and exchanging others puts two addresses in one place ([rows_collide]). *)
Theorem migration_permutes at_ u m x y outx outy vx vy mx my bx by_ tx ty :
  rtc mig_step (Migrator_new at_ u) m → Migrating m = false →
  Translate x outx m = Ok (vx, mx) → Translate y outy m = Ok (vy, my) →
  Translation.Translate x outx (base m) = Ok (bx, tx) → Translation.Translate y outy (base m) = Ok (by_, ty) →
  fits m (addr_of bx) → fits m (addr_of by_) → vx = vy → bx = by_.
Proof.
  intros Hs Hm Hx Hy Ex Ey Fx Fy E. destruct (mig_ok_steps _ _ (mig_ok_new at_ u) Hs) as [Hok _].
  apply Translate_redirects in Hx as (wx & sx & Ex' & -> & _). rewrite Ex in Ex'. injection Ex' as <- <-.
  apply Translate_redirects in Hy as (wy & sy & Ey' & -> & _). rewrite Ey in Ey'. injection Ey' as <- <-.
  destruct (redirect_involutive _ _ Hok Hm Fx) as [<- _], (redirect_involutive _ _ Hok Hm Fy) as [<- _]. by rewrite E.
Qed.

(** ** Checkpoints *)

Lemma of_bytes64_bytes64 v : of_bytes64 (bytes64 v) = u64 v.
Proof.
  assert (∀ i N, 0 ≤ i → 0 < N → (v / 256 ^ i) mod 256 + 256 * ((v / 256 ^ (i + 1)) mod N) = (v / 256 ^ i) mod (256 * N)) as Hs.
  { intros i N Hi HN. rewrite Z.pow_add_r, <- Z.div_div by lia. by rewrite <- Z.rem_mul_r by lia. }
  change (of_bytes64 (bytes64 v)) with ((v / 256 ^ 0) mod 256 + 256 * ((v / 256 ^ (0 + 1)) mod 256 +
    256 * ((v / 256 ^ (1 + 1)) mod 256 + 256 * ((v / 256 ^ (2 + 1)) mod 256 + 256 * ((v / 256 ^ (3 + 1)) mod 256 +
    256 * ((v / 256 ^ (4 + 1)) mod 256 + 256 * ((v / 256 ^ (5 + 1)) mod 256 + 256 * ((v / 256 ^ (6 + 1)) mod 256 + 256 * 0)))))))).
  rewrite Z.mul_0_r, Z.add_0_r. repeat (rewrite Hs; [|lia..]). by rewrite Z.div_1_r.
Qed.
Lemma bytes64_length v : length (bytes64 v) = 8%nat.
Proof. reflexivity. Qed.

(** The mappings of a file, read back. *)
Lemma restore_encoded l x rest : Forall (λ e, is_u64 e.1 ∧ is_u64 e.2) l →
  restore_loop (length l) (concat ((λ e, bytes64 e.1 ++ bytes64 e.2) <$> l) ++ rest) x =
  foldl (λ x e, add_mapping e.1 e.2 x) x l.
Proof.
  intros Hl. revert x. induction Hl as [|[k c] l [Hk Hc] _ IH]; intros x; [done|]. cbn [length restore_loop fmap list_fmap concat foldl fst snd].
  rewrite <- !app_assoc.
  rewrite (take_app_length' (bytes64 k)) by reflexivity. rewrite (drop_app_length' (bytes64 k) _ 8%nat) by reflexivity.
  rewrite (take_app_length' (bytes64 c)) by reflexivity. rewrite !of_bytes64_bytes64, !u64_small by done.
  rewrite (app_assoc (bytes64 k)), drop_app_length' by reflexivity. apply IH.
Qed.

Lemma restored_entries l x : NoDup l.*1 → (∀ e, e ∈ l → x !! e.1 = None) →
  foldl (λ x e, add_mapping e.1 e.2 x) x l = list_to_map l ∪ x.
Proof.
  revert x. induction l as [|[k c] l IH]; intros x Hd Hx; cbn; [by rewrite (left_id_L ∅ (∪))|].
  apply NoDup_cons in Hd as [Hn Hd]. pose proof (Hx (k, c) ltac:(left)) as Hk. cbn in Hk. unfold add_mapping at 2. rewrite Hk, IH; [|done|].
  - by rewrite <- insert_union_l, <- insert_union_r by (by apply not_elem_of_list_to_map_1).
  - intros e He. rewrite lookup_insert_ne; [apply Hx; by right|]. intros ->. apply Hn. change (e.1 ∈ l.*1). by apply list_elem_of_fmap_2.
Qed.

Lemma restore_created m m0 file :
  map_Forall (λ k c, is_u64 k ∧ is_u64 c) (migrationMap m) → CreateCheckpoint true m = Some file → migrationMap m0 = ∅ →
  migrationMap (RestoreCheckpoint (Some file) m0) = migrationMap m.
Proof.
  intros Hu [= <-] E0. cbn [RestoreCheckpoint]. fields. rewrite E0.
  assert (entries (migrationMap m) ≡ₚ map_to_list (migrationMap m)) as Hp by apply merge_sort_Permutation.
  assert (∀ l, length (concat ((λ e, bytes64 e.1 ++ bytes64 e.2) <$> l)) = 16 * length l)%nat as Hlen.
  { induction l as [|e l IH]; [done|]. cbn [fmap list_fmap concat length]. rewrite length_app, IH. rewrite length_app, !bytes64_length. lia. }
  rewrite Hlen, (Nat.mul_comm 16), Nat.div_mul by done.
  rewrite <- (app_nil_r (concat _)), restore_encoded, restored_entries.
  - rewrite (right_id_L ∅ (∪)). trans (list_to_map (map_to_list (migrationMap m)) : gmap Z Z); [|apply list_to_map_to_list].
    apply list_to_map_proper; [|done]. rewrite Hp. apply NoDup_fst_map_to_list.
  - rewrite Hp. apply NoDup_fst_map_to_list.
  - intros e _. apply lookup_empty.
  - rewrite Hp. apply map_Forall_to_list in Hu. eapply Forall_impl; [exact Hu|]. by intros [k c].
Qed.

(** C36. Checkpoints: what a decoder writes to a checkpoint, a fresh one reads back
    exactly. But only the map comes back and not the states, so the restored
    decoder translates every address as if no page had been moved. *)
Theorem checkpoint_roundtrip at_ u m file :
  map_Forall (λ k c, is_u64 k ∧ is_u64 c) (migrationMap m) → CreateCheckpoint true m = Some file →
  let m' := RestoreCheckpoint (Some file) (Migrator_new at_ u) in
  migrationMap m' = migrationMap m ∧
  ∀ x out v m2, Translate x out m' = Ok (v, m2) → ∃ t, Translation.Translate x out at_ = Ok (v, t).
Proof.
  intros Hu Hc m'. split; [eapply restore_created; [done..|]; by destruct u as [[[? ?] ?] ?]|].
  intros x out v m2 (w & t & Ew & -> & _)%Translate_redirects. exists t.
  replace (redirect m' w) with w; [by destruct u as [[[? ?] ?] ?]|].
  unfold redirect, known_state. assert (migrationState m' = ∅) as -> by (by destruct u as [[[? ?] ?] ?]).
  rewrite !lookup_empty. by repeat case_match.
Qed.

(** ** Witnesses

    Two channels of two ranks, eight banks, and 64 subarrays. *)
Module MigratorBench.
Definition fresh : Migrator := Migrator_new example_translator (2, 8, 2, 64).
Definition place (r ch : Z) : NVMAddress := SetTranslatedAddress r 0 1 0 ch 7 (NVMAddress_new 0).
Definition get (r : res Migrator) : Migrator := match r with Ok m => m | Err _ => fresh end.
(** An atomic migration, as CoinMigrator makes it. *)
Definition exchange (p d : NVMAddress) (m : Migrator) : res Migrator :=
  m ← StartMigration p d m;
  m ← SetMigrationState p MIGRATION_DONE m;
  SetMigrationState d MIGRATION_DONE m.
Definition started : Migrator := get (StartMigration (place 466 1) (place 466 0) fresh).
Definition halfway : Migrator := get (SetMigrationState (place 466 1) MIGRATION_DONE started).
Definition exchanged : Migrator := get (SetMigrationState (place 466 0) MIGRATION_DONE halfway).
Definition fields_at (ch : Z) : six := mkSix 466 115 1 0 ch 7.
Definition address_of (v : six) : Z := match ReverseTranslate v example_translator with Ok (a, _) => a | Err _ => 0 end.
Definition moved (v : six) (m : Migrator) : res six := '(v, _) ← Translate (address_of v) v m; Ok v.
End MigratorBench.
Import MigratorBench.

#[export] Instance fits_dec m a : Decision (fits m a).
Proof.
  refine (cast_if (decide (0 ≤ row a ∧ 0 ≤ bank a < numBanks m ∧ 0 ≤ rank a < numRanks m ∧
    0 ≤ subarray a < numSubarrays m ∧ 0 ≤ channel a < numChannels m ∧ key_number m a < 2 ^ 64))).
  - abstract (destruct_and?; by split).
  - abstract (intros []; tauto).
Defined.

(** The two pages really change places. *)
Example exchange_moves : moved (fields_at 1) exchanged = Ok (fields_at 0) ∧ moved (fields_at 0) exchanged = Ok (fields_at 1).
Proof. split; vm_compute; reflexivity. Qed.

(** Pages of different rows: only the channel is exchanged, so row 466 of channel 1
    lands on row 466 of channel 0, which belongs to another page that has not
    moved. *)
Example rows_collide : ∃ m, exchange (place 466 1) (place 3 0) fresh = Ok m ∧
  moved (fields_at 1) m = Ok (fields_at 0) ∧ moved (fields_at 0) m = Ok (fields_at 0).
Proof. eexists. split; [vm_compute; reflexivity|]. split; vm_compute; reflexivity. Qed.

Lemma migration_permutes_witness : ∃ mx my tx ty, mkSix 466 115 1 0 1 7 = mkSix 466 115 1 0 1 7 ∧
  Translate (address_of (fields_at 1)) (fields_at 1) exchanged = Ok (fields_at 0, mx) ∧
  Translate (address_of (fields_at 1) + 1) (fields_at 1) exchanged = Ok (fields_at 0, my) ∧
  Translation.Translate (address_of (fields_at 1)) (fields_at 1) (base exchanged) = Ok (fields_at 1, tx) ∧
  Translation.Translate (address_of (fields_at 1) + 1) (fields_at 1) (base exchanged) = Ok (fields_at 1, ty).
Proof.
  do 4 eexists. split; [|split_and!; vm_compute; reflexivity].
  eapply (migration_permutes example_translator (2, 8, 2, 64) exchanged
    (address_of (fields_at 1)) (address_of (fields_at 1) + 1) (fields_at 1) (fields_at 1));
    [|vm_compute; reflexivity..|by_decide|by_decide|reflexivity].
  apply rtc_l with started.
  { apply step_start with (p := place 466 1) (d := place 466 0); [by_decide|by_decide|vm_compute; by split_and!|vm_compute; reflexivity..]. }
  apply rtc_l with halfway.
  { apply step_set with (a := place 466 1) (s := MIGRATION_DONE); [vm_compute; reflexivity|left; vm_compute; reflexivity|vm_compute; reflexivity..]. }
  apply rtc_once, step_set with (a := place 466 0) (s := MIGRATION_DONE); [vm_compute; reflexivity|right; vm_compute; reflexivity|vm_compute; reflexivity..].
Defined.

Lemma checkpoint_roundtrip_witness : ∃ file,
  CreateCheckpoint true exchanged = Some file ∧
  migrationMap (RestoreCheckpoint (Some file) fresh) = migrationMap exchanged ∧
  migrationState exchanged !! GetAddressKey exchanged (place 466 1) = Some MIGRATION_DONE ∧
  moved (fields_at 1) (RestoreCheckpoint (Some file) fresh) = Ok (fields_at 1).
Proof.
  eexists. split; [vm_compute; reflexivity|]. split; [|split; vm_compute; reflexivity].
  refine (proj1 (checkpoint_roundtrip example_translator (2, 8, 2, 64) exchanged _ _ _)); [|vm_compute; reflexivity].
  apply map_Forall_to_list. by_decide.
Defined.
