(* ===== verification/DRCDecoder.v ===== *)
(** * The DRAM cache's decoder

    NVmain/Decoders/DRCDecoder: an address translator for DRAM caches. The column
    is always lowest and the row always highest; bank, rank and channel keep the
    order of the translation method, and there are no subarrays. *)

From S2P Require Import Prelude NVMTypes Translation.

Module DRC.
(** [base] is the part inherited from AddressTranslator. *)
(*| NVmain/Decoders/DRCDecoder/DRCDecoder.h 41-64 DRCDecoder *)
Record DRCDecoder := mkDRCDecoder {
  base : AddressTranslator;
  ignoreBits : Z;
  cachelineSize : Z
}.
#[export] Instance eta_DRCDecoder : Settable DRCDecoder := fields! mkDRCDecoder < base; ignoreBits; cachelineSize >.

(*| NVmain/Decoders/DRCDecoder/DRCDecoder.cpp 41-47 DRCDecoder::DRCDecoder *)
Definition DRCDecoder_new : DRCDecoder := mkDRCDecoder AddressTranslator_new 0 64.
(*| NVmain/Decoders/DRCDecoder/DRCDecoder.cpp 49-52 DRCDecoder::SetIgnoreBits *)
Definition SetIgnoreBits (numIgnore : Z) (d : DRCDecoder) := d <| ignoreBits := numIgnore |>.
(*| NVmain/Decoders/DRCDecoder/DRCDecoder.cpp 54-57 DRCDecoder::SetCachelineSize *)
Definition SetCachelineSize (lineSize : Z) (d : DRCDecoder) := d <| cachelineSize := lineSize |>.

(** [1 << n], an int. *)
Definition int_bit (n : Z) : res Z := if (0 <=? n) && (n <? 32) then Ok (s32 (2 ^ n)) else Err BadShift.

(** [*part = workingAddr % (1 << partBits); workingAddr = workingAddr >> partBits]:
    the int is converted to 64 bits. *)
(*| NVmain/Decoders/DRCDecoder/DRCDecoder.cpp 82-83 DRCDecoder::Translate *)
Definition take_field (m : TranslationMethod) (st : six * Z) (part : MemoryPartition) : res (six * Z) :=
  let '(out, workingAddr) := st in
  bits ← six_get part (GetBitWidths m);
  size ← int_bit bits;
  out ← six_set part (workingAddr mod u64 size) out;
  workingAddr ← shr64 workingAddr bits;
  Ok (out, workingAddr).

(** The order in which bank, rank and channel are decoded. *)
(*| NVmain/Decoders/DRCDecoder/DRCDecoder.cpp 89-155 DRCDecoder::Translate *)
Definition decode_order (m : TranslationMethod) : list MemoryPartition :=
  let o := GetOrder m in
  if (s_channel o <? s_rank o) && (s_channel o <? s_bank o) then
    if s_rank o <? s_bank o then [MEM_CHANNEL; MEM_RANK; MEM_BANK] else [MEM_CHANNEL; MEM_BANK; MEM_RANK]
  else if (s_rank o <? s_channel o) && (s_rank o <? s_bank o) then
    if s_channel o <? s_bank o then [MEM_RANK; MEM_CHANNEL; MEM_BANK] else [MEM_RANK; MEM_BANK; MEM_CHANNEL]
  else
    if s_channel o <? s_rank o then [MEM_BANK; MEM_CHANNEL; MEM_RANK] else [MEM_BANK; MEM_RANK; MEM_CHANNEL].

(** [out]: what the result pointers hold before the call. Without a method the
    null pointer is called. *)
(*| NVmain/Decoders/DRCDecoder/DRCDecoder.cpp 59-160 DRCDecoder::Translate *)
Definition Translate (address : Z) (out : six) (d : DRCDecoder) : res six :=
  m ← deref NullDeref (GetTranslationMethod (base d));
  lineBits ← mlog2 (s32 (cachelineSize d));
  workingAddr ← shr64 address lineBits;
  workingAddr ← (if ignoreBits d =? 0 then Ok workingAddr else shr64 workingAddr (ignoreBits d));
  '(out, workingAddr) ← take_field m (out, workingAddr) MEM_COL;
  out ← six_set MEM_SUBARRAY 0 out;
  st ← foldM (take_field m) (out, workingAddr) (decode_order m);
  '(out, _) ← take_field m st MEM_ROW;
  Ok out.

(** One iteration of the loop of [ReverseTranslate]. *)
(*| NVmain/Decoders/DRCDecoder/DRCDecoder.cpp 197-222 DRCDecoder::ReverseTranslate *)
Definition reverse_step (m : TranslationMethod) (v : six) (st : Z * Z) (i : Z) : Z * Z :=
  let '(phyAddr, unitAddr) := st in
  match FindOrder m i with
  | MEM_BANK => (phyAddr ⊕ s_bank v ⊗ unitAddr, unitAddr ⊗ s_bank (GetCount m))
  | MEM_RANK => (phyAddr ⊕ s_rank v ⊗ unitAddr, unitAddr ⊗ s_rank (GetCount m))
  | MEM_CHANNEL => (phyAddr ⊕ s_channel v ⊗ unitAddr, unitAddr ⊗ s_channel (GetCount m))
  | _ => (phyAddr, unitAddr)
  end.

(** Without a method the program exits. *)
(*| NVmain/Decoders/DRCDecoder/DRCDecoder.cpp 162-228 DRCDecoder::ReverseTranslate *)
Definition ReverseTranslate (v : six) (d : DRCDecoder) : res Z :=
  m ← deref ExitCall (GetTranslationMethod (base d));
  ignored ← int_bit (ignoreBits d);
  let '(phyAddr, unitAddr) :=
    foldl (reverse_step m v) (0, 1 ⊗ cachelineSize d ⊗ u64 ignored) [0; 1; 2; 3; 4; 5] in
  Ok (phyAddr ⊕ s_row v ⊗ unitAddr).
End DRC.
Import DRC.

(** ** The order of the fields *)

(** Bank, rank and channel in the order of the method. *)
Definition inner (p : MemoryPartition) : Prop :=
  match p with MEM_BANK | MEM_RANK | MEM_CHANNEL => True | _ => False end.
#[export] Instance inner_dec p : Decision (inner p).
Proof. destruct p; cbn; apply _. Defined.
Lemma inner_spec p : inner p ↔ p ∈ [MEM_BANK; MEM_RANK; MEM_CHANNEL].
Proof. rewrite !elem_of_cons, elem_of_nil. destruct p; cbn; naive_solver. Qed.

Lemma StronglySorted_filter {A} (R : relation A) (P : A → Prop) `{∀ x, Decision (P x)} l :
  StronglySorted R l → StronglySorted R (filter P l).
Proof.
  intros Hs. induction Hs as [|x l Hs IH Hx]; [constructor|]. rewrite filter_cons. case_decide; [|done].
  constructor; [done|]. rewrite Forall_forall in Hx |- *. intros y [_ Hy]%list_elem_of_filter. auto.
Qed.

Section Method.
Context (m : TranslationMethod) (Hm : method_ok m).

Definition before (p q : MemoryPartition) : Prop := digit (order m) p < digit (order m) q.

Lemma order_FindOrder i : 0 ≤ i < 6 → digit (order m) (FindOrder m i) = i.
Proof using Hm.
  intros Hi. assert (i ∈ orders m) as Hin.
  { destruct Hm as (Hnd & Hr & _). rewrite Forall_forall in Hr.
    assert (orders m ≡ₚ [0; 1; 2; 3; 4; 5]) as ->; [|set_unfold; lia].
    apply submseteq_length_Permutation; [|reflexivity].
    apply NoDup_submseteq; [done|]. intros o Ho. specialize (Hr o Ho). set_unfold. lia. }
  apply list_elem_of_fmap in Hin as (p & -> & Hp). by rewrite FindOrder_order.
Qed.

Lemma layout_sorted : StronglySorted before (layout m).
Proof using Hm.
  assert (∀ l, (∀ i, i ∈ l → 0 ≤ i < 6) → StronglySorted Z.lt l → StronglySorted before (FindOrder m <$> l)) as Hs.
  { intros l Hl Hs. induction Hs as [|i l Hs IH Hi]; [constructor|]. cbn. constructor; [apply IH; set_solver|].
    apply Forall_fmap. rewrite Forall_forall in Hi |- *. intros j Hj. cbn. unfold before.
    rewrite !order_FindOrder by (apply Hl; set_solver). auto. }
  apply Hs; [set_unfold; lia|]. repeat constructor; lia.
Qed.

Lemma decode_order_layout : decode_order m = filter inner (layout m).
Proof using Hm.
  assert (NoDup (orders m)) as Hnd by apply Hm.
  apply (StronglySorted_unique_strong before).
  - unfold before. lia.
  - assert (s_bank (order m) ≠ s_rank (order m) ∧ s_bank (order m) ≠ s_channel (order m) ∧
      s_rank (order m) ≠ s_channel (order m)) as (? & ? & ?).
    { revert Hnd. unfold orders. cbn. rewrite !NoDup_cons. set_unfold. intuition congruence. }
    clear Hm Hnd. unfold decode_order, GetOrder, before.
    repeat case_match; b2p; repeat constructor; cbn; lia.
  - apply StronglySorted_filter, layout_sorted.
  - rewrite (layout_perm m Hm). change (filter inner partitions) with [MEM_BANK; MEM_RANK; MEM_CHANNEL].
    unfold decode_order. repeat case_match; solve_Permutation.
Qed.
End Method.

(** ** The digits of an address *)

Lemma int_bit_pow n : 0 ≤ n < 31 → int_bit n = Ok (2 ^ n) ∧ u64 (2 ^ n) = 2 ^ n ∧ 0 < 2 ^ n.
Proof.
  intros Hn. assert (0 < 2 ^ n) by (apply Z.pow_pos_nonneg; lia).
  assert (2 ^ n < 2 ^ 31) by (apply Z.pow_lt_mono_r; lia).
  split; [|split; [apply u64_small; unfold is_u64; lia|done]].
  unfold int_bit. rewrite (proj2 (Z.leb_le 0 n)), (proj2 (Z.ltb_lt n 32)) by lia. cbn. f_equal.
  unfold s32. cbv zeta. rewrite Z.mod_small by lia. by rewrite (proj2 (Z.ltb_lt _ _)) by lia.
Qed.

(** The fields a decoder takes and their sizes: at most 30 bits each, since the
    sizes are ints. *)
Definition narrow (m : TranslationMethod) : Prop :=
  method_ok m ∧ Forall (λ p, digit (bitWidths m) p < 31) partitions.
#[export] Instance narrow_dec m : Decision (narrow m).
Proof. unfold narrow. apply _. Defined.

Section Digits.
Context (m : TranslationMethod) (Hn : narrow m).

Lemma narrow_width p : p ∈ partitions → 0 ≤ digit (bitWidths m) p < 31.
Proof using Hn.
  intros Hp. destruct Hn as [(_ & _ & Hw) Hw']. rewrite Forall_forall in Hw, Hw'.
  specialize (Hw p Hp). specialize (Hw' p Hp). lia.
Qed.

Lemma take_field_step st p : p ∈ partitions → take_field m st p = translate_step m st (digit (order m) p).
Proof using Hn.
  intros Hp. destruct st as [out x]. pose proof (narrow_width p Hp) as Hw. destruct (int_bit_pow _ Hw) as (Hb & Hu & _).
  unfold take_field, translate_step, GetBitWidths. rewrite FindOrder_order by (done || apply Hn).
  rewrite (six_get_digit p) by done. cbn [mbind res_bind]. rewrite Hb. cbn [mbind res_bind].
  rewrite Hu, Modulo_digit by (done || lia). cbn [mbind res_bind].
  destruct (six_set_digit p (x mod 2 ^ digit (bitWidths m) p) out Hp) as (o & -> & _). cbn [mbind res_bind].
  by rewrite Divide_digit, shr64_ok by (done || lia).
Qed.

(** Taking the fields [ps] of a number that begins with them. *)
Lemma take_fields ps v out x : ps ⊆ partitions → NoDup ps → fields_fit m v →
  ∃ out', foldM (take_field m) (out, encode m v ps + x * 2 ^ widths m ps) ps = Ok (out', x) ∧
    ∀ q, digit out' q = if decide (q ∈ ps) then digit v q else digit out q.
Proof using Hn.
  intros Hsub Hnd Hv. unfold fields_fit in Hv. rewrite Forall_forall in Hv.
  assert (FindOrder m <$> (digit (order m) <$> ps) = ps) as Eps.
  { clear -Hn Hsub. induction ps as [|p ps IH]; [done|]. cbn. f_equal; [|apply IH; set_solver].
    apply FindOrder_order; [apply Hn|set_solver]. }
  assert (∀ st l, l ⊆ partitions → foldM (take_field m) st l = foldM (translate_step m) st (digit (order m) <$> l)) as E.
  { intros st l. revert st. induction l as [|p l IH]; intros st Hl; [done|]. cbn [foldM fmap list_fmap].
    rewrite take_field_step by set_solver. destruct (translate_step _ _ _); [|done]. cbn. apply IH. set_solver. }
  rewrite E by done.
  destruct (translate_loop m v (digit (order m) <$> ps) out x) as (o & Ho & Hd); rewrite ?Eps in *; [..|by exists o]; try done.
  all: intros i (p & -> & Hp)%list_elem_of_fmap; rewrite FindOrder_order by (apply Hn || set_solver).
  - split; [set_solver|]. pose proof (narrow_width p (Hsub _ Hp)). lia.
  - apply Hv. set_solver.
Qed.

(** The inverse loop multiplies by the counts. *)
Lemma reverse_loop_encode v l k phy :
  (∀ p, inner p → digit (count m) p = 2 ^ digit (bitWidths m) p) → fields_fit m v →
  let ps := filter inner (FindOrder m <$> l) in
  0 ≤ k → k + widths m ps ≤ 64 → 0 ≤ phy < 2 ^ k →
  foldl (reverse_step m v) (phy, u64 (2 ^ k)) l = (phy + 2 ^ k * encode m v ps, u64 (2 ^ (k + widths m ps))).
Proof using Hn.
  intros Hc Hv. unfold fields_fit in Hv. rewrite Forall_forall in Hv. revert k phy.
  induction l as [|i l IH]; intros k phy; cbv zeta; [cbn; intros; by rewrite Z.mul_0_r, !Z.add_0_r|].
  cbn [fmap list_fmap foldl]. rewrite filter_cons. set (p := FindOrder m i).
  destruct (decide (inner p)) as [Hp|Hp].
  2:{ intros Hk Hs Hphy. assert (reverse_step m v (phy, u64 (2 ^ k)) i = (phy, u64 (2 ^ k))) as ->; [|by apply IH].
      unfold reverse_step. fold p. destruct p; done. }
  cbn [encode widths foldr]. fold (widths m (filter inner (FindOrder m <$> l))). set (W := widths m _).
  assert (p ∈ partitions) as Hpp by (apply inner_spec in Hp; set_solver).
  assert (0 ≤ W) as HW.
  { apply widths_nonneg. intros q [Hq _]%list_elem_of_filter. apply narrow_width. apply inner_spec in Hq. set_solver. }
  pose proof (narrow_width p Hpp) as Hw. pose proof (Hv p Hpp) as Hd. set (w := digit (bitWidths m) p) in *.
  intros Hk Hs Hphy. assert (2 ^ (k + w) ≤ 2 ^ 64) by (apply Z.pow_le_mono_r; lia).
  assert (0 < 2 ^ k) by (apply Z.pow_pos_nonneg; lia).
  assert (reverse_step m v (phy, u64 (2 ^ k)) i = (phy + 2 ^ k * digit v p, u64 (2 ^ (k + w)))) as ->.
  { trans (phy ⊕ digit v p ⊗ u64 (2 ^ k), u64 (2 ^ k) ⊗ digit (count m) p).
    { unfold reverse_step, GetCount. fold p. apply inner_spec in Hp. set_unfold in Hp. by destruct_or? Hp; rewrite !Hp. }
    rewrite Hc by done. fold w. rewrite Z.pow_add_r in * by lia. f_equal.
    - rewrite u64_mul_r, (Z.add_comm phy), u64_add_l, Z.add_comm, (Z.mul_comm (digit v p)). apply u64_small. unfold is_u64. nia.
    - apply u64_mul_l. }
  rewrite IH; [|lia|fold W; lia|rewrite Z.pow_add_r by lia; nia].
  fold W. f_equal; [rewrite Z.pow_add_r by lia; ring|by rewrite Z.add_assoc].
Qed.
Lemma decode_order_known p : p ∈ decode_order m → inner p ∧ p ∈ partitions.
Proof using Hn.
  rewrite decode_order_layout by apply Hn. intros [Hp _]%list_elem_of_filter. split; [done|]. apply inner_spec in Hp. set_solver.
Qed.
Lemma decode_order_NoDup : NoDup (decode_order m).
Proof using Hn. rewrite decode_order_layout by apply Hn. apply NoDup_filter, layout_NoDup, Hn. Qed.
Lemma inner_decode_order p : inner p → p ∈ decode_order m.
Proof using Hn.
  intros Hp. rewrite decode_order_layout by apply Hn. apply list_elem_of_filter. split; [done|].
  rewrite layout_perm by apply Hn. apply inner_spec in Hp. set_solver.
Qed.
End Digits.

Lemma widths_app m ps qs : widths m (ps ++ qs) = widths m ps + widths m qs.
Proof. induction ps as [|p ps IH]; cbn; [done|]. unfold widths in *. rewrite IH. lia. Qed.
Lemma encode_app m v ps qs : (∀ p, p ∈ ps → 0 ≤ digit (bitWidths m) p) →
  encode m v (ps ++ qs) = encode m v ps + 2 ^ widths m ps * encode m v qs.
Proof.
  induction ps as [|p ps IH]; intros Hw; [cbn [encode widths foldr app]; ring|]. cbn [encode app widths foldr]. fold (widths m ps).
  rewrite IH by set_solver. pose proof (Hw p ltac:(set_solver)).
  rewrite Z.pow_add_r by (done || apply widths_nonneg; set_solver). ring.
Qed.

(** ** Both directions

    A decoder whose line size is a power of two. *)
Section Decoder.
Context (d : DRCDecoder) (m : TranslationMethod) (line : Z).
Hypothesis (Hmethod : method (base d) = Some m) (Hn : narrow m) (Hline : 0 ≤ line < 31) (Hi : 0 ≤ ignoreBits d < 31)
  (Hsize : cachelineSize d = 2 ^ line).

#[local] Abbreviation low := (line + ignoreBits d).

Lemma line_bits : mlog2 (s32 (cachelineSize d)) = Ok line.
Proof using Hline Hsize.
  destruct (int_bit_pow line Hline) as (Hb & _ & Hp). unfold int_bit in Hb.
  rewrite (proj2 (Z.leb_le 0 line)), (proj2 (Z.ltb_lt line 32)) in Hb by lia. cbn in Hb. injection Hb as Hb.
  rewrite Hsize, Hb, mlog2_log2, Z.log2_pow2 by lia. destruct (Z.ltb_spec (2 ^ line) 2) as [Hl|]; [|done].
  destruct (Z.eq_dec line 0) as [->|]; [done|]. assert (2 ^ 1 ≤ 2 ^ line) by (apply Z.pow_le_mono_r; lia). lia.
Qed.

Lemma drc_translate_encode v x r out : fields_fit m v → s_subarray v = 0 → 0 ≤ r < 2 ^ low →
  let ps := MEM_COL :: decode_order m ++ [MEM_ROW] in
  Translate (2 ^ low * (encode m v ps + x * 2 ^ widths m ps) + r) out d = Ok v.
Proof using Hmethod Hn Hline Hi Hsize.
  intros Hv Hsub Hr ps. set (y := encode m v ps + x * 2 ^ widths m ps).
  assert (y = encode m v [MEM_COL] + (encode m v (decode_order m) + (encode m v [MEM_ROW] + x * 2 ^ widths m [MEM_ROW])
    * 2 ^ widths m (decode_order m)) * 2 ^ widths m [MEM_COL]) as Ey.
  { assert (∀ p, p ∈ partitions → 0 ≤ digit (bitWidths m) p) as Hw by (intros p Hp; by apply narrow_width).
    assert (∀ p, p ∈ decode_order m → 0 ≤ digit (bitWidths m) p) as Hw' by (intros p [_ Hp]%(decode_order_known m Hn); auto).
    unfold y, ps. change (MEM_COL :: decode_order m ++ [MEM_ROW]) with ([MEM_COL] ++ decode_order m ++ [MEM_ROW]).
    rewrite !encode_app, !widths_app by (done || (intros p Hp; apply Hw; set_solver)).
    assert (0 ≤ widths m [MEM_COL] ∧ 0 ≤ widths m (decode_order m) ∧ 0 ≤ widths m [MEM_ROW]) as (? & ? & ?).
    { split_and!; apply widths_nonneg; try done; intros p Hp; apply Hw; set_solver. }
    rewrite !Z.pow_add_r by lia. ring. }
  unfold Translate, GetTranslationMethod. rewrite Hmethod, line_bits. cbn [deref mbind res_bind].
  rewrite shr64_ok by lia. cbn [mbind res_bind].
  assert ((if ignoreBits d =? 0 then Ok ((2 ^ low * y + r) / 2 ^ line) else shr64 ((2 ^ low * y + r) / 2 ^ line) (ignoreBits d)) = Ok y) as ->.
  { trans (Ok ((2 ^ low * y + r) / 2 ^ line / 2 ^ ignoreBits d)).
    { case_match eqn:Ei; [|apply shr64_ok; lia]. apply Z.eqb_eq in Ei. by rewrite Ei, Z.div_1_r. }
    rewrite Z.div_div, <- Z.pow_add_r by (apply Z.pow_pos_nonneg || apply Z.pow_nonzero || idtac; lia).
    rewrite Z.mul_comm, Z.div_add_l, (Z.div_small r) by lia. by rewrite Z.add_0_r. }
  cbn [mbind res_bind]. rewrite Ey. set (z2 := encode m v [MEM_ROW] + x * 2 ^ widths m [MEM_ROW]) in *.
  set (z1 := encode m v (decode_order m) + z2 * 2 ^ widths m (decode_order m)) in *.
  destruct (take_fields m Hn [MEM_COL] v out z1) as (o1 & E1 & D1);
    [set_solver|repeat constructor; set_solver|done|].
  cbn [foldM] in E1. destruct (take_field m _ MEM_COL) as [st1|]; [|done]. injection E1 as ->. cbn [mbind res_bind].
  destruct (six_set_digit MEM_SUBARRAY 0 o1) as (o2 & -> & D2); [set_solver|]. cbn [mbind res_bind].
  destruct (take_fields m Hn (decode_order m) v o2 z2) as (o3 & E3 & D3);
    [by intros p [_ Hp]%(decode_order_known m Hn)|apply (decode_order_NoDup m Hn)|done|]. fold z1 in E3. rewrite E3. cbn [mbind res_bind].
  destruct (take_fields m Hn [MEM_ROW] v o3 x) as (o4 & E4 & D4); [set_solver|repeat constructor; set_solver|done|].
  cbn [foldM] in E4. destruct (take_field m _ MEM_ROW) as [st4|]; [|done]. injection E4 as ->. cbn [mbind res_bind].
  f_equal. apply six_ext. intros p Hp. rewrite D4, D3, D2, D1.
  pose proof (inner_decode_order m Hn p) as Hin. unfold inner in Hin.
  set_unfold in Hp. destruct_or? Hp; subst p; repeat case_decide; try done; try set_solver.
Qed.

Lemma drc_reverse_encode v :
  (∀ p, inner p → digit (count m) p = 2 ^ digit (bitWidths m) p) → fields_fit m v →
  low + widths m (decode_order m ++ [MEM_ROW]) ≤ 64 →
  ReverseTranslate v d = Ok (2 ^ low * encode m v (decode_order m ++ [MEM_ROW])).
Proof using Hmethod Hn Hline Hi Hsize.
  intros Hc Hv Hs. unfold ReverseTranslate, GetTranslationMethod. rewrite Hmethod. cbn [deref mbind res_bind].
  destruct (int_bit_pow _ Hi) as (-> & Hu & _). cbn [mbind res_bind]. rewrite Hu, Hsize.
  assert (1 ⊗ 2 ^ line ⊗ 2 ^ ignoreBits d = u64 (2 ^ low)) as ->.
  { rewrite u64_mul_l, Z.mul_1_l. by rewrite Z.pow_add_r by lia. }
  assert (0 < 2 ^ low) by (apply Z.pow_pos_nonneg; lia).
  assert (∀ p, p ∈ partitions → 0 ≤ digit (bitWidths m) p) as Hw by (intros p Hp; by apply narrow_width).
  assert (∀ p, p ∈ decode_order m → 0 ≤ digit (bitWidths m) p) as Hw' by (intros p [_ Hp]%(decode_order_known m Hn); auto).
  assert (0 ≤ widths m (decode_order m)) by by apply widths_nonneg.
  rewrite widths_app in Hs. pose proof (Hw MEM_ROW ltac:(set_solver)) as Hrow.
  unfold fields_fit in Hv. pose proof Hv as Hv'. rewrite Forall_forall in Hv'. pose proof (Hv' MEM_ROW ltac:(set_solver)) as Hd.
  assert (0 ≤ encode m v (decode_order m) < 2 ^ widths m (decode_order m)) as He.
  { apply encode_bound. intros p [_ Hp]%(decode_order_known m Hn). auto. }
  cbn [widths foldr] in Hs. rewrite (reverse_loop_encode m Hn); [|done|done|lia| |lia].
  all: change (FindOrder m <$> [0; 1; 2; 3; 4; 5]) with (layout m); rewrite <- decode_order_layout by apply Hn.
  2: lia.
  f_equal. rewrite encode_app by done. cbn [encode digit six_get] in *. rewrite Z.mul_0_r, !Z.add_0_r, Z.add_0_l.
  rewrite u64_mul_r, (Z.add_comm (2 ^ low * _)), u64_add_l, u64_small.
  - rewrite Z.pow_add_r by (lia). ring.
  - assert (2 ^ (low + widths m (decode_order m) + s_row (bitWidths m)) ≤ 2 ^ 64) as Hp by (apply Z.pow_le_mono_r; lia).
    clear -Hp He Hd H Hrow H0 Hline Hi. set (W := widths m (decode_order m)) in *. set (R := s_row (bitWidths m)) in *.
    assert (2 ^ (low + W + R) = 2 ^ low * 2 ^ W * 2 ^ R) as E by (rewrite !(Z.pow_add_r _ _) by lia; ring).
    rewrite E in Hp. unfold is_u64. rewrite (Z.pow_add_r 2 low W) by lia. set (L := 2 ^ low) in *.
    set (e := encode m v (decode_order m)) in *. set (PW := 2 ^ W) in *. set (PR := 2 ^ R) in *.
    assert (0 ≤ e + s_row v * PW < PW * PR) as [H1 H2] by nia.
    assert (L * (e + s_row v * PW) < L * (PW * PR)) by (by apply Z.mul_lt_mono_pos_l). nia.
Qed.
End Decoder.

(** C37. The DRAM cache's addresses: without column bits, [ReverseTranslate]
    succeeds on all fields in range and every byte of the line (and of the lines
    ignored with it) at that address is translated back to the fields; for every
    order of the partitions. *)
Theorem drc_roundtrip d m line v :
  method (base d) = Some m → narrow m → 0 ≤ line < 31 → 0 ≤ ignoreBits d < 31 → cachelineSize d = 2 ^ line →
  (∀ p, inner p → digit (count m) p = 2 ^ digit (bitWidths m) p) → s_col (bitWidths m) = 0 →
  fields_fit m v → s_subarray v = 0 → line + ignoreBits d + widths m (decode_order m ++ [MEM_ROW]) ≤ 64 →
  ∃ a, ReverseTranslate v d = Ok a ∧
    ∀ r out, 0 ≤ r < 2 ^ (line + ignoreBits d) → Translate (a + r) out d = Ok v.
Proof.
  intros Hmethod Hn Hline Hi Hsize Hc Hcol Hv Hsub Hs. eexists. split; [by apply (drc_reverse_encode d m line Hmethod Hn Hline Hi Hsize)|].
  intros r out Hr. rewrite <- (drc_translate_encode d m line Hmethod Hn Hline Hi Hsize v 0 r out Hv Hsub Hr).
  do 3 f_equal. rewrite Z.mul_0_l, Z.add_0_r. change (bitWidths m) with (GetBitWidths m) in Hcol.
  assert (0 ≤ s_col v < 2 ^ s_col (bitWidths m)) as Hv'.
  { unfold fields_fit in Hv. rewrite Forall_forall in Hv. refine (Hv MEM_COL _). right. left. }
  unfold GetBitWidths in Hcol. rewrite Hcol in Hv'. cbn [encode digit six_get]. rewrite Hcol. lia.
Qed.

(** ** Witnesses

    A DRAM cache of 1024 rows, eight banks, two ranks and two channels, whose
    channel is lowest. *)
Module DRCBench.
Definition method_with (colBits : Z) : TranslationMethod :=
  mkTranslationMethod (mkSix 10 colBits 3 1 1 0) (mkSix 1024 (2 ^ colBits) 8 2 2 1) (mkSix 4 0 3 2 1 5).
Definition decoder (colBits : Z) : DRCDecoder :=
  SetIgnoreBits 5 (DRCDecoder_new <| base ::= SetTranslationMethod (method_with colBits) |>).
Definition there (bank channel : Z) : six := mkSix 466 0 bank 1 channel 0.
End DRCBench.
Import DRCBench.

Lemma drc_roundtrip_witness : narrow (method_with 0) ∧ fields_fit (method_with 0) (there 5 1) ∧
  ∃ a, ReverseTranslate (there 5 1) (decoder 0) = Ok a ∧
    ∀ r out, 0 ≤ r < 2 ^ (6 + ignoreBits (decoder 0)) → Translate (a + r) out (decoder 0) = Ok (there 5 1).
Proof.
  assert (narrow (method_with 0)) as Hn by by_decide. assert (fields_fit (method_with 0) (there 5 1)) as Hf by by_decide.
  split; [exact Hn|]. split; [exact Hf|].
  apply (drc_roundtrip (decoder 0) (method_with 0) 6 (there 5 1)); [reflexivity|exact Hn|lia|change (0 ≤ 5 < 31); lia|reflexivity| |
    reflexivity|exact Hf|reflexivity|by vm_compute].
  intros p Hp. apply inner_spec in Hp. set_unfold in Hp. by destruct_or? Hp; subst p.
Defined.

(** With four column bits the inverse does not leave room for the column: the
    address it gives for bank 5 of row 466 is in bank 1 of row 29. *)
Example columns_shift : ∃ a, ReverseTranslate (there 5 1) (decoder 4) = Ok a ∧
  Translate a (there 0 0) (decoder 4) = Ok (mkSix 29 7 1 0 1 0).
Proof. eexists. split; vm_compute; reflexivity. Qed.
