(* ===== verification/TagGenerator.v ===== *)
(** * Tags

    NVmain/src/TagGenerator.cpp: numbers for names, shared by all modules of a
    system, with which they mark the requests they make. *)

From S2P Require Import Prelude.

Module Tags.
(*| NVmain/src/TagGenerator.h 47-62 TagGenerator *)
Record TagGenerator := mkTagGenerator { tagNames : gmap string Z; nextTag : Z }.
#[global] Instance eta_TagGenerator : Settable TagGenerator := fields! mkTagGenerator < tagNames; nextTag >.

(** [nextTag] is an int. *)
(*| NVmain/src/TagGenerator.cpp 53-69 TagGenerator::CreateTag *)
Definition CreateTag (name : string) (g : TagGenerator) : Z * TagGenerator :=
  match tagNames g !! name with
  | None => (nextTag g, g <| tagNames ::= <[name := nextTag g]> |> <| nextTag ::= λ n, s32 (n + 1) |>)
  | Some t => (t, g)
  end.

(** The null tag has the empty name. *)
(*| NVmain/src/TagGenerator.cpp 40-46 TagGenerator::TagGenerator *)
Definition TagGenerator_new (startId : Z) : TagGenerator := (CreateTag "" (mkTagGenerator ∅ startId)).2.

(** The names of the map in their order. *)
Definition name_le : relation (string * Z) := λ a b, String.leb a.1 b.1 = true.
#[global] Instance name_le_dec a b : Decision (name_le a b).
Proof. unfold name_le. apply _. Defined.
(*| NVmain/src/TagGenerator.cpp 71-86 TagGenerator::GetTagName *)
Definition GetTagName (tag : Z) (g : TagGenerator) : string :=
  match list_find (λ e, e.2 = tag) (merge_sort name_le (map_to_list (tagNames g))) with
  | Some (_, e) => e.1
  | None => EmptyString
  end.
(*| NVmain/src/TagGenerator.cpp 88-96 TagGenerator::GetTagId *)
Definition GetTagId (name : string) (g : TagGenerator) : Z := default 0 (tagNames g !! name).

(** The tags of several names. *)
Fixpoint CreateTags (names : list string) (g : TagGenerator) : list Z * TagGenerator :=
  match names with
  | [] => ([], g)
  | n :: names => let '(t, g) := CreateTag n g in let '(ts, g) := CreateTags names g in (t :: ts, g)
  end.
End Tags.
Import Tags.

(** ** One name, one tag *)

(** The tags given so far are the numbers from [start] on, each given once. *)
Record tags_ok (start : Z) (g : TagGenerator) : Prop := {
  tg_next : nextTag g = start + Z.of_nat (size (tagNames g));
  tg_range : ∀ n t, tagNames g !! n = Some t → start ≤ t < nextTag g;
  tg_inj : ∀ n n' t, tagNames g !! n = Some t → tagNames g !! n' = Some t → n = n'
}.

Lemma s32_small n : - 2 ^ 31 ≤ n < 2 ^ 31 → s32 n = n.
Proof.
  intros Hn. unfold s32. cbv zeta. destruct (Z.ltb_spec (n mod 4294967296) 2147483648) as [H|H];
    (destruct (Z.lt_ge_cases n 0); [rewrite <- (Z.mod_unique n 4294967296 (-1) (n + 4294967296)) in * by lia; lia|
      rewrite Z.mod_small in * by lia; lia]).
Qed.

Lemma CreateTag_ok start n (g : TagGenerator) : tags_ok start g → 0 ≤ start → nextTag g < 2 ^ 31 - 1 →
  let '(t, g') := CreateTag n g in
  tags_ok start g' ∧ tagNames g' !! n = Some t ∧ tagNames g ⊆ tagNames g' ∧ nextTag g' ≤ nextTag g + 1.
Proof.
  intros [Hn Hr Hi] Hs Hlt. unfold CreateTag. destruct (tagNames g !! n) as [t|] eqn:E.
  { split; [by split|]. split; [done|]. split; [done|lia]. }
  assert (s32 (nextTag g + 1) = nextTag g + 1) as Es by (apply s32_small; lia).
  split; [split; fields|split_and!; fields].
  - rewrite Es, map_size_insert_None by done. lia.
  - intros m t [[<- <-]|[_ Hm]]%lookup_insert_Some; [lia|]. specialize (Hr _ _ Hm). lia.
  - intros m m' t [[<- <-]|[_ Hm]]%lookup_insert_Some [[<- Ht]|[_ Hm']]%lookup_insert_Some; [done|..].
    + specialize (Hr _ _ Hm'). lia.
    + subst t. specialize (Hr _ _ Hm). lia.
    + by eapply Hi.
  - apply lookup_insert_eq.
  - by apply insert_subseteq.
  - lia.
Qed.

Lemma CreateTags_ok start names : ∀ g : TagGenerator, tags_ok start g → 0 ≤ start →
  nextTag g + Z.of_nat (length names) < 2 ^ 31 →
  let '(ts, g') := CreateTags names g in
  tags_ok start g' ∧ tagNames g ⊆ tagNames g' ∧ Forall2 (λ n t, tagNames g' !! n = Some t) names ts.
Proof.
  induction names as [|n names IH]; intros g Hg Hs Hlt; cbn [CreateTags length] in *; [done|].
  pose proof (CreateTag_ok start n g Hg Hs ltac:(lia)) as Hc. destruct (CreateTag n g) as [t g1].
  destruct Hc as (Hg1 & Ht & Hsub & Hle). specialize (IH g1 Hg1 Hs ltac:(lia)). destruct (CreateTags names g1) as [ts g2].
  destruct IH as (Hg2 & Hsub2 & Hts). split; [done|]. split; [by etransitivity|]. constructor; [|done].
  by eapply lookup_weaken.
Qed.

Lemma tags_ok_new start : 0 ≤ start < 2 ^ 31 - 1 → tags_ok start (TagGenerator_new start).
Proof.
  intros Hs. pose proof (CreateTag_ok start "" (mkTagGenerator ∅ start)) as H. unfold TagGenerator_new.
  destruct (CreateTag _ _) as [t g]. apply H; [|lia|cbn; lia]. split; cbn.
  - rewrite map_size_empty. lia.
  - intros n t'. by rewrite lookup_empty.
  - intros n n' t'. by rewrite lookup_empty.
Qed.

Lemma GetTagName_of start (g : TagGenerator) n t : tags_ok start g → tagNames g !! n = Some t → GetTagName t g = n.
Proof.
  intros [_ _ Hi] Hn. unfold GetTagName.
  assert (∀ e, e ∈ merge_sort name_le (map_to_list (tagNames g)) ↔ tagNames g !! e.1 = Some e.2) as Hm.
  { intros [m u]. rewrite merge_sort_Permutation. apply elem_of_map_to_list. }
  destruct (list_find _ _) as [[i [m u]]|] eqn:E.
  - apply list_find_Some in E as (Ei & Hu & _). cbn in Hu. subst u. apply list_elem_of_lookup_2, Hm in Ei. by eapply Hi.
  - apply list_find_None in E. rewrite Forall_forall in E. exfalso. by apply (E (n, t)); [apply Hm|].
Qed.

(** Tags identify names: the tags a new generator gives to a list of names are
    numbers of its own range, the same for the same name and different for
    different names, and from each the name is found again. *)
Theorem tags_identify start names :
  0 ≤ start → start + 1 + Z.of_nat (length names) < 2 ^ 31 →
  let '(ts, g) := CreateTags names (TagGenerator_new start) in
  length ts = length names ∧ Forall (λ t, start ≤ t) ts ∧
  (∀ i j n m t u, names !! i = Some n → names !! j = Some m → ts !! i = Some t → ts !! j = Some u → t = u ↔ n = m) ∧
  Forall2 (λ n t, GetTagName t g = n ∧ GetTagId n g = t) names ts.
Proof.
  intros Hs Hl. pose proof (tags_ok_new start ltac:(lia)) as Hn.
  assert (nextTag (TagGenerator_new start) = start + 1) as En.
  { unfold TagGenerator_new, CreateTag. cbn. apply s32_small. lia. }
  pose proof (CreateTags_ok start names _ Hn Hs ltac:(lia)) as H. destruct (CreateTags _ _) as [ts g].
  destruct H as (Hg & _ & Hts). split_and!.
  - symmetry. by eapply Forall2_length.
  - apply Forall_lookup. intros i t Ht. destruct (Forall2_lookup_r _ _ _ _ _ Hts Ht) as (n & _ & E). cbn in E. apply (tg_range _ _ Hg) in E. lia.
  - intros i j n m t u Ei Ej Et Eu. pose proof (Forall2_lookup_lr _ _ _ _ _ _ Hts Ei Et) as E1.
    pose proof (Forall2_lookup_lr _ _ _ _ _ _ Hts Ej Eu) as E2. cbn in E1, E2. split; [intros ->; by eapply (tg_inj _ _ Hg)|congruence].
  - eapply Forall2_impl; [exact Hts|]. intros n t E. cbn in E. split; [by eapply GetTagName_of|]. unfold GetTagId. by rewrite E.
Qed.

(** ** Witness *)

(** The tags of the latency optimised cache. *)
Lemma tags_identify_witness :
  let '(ts, g) := CreateTags ["DRC_MEMREAD"; "DRC_FILL"; "DRC_EVICT"; "DRC_FILL"]%string (TagGenerator_new 1000) in
  ts = [1001; 1002; 1003; 1002] ∧ length ts = 4%nat ∧ GetTagName 1003 g = "DRC_EVICT"%string.
Proof.
  pose proof (tags_identify 1000 ["DRC_MEMREAD"; "DRC_FILL"; "DRC_EVICT"; "DRC_FILL"]%string ltac:(lia) ltac:(cbn; lia)) as H.
  destruct (CreateTags _ _) as [ts g] eqn:E. destruct H as (Hl & _). revert E. vm_compute. intros [= <- <-].
  split; [reflexivity|]. split; [exact Hl|]. reflexivity.
Defined.
