(* ===== verification/LOCache.v ===== *)
(** * The latency optimised DRAM cache

    NVmain/MemControl/LO-Cache: a memory controller whose memory is a direct
    mapped cache in front of a main memory. Every request goes to the DRAM first,
    where data and tag are read together; a read that misses is asked of the main
    memory, answered, and filled into the DRAM. *)

From S2P Require Import Prelude NVMTypes Translation Config Params SimInterface Heap EventQueue Frame Tree.
From S2P Require Import MemoryController CacheBank.
Import Cache.

(** What the cache asks of the main memory behind it. *)
Record MainMemory (S : Type) := mkMainMemory {
  mm_IsIssuable : ReqPtr → ST S bool;
  mm_IssueCommand : ReqPtr → ST S bool;
  mm_EnqueuePendingMemoryRequests : ReqPtr → ST S unit
}.
Arguments mkMainMemory {S}. Arguments mm_IsIssuable {S}. Arguments mm_IssueCommand {S}.
Arguments mm_EnqueuePendingMemoryRequests {S}.

Module LO.
(** The banks of the cache by rank and bank. [drcStarvation] is the member
    [starvationThreshold], which hides the one of the base class. *)
(*| NVmain/MemControl/LO-Cache/LO-Cache.h 57-101 LO_Cache *)
Record LO_Cache := mkLO_Cache {
  base : MC.MemoryController;
  mainMemory : option ObjPtr;
  functionalCache : list (list CacheBank);
  drcStarvation : Z;
  drcQueueSize : Z;
  ranks : Z;
  banks : Z;
  drc_hits : Z;
  drc_miss : Z;
  drc_evicts : Z;
  drc_fills : Z;
  drc_dirty_evicts : Z;
  rb_hits : Z;
  rb_miss : Z;
  starvation_precharges : Z;
  perfectFills : bool;
  max_addr : Z;
  outstandingFills : gmap ReqPtr ReqPtr
}.
#[global] Instance eta_LO_Cache : Settable LO_Cache := fields! mkLO_Cache
  < base; mainMemory; functionalCache; drcStarvation; drcQueueSize; ranks; banks; drc_hits; drc_miss; drc_evicts;
    drc_fills; drc_dirty_evicts; rb_hits; rb_miss; starvation_precharges; perfectFills; max_addr; outstandingFills >.

#[global] Instance LO_controller : MC.Controller LO_Cache :=
  {| MC.ctl := base; MC.upd_ctl f b := b <| base ::= f |> |}.
#[global] Instance LO_laws : MC.ControllerLaws LO_Cache.
Proof. split; [done| |done]. intros f [] E. cbn in *. unfold upd. cbn. by rewrite E. Qed.

(** [base] is the constructed base class; [ranks] and [banks] are not written:
    [u]. *)
(*| NVmain/MemControl/LO-Cache/LO-Cache.cpp 49-82 LO_Cache::LO_Cache *)
Definition LO_Cache_new (base : MC.MemoryController) (u : Z * Z) : LO_Cache :=
  mkLO_Cache (MC.InitQueues 1 base) None [] 4 32 u.1 u.2 0 0 0 0 0 0 0 0 false 0 ∅.

(*| NVmain/MemControl/LO-Cache/LO-Cache.cpp 159-162 LO_Cache::SetMainMemory *)
Definition SetMainMemory (mm : option ObjPtr) (b : LO_Cache) : LO_Cache := b <| mainMemory := mm |>.

(** [functionalCache[rank][bank]]. *)
Definition bank_at (rank bank : Z) (b : LO_Cache) : res CacheBank :=
  l ← deref OutOfBounds (functionalCache b !! Z.to_nat rank); deref OutOfBounds (l !! Z.to_nat bank).
Definition set_bank (rank bank : Z) (x : CacheBank) (b : LO_Cache) : LO_Cache :=
  b <| functionalCache ::= alter (λ l, <[Z.to_nat bank := x]> l) (Z.to_nat rank) |>.

(** The least recently used line of the set leaves: whether it is dirty, its
    address and its data. *)
Definition evict_lru (a : NVMAddress) (c : CacheBank) : res (bool * NVMAddress * NVMDataBlock * CacheBank) :=
  '(_, victim) ← ChooseVictim a (NVMAddress_new 0) c;
  '(dirtyEvict, d, c) ← Evict victim NVMDataBlock_new c;
  Ok (dirtyEvict, victim, d, c).

Section Operations.
Context {C : Type} `{ChildOps C} `{MemoryOps C}.
Variable this : ObjPtr.
Variable out : six.
Variable parent_RequestComplete : ReqPtr → ST (Sim (Node LO_Cache C)) bool.
Variable main : MainMemory (Sim (Node LO_Cache C)).
(** The tags of the system by name. *)
Variable tagGen : string → Z.

Abbreviation st := (Sim (Node LO_Cache C)) (only parsing).

(*| NVmain/MemControl/LO-Cache/LO-Cache.h 49-49 DRC_MEMREAD *)
Definition DRC_MEMREAD : Z := tagGen "DRC_MEMREAD".
(*| NVmain/MemControl/LO-Cache/LO-Cache.h 50-50 DRC_FILL *)
Definition DRC_FILL : Z := tagGen "DRC_FILL".
(*| NVmain/MemControl/LO-Cache/LO-Cache.h 51-51 DRC_EVICT *)
Definition DRC_EVICT : Z := tagGen "DRC_EVICT".

(** A question to the bank of an address, and an operation of it. *)
Definition ask_bank {A} (a : NVMAddress) (f : CacheBank → res A) : ST st A :=
  b ← me; x ← lift (bank_at (GetRank a) (GetBank a) b); lift (f x).
Definition on_bank {A} (a : NVMAddress) (f : CacheBank → res (A * CacheBank)) : ST st A :=
  b ← me; x ← lift (bank_at (GetRank a) (GetBank a) b);
  '(v, x') ← lift (f x);
  set_me (set_bank (GetRank a) (GetBank a) x');;
  mret v.

Definition note_address (q : ReqPtr) : ST st unit :=
  r ← load_req q;
  set_me (λ b, if GetPhysicalAddress (address r) >? max_addr b then b <| max_addr := GetPhysicalAddress (address r) |> else b).

(** A line is installed at once: the victim's data stay in the block that is
    installed then. *)
(*| NVmain/MemControl/LO-Cache/LO-Cache.cpp 248-258 LO_Cache::IssueCommand *)
Definition install_at_once (a : NVMAddress) : ST st unit :=
  full ← ask_bank a (SetFull a);
  dummy ← (if (full : bool) then
    '(_, _, d) ← on_bank a (evict_lru a); set_me (λ b, b <| drc_evicts ::= λ x, x ⊕ 1 |>);; mret d
  else mret NVMDataBlock_new);
  _ ← on_bank a (Install a dummy);
  mret ().

(*| NVmain/MemControl/LO-Cache/LO-Cache.cpp 164-204 LO_Cache::IssueAtomic *)
Definition IssueAtomic (q : ReqPtr) : ST st bool :=
  note_address q;;
  r ← load_req q;
  let a := address r in
  hit ← (match type r with WRITE | WRITE_PRECHARGE => mret true | _ => ask_bank a (Present a) end);
  (if (hit : bool) then set_me (λ b, b <| drc_hits ::= λ x, x ⊕ 1 |>)
   else install_at_once a;; set_me (λ b, b <| drc_miss ::= λ x, x ⊕ 1 |> <| drc_fills ::= λ x, x ⊕ 1 |>));;
  mret true.

(*| NVmain/MemControl/LO-Cache/LO-Cache.cpp 206-218 LO_Cache::IssueFunctional *)
Definition IssueFunctional (q : ReqPtr) : ST st bool :=
  r ← load_req q;
  match type r with
  | WRITE | WRITE_PRECHARGE => mret true
  | _ => ask_bank (address r) (Present (address r))
  end.

(*| NVmain/MemControl/LO-Cache/LO-Cache.cpp 220-233 LO_Cache::IsIssuable *)
Definition IsIssuable (q : ReqPtr) : ST st (bool * option FailReasons) :=
  l ← MC.transaction_queue 0; b ← me; mret (negb (Z.of_nat (length l) >=? drcQueueSize b), None).

(*| NVmain/MemControl/LO-Cache/LO-Cache.cpp 235-271 LO_Cache::IssueCommand *)
Definition IssueCommand (q : ReqPtr) : ST st bool :=
  note_address q;;
  r ← load_req q; b ← me;
  (if perfectFills b && match type r with WRITE | WRITE_PRECHARGE => true | _ => false end then
     install_at_once (address r);;
     set_me (λ b, b <| drc_fills ::= λ x, x ⊕ 1 |>);;
     n ← now; InsertEvent_obj EventResponse this (Some q) (n ⊕ 1) 0 0
   else MC.Enqueue this out 0 q);;
  mret true.

(** ** Completion *)

(** To the main memory, now or when it has room. *)
(*| NVmain/MemControl/LO-Cache/LO-Cache.cpp 322-329 LO_Cache::RequestComplete *)
Definition send_main (memReq : ReqPtr) : ST st unit :=
  b ← me; _ ← lift (deref NullDeref (mainMemory b));
  ok ← mm_IsIssuable main memReq;
  if (ok : bool) then _ ← mm_IssueCommand main memReq; mret ()
  else mm_EnqueuePendingMemoryRequests main memReq.

(** A dirty victim is written to the main memory. *)
(*| NVmain/MemControl/LO-Cache/LO-Cache.cpp 311-332 LO_Cache::RequestComplete *)
Definition write_back (victim : NVMAddress) (vicData : NVMDataBlock) : ST st unit :=
  n ← now;
  d ← lift (NVMDataBlock_assign NVMDataBlock_new vicData);
  memReq ← new_req (MC.fresh_request <| address ::= λ a, NVMAddress_assign a victim |> <| owner := Some this |>
    <| tag := DRC_EVICT |> <| type := WRITE |> <| data := d |> <| arrivalCycle := n |>);
  send_main memReq;;
  set_me (λ b, b <| drc_dirty_evicts ::= λ x, x ⊕ 1 |>).

(** The line of a request is installed; a victim is evicted when the set is full
    and does not hold the line. *)
(*| NVmain/MemControl/LO-Cache/LO-Cache.cpp 291-302 LO_Cache::RequestComplete *)
Definition install_line (a : NVMAddress) (d : NVMDataBlock) : ST st (option (NVMAddress * NVMDataBlock)) :=
  full ← ask_bank a (SetFull a);
  evict ← (if (full : bool) then p ← ask_bank a (Present a); mret (negb p) else mret false);
  victim ← (if (evict : bool) then
    '(dirtyEvict, victim, d) ← on_bank a (evict_lru a); set_me (λ b, b <| drc_evicts ::= λ x, x ⊕ 1 |>);;
    mret (if (dirtyEvict : bool) then Some (victim, d) else None)
  else mret None);
  _ ← on_bank a (Install a d);
  mret victim.
Definition write_back_victim (victim : option (NVMAddress * NVMDataBlock)) : ST st unit :=
  match victim with Some (a, d) => write_back a d | None => mret () end.

(** A fill has been written to the DRAM. *)
(*| NVmain/MemControl/LO-Cache/LO-Cache.cpp 283-333 LO_Cache::RequestComplete *)
Definition fill_done (q : ReqPtr) : ST st unit :=
  r ← load_req q;
  victim ← install_line (address r) (data r);
  set_me (λ b, b <| drc_fills ::= λ x, x ⊕ 1 |>);;
  write_back_victim victim.

(** The main memory has answered: the data are filled in, and the request that
    missed is answered. *)
(*| NVmain/MemControl/LO-Cache/LO-Cache.cpp 337-358 LO_Cache::RequestComplete *)
Definition memread_done (q : ReqPtr) : ST st unit :=
  r ← load_req q; n ← now;
  r' ← lift (NVMainRequest_assign MC.fresh_request r);
  fillReq ← new_req (r' <| owner := Some this |> <| tag := DRC_FILL |> <| type := WRITE |> <| arrivalCycle := n |>);
  _ ← IssueCommand fillReq;
  b ← me;
  originalReq ← lift (deref AssertFail (outstandingFills b !! q));
  set_me (λ b, b <| outstandingFills ::= delete q |>);;
  _ ← parent_RequestComplete originalReq;
  mret ().

(** A write has been written to the DRAM. *)
(*| NVmain/MemControl/LO-Cache/LO-Cache.cpp 375-426 LO_Cache::RequestComplete *)
Definition write_done (q : ReqPtr) : ST st unit :=
  r ← load_req q;
  victim ← install_line (address r) (data r);
  _ ← parent_RequestComplete q;
  write_back_victim victim.

(** A read has fetched its line and tag from the DRAM. *)
(*| NVmain/MemControl/LO-Cache/LO-Cache.cpp 427-470 LO_Cache::RequestComplete *)
Definition read_done (q : ReqPtr) : ST st unit :=
  r ← load_req q;
  hit ← ask_bank (address r) (Present (address r));
  if (hit : bool) then
    _ ← parent_RequestComplete q; set_me (λ b, b <| drc_hits ::= λ x, x ⊕ 1 |>)
  else
    n ← now;
    r' ← lift (NVMainRequest_assign MC.fresh_request r);
    memReq ← new_req (r' <| owner := Some this |> <| tag := DRC_MEMREAD |> <| type := READ |> <| arrivalCycle := n |>);
    b ← me;
    lift (cassert (bool_decide (outstandingFills b !! q = None)));;
    set_me (λ b, b <| outstandingFills ::= λ x, match x !! memReq with Some _ => x | None => <[memReq := q]> x end |>);;
    send_main memReq;;
    set_me (λ b, b <| drc_miss ::= λ x, x ⊕ 1 |>).

(*| NVmain/MemControl/LO-Cache/LO-Cache.cpp 273-474 LO_Cache::RequestComplete *)
Definition RequestComplete (q : ReqPtr) : ST st bool :=
  r ← load_req q;
  if decide (type r = REFRESH) then MC.ProcessRefreshPulse this q;; mret false
  else if decide (owner r = Some this) then
    (if tag r =? DRC_FILL then fill_done q else if tag r =? DRC_MEMREAD then memread_done q else mret ());;
    delete_req q;; mret true
  else
    match type r with
    | WRITE | WRITE_PRECHARGE => write_done q;; mret false
    | READ | READ_PRECHARGE => read_done q;; mret false
    | _ => mret false
    end.

(** ** Scheduling *)

(*| NVmain/MemControl/LO-Cache/LO-Cache.cpp 478-504 LO_Cache::Cycle *)
Definition next_request : ST st (option ReqPtr) :=
  '(ok, q) ← MC.FindStarvedRequest MC.DummyPredicate 0;
  if (ok : bool) then set_me (λ b, b <| rb_miss ::= λ x, x ⊕ 1 |> <| starvation_precharges ::= λ x, x ⊕ 1 |>);; mret q else
  '(ok, q) ← MC.FindRowBufferHit MC.DummyPredicate 0;
  if (ok : bool) then set_me (λ b, b <| rb_hits ::= λ x, x ⊕ 1 |>);; mret q else
  '(ok, q) ← MC.FindOldestReadyRequest MC.DummyPredicate 0;
  if (ok : bool) then set_me (λ b, b <| rb_miss ::= λ x, x ⊕ 1 |>);; mret q else
  '(ok, q) ← MC.FindClosedBankRequest MC.DummyPredicate 0;
  if (ok : bool) then set_me (λ b, b <| rb_miss ::= λ x, x ⊕ 1 |>);; mret q else mret None.

(*| NVmain/MemControl/LO-Cache/LO-Cache.cpp 476-516 LO_Cache::Cycle *)
Definition Cycle (steps : Z) : ST st unit :=
  nextRequest ← next_request;
  (match nextRequest with Some q => _ ← MC.IssueMemoryCommands this q; mret () | None => mret () end);;
  MC.CycleCommandQueues this;;
  MC.Cycle this steps.

(** ** Configuration *)

(** A number of the configuration as an [ncounter_t]. *)
Definition config_count (key : string) : ST Config Z := v ← GetValue key; mret (u64 v).
Definition config_count_or (key : string) (old : Z) : ST Config Z := λ c,
  if KeyExists key c then config_count key c else Ok (old, c).

(** Lines of 64 bytes with tags of 8 fill a row. *)
(*| NVmain/MemControl/LO-Cache/LO-Cache.cpp 89-142 LO_Cache::SetConfig *)
Definition SetConfig (c : Config) (uninit : Z * Z * Z) (createChildren : bool) (channels : Z) (fresh : TranslationMethod)
    (dec : AddressTranslator) (bit0 : Z) : ST st Config :=
  b ← me;
  '(threshold, c) ← lift (config_count_or "StarvationThreshold" (drcStarvation b) c);
  '(size, c) ← lift (config_count_or "DRCQueueSize" (drcQueueSize b) c);
  '(perfect, c) ← lift (if KeyExists "PerfectFills" c then '(v, c) ← GetString "PerfectFills" c; Ok (String.eqb v "true", c)
                        else Ok (false, c));
  '(nranks, c) ← lift (config_count "RANKS" c);
  '(nbanks, c) ← lift (config_count "BANKS" c);
  '(rows, c) ← lift (config_count "ROWS" c);
  '(cols, c) ← lift (config_count "COLS" c);
  '(width, c) ← lift (config_count "BusWidth" c);
  '(rate, c) ← lift (config_count "RATE" c);
  '(burst, c) ← lift (config_count "tBURST" c);
  let word_size := (width ⊗ rate ⊗ burst) / 8 in
  let lines := (cols ⊗ word_size) / 72 in
  set_me (λ b, b <| drcStarvation := threshold |> <| drcQueueSize := size |>
    <| perfectFills := perfect || perfectFills b |> <| ranks := nranks |> <| banks := nbanks |>
    <| functionalCache := replicate (Z.to_nat nranks) (replicate (Z.to_nat nbanks) (CacheBank_new rows lines 1 64 bit0)) |>);;
  MC.SetConfig this c uninit createChildren channels fresh dec.
End Operations.
End LO.
