(* ===== verification/LOCacheRuns.v ===== *)
(** * What the latency optimised cache holds

    The banks of the cache are direct mapped: a set has one line. Seen from
    outside, a bank is a map from sets to addresses ([held]); a fill, and a write
    when it has reached the DRAM, put their address there, and nothing else
    changes it. *)

From S2P Require Import Prelude NVMTypes Translation Config Params SimInterface Heap EventQueue Frame Tree.
From S2P Require Import MemoryController ControllerFrame ControllerBench ControllerRuns.
From S2P Require Import CacheBank CacheLRU LOCache.
Import Cache LO.

(** ** A direct mapped bank *)

(** The set of an address; it depends on the shape of the bank only. *)
Definition same_shape (c c' : CacheBank) : Prop := decodeFunc c' = decodeFunc c ∧ numSets c' = numSets c.
Lemma same_shape_key c c' a : same_shape c c' → set_key a c' = set_key a c.
Proof. intros [E1 E2]. unfold set_key, SetID, DefaultDecoder. by rewrite E1, E2. Qed.

(** Every set has one line, which is clean, and a valid line is in the set of its
    address. *)
Definition line_ok (c : CacheBank) (k : Z * Z) (e : CacheEntry) : Prop :=
  dirty e = false ∧ (valid e = true → set_key (ce_address e) c = Ok k).
Definition bank_ok (c : CacheBank) : Prop := map_Forall (λ k l, ∃ e, l = [e] ∧ line_ok c k e) (cacheEntry c).

(** The address a set holds. *)
Definition line_addr (e : CacheEntry) : option Z := if valid e then Some (phys e) else None.
Definition held (c : CacheBank) (k : Z * Z) : option Z :=
  match cacheEntry c !! k with Some [e] => line_addr e | _ => None end.

Lemma flags_valid f : has_flag (set_flag f CACHE_ENTRY_VALID) CACHE_ENTRY_VALID = true.
Proof.
  unfold has_flag, set_flag, CACHE_ENTRY_VALID. apply negb_true_iff, Z.eqb_neq. rewrite Z.land_lor_distr_l.
  by intros [_ ?]%Z.lor_eq_0_iff.
Qed.
Lemma flags_dirty f : has_flag (set_flag f CACHE_ENTRY_VALID) CACHE_ENTRY_DIRTY = has_flag f CACHE_ENTRY_DIRTY.
Proof. unfold has_flag, set_flag, CACHE_ENTRY_VALID, CACHE_ENTRY_DIRTY. by rewrite Z.land_lor_distr_l, Z.lor_0_r. Qed.

Lemma held_line c k e : cacheEntry c !! k = Some [e] → held c k = line_addr e.
Proof. unfold held. by intros ->. Qed.
Lemma held_insert c c' k k' e : cacheEntry c' = <[k := [e]]> (cacheEntry c) →
  held c' k' = if decide (k' = k) then line_addr e else held c k'.
Proof. intros E. unfold held. rewrite E. case_decide as Hk; [by rewrite Hk, lookup_insert_eq|by rewrite lookup_insert_ne]. Qed.

(** What an operation does to a bank: its set holds [o] afterwards. *)
Definition set_becomes (k : Z * Z) (o : option Z) (c c' : CacheBank) : Prop :=
  same_shape c c' ∧ bank_ok c' ∧ ∀ k', held c' k' = if decide (k' = k) then o else held c k'.

Section Bank.
Context (c : CacheBank) (Hc : bank_ok c).

(** The set of an address, when an operation succeeded. *)
Lemma set_line a k l : set_key a c = Ok k → cacheEntry c !! k = Some l → ∃ e, l = [e] ∧ line_ok c k e.
Proof using Hc. intros _ El. by apply (Hc k l). Qed.

Lemma on_set_inv {A} a (f : list CacheEntry → res (A * list CacheEntry)) x c' : on_set a f c = Ok (x, c') →
  ∃ k e l', set_key a c = Ok k ∧ cacheEntry c !! k = Some [e] ∧ line_ok c k e ∧ f [e] = Ok (x, l') ∧
    c' = c <| cacheEntry ::= <[k := l']> |>.
Proof using Hc.
  unfold on_set. intros Hr. rnext Hr. rename v into k. rnext Hr. rename v into l. rnext Hr. destruct v as [v l'].
  injection Hr as <- <-. destruct (cacheEntry c !! k) as [l0|] eqn:El; [|done]. injection E0 as ->.
  destruct (set_line a k l E El) as (e & -> & He). by exists k, e, l'.
Qed.

Lemma set_becomes_line k e e' : cacheEntry c !! k = Some [e] → line_ok c k e' →
  set_becomes k (line_addr e') c (c <| cacheEntry ::= <[k := [e']]> |>).
Proof using Hc.
  intros El He. split; [done|]. split; [|intros k'; by apply held_insert].
  unfold bank_ok. fields. apply map_Forall_insert_2; [by exists e'|]. exact Hc.
Qed.

Lemma asked_set a k : set_key a c = Ok k → ∀ l, FindSet a c = Ok l → ∃ e, l = [e] ∧ cacheEntry c !! k = Some [e] ∧ line_ok c k e.
Proof using Hc.
  intros Ek l Hr. unfold FindSet in Hr. rewrite Ek in Hr. cbn in Hr. destruct (cacheEntry c !! k) as [l0|] eqn:El; [|done].
  injection Hr as ->. destruct (set_line a k l Ek El) as (e & -> & He). by exists e.
Qed.

(** The line of the set of an address that an operation looked at. *)
Lemma FindSet_inv a l : FindSet a c = Ok l → ∃ k e, set_key a c = Ok k ∧ l = [e] ∧ cacheEntry c !! k = Some [e] ∧ line_ok c k e.
Proof using Hc.
  intros Hr. pose proof Hr as Hr'. unfold FindSet in Hr'. rnext Hr'. rename v into k.
  destruct (asked_set a k E l Hr) as (e & -> & El & He). by exists k, e.
Qed.
Lemma SetFull_inv a b : SetFull a c = Ok b →
  ∃ k e, set_key a c = Ok k ∧ cacheEntry c !! k = Some [e] ∧ line_ok c k e ∧ b = valid e.
Proof using Hc.
  unfold SetFull. intros Hr. rnext Hr. injection Hr as <-. destruct (FindSet_inv a v E) as (k & e & Ek & -> & El & He).
  exists k, e. split_and!; [done..|]. cbn. by rewrite andb_true_r.
Qed.
Lemma Present_inv a b : Present a c = Ok b →
  ∃ k e, set_key a c = Ok k ∧ cacheEntry c !! k = Some [e] ∧ line_ok c k e ∧ b = holds_addr a e.
Proof using Hc.
  unfold Present. intros Hr. rnext Hr. injection Hr as <-. destruct (FindSet_inv a v E) as (k & e & Ek & -> & El & He).
  exists k, e. split_and!; [done..|]. cbn. by rewrite orb_false_r.
Qed.

Lemma holds_line_addr a e : holds_addr a e = bool_decide (line_addr e = Some (GetPhysicalAddress a)).
Proof using.
  unfold holds_addr, line_addr, phys. destruct (valid e); [|by rewrite andb_false_r, bool_decide_false].
  rewrite andb_true_r. destruct (Z.eqb_spec (GetPhysicalAddress (ce_address e)) (GetPhysicalAddress a)) as [->|Hn];
    [by rewrite bool_decide_true|]. rewrite bool_decide_false; [done|]. by intros [= ?].
Qed.
Lemma Present_held a b : Present a c = Ok b → ∃ k, set_key a c = Ok k ∧ b = bool_decide (held c k = Some (GetPhysicalAddress a)).
Proof using Hc.
  intros (k & e & Ek & El & _ & ->)%Present_inv. exists k. split; [done|]. by rewrite (held_line _ _ _ El), holds_line_addr.
Qed.

(** Installing into a set with a valid line does nothing; into another one it
    puts the address there. *)
Lemma Install_inv a d rv c' : Install a d c = Ok (rv, c') → ∃ k e, set_key a c = Ok k ∧ cacheEntry c !! k = Some [e] ∧
  if valid e then set_becomes k (held c k) c c' else set_becomes k (Some (GetPhysicalAddress a)) c c'.
Proof using Hc.
  unfold Install. intros (k & e & l' & Ek & El & [Hd Hk] & Hr & ->)%on_set_inv. exists k, e. split_and!; [done..|].
  cbn [install] in Hr. destruct (valid e) eqn:Hv.
  - cbn in Hr. injection Hr as <- <-. rewrite (held_line _ _ _ El). apply (set_becomes_line k e e); [done|].
    split; [done|]. intros _. by apply Hk.
  - rnext Hr. injection Hr as <- <-. set (e' := e <| ce_address ::= _ |> <| ce_data := _ |> <| ce_flags ::= _ |>).
    assert (valid e' = true) as Hv' by (unfold valid, e'; fields; apply flags_valid).
    assert (phys e' = GetPhysicalAddress a) as Hp by (unfold phys, e'; fields; by rewrite address_assign).
    rewrite <- Hp. replace (Some (phys e')) with (line_addr e') by (unfold line_addr; by rewrite Hv').
    apply (set_becomes_line k e); [done|]. split.
    + unfold dirty, e'. fields. rewrite flags_dirty. exact Hd.
    + intros _. unfold e'. fields. by rewrite address_assign.
Qed.

(** The victim is the line of the set; it is clean. *)
Lemma evict_lru_inv a rv victim d c' : evict_lru a c = Ok (rv, victim, d, c') →
  ∃ k e, set_key a c = Ok k ∧ cacheEntry c !! k = Some [e] ∧ rv = false ∧ set_becomes k None c c'.
Proof using Hc.
  unfold evict_lru. intros Hr. rnext Hr. destruct v as [dv v]. unfold ChooseVictim in E.
  apply res_bind_inv in E as (full & _ & E). apply res_bind_inv in E as (u1 & _ & E). apply res_bind_inv in E as (l & E2 & E).
  apply res_bind_inv in E as (e0 & E3 & E). apply res_bind_inv in E as (u2 & E4 & E).
  injection E as <- <-. destruct (FindSet_inv a l E2) as (k & e & Ek & -> & El & [Hd Hk]). injection E3 as <-.
  apply cassert_true in E4 as Hv. rewrite address_assign in Hr. apply res_bind_inv in Hr as ([[rv' d'] c1] & E & Hr).
  injection Hr as <- <- <- <-. unfold Evict in E. apply res_bind_inv in E as (p & _ & E). apply res_bind_inv in E as (u3 & _ & E).
  apply on_set_inv in E as (k' & e' & l' & Ek' & El' & _ & Hr & ->). rewrite (Hk Hv) in Ek'. injection Ek' as <-.
  rewrite El in El'. injection El' as <-. cbn [evict_set] in Hr. rewrite holds_line_addr in Hr. unfold line_addr in Hr.
  rewrite Hv, bool_decide_true in Hr by done. apply res_bind_inv in Hr as (d0 & _ & Hr). injection Hr as <- <- <-. exists k, e. split_and!; [done..|].
  set (e' := e <| ce_flags := CACHE_ENTRY_NONE |>). replace None with (line_addr e') by done.
  by apply (set_becomes_line k e e').
Qed.
End Bank.

(** ** The cache as a whole *)

(** A set of a bank of a rank; the place of an address. *)
Abbreviation place := (nat * nat * (Z * Z))%type.
Definition at_bank (b : LO_Cache) (i j : nat) : option CacheBank := l ← functionalCache b !! i; l !! j.
Definition banks_ok (b : LO_Cache) : Prop := ∀ i j c, at_bank b i j = Some c → bank_ok c.
Definition contents (b : LO_Cache) (p : place) : option Z :=
  let '(i, j, k) := p in match at_bank b i j with Some c => held c k | None => None end.
Definition place_of (b : LO_Cache) (a : NVMAddress) : option place :=
  match at_bank b (Z.to_nat (GetRank a)) (Z.to_nat (GetBank a)) with
  | Some c => match set_key a c with Ok k => Some (Z.to_nat (GetRank a), Z.to_nat (GetBank a), k) | Err _ => None end
  | None => None
  end.

(** What stays: the places, the option of perfect fills, and that nothing has been
    written back. *)
Record same_places (b b' : LO_Cache) : Prop := {
  sp_place : ∀ a, place_of b' a = place_of b a;
  sp_perfect : perfectFills b' = perfectFills b;
  sp_clean : drc_dirty_evicts b' = drc_dirty_evicts b
}.
#[local] Instance same_places_preorder : PreOrder same_places.
Proof. split; [by split|]. intros b1 b2 b3 [A1 A2 A3] [B1 B2 B3]. split; [intros a; by rewrite B1|congruence..]. Qed.

(** One place changes. *)
Record puts (p : place) (o : option Z) (b b' : LO_Cache) : Prop := {
  pu_same : same_places b b';
  pu_ok : banks_ok b';
  pu_contents : ∀ p', contents b' p' = if decide (p' = p) then o else contents b p'
}.

Lemma bank_at_inv i j b c : bank_at i j b = Ok c → at_bank b (Z.to_nat i) (Z.to_nat j) = Some c.
Proof.
  unfold bank_at, at_bank. intros Hr. rnext Hr. destruct (functionalCache b !! Z.to_nat i); [|done]. injection E as ->. cbn.
  destruct (v !! Z.to_nat j); [|done]. by injection Hr as ->.
Qed.
Lemma at_bank_set i j c c' b i' j' : at_bank b (Z.to_nat i) (Z.to_nat j) = Some c →
  at_bank (set_bank i j c' b) i' j' = if decide (i' = Z.to_nat i ∧ j' = Z.to_nat j) then Some c' else at_bank b i' j'.
Proof.
  unfold at_bank, set_bank. fields. intros Hc. destruct (functionalCache b !! Z.to_nat i) as [l|] eqn:El; [|done]. cbn in Hc.
  destruct (decide (i' = Z.to_nat i)) as [->|Hi].
  - rewrite list_lookup_alter_eq, El. cbn. destruct (decide (j' = Z.to_nat j)) as [->|Hj].
    + rewrite decide_True by done. apply list_lookup_insert_eq. by eapply lookup_lt_Some.
    + rewrite decide_False by tauto. by apply list_lookup_insert_ne.
  - rewrite list_lookup_alter_ne by done. by rewrite decide_False by tauto.
Qed.

Lemma puts_bank a c c' b k o : banks_ok b → at_bank b (Z.to_nat (GetRank a)) (Z.to_nat (GetBank a)) = Some c →
  set_becomes k o c c' → puts (Z.to_nat (GetRank a), Z.to_nat (GetBank a), k) o b (set_bank (GetRank a) (GetBank a) c' b).
Proof.
  intros Hb Ec (Hs & Hc' & Hh). split; [split; [|done..]| |].
  - intros x. unfold place_of. rewrite (at_bank_set _ _ c) by done. case_decide as Hd; [|done].
    destruct Hd as [-> ->]. rewrite Ec. by rewrite (same_shape_key c c').
  - intros i j x. rewrite (at_bank_set _ _ c) by done. case_decide; [by intros [= <-]|apply Hb].
  - intros [[i j] k']. unfold contents. rewrite (at_bank_set _ _ c) by done. destruct (decide (i = _ ∧ j = _)) as [[-> ->]|Hd].
    + rewrite Ec, Hh. by destruct (decide (k' = k)) as [->|Hk]; [rewrite decide_True by done|rewrite decide_False by congruence].
    + rewrite decide_False; [done|]. intros [= -> -> ->]. tauto.
Qed.

(** ** Operations on the banks *)

Section Banks.
Context {C : Type}.
Implicit Types (s : Sim (Node LO_Cache C)).
Abbreviation lo s := (node (obj s)).

Lemma ask_bank_inv {A} a (f : CacheBank → res A) s x s' : ask_bank a f s = Ok (x, s') →
  s' = s ∧ ∃ c, at_bank (lo s) (Z.to_nat (GetRank a)) (Z.to_nat (GetBank a)) = Some c ∧ f c = Ok x.
Proof.
  unfold ask_bank. intros Hr. next Hr. injection E as <- <-. next Hr. apply lift_inv in E as [E ->].
  apply lift_inv in Hr as [Hr ->]. apply bank_at_inv in E. by split; [|exists r].
Qed.
Lemma on_bank_inv {A} a (f : CacheBank → res (A * CacheBank)) s x s' : on_bank a f s = Ok (x, s') →
  ∃ c c', at_bank (lo s) (Z.to_nat (GetRank a)) (Z.to_nat (GetBank a)) = Some c ∧ f c = Ok (x, c') ∧
    lo s' = set_bank (GetRank a) (GetBank a) c' (lo s).
Proof.
  unfold on_bank. intros Hr. next Hr. injection E as <- <-. next Hr. apply lift_inv in E as [E ->]. next Hr. destruct r0 as [v c'].
  apply lift_inv in E0 as [E0 ->]. next Hr. injection E1 as _ <-. injection Hr as <- <-. apply bank_at_inv in E.
  by exists r, c'.
Qed.

Context (a : NVMAddress).
Abbreviation here := (GetPhysicalAddress a).

Lemma place_at b c k : at_bank b (Z.to_nat (GetRank a)) (Z.to_nat (GetBank a)) = Some c → set_key a c = Ok k →
  place_of b a = Some (Z.to_nat (GetRank a), Z.to_nat (GetBank a), k) ∧
  contents b (Z.to_nat (GetRank a), Z.to_nat (GetBank a), k) = held c k.
Proof. intros Ec Ek. unfold place_of, contents. rewrite Ec. cbn. by rewrite Ek. Qed.

Lemma ask_SetFull s x s' : banks_ok (lo s) → ask_bank a (SetFull a) s = Ok (x, s') →
  s' = s ∧ ∃ p, place_of (lo s) a = Some p ∧ x = bool_decide (is_Some (contents (lo s) p)).
Proof.
  intros Hb (-> & c & Ec & Hr)%ask_bank_inv. split; [done|].
  apply (SetFull_inv c (Hb _ _ _ Ec)) in Hr as (k & e & Ek & El & _ & ->). destruct (place_at _ c k Ec Ek) as [Hp Hc].
  eexists. split; [exact Hp|]. rewrite Hc, (held_line _ _ _ El). unfold line_addr.
  destruct (valid e); [by rewrite bool_decide_true by eauto|by rewrite bool_decide_false by apply is_Some_None].
Qed.
Lemma ask_Present s x s' : banks_ok (lo s) → ask_bank a (Present a) s = Ok (x, s') →
  s' = s ∧ ∃ p, place_of (lo s) a = Some p ∧ x = bool_decide (contents (lo s) p = Some here).
Proof.
  intros Hb (-> & c & Ec & Hr)%ask_bank_inv. split; [done|].
  apply (Present_held c (Hb _ _ _ Ec)) in Hr as (k & Ek & ->). destruct (place_at _ c k Ec Ek) as [Hp Hc].
  eexists. split; [exact Hp|]. by rewrite Hc.
Qed.
Lemma on_evict s rv v d s' : banks_ok (lo s) → on_bank a (evict_lru a) s = Ok ((rv, v, d), s') →
  rv = false ∧ ∃ p, place_of (lo s) a = Some p ∧ puts p None (lo s) (lo s').
Proof.
  intros Hb (c & c' & Ec & Hr & ->)%on_bank_inv.
  apply (evict_lru_inv c (Hb _ _ _ Ec)) in Hr as (k & e & Ek & _ & -> & Hs). split; [done|].
  destruct (place_at _ c k Ec Ek) as [Hp _]. eexists. split; [exact Hp|]. by eapply puts_bank.
Qed.
Lemma on_Install d s x s' : banks_ok (lo s) → on_bank a (Install a d) s = Ok (x, s') →
  ∃ p, place_of (lo s) a = Some p ∧
    puts p (match contents (lo s) p with Some y => Some y | None => Some here end) (lo s) (lo s').
Proof.
  intros Hb (c & c' & Ec & Hr & ->)%on_bank_inv.
  apply (Install_inv c (Hb _ _ _ Ec)) in Hr as (k & e & Ek & El & Hs). destruct (place_at _ c k Ec Ek) as [Hp Hc].
  eexists. split; [exact Hp|]. rewrite Hc, (held_line _ _ _ El) in *. unfold line_addr in *.
  destruct (valid e); by eapply puts_bank.
Qed.
End Banks.

(** ** Filling *)

(** The addresses of [l] are put into their places, one after the other. *)
Definition put_all (b : LO_Cache) (l : list NVMAddress) (h : place → option Z) : place → option Z :=
  foldl (λ h a p, if decide (place_of b a = Some p) then Some (GetPhysicalAddress a) else h p) h l.
Record filled (l : list NVMAddress) (b b' : LO_Cache) : Prop := {
  fi_same : same_places b b';
  fi_ok : banks_ok b';
  fi_contents : ∀ p, contents b' p = put_all b l (contents b) p
}.
Definition fills (l : list NVMAddress) (b b' : LO_Cache) : Prop := banks_ok b → filled l b b'.

Lemma put_all_ext b b' l : (∀ a, place_of b' a = place_of b a) →
  ∀ h h' : place → option Z, (∀ p, h' p = h p) → ∀ p, put_all b' l h' p = put_all b l h p.
Proof.
  intros Hb. induction l as [|a l IH]; intros h h' Hh p; cbn; [apply Hh|]. apply IH. intros p'. by rewrite Hb, Hh.
Qed.
Lemma fills_app l1 l2 b1 b2 b3 : fills l1 b1 b2 → fills l2 b2 b3 → fills (l1 ++ l2) b1 b3.
Proof.
  intros H1 H2 Hb. destruct (H1 Hb) as [S1 O1 C1]. destruct (H2 O1) as [S2 O2 C2]. split; [by etransitivity|done|].
  intros p. unfold put_all. rewrite foldl_app, C2. by apply put_all_ext; [apply S1|].
Qed.
Lemma fills_same b b' : functionalCache b' = functionalCache b → perfectFills b' = perfectFills b →
  drc_dirty_evicts b' = drc_dirty_evicts b → fills [] b b'.
Proof.
  intros Ef Ep Ed Hb. assert (∀ i j, at_bank b' i j = at_bank b i j) as Ea by (intros; unfold at_bank; by rewrite Ef).
  split; [split; [intros a; unfold place_of; by rewrite Ea|done..]|intros i j c; rewrite Ea; apply Hb|].
  intros [[i j] k]. unfold contents. by rewrite Ea.
Qed.
#[local] Instance fills_preorder : PreOrder (fills []).
Proof. split; [intros b; by apply fills_same|]. intros b1 b2 b3. apply (fills_app [] []). Qed.
Lemma puts_filled a b b' p : place_of b a = Some p → puts p (Some (GetPhysicalAddress a)) b b' → filled [a] b b'.
Proof.
  intros Hp [Hs Ho Hc]. split; [done..|]. intros p'. rewrite Hc. cbn. rewrite Hp.
  destruct (decide (p' = p)) as [->|Hn]; [by rewrite decide_True|by rewrite decide_False by congruence].
Qed.
Lemma puts_puts p o o' b1 b2 b3 : puts p o b1 b2 → puts p o' b2 b3 → puts p o' b1 b3.
Proof.
  intros [S1 O1 C1] [S2 O2 C2]. split; [by etransitivity|done|]. intros p'. rewrite C2, C1. by case_decide.
Qed.
Lemma puts_then p o b1 b2 b3 : puts p o b1 b2 → fills [] b2 b3 → puts p o b1 b3.
Proof. intros [S1 O1 C1] Hf. destruct (Hf O1) as [S2 O2 C2]. split; [by etransitivity|done|]. intros p'. etransitivity; [apply C2|apply C1]. Qed.

Section Operations.
Context {C : Type} `{ChildLaws C} `{!MemoryOps C}.
Variable this : ObjPtr.
Variable out : six.
Variable parent : ReqPtr → ST (Sim (Node LO_Cache C)) bool.
Variable main : MainMemory (Sim (Node LO_Cache C)).
Variable tagGen : string → Z.
Hypothesis parent_quiet : ∀ q, quiet (parent q).
Hypothesis IsIssuable_quiet : ∀ q, quiet (mm_IsIssuable main q).
Hypothesis IssueCommand_quiet : ∀ q, quiet (mm_IssueCommand main q).
Hypothesis Enqueue_quiet : ∀ q, quiet (mm_EnqueuePendingMemoryRequests main q).
Implicit Types (s : Sim (Node LO_Cache C)).
Abbreviation lo s := (node (obj s)).
Abbreviation stays := (on_node (B := LO_Cache) (C := C) (fills [])).

#[local] Instance stays_base : BaseRel stays.
Proof using. apply members_base; [apply _|]. intros f b. by apply fills_same. Qed.
#[local] Instance stays_send : SendRel stays.
Proof using. apply members_send; [apply _|]. intros f b. by apply fills_same. Qed.

(** Of the members of the cache, only others change. *)
Ltac stays_tac :=
  repeat first
    [ solve [eauto with pres nocore typeclass_instances]
    | lazymatch goal with |- pres ?R _ =>
        first
          [ apply (quiet_pres R); solve [quiet_tac | auto]
          | apply (pres_set_me (fills [])); intros ?; solve [repeat case_match; by apply fills_same]
          | apply (pres_bind R); [|intros ?] ] end
    | head_step ].
(** A first part that changes nothing that matters. *)
Ltac stay H := let H' := fresh "Hs" in
  lazymatch type of H with ?m ?s = Ok (_, ?s') =>
    assert (fills [] (lo s) (lo s')) as H' by
      (let P := fresh in assert (pres stays m) as P by stays_tac; exact (P _ _ _ H)) end.

Lemma install_at_once_fills a s u s' : install_at_once a s = Ok (u, s') → fills [a] (lo s) (lo s').
Proof using.
  unfold install_at_once. intros Hr Hb. next Hr. apply ask_SetFull in E as (-> & p & Hp & ->); [|done].
  next Hr. next Hr. injection Hr as _ <-. assert (puts p None (lo s) (lo x) ∨
    contents (lo s) p = None ∧ fills [] (lo s) (lo x)) as Hx.
  { revert E. case_bool_decide as Hf; intros E.
    - left. apply bind_inv in E as ([[rv v] d] & s1 & E1 & E). apply on_evict in E1 as (-> & p' & Hp' & Hx); [|done].
      rewrite Hp in Hp'. injection Hp' as <-. eapply puts_then; [exact Hx|]. apply bind_inv in E as (u1 & s2 & E2 & E). stay E2. injection E as _ <-. done.
    - right. injection E as _ <-. split; [|done]. by apply eq_None_not_Some. }
  assert (puts p None (lo s) (lo x)) as Hx'.
  { destruct Hx as [Hx|[Hn Hx]]; [done|]. destruct (Hx Hb) as [Hs Ho Hc]. split; [done..|]. intros p'. rewrite Hc. cbn.
    by destruct (decide (p' = p)) as [->|]. }
  pose proof Hx' as [Hs Ho Hc]. apply on_Install in E0 as (p' & Hp' & Hi); [|done]. rewrite (sp_place _ _ Hs), Hp in Hp'.
  injection Hp' as <-. rewrite Hc, decide_True in Hi by done. eapply puts_filled; [exact Hp|]. by eapply puts_puts.
Qed.

(** The victim of a line is never written back. *)
Lemma install_line_fills a d s v s' : banks_ok (lo s) → install_line a d s = Ok (v, s') → v = None ∧ filled [a] (lo s) (lo s').
Proof using.
  unfold install_line. intros Hb Hr. next Hr. apply ask_SetFull in E as (-> & p & Hp & ->); [|done]. next Hr. next Hr. next Hr.
  injection Hr as -> <-.
  assert (x = s ∧ r = bool_decide (is_Some (contents (lo s) p) ∧ contents (lo s) p ≠ Some (GetPhysicalAddress a))) as [-> ->].
  { revert E. case_bool_decide as Hf; intros E.
    - apply bind_inv in E as (b & s1 & E2 & E). apply ask_Present in E2 as (-> & p' & Hp' & ->); [|done]. injection E as <- <-. rewrite Hp in Hp'.
      injection Hp' as <-. split; [done|]. rewrite <- bool_decide_not. apply bool_decide_ext. tauto.
    - injection E as <- <-. split; [done|]. symmetry. apply bool_decide_false. tauto. }
  clear E. revert E0. case_bool_decide as Hf; intros E0.
  - apply bind_inv in E0 as ([[rv w] d'] & s1 & E2 & E0). apply on_evict in E2 as (-> & p' & Hp' & Hx); [|done]. rewrite Hp in Hp'. injection Hp' as <-.
    apply bind_inv in E0 as (u1 & s2 & E3 & E0). injection E0 as <- <-. split; [done|]. stay E3. pose proof (puts_then _ _ _ _ _ Hx Hs) as Hx'. pose proof Hx' as [Hs' Ho Hc].
    apply on_Install in E1 as (p' & Hp' & Hi); [|done]. rewrite (sp_place _ _ Hs'), Hp in Hp'. injection Hp' as <-.
    rewrite Hc, decide_True in Hi by done. eapply puts_filled; [exact Hp|]. by eapply puts_puts.
  - injection E0 as <- <-. split; [done|]. apply on_Install in E1 as (p' & Hp' & Hi); [|done]. rewrite Hp in Hp'. injection Hp' as <-.
    eapply puts_filled; [exact Hp|]. destruct (contents (lo s) p) as [y|] eqn:Ey; [|done].
    destruct (decide (y = GetPhysicalAddress a)) as [<-|Hn]; [done|]. exfalso. apply Hf. split; [by eexists|congruence].
Qed.

(** *** What each operation puts into the cache *)

Definition is_wr (r : NVMainRequest) : bool := match type r with WRITE | WRITE_PRECHARGE => true | _ => false end.
Definition at_request s q (f : NVMainRequest → bool) : list NVMAddress :=
  match h_reqs (heap s) !! q with Some r => if f r then [address r] else [] | None => [] end.
Definition issued s q : list NVMAddress := at_request s q (λ r, perfectFills (lo s) && is_wr r).
Definition atomic s q : list NVMAddress := at_request s q (λ r, negb (is_wr r)).
Definition completed s q : list NVMAddress := at_request s q (λ r,
  if decide (type r = REFRESH) then false
  else if decide (owner r = Some this) then (tag r =? DRC_FILL tagGen) || (tag r =? DRC_MEMREAD tagGen) && perfectFills (lo s)
  else is_wr r).

Lemma note_address_inv q s u s' : note_address q s = Ok (u, s') →
  heap s' = heap s ∧ perfectFills (lo s') = perfectFills (lo s) ∧ fills [] (lo s) (lo s').
Proof using.
  unfold note_address. intros Hr. load Hr. injection Hr as _ <-. fields.
  split; [done|]. split; [by case_match|]. case_match; by apply fills_same.
Qed.

Lemma IssueCommand_fills q s ok s' : IssueCommand this out q s = Ok (ok, s') → fills (issued s q) (lo s) (lo s').
Proof using H MemoryOps0.
  unfold IssueCommand. intros Hr. next Hr. apply note_address_inv in E as (Eh & Ep & Hn). load Hr. next Hr. injection E0 as <- <-.
  next Hr. injection Hr as _ <-. unfold issued, at_request. rewrite <- Eh, E, <- Ep. fold (is_wr r0) in E0.
  apply (fills_app [] _ _ (lo x)); [done|]. destruct (_ && _).
  - next E0. apply install_at_once_fills in E1. apply (fills_app [_] [] _ (lo x1)); [done|]. by stay E0.
  - by stay E0.
Qed.

Lemma present_fills a b p : place_of b a = Some p → contents b p = Some (GetPhysicalAddress a) → fills [a] b b.
Proof using.
  intros Hp Hc Hb. apply (puts_filled a b b p Hp). split; [done..|]. intros p'. by destruct (decide (p' = p)) as [->|].
Qed.
Lemma IssueAtomic_fills q s ok s' : IssueAtomic q s = Ok (ok, s') → fills (atomic s q) (lo s) (lo s').
Proof using H MemoryOps0.
  unfold IssueAtomic. intros Hr. next Hr. apply note_address_inv in E as (Eh & _ & Hn). load Hr. next Hr. next Hr.
  injection Hr as _ <-. unfold atomic, at_request. rewrite <- Eh, E. apply (fills_app [] _ _ (lo x)); [done|].
  destruct (is_wr r0) eqn:Ew; cbn [negb].
  - assert (r1 = true ∧ x0 = x) as [-> ->] by (unfold is_wr in Ew; destruct (type r0); try done; by injection E0 as <- <-).
    by stay E1.
  - assert (ask_bank (address r0) (Present (address r0)) x = Ok (r1, x0)) as Ea by (unfold is_wr in Ew; by destruct (type r0)).
    intros Hb. apply ask_Present in Ea as (-> & p & Hp & ->); [|done]. revert Hb. change (fills [address r0] (lo x) (lo x1)).
    revert E1. case_bool_decide as Hc; intros E1.
    + apply (fills_app [_] [] _ (lo x)); [by eapply present_fills|]. by stay E1.
    + next E1. apply install_at_once_fills in E2. apply (fills_app [_] [] _ (lo x0)); [done|]. by stay E1.
Qed.

Lemma stays_send_main q : pres stays (send_main main q).
Proof using IsIssuable_quiet IssueCommand_quiet Enqueue_quiet. unfold send_main. stays_tac. Qed.
#[local] Hint Resolve stays_send_main : pres.

Lemma assigned_address r r' : NVMainRequest_assign MC.fresh_request r = Ok r' → address r' = address r.
Proof using.
  unfold NVMainRequest_assign. intros Hr. rnext Hr. rnext Hr. injection Hr as <-. fields. apply address_assign.
Qed.

Lemma fill_done_fills q s u s' r : h_reqs (heap s) !! q = Some r → fill_done this main tagGen q s = Ok (u, s') →
  fills [address r] (lo s) (lo s').
Proof using All.
  unfold fill_done. intros Er Hr Hb. load Hr. rewrite Er in E. injection E as <-. next Hr. next Hr.
  apply install_line_fills in E as [-> Hf]; [|done]. cbn [write_back_victim] in Hr. injection Hr as _ <-. stay E0.
  apply (fills_app [address r] [] _ (lo x)); [|done..]. by intros _.
Qed.
Lemma write_done_fills q s u s' r : h_reqs (heap s) !! q = Some r → write_done this parent main tagGen q s = Ok (u, s') →
  fills [address r] (lo s) (lo s').
Proof using All.
  unfold write_done. intros Er Hr Hb. load Hr. rewrite Er in E. injection E as <-. next Hr. next Hr.
  apply install_line_fills in E as [-> Hf]; [|done]. cbn [write_back_victim] in Hr. injection Hr as _ <-. stay E0.
  apply (fills_app [address r] [] _ (lo x)); [|done..]. by intros _.
Qed.
Lemma memread_done_fills q s u s' r : h_reqs (heap s) !! q = Some r → memread_done this out parent tagGen q s = Ok (u, s') →
  fills (if perfectFills (lo s) then [address r] else []) (lo s) (lo s').
Proof using All.
  unfold memread_done. intros Er Hr. load Hr. rewrite Er in E. injection E as <-. rewrite bind_now in Hr. next Hr.
  apply lift_inv in E as [Ea%assigned_address ->]. next Hr. injection E as <- <-. next Hr. apply IssueCommand_fills in E.
  unfold issued, at_request in E. fields_in E. rewrite lookup_insert_eq in E. unfold is_wr in E. fields_in E.
  rewrite andb_true_r, Ea in E. rewrite <- (app_nil_r (if perfectFills (lo s) then [address r] else [])).
  apply (fills_app _ [] _ (lo x)); [exact E|]. by stay Hr.
Qed.
Lemma read_done_fills q s u s' : read_done this parent main tagGen q s = Ok (u, s') → fills [] (lo s) (lo s').
Proof using All.
  unfold read_done. intros Hr Hb. load Hr. next Hr. apply ask_Present in E0 as (-> & _); [|done]. revert Hb.
  change (fills [] (lo s) (lo s')). destruct r0; stay Hr; done.
Qed.

Lemma RequestComplete_fills q s ok s' : RequestComplete this out parent main tagGen q s = Ok (ok, s') →
  fills (completed s q) (lo s) (lo s').
Proof using All.
  unfold RequestComplete. intros Hr. load Hr. unfold completed, at_request. rewrite E. destruct (decide (type r = REFRESH)).
  { next Hr. injection Hr as _ <-. exact (rel_ProcessRefreshPulse stays _ _ _ _ _ E0). }
  destruct (decide (owner r = Some this)).
  - next Hr. lazymatch goal with |- fills ?l _ _ => rewrite <- (app_nil_r l) end. apply (fills_app _ [] _ (lo x)); [|by stay Hr].
    destruct (tag r =? DRC_FILL tagGen); [exact (fill_done_fills _ _ _ _ _ E E0)|]. destruct (tag r =? DRC_MEMREAD tagGen); cbn [orb andb].
    + exact (memread_done_fills _ _ _ _ _ E E0).
    + by stay E0.
  - unfold is_wr. destruct (type r); next Hr || idtac; injection Hr as _ <-;
      first [exact (write_done_fills _ _ _ _ _ E E0) | exact (read_done_fills _ _ _ _ E0) | done].
Qed.

Lemma Cycle_stays n s u s' : Cycle this n s = Ok (u, s') → fills [] (lo s) (lo s').
Proof using H0 MemoryOps0. unfold Cycle, next_request. intros Hr. by stay Hr. Qed.
Lemma Callback_stays m d s u s' : MC.Callback this m d s = Ok (u, s') → fills [] (lo s) (lo s').
Proof using H0 MemoryOps0. intros Hr. exact (rel_Callback stays _ _ _ _ _ _ Hr). Qed.

(** *** Runs

    What happens to the cache, with the addresses that are put into it. *)

Inductive lo_run : Sim (Node LO_Cache C) → list NVMAddress → Sim (Node LO_Cache C) → Prop :=
  | run_nil s : lo_run s [] s
  | run_command s q ok s1 l s' : IssueCommand this out q s = Ok (ok, s1) → lo_run s1 l s' → lo_run s (issued s q ++ l) s'
  | run_atomic s q ok s1 l s' : IssueAtomic q s = Ok (ok, s1) → lo_run s1 l s' → lo_run s (atomic s q ++ l) s'
  | run_complete s q ok s1 l s' : RequestComplete this out parent main tagGen q s = Ok (ok, s1) → lo_run s1 l s' →
      lo_run s (completed s q ++ l) s'
  | run_cycle s n s1 l s' : Cycle this n s = Ok ((), s1) → lo_run s1 l s' → lo_run s l s'
  | run_callback s m d s1 l s' : MC.Callback this m d s = Ok ((), s1) → lo_run s1 l s' → lo_run s l s'
  | run_elsewhere s s1 l s' : node (obj s1) = node (obj s) → lo_run s1 l s' → lo_run s l s'.

Lemma lo_run_fills s l s' : lo_run s l s' → fills l (lo s) (lo s').
Proof using All.
  induction 1 as [s|s q ok s1 l s' Hr _ IH|s q ok s1 l s' Hr _ IH|s q ok s1 l s' Hr _ IH|s n s1 l s' Hr _ IH|s m d s1 l s' Hr _ IH|
    s s1 l s' Hr _ IH].
  - by apply fills_same.
  - eapply fills_app; [|exact IH]. by eapply IssueCommand_fills.
  - eapply fills_app; [|exact IH]. by eapply IssueAtomic_fills.
  - eapply fills_app; [|exact IH]. by eapply RequestComplete_fills.
  - apply (fills_app [] l _ (lo s1)); [|exact IH]. by eapply Cycle_stays.
  - apply (fills_app [] l _ (lo s1)); [|exact IH]. by eapply Callback_stays.
  - by rewrite <- Hr.
Qed.
End Operations.

(** C34. The latency optimised cache is direct mapped: in any run, whatever is
    issued, completed and scheduled, a set holds the address that was put there
    last (by a fill, or by a write that has reached the DRAM); a read is a hit
    exactly when this is its own address. No victim is ever dirty, so nothing is
    written back to the main memory. *)
Theorem lo_direct_mapped {C} `{ChildLaws C} `{!MemoryOps C} this out parent main tagGen (s0 s : Sim (Node LO_Cache C)) l :
  (∀ q, quiet (parent q)) → (∀ q, quiet (mm_IsIssuable main q)) → (∀ q, quiet (mm_IssueCommand main q)) →
  (∀ q, quiet (mm_EnqueuePendingMemoryRequests main q)) → banks_ok (node (obj s0)) →
  lo_run this out parent main tagGen s0 l s →
  let held := put_all (node (obj s0)) l (contents (node (obj s0))) in
  (∀ p, contents (node (obj s)) p = held p) ∧
  (∀ a hit s', ask_bank a (Present a) s = Ok (hit, s') →
    ∃ p, place_of (node (obj s0)) a = Some p ∧ hit = bool_decide (held p = Some (GetPhysicalAddress a))) ∧
  drc_dirty_evicts (node (obj s)) = drc_dirty_evicts (node (obj s0)).
Proof.
  intros Hp H1 H2 H3 Hb Hr held. pose proof (lo_run_fills this out parent main tagGen Hp H1 H2 H3 _ _ _ Hr Hb) as [Hs Ho Hc]. split; [exact Hc|]. split; [|apply Hs].
  intros a hit s' (_ & p & Hpl & ->)%ask_Present; [|done]. exists p. rewrite <- (sp_place _ _ Hs), Hpl. split; [done|]. by rewrite Hc.
Qed.

(** ** Misses *)

Section Misses.
Context {C : Type} `{ChildLaws C} `{!MemoryOps C}.
Variable this : ObjPtr.
Variable out : six.
Variable parent : ReqPtr → ST (Sim (Node LO_Cache C)) bool.
Variable main : MainMemory (Sim (Node LO_Cache C)).
Variable tagGen : string → Z.
Hypothesis parent_quiet : ∀ q, quiet (parent q).
Hypothesis IsIssuable_quiet : ∀ q, quiet (mm_IsIssuable main q).
Hypothesis IssueCommand_quiet : ∀ q, quiet (mm_IssueCommand main q).
Hypothesis Enqueue_quiet : ∀ q, quiet (mm_EnqueuePendingMemoryRequests main q).
Implicit Types (s : Sim (Node LO_Cache C)).
Abbreviation lo s := (node (obj s)).

Definition same_fills (b b' : LO_Cache) : Prop := outstandingFills b' = outstandingFills b.
#[local] Instance same_fills_preorder : PreOrder same_fills.
Proof using. split; [done|]. intros b1 b2 b3 E1 E2. unfold same_fills in *. congruence. Qed.
Abbreviation waits := (on_node (B := LO_Cache) (C := C) same_fills).
#[local] Instance waits_base : BaseRel waits.
Proof using. apply members_base; [apply _|done]. Qed.

Ltac waits_tac :=
  repeat first
    [ solve [eauto with pres nocore typeclass_instances]
    | lazymatch goal with |- pres ?R _ =>
        first
          [ apply (quiet_pres R); solve [quiet_tac | auto]
          | apply (pres_set_me same_fills); intros ?; solve [repeat case_match; done]
          | apply (pres_bind R); [|intros ?] ] end
    | head_step ].

Lemma waits_install_at_once a : pres waits (install_at_once (C := C) a).
Proof using. unfold install_at_once, ask_bank, on_bank. waits_tac. Qed.
#[local] Hint Resolve waits_install_at_once : pres.
Lemma waits_IssueCommand q : pres waits (LO.IssueCommand this out q).
Proof using H MemoryOps0. unfold LO.IssueCommand, note_address. waits_tac. Qed.
Lemma waits_send_main q : pres waits (send_main main q).
Proof using IsIssuable_quiet IssueCommand_quiet Enqueue_quiet. unfold send_main. waits_tac. Qed.

(** What is asked of the main memory for a request that missed. *)
Definition asks_for (r m : NVMainRequest) : Prop :=
  address m = address r ∧ type m = READ ∧ owner m = Some this ∧ tag m = DRC_MEMREAD tagGen.

Lemma read_done_miss q s u s' r p :
  h_reqs (heap s) !! q = Some r → banks_ok (lo s) → place_of (lo s) (address r) = Some p →
  contents (lo s) p ≠ Some (GetPhysicalAddress (address r)) → outstandingFills (lo s) !! h_next (heap s) = None →
  read_done this parent main tagGen q s = Ok (u, s') →
  outstandingFills (lo s') = <[h_next (heap s) := q]> (outstandingFills (lo s)) ∧
  ∃ sa sb mr, send_main main (h_next (heap s)) sa = Ok ((), sb) ∧ heap s' = heap sb ∧ queue s' = queue sb ∧
    h_reqs (heap sa) !! h_next (heap s) = Some mr ∧ asks_for r mr.
Proof using All.
  intros Er Hb Hp Hn Ho Hr. unfold read_done in Hr. load Hr. rewrite Er in E. injection E as <-. next Hr.
  apply ask_Present in E as (-> & p' & Hp' & ->); [|done]. rewrite Hp in Hp'. injection Hp' as <-.
  rewrite bool_decide_false in Hr by done. rewrite bind_now in Hr. next Hr. apply lift_inv in E as [E ->].
  apply bind_inv in Hr as (m & s1 & Em & Hr). injection Em as <- <-. next Hr. injection E0 as <- <-. next Hr.
  apply lift_inv in E0 as [_ ->]. apply bind_inv in Hr as (u1 & sa & Ea & Hr). injection Ea as _ <-.
  apply bind_inv in Hr as ([] & sb & Eb & Hr). injection Hr as _ <-. fields. pose proof (waits_send_main _ _ _ _ Eb) as Hw.
  unfold on_node, same_fills in Hw. revert Eb Hw. fields. rewrite Ho. intros Eb Hw. split; [done|].
  eexists _, sb, _. split; [exact Eb|]. split; [done|]. split; [done|]. fields. rewrite lookup_insert_eq. split; [done|].
  unfold asks_for. fields. by rewrite (assigned_address _ _ E).
Qed.

Lemma memread_done_answers q s u s' r q0 :
  h_reqs (heap s) !! q = Some r → outstandingFills (lo s) !! q = Some q0 →
  memread_done this out parent tagGen q s = Ok (u, s') →
  outstandingFills (lo s') = delete q (outstandingFills (lo s)) ∧ ∃ sa b, parent q0 sa = Ok (b, s').
Proof using All.
  intros Er Eo Hr. unfold memread_done in Hr. load Hr. rewrite Er in E. injection E as <-. rewrite bind_now in Hr. next Hr.
  apply lift_inv in E as [_ ->]. apply bind_inv in Hr as (m & s1 & Em & Hr). injection Em as <- <-. next Hr.
  pose proof (waits_IssueCommand _ _ _ _ E) as Hw. unfold on_node, same_fills in Hw. revert Hw. fields. intros Hw.
  apply bind_inv in Hr as (b & s2 & Eb & Hr). injection Eb as <- <-. apply bind_inv in Hr as (q1 & s2 & E1 & Hr).
  apply lift_inv in E1 as [E1 ->]. rewrite Hw, Eo in E1. injection E1 as <-.
  apply bind_inv in Hr as (u1 & s3 & E3 & Hr). injection E3 as _ <-.
  apply bind_inv in Hr as (b & s4 & E4 & Hr). injection Hr as _ <-. rewrite (parent_quiet _ _ _ _ E4). fields. rewrite Hw.
  split; [done|]. by eexists _, b.
Qed.
End Misses.

(** C35. Every miss is answered once: a read that misses is asked of the main memory,
    by a request of the cache's own for the same address, and waits behind it;
    when that request comes back, the read that waits is answered, no longer
    waits, and the request is freed. *)
Theorem lo_miss_answered {C} `{ChildLaws C} `{!MemoryOps C} this out parent main tagGen (s s1 : Sim (Node LO_Cache C)) q r p ok :
  (∀ q, quiet (parent q)) → (∀ q, quiet (mm_IsIssuable main q)) → (∀ q, quiet (mm_IssueCommand main q)) →
  (∀ q, quiet (mm_EnqueuePendingMemoryRequests main q)) → tagGen "DRC_FILL" ≠ tagGen "DRC_MEMREAD" →
  h_reqs (heap s) !! q = Some r → (type r = READ ∨ type r = READ_PRECHARGE) → owner r ≠ Some this →
  banks_ok (node (obj s)) → place_of (node (obj s)) (address r) = Some p →
  contents (node (obj s)) p ≠ Some (GetPhysicalAddress (address r)) →
  outstandingFills (node (obj s)) !! h_next (heap s) = None →
  RequestComplete this out parent main tagGen q s = Ok (ok, s1) →
  let m := h_next (heap s) in
  (outstandingFills (node (obj s1)) = <[m := q]> (outstandingFills (node (obj s))) ∧
    ∃ sa sb mr, send_main main m sa = Ok ((), sb) ∧ heap s1 = heap sb ∧ queue s1 = queue sb ∧
      h_reqs (heap sa) !! m = Some mr ∧ asks_for this tagGen r mr) ∧
  ∀ s2 mr ok2 s3, outstandingFills (node (obj s2)) !! m = Some q → h_reqs (heap s2) !! m = Some mr → asks_for this tagGen r mr →
    RequestComplete this out parent main tagGen m s2 = Ok (ok2, s3) →
    outstandingFills (node (obj s3)) = delete m (outstandingFills (node (obj s2))) ∧
    ∃ sa b sb, parent q sa = Ok (b, sb) ∧ delete_req m sb = Ok ((), s3).
Proof.
  intros Hp H1 H2 H3 Ht Er Hty How Hb Hpl Hn Ho Hr m. split.
  - unfold RequestComplete in Hr. load Hr. rewrite Er in E. injection E as <-. rewrite decide_False in Hr by (by destruct Hty as [-> | ->]).
    rewrite decide_False in Hr by done. assert (∃ u, read_done this parent main tagGen q s = Ok (u, s1)) as [u Hrd].
    { destruct Hty as [Et|Et]; rewrite Et in Hr; next Hr; injection Hr as _ <-; by eexists. }
    exact (read_done_miss this out parent main tagGen Hp H1 H2 H3 _ _ _ _ _ _ Er Hb Hpl Hn Ho Hrd).
  - intros s2 mr ok2 s3 Eo Em (Ea & Ety & Eow & Etg) Hr2. unfold RequestComplete in Hr2. load Hr2. rewrite Em in E. injection E as <-.
    rewrite decide_False in Hr2 by congruence. rewrite decide_True in Hr2 by done. rewrite Etg in Hr2. unfold DRC_FILL, DRC_MEMREAD in Hr2.
    rewrite (proj2 (Z.eqb_neq _ _)), Z.eqb_refl in Hr2 by congruence. next Hr2.
    destruct (memread_done_answers this out parent main tagGen Hp H1 H2 H3 _ _ _ _ _ _ Em Eo E) as (Ed & sa & b & Epar).
    apply bind_inv in Hr2 as ([] & s4 & E4 & Hr2). injection Hr2 as _ <-.
    split; [by rewrite (quiet_delete_req _ _ _ _ E4)|]. by exists sa, b, x.
Qed.

(** ** The cache as a policy

    The cache sends its commands through the queues of the base class only, so it
    is one of the policies of [ControllerRuns]: one command per cycle, and the
    timing of a channel below it, are proved for it with the others. *)

Section Policy.
Variable main : ∀ C, ChildOps C → MemoryOps C → MainMemory (Sim (Node LO_Cache C)).
Variable out : six.
Variable tagGen : string → Z.
(** The main memory changes neither the cache nor the time. *)
Hypothesis main_quiet : ∀ C HC HM q, quiet (mm_IsIssuable (main C HC HM) q) ∧ quiet (mm_IssueCommand (main C HC HM) q) ∧
  quiet (mm_EnqueuePendingMemoryRequests (main C HC HM) q).
Hypothesis main_timeless : ∀ C HC HM q, timeless (mm_IsIssuable (main C HC HM) q) ∧
  timeless (mm_IssueCommand (main C HC HM) q) ∧ timeless (mm_EnqueuePendingMemoryRequests (main C HC HM) q).

Definition LO_policy : Policy LO_Cache := {|
  po_IssueCommand C _ _ := LO.IssueCommand;
  po_RequestComplete C HC HM this parent := LO.RequestComplete this out parent (main C HC HM) tagGen;
  po_Cycle C _ _ := LO.Cycle |}.

Section Keeping.
Context {C : Type} `{HC : ChildOps C} `{HM : MemoryOps C} (R : Sim (Node LO_Cache C) → Sim (Node LO_Cache C) → Prop) `{!ControllerRel R}.
Variable this : ObjPtr.
Variable parent : ReqPtr → ST (Sim (Node LO_Cache C)) bool.
Hypothesis parent_quiet : ∀ q, quiet (parent q).
Hypothesis parent_timeless : ∀ q, timeless (parent q).

Lemma lo_ask_bank {A} a (f : CacheBank → res A) : pres R (ask_bank a f).
Proof using ControllerRel0. unfold ask_bank. rel_tac. Qed.
Lemma lo_on_bank {A} a (f : CacheBank → res (A * CacheBank)) : pres R (LO.on_bank a f).
Proof using ControllerRel0. unfold LO.on_bank. rel_tac. Qed.
#[local] Hint Resolve lo_ask_bank lo_on_bank : pres.
Lemma lo_install_at_once a : pres R (install_at_once a).
Proof using ControllerRel0. unfold install_at_once. rel_tac. Qed.
#[local] Hint Resolve lo_install_at_once : pres.
Lemma lo_install_line a d : pres R (install_line a d).
Proof using ControllerRel0. unfold install_line. rel_tac. Qed.
Lemma lo_IssueCommand o q : pres R (LO.IssueCommand this o q).
Proof using ControllerRel0. unfold LO.IssueCommand, note_address. rel_tac. Qed.
Lemma lo_parent q : pres R (parent q).
Proof using All. by apply (rel_quiet R). Qed.
Lemma lo_send_main q : pres R (send_main (main C HC HM) q).
Proof using All.
  destruct (main_quiet C HC HM q) as (Q1 & Q2 & Q3), (main_timeless C HC HM q) as (T1 & T2 & T3).
  pose proof (rel_quiet R _ Q1 T1). pose proof (rel_quiet R _ Q2 T2). pose proof (rel_quiet R _ Q3 T3).
  unfold send_main. rel_tac.
Qed.
#[local] Hint Resolve lo_install_line lo_IssueCommand lo_parent lo_send_main rel_ProcessRefreshPulse : pres.
Lemma lo_write_back v : pres R (write_back_victim this (main C HC HM) tagGen v).
Proof using All. unfold write_back_victim, write_back. rel_tac. Qed.
#[local] Hint Resolve lo_write_back : pres.
Lemma lo_RequestComplete q : pres R (LO.RequestComplete this out parent (main C HC HM) tagGen q).
Proof using All. unfold LO.RequestComplete, fill_done, memread_done, write_done, read_done. rel_tac. Qed.
End Keeping.

Lemma LO_policy_laws : PolicyLaws (H0 := LO_policy) LO_Cache.
Proof using All.
  split; intros; cbn.
  - by apply lo_IssueCommand.
  - by apply lo_RequestComplete.
  - assert (BaseRel R) by apply _. unfold LO.Cycle, LO.next_request. rel_tac.
Qed.
End Policy.

(** ** Witnesses

    Two ranks of four banks with rows of one line, in front of a main memory that
    takes everything. *)

(** New banks are empty. *)
Lemma bank_ok_new rows lines bit0 : bank_ok (CacheBank_new rows lines 1 64 bit0).
Proof.
  intros k l Hk. apply elem_of_list_to_map_2, list_elem_of_fmap in Hk as (k' & [= -> ->] & _).
  exists (CacheEntry_new bit0). by split; [|split].
Qed.
Lemma banks_ok_new (b : LO_Cache) n m rows lines bit0 :
  functionalCache b = replicate n (replicate m (CacheBank_new rows lines 1 64 bit0)) → banks_ok b.
Proof.
  intros E i j c Hc. unfold at_bank in Hc. rewrite E in Hc. destruct (replicate n _ !! i) as [l|] eqn:El; [|done].
  apply lookup_replicate in El as [-> _]. cbn in Hc. apply lookup_replicate in Hc as [-> _]. apply bank_ok_new.
Qed.

Module LOBench.
Import ControllerBench.
Definition main0 : MainMemory (Sim (Node LO_Cache Ready)) :=
  mkMainMemory (λ _, mret true) (λ _, mret true) (λ _, mret ()).
Definition parent0 : ReqPtr → ST (Sim (Node LO_Cache Ready)) bool := λ _, mret true.
Definition tags0 : string → Z := λ name,
  if String.eqb name "DRC_MEMREAD" then 1001 else if String.eqb name "DRC_FILL" then 1002 else 1003.
Definition cache0 : LO_Cache :=
  (LO_Cache_new (base0 p0) (0, 0)) <| mainMemory := Some 9%positive |>
    <| functionalCache := replicate 2 (replicate 4 (CacheBank_new 16 1 1 64 0)) |>.
Definition start0 : Sim (Node LO_Cache Ready) :=
  mkSim (mkHeap tree reqs ∅ 30 None) (EventQueue_new dzero) (mkNode cache0 [ready]).
Definition issue0 : ReqPtr → ST (Sim (Node LO_Cache Ready)) bool := LO.IssueCommand 5 out0.
Definition complete0 : ReqPtr → ST (Sim (Node LO_Cache Ready)) bool := LO.RequestComplete 5 out0 parent0 main0 tags0.
(** A write arrives and completes; a read of another row of the bank as well. *)
Definition s1 := after (issue0 11%positive) start0.
Definition s2 := after (complete0 11%positive) s1.
Definition s3 := after (issue0 10%positive) s2.
Definition s4 := after (complete0 10%positive) s3.
(** The main memory answers, and the line is filled in. *)
Definition s5 := after (complete0 (h_next (heap s3))) s4.
Definition filled_in : list NVMAddress :=
  issued start0 11 ++ completed 5 tags0 s1 11 ++ issued s2 10 ++ completed 5 tags0 s3 10 ++
    completed 5 tags0 s4 (h_next (heap s3)) ++ [].
(** The read as it waits in the queue. *)
Definition reading : NVMainRequest := match h_reqs (heap s3) !! 10%positive with Some r => r | None => MC.fresh_request end.
End LOBench.

Lemma lo_direct_mapped_witness :
  contents (node (obj LOBench.s5)) (0%nat, 1%nat, (9, 0)) = Some (ControllerBench.physical 9 1 0) ∧
  drc_dirty_evicts (node (obj LOBench.s5)) = 0.
Proof.
  destruct (lo_direct_mapped (C := Ready) 5 ControllerBench.out0 LOBench.parent0 LOBench.main0 LOBench.tags0
    LOBench.start0 LOBench.s5 LOBench.filled_in) as (Hc & _ & Hd).
  1, 2, 3, 4: intros q; apply quiet_ret.
  - by eapply (banks_ok_new _ 2 4 16 1 0).
  - unfold LOBench.filled_in.
    apply (run_command _ _ _ _ _ _ 11 true LOBench.s1); [vm_compute; reflexivity|].
    apply (run_complete _ _ _ _ _ _ 11 false LOBench.s2); [vm_compute; reflexivity|].
    apply (run_command _ _ _ _ _ _ 10 true LOBench.s3); [vm_compute; reflexivity|].
    apply (run_complete _ _ _ _ _ _ 10 false LOBench.s4); [vm_compute; reflexivity|].
    apply (run_complete _ _ _ _ _ _ _ true LOBench.s5); [vm_compute; reflexivity|]. apply run_nil.
  - rewrite Hc, Hd. split; vm_compute; reflexivity.
Defined.

Lemma lo_miss_answered_witness :
  outstandingFills (node (obj LOBench.s4)) = {[ h_next (heap LOBench.s3) := 10%positive ]} ∧
  outstandingFills (node (obj LOBench.s5)) = ∅.
Proof.
  destruct (lo_miss_answered (C := Ready) 5 ControllerBench.out0 LOBench.parent0 LOBench.main0 LOBench.tags0
    LOBench.s3 LOBench.s4 10 LOBench.reading (0%nat, 1%nat, (7, 0)) false) as [[Ho _] Ha].
  1, 2, 3, 4: intros q; apply quiet_ret.
  - done.
  - vm_compute. reflexivity.
  - left. vm_compute. reflexivity.
  - vm_compute. discriminate.
  - refine (fi_ok _ _ _ (lo_run_fills 5 ControllerBench.out0 LOBench.parent0 LOBench.main0 LOBench.tags0 (λ _, quiet_ret _)
      (λ _, quiet_ret _) (λ _, quiet_ret _) (λ _, quiet_ret _) LOBench.start0 _ LOBench.s3 _ _));
      [|by eapply (banks_ok_new _ 2 4 16 1 0)].
    apply (run_command _ _ _ _ _ _ 11 true LOBench.s1); [vm_compute; reflexivity|].
    apply (run_complete _ _ _ _ _ _ 11 false LOBench.s2); [vm_compute; reflexivity|].
    apply (run_command _ _ _ _ _ _ 10 true LOBench.s3); [vm_compute; reflexivity|]. apply run_nil.
  - vm_compute. reflexivity.
  - vm_compute. discriminate.
  - vm_compute. reflexivity.
  - vm_compute. reflexivity.
  - split; [rewrite Ho; vm_compute; reflexivity|].
    destruct (Ha LOBench.s4 (match h_reqs (heap LOBench.s4) !! h_next (heap LOBench.s3) with Some r => r | None => MC.fresh_request end)
      true LOBench.s5) as [-> _]; vm_compute; (reflexivity || by split_and!).
Defined.

(** A write to a line that the cache holds does not reach the cached data: the
    set is full, the line is present, and nothing is installed. *)
Example write_hit_keeps_data : ∃ c0 c1 c2,
  Install (LOBench.reading.(address)) (blk [1; 2]) (CacheBank_new 16 1 1 64 0) = Ok (true, c0) ∧ c1 = c0 ∧
  SetFull (LOBench.reading.(address)) c1 = Ok true ∧ Present (LOBench.reading.(address)) c1 = Ok true ∧
  Install (LOBench.reading.(address)) (blk [3; 4]) c1 = Ok (false, c2) ∧ c2 = c0.
Proof. do 3 eexists. split; [vm_compute; reflexivity|]. split; [reflexivity|]. by vm_compute. Qed.
